(* ===== verification/_CoqProject ===== *)
-Q . S2P
Prelude.v
Text.v
TextFacts.v
Cursor.v
Uuid.v
Wire.v
WireFacts.v
YSync.v
Float.v
Json.v
JsonInstance.v
Blocks.v
DerivedBody.v
Awareness.v
AwarenessFacts.v
AwarenessTheorems.v
EngineLimits.v
Frame.v
Admission.v
Zip.v
ZipFacts.v
ZipTheorems.v
Backup.v
BackupTheorems.v
NativeHistory.v
NativeHistoryTheorems.v
StreamHub.v
RateLimit.v
RateLimitTheorems.v
Chrono.v
ChronoInstance.v
Ics.v
IcsTheorems.v
Net.v
Outbound.v
Unfurl.v
OutboundTheorems.v
Dependency.v
GanttScale.v
GanttLayout.v
GanttPrepare.v
GanttScaleFacts.v
Downloads.v
GanttScaleTheorems.v
GanttOrder.v
GanttPack.v
GanttTheorems.v
Chunk.v
ListQuery.v
Policies.v
Share.v
ShareTheorems.v
ListQueryTheorems.v
Collections.v
CollectionsTheorems.v
Hub.v
HubStep.v
HubFacts.v
HubEffect.v
HubInvariant.v
HubAccount.v
HubTheorems.v
HubLife.v
HubLive.v
HubSockets.v
RoomTypes.v
Room.v
RoomSync.v
RoomLoop.v
Transport.v
TransportTheorems.v
RoomFacts.v
RoomEffects.v
RoomHandlers.v
RoomWrites.v
RoomUpdates.v
RoomTurns.v
RoomInvariant.v
RoomTidy.v
RoomTheorems.v
