(* ===== verification/Prelude.v ===== *)
(** * FVOCI server: verification library

    FVOCI is a collaborative document and task server written in Rust.  This
    library models the parts of it whose behaviour is decided by their own
    code and proves what makes them correct.  The rest of the server is SQL,
    HTTP glue and calls into third-party crates.

    ** The parts of the program and the files that model them

    Collaboration ([src/src/collab/]).  A browser speaks a Hocuspocus-style
    protocol over a WebSocket.  Each frame is decoded by [wire.rs]; its sync
    payload is split by [y_sync.rs]; presence goes through [awareness.rs],
    which decodes the frame, keeps only an allowlist of the JSON state, and
    updates a registry with one record per client.  A room is opened only when
    the memory ledger of [admission.rs] has space for it.
      - [Cursor]: the lib0 reader and the variable-length integers shared by
        the codecs ([Cursor::read_var_uint], [write_var_uint], ...).
      - [Wire], [WireFacts]: every type and function of
        [wire.rs], room names included.  [decode_with_limits] and
        [encode_with_limits] are functions of a [Limits] record, in a state
        and error monad over the cursor or the output buffer.
      - [YSync]: [parse_sync_payload], [encode_sync_payload].
      - [Awareness], [AwarenessFacts],
        [AwarenessTheorems]: codec, sanitizer and [AwarenessRegistry].  The
        registry is a record of a finite map and two counters; every method is
        a function on it, and [registry_step] runs them in any order.
      - [Admission]: [MemoryLedger]; the atomic section under its mutex is one
        step of [ledger_step].
      - [Hub], [HubStep]: the room table of [hub.rs] and every task that
        changes it (joins, evictions, cleanups, retirement, shutdown), as an
        interleaving of steps between the points where the code awaits.
        [HubFacts] to [HubLife], [HubLive] hold the invariants
        and theorems, [HubLive] the runs too, [HubSockets] the socket permits.
      - [RoomTypes], [Room], [RoomSync], [RoomLoop]: the actor of an open room
        ([room.rs], with [guard.rs] and [engine_bridge.rs]).  Every handler is
        a program in a state monad over the [RoomActor] record; the database,
        the engine child and the clock answer questions ([Query]) arbitrarily,
        and at every question the transports may take, send, close or fill the
        queues of the connections.  The history of a room is the list of
        questions, answers and queued frames.  [RoomFacts] and [RoomEffects]
        define the effects an operation is made of, [RoomHandlers] to
        [RoomTurns] show that every turn is a sequence of them,
        [RoomInvariant], [RoomTidy] and [RoomTheorems] prove what follows;
        the last runs a room.
      - [Transport], [TransportTheorems]: the upgrade request, authentication
        and the socket loop of [transport.rs], with [origin.rs].  One function
        per branch of the select; the database, the hub, the clock and the peer
        are an environment that answers arbitrarily, and the trace of a socket
        lists what it sent, asked and forwarded.
      - [DerivedBody]: what [derived_body.rs] reads out of a stored body
        (text, attachments, mentions and internal references), over the
        Tiptap accessors of [Blocks].

    Documents.  [Blocks] is the block editor of [documents/blocks.rs] and the
    access to Tiptap nodes that the bodies and the renderer share.  [Share],
    [ShareTheorems] are the HTML renderer of public pages in
    [share_render.rs] with its link check.

    The collaboration engine ([src/crates/collab-engine/]) runs in a child
    process.  [EngineLimits] models the limits and their validation
    ([limits.rs]); [Frame] the length-prefixed frames on its pipes
    ([frame.rs]), over a reader that may be cut short.

    Server-wide limits.  [StreamHub] is the counter of event streams
    ([streams/hub.rs]): each atomic operation is a step of its own, so the
    theorems hold for every interleaving of requests.  [RateLimit],
    [RateLimitTheorems] are the sliding-window limiter of
    [http/rate_limit.rs]; the iteration order of its hash map is the argument
    [HashOrder], and the theorems hold for every order.

    Tasks.  [Dependency] is [tasks/dependency.rs] (working days and the
    dependency inequality).  [GanttScale], [GanttScaleFacts],
    [GanttScaleTheorems] are the calendar, month and time scale of [gantt/];
    [GanttLayout] is its scheduling, lane packing, dependency order and link
    routing, [GanttPrepare] the response; [GanttOrder], [GanttPack] and
    [GanttTheorems] hold their theorems.  [ListQuery], [ListQueryTheorems]
    are the strict query parser, the canonical printer, the
    cursor and the filter fingerprint of [tasks/list_query.rs]; [Collections],
    [CollectionsTheorems] the request contracts of [collections.rs].

    Search.  [Chunk] is [search/chunk.rs], which cuts documents into
    overlapping chunks of UTF-16 units.

    Files and feeds.  [Zip], [ZipFacts], [ZipTheorems] are the
    streaming archive writer [export_zip.rs] and the archive reader
    [documents/import_zip.rs]; [Ics], [IcsTheorems] the calendar feed of
    [ics.rs] with its time-zone file reader.  In both, slicing, indexing and
    arithmetic that can panic return an explicit panic.  [Downloads] has the
    Range parser, the download header and the type sniffer of [attachments/].

    Moving and restoring.  [NativeHistory], [NativeHistoryTheorems] are
    [native_history.rs]: the digests of a captured target, the shape of its
    retained history, the closure policy and the replay of every revision in
    child processes, which answer arbitrarily.  [Backup], [BackupTheorems] are
    [backup_manifest.rs] with the key ring parser of [auth/password.rs]: the
    manifest [create] writes and the [preflight] before a restore.

    [Policies] has a Module each for API token scopes, the stopwatch, display
    identifiers, estimates and the parameters of a layout request.

    Outgoing requests.  [Net] has URLs, addresses and the network as an
    adversary; [Outbound] is the request guard of [integrations/outbound.rs]
    (URL checks, address filter, pinned resolution, capped reads), [Unfurl]
    the link previews of [integrations/unfurl.rs], [OutboundTheorems] their
    theorems.

    Foundations.  This file has the [result] and state monads, machine
    integers, ordered-map iteration, stable sorting, the shared tactics and
    the hint database [fvoci].  [Text] has what the code uses of Rust's [str]:
    UTF-8 and UTF-16, [split], [trim], integer parsing.  [Float] is [f64] as
    the Standard Library's binary64 formalisation.

    ** Third-party code

    The crates are classes of operations with a second class of laws that
    state documented behaviour: [UuidLib]/[UuidLaws] (uuid),
    [SerdeJson]/[SerdeJsonLaws] and [JsonNumber]/[JsonNumberLaws]
    (serde_json), [Chrono]/[ChronoLaws] and [Instants]/[InstantLaws] (chrono),
    [Encodings]/[EncodingLaws] (base64, sha2), [RegexDigits] (regex),
    [RoomLib] (base64, SHA-256 and the projection of document bodies), and the
    parameters of [Zip], [Ics], [Net] and [Unfurl] (CRC-32 and DEFLATE, zone
    files and hashes, the URL parser, the HTML tokenizer and the network).
    [Shortcodes] is the pinned emoji table, [Nfc] Unicode normalisation,
    [UrlOrigin] the origin of a URL, [infer_get] the sniffing crate,
    [BackupLib]/[BackupLaws] the hashes, dates and printer of a backup.  The
    components are proved against the classes.  [Uuid], [JsonInstance],
    [ChronoInstance] and [ListQueryTheorems] hold concrete instances that
    satisfy the laws; the witnesses run the theorems on them.

    ** What the theorems show

      - Codecs: encoding and decoding are inverse within the limits, encoding
        succeeds exactly within the limits, accepted frames are well formed
        and re-encode to no more bytes; the two sync decoders agree; room keys
        and parsed names are inverse; frame streams on the engine's pipes come
        back frame by frame.
      - Presence: the sanitizer keeps exactly the allowlist and is idempotent;
        every reachable registry is bounded and well formed; one connection
        cannot touch another client's record; what is broadcast is what is
        stored, and only later clocks are accepted; stale connections cannot
        remove newer presence; snapshots are complete.  A removal at the
        largest clock cannot be decoded by peers.
      - Rooms in the table: at most one actor writes a room at any time; the
        life of a slot refines an abstract state machine; permits and slots
        are accounted for; a leased room is kept, waiters are woken, and
        shutdown drains the table.
      - Inside a room: an update is visible only after the database has
        acknowledged it; a positive status is only sent for an update that is
        durable; every append was granted and admitted in the same command and
        extends the log the room has loaded; a lost fence is final; client
        identifiers belong to one user; outbound queues stay within their
        budgets under every interleaving; presence notices are never left over.
      - At the socket: whatever the surroundings answer, a socket joins one
        admitted room at most, forwards and delivers only with a grant, queues
        boundedly before authentication, and has left its room when it ends.
      - Documents: a block edit replaces the first matching node and nothing
        else; the attachments of a body are exactly those of its nodes, and an
        accepted body is walked to its end; one form of mention hides later
        references; a rendered page consists of allowed, nested elements,
        escaped text and harmless links.
      - Histories and backups: equal digests are equal contents unless the
        hash collides; exactly the gapless, receipted histories are accepted;
        exactly the certain references inside the closure pass; a written
        backup passes its preflight, key rings pass exactly when they cover
        the backed-up one, and unpacking stays in the storage directories.
      - Scopes, timers, identifiers: delegated scopes do not escalate; accepted
        timer operations are a regular language; identifiers read back.
      - Files, feeds and requests: what the archive writer writes the reader
        reads back; the reader stays within its limits on any bytes; feed
        lines fold and unfold, and no text adds one; the zone reader is total;
        webhooks and previews only connect to checked public addresses; a
        Range header selects bytes of the file exactly by its grammar.
      - Limits: validation accepts exactly the documented ranges; the ledger's
        outstanding bytes are the sum of the live reservations; no
        interleaving exceeds the stream capacity, and none starts a stream
        after shutdown; the limiter allows a request exactly when fewer than
        the limit fall in the window, its table stays bounded with exact
        namespace counts, and other keys keep their counters.
      - Tasks: working-day arithmetic up to its guard; ticks tile the scale;
        the dependency order is a permutation and topological without cycles;
        packing places every task once within the lanes, spaced, and below
        its blockers; the response never panics; stored queries and
        configurations parse back to themselves, so comparing stored JSON
        compares queries; a fingerprint determines its query; accepted
        collection bodies satisfy the handlers' assumptions.
      - Search: chunking terminates, covers the text, overlaps by 150 units
        and cuts at the boundary closest to the target.

    ** Bounds and fuel

    Integers are [Z]; the width is in the operation ([wrap], [sat_add_u64],
    casts).  [usize] is 64 bits.  Loops that are not structural run on fuel
    given by their input, and lemmas show that it suffices: ten turns for a
    64-bit variable-length integer, one turn per task in the dependency order,
    801 turns in [working_loop] (the code's own guard), the length of the text
    for the two loops of the chunker, which return [None] when out of fuel and
    are proved to return [Some], the length of the scale for the ticks, the
    length of a line for folding, the length of the bytes for the records of an
    archive, 66 levels for the walk of a body (its depth limit is 64), the size
    of a document for the page renderer, the length of a link for the removal
    of comments, the pending notices plus twice the connections for the flush of a
    room ([flush_loop_drains]) and the number of dropped leases for their loop.

    ** Not modelled

    The database layer, HTTP handlers, password hashing and sessions, object
    storage, mail and push, most of document import and export, the archive
    container ([native_archive.rs]) and the web client: asynchronous I/O, SQL
    and cryptography whose behaviour is not in the modelled code.  The Markdown
    renderer of public pages reparses its output in a child process.  The CRDT
    itself is the vendored yrs crate.  Formatting of error messages
    ([Display]), logging, replies to callers and the hooks of the test build
    are left out throughout.  Files do not change while a backup command runs.

    Next: the Markdown renderer of public pages, field validators, the settings
    catalogue, the digest mails and the archive container. *)

From stdpp Require Import base list numbers strings gmap sorting.
From Stdlib Require Import ZArith Lia.
From Stdlib Require Strings.Byte.

#[global] Open Scope Z_scope.

(** ** Notations and results *)

Declare Scope rust_scope.
Delimit Scope rust_scope with rust.

(** Rust's [Result<A, E>], with the error type first so that [result E] is a
    monad for stdpp's [x ← m; k] notation, which models the [?] operator. *)
Inductive result (E A : Type) : Type :=
| Ok (a : A)
| Err (e : E).
Arguments Ok {E A} a.
Arguments Err {E A} e.

#[export] Instance result_ret E : MRet (result E) := fun A a => Ok a.
#[export] Instance result_bind E : MBind (result E) := fun A B f m =>
  match m with Ok a => f a | Err e => Err e end.
#[export] Instance result_fmap E : FMap (result E) := fun A B f m =>
  match m with Ok a => Ok (f a) | Err e => Err e end.

#[export] Instance result_eq_dec {E A} `{EqDecision E, EqDecision A} : EqDecision (result E A).
Proof. solve_decision. Defined.

(** [Option::ok_or]. *)
Definition ok_or {E A} (o : option A) (e : E) : result E A :=
  match o with Some a => Ok a | None => Err e end.

(** [Result::map_err]. *)
Definition map_err {E F A} (f : E -> F) (m : result E A) : result F A :=
  match m with Ok a => Ok a | Err e => Err (f e) end.

Definition is_ok {E A} (m : result E A) : bool :=
  match m with Ok _ => true | Err _ => false end.

(** State-and-error computations: Rust methods on [&mut self] that return a
    [Result].  After an [Err] the callers below drop the state. *)
Definition stateE (S E A : Type) : Type := S -> result E (A * S).

#[export] Instance stateE_ret S E : MRet (stateE S E) := fun A a s => Ok (a, s).
#[export] Instance stateE_bind S E : MBind (stateE S E) := fun A B f m s =>
  match m s with Ok (a, s') => f a s' | Err e => Err e end.

Definition throw {S E A} (e : E) : stateE S E A := fun _ => Err e.
Definition lift {S E A} (m : result E A) : stateE S E A := fun s =>
  match m with Ok a => Ok (a, s) | Err e => Err e end.
Definition gets {S E A} (f : S -> A) : stateE S E A := fun s => Ok (f s, s).

(** ** Machine integers

    Every machine integer is a [Z]; the width shows in the operation.  [usize]
    is 64 bits wide, as on the server's platforms. *)

Definition u8_max : Z := 2 ^ 8 - 1.
Definition u32_max : Z := 2 ^ 32 - 1.
Definition i32_max : Z := 2 ^ 31 - 1.
Definition u64_max : Z := 2 ^ 64 - 1.

Definition wrap (w z : Z) : Z := z mod 2 ^ w.

(** [u64::saturating_add], [saturating_sub] and [saturating_mul]. *)
Definition sat_add_u64 (a b : Z) : Z := Z.min (a + b) u64_max.
Definition sat_sub_u64 (a b : Z) : Z := Z.max (a - b) 0.
Definition sat_mul_u64 (a b : Z) : Z := Z.min (a * b) u64_max.

(** [Vec::len] and [slice::len]. *)
Definition len {A} (l : list A) : Z := Z.of_nat (length l).

Definition is_u32 (z : Z) : Prop := 0 <= z <= u32_max.
Definition is_u64 (z : Z) : Prop := 0 <= z <= u64_max.

(** ** Ordered maps

    A [BTreeMap] with integer keys is a finite map whose iteration is in key
    order. *)

Definition key_le {A} (x y : Z * A) : Prop := x.1 <= y.1.

#[export] Instance key_le_dec {A} : RelDecision (@key_le A).
Proof. intros x y. unfold key_le. apply _. Defined.

Definition btree_iter {A} (m : gmap Z A) : list (Z * A) := merge_sort key_le (map_to_list m).

(** [Iterator::min_by_key]: the first of the minimal elements. *)
Fixpoint min_by_key {A} (f : A -> Z) (l : list A) : option A :=
  match l with
  | [] => None
  | x :: t =>
    match min_by_key f t with
    | Some y => if f y <? f x then Some y else Some x
    | None => Some x
    end
  end.

(** [Iterator::max_by_key]: the last of the maximal elements. *)
Fixpoint max_by_key {A} (f : A -> Z) (l : list A) : option A :=
  match l with
  | [] => None
  | x :: t =>
    match max_by_key f t with
    | Some y => if f y <? f x then Some x else Some y
    | None => Some x
    end
  end.

(** [slice::sort_by]: a stable sort by a comparison. *)
Section sort.
Context {A : Type} (cmp : A -> A -> comparison).

Fixpoint insert_by (x : A) (l : list A) : list A :=
  match l with
  | [] => [x]
  | y :: t => match cmp x y with Gt => y :: insert_by x t | _ => x :: l end
  end.

Definition sort_by (l : list A) : list A := foldr insert_by [] l.

Lemma insert_by_perm x l : insert_by x l ≡ₚ x :: l.
Proof.
  induction l as [|y l IH]; [done|]. simpl. destruct (cmp x y); try done.
  rewrite IH. apply Permutation_swap.
Qed.

Lemma sort_by_perm l : sort_by l ≡ₚ l.
Proof. induction l as [|x l IH]; [done|]. simpl. by rewrite insert_by_perm, IH. Qed.

Lemma sort_by_length l : length (sort_by l) = length l.
Proof. apply Permutation_length, sort_by_perm. Qed.

(** Sorting by an antisymmetric and transitive comparison. *)
Class Ordered : Prop := {
  cmp_gt_lt x y : cmp x y = Gt -> cmp y x <> Gt;
  cmp_trans x y z : cmp x y <> Gt -> cmp y z <> Gt -> cmp x z <> Gt;
}.

Definition cmp_le (x y : A) : Prop := cmp x y <> Gt.

Lemma insert_by_sorted `{Ordered} x l : StronglySorted cmp_le l -> StronglySorted cmp_le (insert_by x l).
Proof.
  induction 1 as [|y l Hs IH Hf]; simpl; [by repeat constructor|].
  assert (Hle : cmp x y <> Gt -> StronglySorted cmp_le (x :: y :: l)).
  { intros Hxy. constructor; [by constructor|]. constructor; [done|].
    eapply Forall_impl; [exact Hf|]. intros z. by apply cmp_trans. }
  destruct (cmp x y) eqn:E; [by apply Hle|by apply Hle|].
  constructor; [done|]. rewrite insert_by_perm. constructor; [by apply cmp_gt_lt|done].
Qed.

Lemma sort_by_sorted `{Ordered} l : StronglySorted cmp_le (sort_by l).
Proof. induction l as [|x l IH]; simpl; [constructor|by apply insert_by_sorted]. Qed.

End sort.

(** ** Bytes *)

Abbreviation byte := Byte.byte.

#[export] Instance byte_eq_dec : EqDecision byte := Byte.byte_eq_dec.

#[export] Instance byte_countable : Countable byte :=
  inj_countable Byte.to_N Byte.of_N Byte.of_to_N.

(** [u64::from(byte)] and [value as u8]. *)
Definition b2z (b : byte) : Z := Z.of_N (Byte.to_N b).
Definition z2b (z : Z) : byte :=
  match Byte.of_N (Z.to_N (wrap 8 z)) with Some b => b | None => Byte.x00 end.

(** Byte-string literals of the source ([b"..."], [as_bytes()]). *)
Definition bs (s : string) : list byte := String.list_byte_of_string s.


(** ** Tactics *)

(** Case split on the scrutinee of the first [match] or [if] of the goal. *)
Ltac case_goal :=
  match goal with
  | |- context [match ?x with _ => _ end] => destruct x eqn:?
  end.

(** The same in a hypothesis. *)
Ltac case_hyp H :=
  match type of H with
  | context [match ?x with _ => _ end] => destruct x eqn:?
  end.

(** Boolean comparisons in the context as propositions. *)
Ltac bool_to_prop :=
  repeat match goal with
  | H : (_ && _)%bool = true |- _ => apply andb_true_iff in H as [? ?]
  | H : (_ && _)%bool = false |- _ => apply andb_false_iff in H
  | H : (_ || _)%bool = false |- _ => apply orb_false_iff in H as [? ?]
  | H : (_ || _)%bool = true |- _ => apply orb_true_iff in H
  | H : negb _ = true |- _ => apply negb_true_iff in H
  | H : negb _ = false |- _ => apply negb_false_iff in H
  | H : (_ <? _) = true |- _ => apply Z.ltb_lt in H
  | H : (_ <? _) = false |- _ => apply Z.ltb_ge in H
  | H : (_ <=? _) = true |- _ => apply Z.leb_le in H
  | H : (_ <=? _) = false |- _ => apply Z.leb_gt in H
  | H : (_ =? _) = true |- _ => apply Z.eqb_eq in H
  | H : (_ =? _) = false |- _ => apply Z.eqb_neq in H
  | H : bool_decide _ = true |- _ => apply bool_decide_eq_true in H
  | H : bool_decide _ = false |- _ => apply bool_decide_eq_false in H
  end.

(** Invert a successful bind in the result or state monad. *)
Ltac inv_ok H :=
  repeat (cbn [mbind mret result_bind result_ret stateE_bind stateE_ret] in H);
  unfold mbind, mret, result_bind, result_ret, stateE_bind, stateE_ret in H.

(** Evaluate a decidable proposition. *)
Ltac by_decide := apply (bool_decide_eq_true_1 _); vm_compute; reflexivity.

Create HintDb fvoci.

(** ** Generic lemmas *)

Section integers.

Lemma wrap_small w z : 0 <= z < 2 ^ w -> wrap w z = z.
Proof. apply Z.mod_small. Qed.

Lemma wrap_range w z : 0 <= w -> 0 <= wrap w z < 2 ^ w.
Proof. intros. apply Z.mod_pos_bound. by apply Z.pow_pos_nonneg. Qed.

(** Disjoint bits: [or] with a shifted value is addition. *)
Lemma lor_shiftl_add a b s :
  0 <= s -> 0 <= a < 2 ^ s -> Z.lor a (Z.shiftl b s) = a + b * 2 ^ s.
Proof.
  intros Hs Ha. rewrite <- Z.shiftl_mul_pow2 by done.
  rewrite Z.add_nocarry_lxor, Z.lxor_lor; [done|..].
  all: apply Z.bits_inj'; intros n Hn; rewrite Z.land_spec, Z.bits_0, Z.shiftl_spec by done.
  all: destruct (Z.lt_ge_cases n s); [rewrite (Z.testbit_neg_r b) by lia; apply andb_false_r|].
  all: rewrite <- (Z.mod_small a (2 ^ s)), Z.mod_pow2_bits_high by lia; done.
Qed.

Lemma land_127 z : Z.land z 127 = z mod 128.
Proof. change 127 with (Z.ones 7). by rewrite Z.land_ones. Qed.

Lemma b2z_range b : 0 <= b2z b < 256.
Proof. unfold b2z. pose proof (Byte.to_N_bounded b). lia. Qed.

Lemma b2z_inj b c : b2z b = b2z c -> b = c.
Proof.
  unfold b2z. intros H%N2Z.inj.
  pose proof (Byte.of_to_N b). pose proof (Byte.of_to_N c). congruence.
Qed.

Lemma b2z_z2b z : b2z (z2b z) = wrap 8 z.
Proof.
  unfold z2b. pose proof (wrap_range 8 z ltac:(lia)) as Hr.
  destruct (Byte.of_N _) as [b|] eqn:E.
  - apply Byte.to_of_N in E. unfold b2z. rewrite E. lia.
  - apply Byte.of_N_None_iff in E. lia.
Qed.

Lemma z2b_b2z b : z2b (b2z b) = b.
Proof.
  apply b2z_inj. rewrite b2z_z2b. apply wrap_small. pose proof (b2z_range b). lia.
Qed.

Lemma b2z_z2b_small z : 0 <= z < 256 -> b2z (z2b z) = z.
Proof. intros. rewrite b2z_z2b. by apply wrap_small. Qed.

Lemma len_nonneg {A} (l : list A) : 0 <= len l.
Proof. unfold len. lia. Qed.

Lemma len_app {A} (l k : list A) : len (l ++ k) = len l + len k.
Proof. unfold len. rewrite length_app. lia. Qed.

Lemma len_cons {A} (x : A) l : len (x :: l) = 1 + len l.
Proof. unfold len. simpl. lia. Qed.

End integers.

Lemma Forall_mono {A} (P Q : A -> Prop) (l : list A) :
  (forall x, P x -> Q x) -> Forall P l -> Forall Q l.
Proof. intros HPQ. induction 1; constructor; auto. Qed.

Lemma filter_all {A} (P : A -> Prop) `{!forall x, Decision (P x)} (l : list A) : Forall P l -> filter P l = l.
Proof. induction 1 as [|x l Hx _ IH]; [done|]. by rewrite filter_cons_True, IH. Qed.

Lemma btree_iter_perm {A} (m : gmap Z A) : btree_iter m ≡ₚ map_to_list m.
Proof. apply merge_sort_Permutation. Qed.

Lemma elem_of_btree_iter {A} (m : gmap Z A) k x : (k, x) ∈ btree_iter m <-> m !! k = Some x.
Proof. rewrite btree_iter_perm. apply elem_of_map_to_list. Qed.

(** Keys come out in increasing order. *)
Lemma btree_iter_sorted {A} (m : gmap Z A) : StronglySorted Z.lt (btree_iter m).*1.
Proof.
  assert (Hs : StronglySorted key_le (btree_iter m)).
  { apply StronglySorted_merge_sort; unfold key_le.
    - intros x y z. apply Z.le_trans.
    - intros x y. destruct (Z.le_ge_cases x.1 y.1); [by left|by right]. }
  assert (Hd : NoDup (btree_iter m).*1) by (rewrite btree_iter_perm; apply NoDup_fst_map_to_list).
  induction Hs as [|x l _ IH Hx]; [constructor|]. rewrite fmap_cons in Hd |- *.
  apply NoDup_cons in Hd as [Hn Hd]. constructor; [auto|].
  apply Forall_fmap, Forall_forall. intros y Hy. rewrite Forall_forall in Hx. specialize (Hx y Hy).
  unfold key_le in Hx. simpl. assert (x.1 <> y.1); [|lia].
  intros Heq. apply Hn. rewrite Heq. by apply list_elem_of_fmap_2.
Qed.

Lemma min_by_key_Some {A} (f : A -> Z) l x :
  min_by_key f l = Some x -> x ∈ l /\ forall y, y ∈ l -> f x <= f y.
Proof.
  revert x. induction l as [|z l IH]; intros x; simpl; [done|].
  destruct (min_by_key f l) as [y|] eqn:E.
  - destruct (IH y eq_refl) as [Hy Hm]. destruct (Z.ltb_spec (f y) (f z)); intros [= <-].
    + split; [by right|]. intros w [->|Hw]%elem_of_cons; [lia|auto].
    + split; [by left|]. intros w [->|Hw]%elem_of_cons; [lia|]. specialize (Hm w Hw). lia.
  - intros [= <-]. destruct l as [|w l]; [|simpl in E; by repeat case_hyp E].
    split; [by left|]. intros w [->|?%elem_of_nil]%elem_of_cons; [lia|done].
Qed.

Lemma min_by_key_None {A} (f : A -> Z) l : min_by_key f l = None -> l = [].
Proof. destruct l; simpl; [done|]. intros E. by repeat case_hyp E. Qed.

Lemma max_by_key_Some {A} (f : A -> Z) l x :
  max_by_key f l = Some x -> x ∈ l /\ forall y, y ∈ l -> f y <= f x.
Proof.
  revert x. induction l as [|z l IH]; intros x; simpl; [done|].
  destruct (max_by_key f l) as [y|] eqn:E.
  - destruct (IH y eq_refl) as [Hy Hm]. destruct (Z.ltb_spec (f y) (f z)); intros [= <-].
    + split; [by left|]. intros w [->|Hw]%elem_of_cons; [lia|]. specialize (Hm w Hw). lia.
    + split; [by right|]. intros w [->|Hw]%elem_of_cons; [lia|auto].
  - intros [= <-]. destruct l as [|w l]; [|simpl in E; by repeat case_hyp E].
    split; [by left|]. intros w [->|?%elem_of_nil]%elem_of_cons; [lia|done].
Qed.

Lemma max_by_key_None {A} (f : A -> Z) l : max_by_key f l = None -> l = [].
Proof. destruct l; simpl; [done|]. intros E. by repeat case_hyp E. Qed.

Lemma sat_add_u64_bounds a b : 0 <= a <= u64_max -> 0 <= b -> a <= sat_add_u64 a b <= u64_max.
Proof. unfold sat_add_u64. lia. Qed.

(** ** Results *)

Lemma ok_or_inv {E A} (o : option A) (e : E) x : ok_or o e = Ok x -> o = Some x.
Proof. destruct o; simpl; congruence. Qed.

Lemma bind_Ok {E A B} (m : result E A) (f : A -> result E B) b :
  m ≫= f = Ok b <-> exists a, m = Ok a /\ f a = Ok b.
Proof.
  destruct m as [a|e]; cbn; [split; [eauto|by intros (? & [= ->] & ?)]|].
  split; [done|by intros (? & ? & ?)].
Qed.

(** Take a chain of successful binds apart. *)
Ltac inv_binds H :=
  lazymatch type of H with
  | _ ≫= _ = Ok _ =>
    let a := fresh "a" in let Ha := fresh "Ha" in
    apply bind_Ok in H as (a & Ha & H); inv_binds H
  | _ => idtac
  end.

Lemma mapM_Ok {E A B} (f : A -> result E B) l k : mapM f l = Ok k <-> Forall2 (fun x y => f x = Ok y) l k.
Proof.
  revert k. induction l as [|x l IH]; intros k; cbn [mapM].
  - split; [intros [= <-]; constructor|by inversion 1].
  - rewrite bind_Ok. setoid_rewrite bind_Ok. setoid_rewrite IH. split.
    + intros (y & Hy & ys & Hys & [= <-]). by constructor.
    + inversion 1; subst; eauto.
Qed.

(** A parser that undoes a printer on each element undoes it on the list. *)
Lemma mapM_fmap_Ok {E A B} (f : A -> result E B) (g : B -> A) l :
  Forall (fun y => f (g y) = Ok y) l -> mapM f (g <$> l) = Ok l.
Proof. intros Hl. apply mapM_Ok. induction Hl; cbn; constructor; auto. Qed.

Lemma mapM_Ok_Forall {E A B} (f : A -> result E B) (P : B -> Prop) l k :
  mapM f l = Ok k -> (forall x y, f x = Ok y -> P y) -> Forall P k /\ length k = length l.
Proof. intros Hk%mapM_Ok Hp. induction Hk; [done|]. destruct IHHk. split; [constructor; eauto|cbn; congruence]. Qed.

(** [lia] with every length in sight known to be nonnegative. *)
Ltac len_lia :=
  repeat match goal with
  | |- context [len ?l] =>
    lazymatch goal with H : 0 <= len l |- _ => fail | _ => pose proof (len_nonneg l) end
  | H : context [len ?l] |- _ =>
    lazymatch goal with H' : 0 <= len l |- _ => fail | _ => pose proof (len_nonneg l) end
  end; lia.

Create Rewrite HintDb fvoci.
#[export] Hint Rewrite @len_app @len_cons : fvoci.
#[export] Hint Resolve b2z_range len_nonneg : fvoci.


(** ** Sums over a list, and how updates change them *)

Section totals.
Context {A : Type}.
Implicit Types (f g : A -> Z) (l : list A).

Definition total f l : Z := foldr (fun q n => f q + n) 0 l.

Lemma total_app f l k : total f (l ++ k) = total f l + total f k.
Proof. induction l as [|x l IH]; simpl; [done|]. unfold total in *. lia. Qed.

Lemma total_insert f l i q q' : l !! i = Some q -> total f (<[i := q']> l) = total f l - f q + f q'.
Proof.
  revert i. induction l as [|x l IH]; intros [|i] Hi; simpl in *; simplify_eq; [lia..|].
  rewrite (IH i Hi). lia.
Qed.

Lemma total_insert_app f l k i q q' :
  l !! i = Some q -> total f (<[i := q']> (l ++ k)) = total f l - f q + f q' + total f k.
Proof.
  intros Hi. rewrite (total_insert f (l ++ k) i q q'), total_app; [lia|]. by apply lookup_app_l_Some.
Qed.

Lemma total_insert2 f l i j q q' r r' :
  l !! i = Some q -> l !! j = Some r -> i <> j ->
  total f (<[i := q']> (<[j := r']> l)) = total f l - f q + f q' - f r + f r'.
Proof.
  intros Hi Hj Hn. rewrite (total_insert f _ i q q'), (total_insert f l j r r'); [lia|done|].
  by rewrite list_lookup_insert_ne.
Qed.

Lemma total_ext f g l : (forall x, x ∈ l -> f x = g x) -> total f l = total g l.
Proof. induction l as [|x l IH]; intros E; simpl; [done|]. rewrite E, IH; set_solver. Qed.

Lemma total_le f g l : (forall x, x ∈ l -> f x <= g x) -> total f l <= total g l.
Proof.
  induction l as [|x l IH]; intros E; simpl; [done|]. pose proof (E x ltac:(set_solver)).
  assert (total f l <= total g l) by (apply IH; set_solver). unfold total in *. lia.
Qed.

Lemma total_add f g l : total (fun x => f x + g x) l = total f l + total g l.
Proof. induction l as [|x l IH]; simpl; [done|]. unfold total in *. lia. Qed.

Lemma total_zero l : total (fun _ => 0) l = 0.
Proof. induction l as [|x l IH]; simpl; done. Qed.

Lemma total_eq_zero f l : (forall x, x ∈ l -> f x = 0) -> total f l = 0.
Proof. intros E. rewrite <- (total_zero l). by apply total_ext. Qed.

Lemma total_nonneg f l : (forall x, x ∈ l -> 0 <= f x) -> 0 <= total f l.
Proof. intros E. rewrite <- (total_zero l). by apply total_le. Qed.

Lemma total_ge f l i x : (forall x, x ∈ l -> 0 <= f x) -> l !! i = Some x -> f x <= total f l.
Proof.
  intros Hf. revert i. induction l as [|y l IH]; intros [|i] Hi; simpl in *; simplify_eq.
  - pose proof (total_nonneg f l ltac:(intros; apply Hf; set_solver)). unfold total in *. lia.
  - pose proof (Hf y ltac:(set_solver)).
    pose proof (IH ltac:(intros; apply Hf; set_solver) i Hi). unfold total in *. lia.
Qed.

Lemma total_ge2 f l i j x y :
  (forall x, x ∈ l -> 0 <= f x) -> l !! i = Some x -> l !! j = Some y -> i <> j -> f x + f y <= total f l.
Proof.
  intros Hf. revert i j. induction l as [|z l IH]; intros [|i] [|j] Hi Hj Hn; simpl in *; simplify_eq; try done.
  - pose proof (total_ge f l j y ltac:(intros; apply Hf; set_solver) Hj). unfold total in *. lia.
  - pose proof (total_ge f l i x ltac:(intros; apply Hf; set_solver) Hi). unfold total in *. lia.
  - pose proof (Hf z ltac:(set_solver)). assert (f x + f y <= total f l).
    { apply (IH ltac:(intros; apply Hf; set_solver) i j); [done|done|lia]. }
    unfold total in *. lia.
Qed.

End totals.

Lemma total_perm {A} (f : A -> Z) l k : l ≡ₚ k -> total f l = total f k.
Proof. induction 1; simpl in *; unfold total in *; simpl in *; lia. Qed.

Lemma elem_of_insert_inv {A} (l : list A) i x y : x ∈ <[i := y]> l -> x = y \/ x ∈ l.
Proof.
  intros [j Hj]%list_elem_of_lookup. destruct (decide (j = i)) as [->|Hn].
  - left. apply lookup_lt_Some in Hj as Hl. rewrite length_insert in Hl.
    rewrite list_lookup_insert_eq in Hj by done. congruence.
  - right. rewrite list_lookup_insert_ne in Hj by done. by eapply list_elem_of_lookup_2.
Qed.

(** Sums over a list and over its indices. *)
Lemma total_index_from {A} (f g : A -> Z) (w : nat -> Z) (l : list A) n :
  (forall i x, l !! i = Some x -> f x <= g x + w (n + i)%nat) -> total f l <= total g l + total w (seq n (length l)).
Proof.
  revert n. induction l as [|y l IH]; intros n H; simpl; [done|].
  pose proof (H 0%nat y eq_refl) as H0. rewrite Nat.add_0_r in H0.
  assert (total f l <= total g l + total w (seq (S n) (length l))).
  { apply IH. intros i x Hi. specialize (H (S i) x Hi). by replace (S n + i)%nat with (n + S i)%nat by lia. }
  unfold total in *. lia.
Qed.

Lemma total_bind {A B} (f : B -> Z) (g : A -> list B) l : total f (l ≫= g) = total (fun x => total f (g x)) l.
Proof.
  induction l as [|x l IH]; [done|]. change ((x :: l) ≫= g) with (g x ++ (l ≫= g)). by rewrite total_app, IH.
Qed.

Lemma total_seq_indicator n m k : total (fun s => if decide (k = s) then 1 else 0) (seq n m) <= 1.
Proof.
  revert n. induction m as [|m IH]; intros n; simpl; [lia|]. specialize (IH (S n)).
  case_decide as E; [|unfold total in *; lia]. subst.
  assert (total (fun s => if decide (n = s) then 1 else 0) (seq (S n) m) = 0).
  { apply total_eq_zero. intros x Hx%elem_of_seq. rewrite decide_False; [done|lia]. }
  unfold total in *. lia.
Qed.
