(* ===== verification/Text.v ===== *)
(** * Rust strings

    A [str] is its UTF-8 bytes.  This file holds what the components use of
    the standard library's string functions: [str::from_utf8], [chars],
    [encode_utf16], [split], [split_once], [strip_prefix], [trim]. *)

From stdpp Require Import base list numbers strings gmap.
From Stdlib Require Import ZArith Lia Wf_nat.
From S2P Require Import Prelude.

(** A Rust [&str] or [String], as its bytes. *)
Abbreviation str := (list byte).

(** ** UTF-8

    [str::from_utf8] accepts the well-formed byte sequences of the Unicode
    standard (table 3-7): no overlong form, no surrogate, nothing above
    U+10FFFF. *)

Definition in_range (lo hi z : Z) : bool := (lo <=? z) && (z <=? hi).
Definition is_cont (b : byte) : bool := in_range 128 191 (b2z b).
Definition cont_bits (b : byte) : Z := Z.land (b2z b) 63.

(** The second byte's range depends on the first byte. *)
Definition second_ok (b0 b1 : byte) : bool :=
  let x := b2z b0 in
  if x =? 0xE0 then in_range 0xA0 0xBF (b2z b1)
  else if x =? 0xED then in_range 0x80 0x9F (b2z b1)
  else if x =? 0xF0 then in_range 0x90 0xBF (b2z b1)
  else if x =? 0xF4 then in_range 0x80 0x8F (b2z b1)
  else is_cont b1.

(** The number of continuation bytes a leading byte asks for. *)
Definition lead_width (b0 : byte) : option nat :=
  let x := b2z b0 in
  if x <? 0x80 then Some 0%nat
  else if in_range 0xC2 0xDF x then Some 1%nat
  else if in_range 0xE0 0xEF x then Some 2%nat
  else if in_range 0xF0 0xF4 x then Some 3%nat
  else None.

(** The scalar values of a byte sequence, [None] when it is not UTF-8. *)
Fixpoint utf8_chars (l : list byte) : option (list Z) :=
  match l with
  | [] => Some []
  | b0 :: t0 =>
    match lead_width b0, t0 with
    | Some 0%nat, _ => cons (b2z b0) <$> utf8_chars t0
    | Some 1%nat, b1 :: t1 =>
      if is_cont b1 then
        cons (Z.lor (Z.shiftl (Z.land (b2z b0) 31) 6) (cont_bits b1)) <$> utf8_chars t1
      else None
    | Some 2%nat, b1 :: b2 :: t2 =>
      if second_ok b0 b1 && is_cont b2 then
        cons (Z.lor (Z.shiftl (Z.land (b2z b0) 15) 12)
                (Z.lor (Z.shiftl (cont_bits b1) 6) (cont_bits b2))) <$> utf8_chars t2
      else None
    | Some 3%nat, b1 :: b2 :: b3 :: t3 =>
      if second_ok b0 b1 && is_cont b2 && is_cont b3 then
        cons (Z.lor (Z.shiftl (Z.land (b2z b0) 7) 18)
                (Z.lor (Z.shiftl (cont_bits b1) 12)
                   (Z.lor (Z.shiftl (cont_bits b2) 6) (cont_bits b3)))) <$> utf8_chars t3
      else None
    | _, _ => None
    end
  end.

Definition utf8_valid (l : list byte) : bool := bool_decide (is_Some (utf8_chars l)).

(** [String::from_utf8]. *)
Definition from_utf8 (l : list byte) : option str := if utf8_valid l then Some l else None.

(** [str::chars], of a valid string. *)
Definition chars (s : str) : list Z := default [] (utf8_chars s).

(** [str::encode_utf16]. *)
Definition utf16_units (c : Z) : list Z :=
  if c <? 0x10000 then [c]
  else [0xD800 + Z.shiftr (c - 0x10000) 10; 0xDC00 + Z.land (c - 0x10000) 0x3FF].
Definition encode_utf16 (s : str) : list Z := concat (utf16_units <$> chars s).

(** ** Splitting at an ASCII character

    An ASCII byte never occurs inside a multi-byte sequence, so splitting a
    [str] at an ASCII character is splitting its bytes. *)

(** [str::split_once]. *)
Fixpoint split_once (c : byte) (s : str) : option (str * str) :=
  match s with
  | [] => None
  | b :: t =>
    if bool_decide (b = c) then Some ([], t)
    else match split_once c t with Some (l, r) => Some (b :: l, r) | None => None end
  end.

(** [str::split], collected. *)
Fixpoint split (c : byte) (s : str) : list str :=
  match s with
  | [] => [[]]
  | b :: t =>
    if bool_decide (b = c) then [] :: split c t
    else match split c t with p :: ps => (b :: p) :: ps | [] => [[b]] end
  end.

(** [str::strip_prefix]. *)
Fixpoint strip_prefix (p s : str) : option str :=
  match p, s with
  | [], _ => Some s
  | a :: p', b :: s' => if bool_decide (a = b) then strip_prefix p' s' else None
  | _ :: _, [] => None
  end.

(** ** Trimming

    [str::trim] removes the characters with the Unicode White_Space property at
    both ends; in UTF-8 each of them is one, two or three fixed bytes. *)

Definition ws_seq (l : list Z) : bool :=
  match l with
  | [a] => in_range 0x09 0x0D a || (a =? 0x20)
  | [0xC2; b] => (b =? 0x85) || (b =? 0xA0)
  | [0xE1; 0x9A; 0x80] => true
  | [0xE2; 0x80; c] => in_range 0x80 0x8A c || (c =? 0xA8) || (c =? 0xA9) || (c =? 0xAF)
  | [0xE2; 0x81; 0x9F] => true
  | [0xE3; 0x80; 0x80] => true
  | _ => false
  end.

(** The length of the white-space character at the start, if there is one. *)
Definition ws_start (s : str) : option nat :=
  if (0 <? length s)%nat && ws_seq (b2z <$> take 1 s) then Some 1%nat
  else if (1 <? length s)%nat && ws_seq (b2z <$> take 2 s) then Some 2%nat
  else if (2 <? length s)%nat && ws_seq (b2z <$> take 3 s) then Some 3%nat
  else None.

(** The same at the end, on the reversed string. *)
Definition ws_end (s : str) : option nat :=
  if (0 <? length s)%nat && ws_seq (b2z <$> reverse (take 1 s)) then Some 1%nat
  else if (1 <? length s)%nat && ws_seq (b2z <$> reverse (take 2 s)) then Some 2%nat
  else if (2 <? length s)%nat && ws_seq (b2z <$> reverse (take 3 s)) then Some 3%nat
  else None.

Fixpoint strip_with (f : str -> option nat) (fuel : nat) (s : str) : str :=
  match fuel with
  | O => s
  | S n => match f s with Some k => strip_with f n (drop k s) | None => s end
  end.

Definition trim_start (s : str) : str := strip_with ws_start (length s) s.
Definition trim_end (s : str) : str := reverse (strip_with ws_end (length s) (reverse s)).
Definition trim (s : str) : str := trim_end (trim_start s).

(** [char::to_digit] on an ASCII byte. *)
Definition to_digit (radix : Z) (b : byte) : option Z :=
  let z := b2z b in
  let d := if in_range 48 57 z then z - 48
           else if in_range 97 122 z then z - 87
           else if in_range 65 90 z then z - 55
           else 36 in
  if d <? radix then Some d else None.

(** The digit loop of [from_str_radix], [None] on a bad digit or overflow. *)
Fixpoint radix_loop (radix max acc : Z) (s : str) : option Z :=
  match s with
  | [] => Some acc
  | b :: t =>
    match to_digit radix b with
    | Some d => if max <? acc * radix + d then None else radix_loop radix max (acc * radix + d) t
    | None => None
    end
  end.

(** [from_str_radix] and [str::parse] of an unsigned type with maximum [max]:
    one optional plus sign, then at least one digit. *)
Definition from_str_radix (radix max : Z) (s : str) : option Z :=
  match s with
  | [] => None
  | b :: t => if bool_decide (b = Byte.x2b)
              then match t with [] => None | _ => radix_loop radix max 0 t end
              else radix_loop radix max 0 s
  end.

(** [str::parse::<i32>]. *)
Definition parse_i32 (s : str) : option Z :=
  match s with
  | b :: t => if bool_decide (b = Byte.x2d)
              then match t with [] => None | _ => Z.opp <$> radix_loop 10 (2 ^ 31) 0 t end
              else from_str_radix 10 i32_max s
  | [] => None
  end.

(** [str::is_char_boundary] and [str::get(a..b)]. *)
Definition is_char_boundary (s : str) (i : nat) : bool :=
  (i =? 0)%nat || match s !! i with Some b => negb (is_cont b) | None => (i =? length s)%nat end.

Definition str_get (s : str) (a b : nat) : option str :=
  if (a <=? b)%nat && is_char_boundary s a && is_char_boundary s b then Some (take (b - a) (drop a s)) else None.

(** [str::trim_start_matches] with an ASCII character. *)
Fixpoint trim_start_matches (c : byte) (s : str) : str :=
  match s with
  | b :: t => if bool_decide (b = c) then trim_start_matches c t else s
  | [] => []
  end.

(** ** Lemmas *)

Lemma utf8_valid_nil : utf8_valid [] = true.
Proof. reflexivity. Qed.

Lemma lead_width_ascii b : b2z b < 128 -> lead_width b = Some 0%nat.
Proof. intros. unfold lead_width. by rewrite (proj2 (Z.ltb_lt _ _)). Qed.

Lemma utf8_chars_ascii (s : str) :
  Forall (fun b => b2z b < 128) s -> utf8_chars s = Some (b2z <$> s).
Proof.
  induction 1 as [|b s Hb _ IH]; simpl; [done|].
  by rewrite lead_width_ascii, IH.
Qed.

Lemma utf8_valid_ascii (s : str) : Forall (fun b => b2z b < 128) s -> utf8_valid s = true.
Proof. intros. apply bool_decide_eq_true. rewrite utf8_chars_ascii; eauto. Qed.

Lemma from_utf8_Some (l s : list byte) :
  from_utf8 l = Some s <-> s = l /\ utf8_valid l = true.
Proof. unfold from_utf8. destruct (utf8_valid l); naive_solver. Qed.

Lemma split_once_None c (s : str) : split_once c s = None <-> c ∉ s.
Proof.
  induction s as [|b s IH]; simpl; [set_solver|].
  case_bool_decide; [set_solver|].
  destruct (split_once c s) as [[??]|]; set_solver.
Qed.

Lemma split_once_app c (l r : str) : c ∉ l -> split_once c (l ++ c :: r) = Some (l, r).
Proof.
  induction l as [|b l IH]; simpl; intros Hn.
  - by rewrite bool_decide_true.
  - rewrite bool_decide_false by set_solver. by rewrite IH by set_solver.
Qed.

Lemma split_once_Some c (s l r : str) :
  split_once c s = Some (l, r) -> s = l ++ c :: r /\ c ∉ l.
Proof.
  revert l r. induction s as [|b s IH]; simpl; intros l r; [done|].
  case_bool_decide as Hb; [intros [= <- <-]; subst; split; [done|set_solver]|].
  destruct (split_once c s) as [[l' r']|]; intros [= <- <-].
  destruct (IH l' r' eq_refl) as [-> ?]. split; [done|set_solver].
Qed.

Lemma split_not_nil c (s : str) : split c s <> [].
Proof. destruct s as [|b s]; simpl; [done|]. case_bool_decide; [done|]. by destruct (split c s). Qed.

Lemma split_no_sep c (s : str) : c ∉ s -> split c s = [s].
Proof.
  induction s as [|b s IH]; simpl; intros Hn; [done|].
  rewrite bool_decide_false by set_solver. by rewrite IH by set_solver.
Qed.

Lemma split_app c (l r : str) : c ∉ l -> split c (l ++ c :: r) = l :: split c r.
Proof.
  induction l as [|b l IH]; simpl; intros Hn.
  - by rewrite bool_decide_true.
  - rewrite bool_decide_false by set_solver. by rewrite IH by set_solver.
Qed.

(** The parts joined again give the string back, and no part holds the separator. *)
Lemma split_cons c (s p : str) ps :
  split c s = p :: ps ->
  (c ∉ p) /\ ((ps = [] /\ s = p) \/ (exists r, s = p ++ c :: r /\ split c r = ps)).
Proof.
  revert p ps. induction s as [|b s IH]; simpl; intros p ps.
  - intros [= <- <-]. set_solver.
  - case_bool_decide as Hb.
    + intros [= <- <-]; subst. split; [set_solver|]. right. by exists s.
    + destruct (split c s) as [|q qs] eqn:E; [by apply split_not_nil in E|].
      intros [= <- <-]. destruct (IH q qs eq_refl) as [Hq [[-> ->]|(r & -> & <-)]].
      * split; [set_solver|]. by left.
      * split; [set_solver|]. right. by exists r.
Qed.

Lemma strip_prefix_app (p s : str) : strip_prefix p (p ++ s) = Some s.
Proof. induction p as [|a p IH]; simpl; [done|]. by rewrite bool_decide_true. Qed.

Lemma strip_prefix_Some (p s r : str) : strip_prefix p s = Some r -> s = p ++ r.
Proof.
  revert s. induction p as [|a p IH]; intros [|b s]; simpl; try naive_solver.
  case_bool_decide; naive_solver.
Qed.

(** ** Comparison

    [Ord for str] compares bytes lexicographically. *)

Fixpoint str_compare (s t : str) : comparison :=
  match s, t with
  | [], [] => Eq
  | [], _ :: _ => Lt
  | _ :: _, [] => Gt
  | a :: s', b :: t' =>
    match Z.compare (b2z a) (b2z b) with Eq => str_compare s' t' | c => c end
  end.

Definition str_lt (s t : str) : Prop := str_compare s t = Lt.

Lemma str_compare_refl s : str_compare s s = Eq.
Proof. induction s as [|a s IH]; simpl; [done|]. by rewrite Z.compare_refl. Qed.

Lemma str_compare_eq s t : str_compare s t = Eq <-> s = t.
Proof.
  split; [|intros ->; apply str_compare_refl].
  revert t. induction s as [|a s IH]; intros [|b t]; simpl; try done.
  destruct (Z.compare_spec (b2z a) (b2z b)) as [E%b2z_inj| |]; try done.
  intros Hc. f_equal; auto.
Qed.

Lemma str_compare_antisym s t : str_compare t s = CompOpp (str_compare s t).
Proof.
  revert t. induction s as [|a s IH]; intros [|b t]; simpl; try done.
  rewrite Z.compare_antisym. destruct (Z.compare (b2z a) (b2z b)); simpl; auto.
Qed.

Lemma str_lt_irrefl s : ~ str_lt s s.
Proof. unfold str_lt. by rewrite str_compare_refl. Qed.

Lemma str_lt_trans s t u : str_lt s t -> str_lt t u -> str_lt s u.
Proof.
  unfold str_lt. revert t u. induction s as [|a s IH]; intros [|b t] [|c u]; simpl; try done.
  destruct (Z.compare_spec (b2z a) (b2z b)) as [E1|E1|E1]; try done;
    destruct (Z.compare_spec (b2z b) (b2z c)) as [E2|E2|E2]; try done; intros H1 H2.
  - rewrite E1, E2, Z.compare_refl. eauto.
  - by rewrite (proj2 (Z.compare_lt_iff _ _)) by lia.
  - by rewrite (proj2 (Z.compare_lt_iff _ _)) by lia.
  - by rewrite (proj2 (Z.compare_lt_iff _ _)) by lia.
Qed.

Lemma str_compare_gt s t : str_compare s t = Gt -> str_lt t s.
Proof. unfold str_lt. intros H. by rewrite str_compare_antisym, H. Qed.

(** ** Concatenation of valid strings *)

Lemma utf8_chars_app l k cs ds :
  utf8_chars l = Some cs -> utf8_chars k = Some ds -> utf8_chars (l ++ k) = Some (cs ++ ds).
Proof.
  intros Hl Hk. revert cs Hl. induction l as [l IH] using (induction_ltof1 _ (@length byte)).
  unfold ltof in IH. intros cs. destruct l as [|b0 t0]; [by intros [= <-]|].
  cbn [utf8_chars app]. destruct (lead_width b0) as [[|[|[|[|n]]]]|]; try done.
  - destruct (utf8_chars t0) eqn:E; [|done]. intros [= <-]. rewrite (IH t0 ltac:(simpl; lia) _ E). done.
  - destruct t0 as [|b1 t1]; [done|]. destruct (is_cont b1) eqn:Ec; [|done].
    destruct (utf8_chars t1) eqn:E; [|done]. intros [= <-]. cbn [app]. rewrite Ec.
    rewrite (IH t1 ltac:(simpl; lia) _ E). done.
  - destruct t0 as [|b1 [|b2 t2]]; [done|done|]. destruct (second_ok b0 b1 && is_cont b2) eqn:Ec; [|done].
    destruct (utf8_chars t2) eqn:E; [|done]. intros [= <-]. cbn [app]. rewrite Ec.
    rewrite (IH t2 ltac:(simpl; lia) _ E). done.
  - destruct t0 as [|b1 [|b2 [|b3 t3]]]; [done|done|done|].
    destruct (second_ok b0 b1 && is_cont b2 && is_cont b3) eqn:Ec; [|done].
    destruct (utf8_chars t3) eqn:E; [|done]. intros [= <-]. cbn [app]. rewrite Ec.
    rewrite (IH t3 ltac:(simpl; lia) _ E). done.
Qed.

Lemma utf8_valid_app l k : utf8_valid l = true -> utf8_valid k = true -> utf8_valid (l ++ k) = true.
Proof.
  unfold utf8_valid. rewrite !bool_decide_eq_true. intros [cs Hl] [ds Hk].
  exists (cs ++ ds). by apply utf8_chars_app.
Qed.
