(* ===== verification/TextFacts.v ===== *)
(** * More of Rust strings, and facts on valid text

    [str::replace], [join], [rfind], [String::from_utf8_lossy]; how valid
    UTF-8 decomposes into characters, and that operations on ASCII characters
    keep it valid. *)

From stdpp Require Import base list numbers strings gmap.
From Stdlib Require Import ZArith Lia Wf_nat.
From S2P Require Import Prelude Text.

(** [str::replace] of one ASCII character by another, or by nothing. *)
Definition replace_byte (a b : byte) (s : str) : str := (fun c => if bool_decide (c = a) then b else c) <$> s.
Definition remove_byte (a : byte) (s : str) : str := filter (fun c => c <> a) s.

(** [slice::join] of strings. *)
Fixpoint join (sep : str) (parts : list str) : str :=
  match parts with
  | [] => []
  | [p] => p
  | p :: ps => p ++ sep ++ join sep ps
  end.

(** [str::rfind] of an ASCII character, as the split around its last
    occurrence. *)
Definition rsplit_once (c : byte) (s : str) : option (str * str) :=
  '(r, l) ← split_once c (reverse s); Some (reverse l, reverse r).

Definition starts_with (c : byte) (s : str) : bool := match s with b :: _ => bool_decide (b = c) | [] => false end.
Definition ends_with (c : byte) (s : str) : bool := match last s with Some b => bool_decide (b = c) | None => false end.

(** [String::from_utf8_lossy]: every maximal ill-formed part becomes U+FFFD. *)
Definition replacement : list byte := [Byte.xef; Byte.xbf; Byte.xbd].

(** The length of the character or of the ill-formed part at the start. *)
Definition utf8_step (b0 : byte) (t : list byte) : bool * nat :=
  let cont n := match t !! n with Some b => is_cont b | None => false end in
  let second := match t with b1 :: _ => second_ok b0 b1 | [] => false end in
  match lead_width b0 with
  | Some 0%nat => (true, 1%nat)
  | Some 1%nat => if cont 0%nat then (true, 2%nat) else (false, 1%nat)
  | Some 2%nat => if negb second then (false, 1%nat) else if cont 1%nat then (true, 3%nat) else (false, 2%nat)
  | Some 3%nat =>
    if negb second then (false, 1%nat) else if negb (cont 1%nat) then (false, 2%nat)
    else if cont 2%nat then (true, 4%nat) else (false, 3%nat)
  | _ => (false, 1%nat)
  end.

Fixpoint lossy_loop (fuel : nat) (l : list byte) : str :=
  match fuel, l with
  | S n, b0 :: t =>
    match utf8_step b0 t with
    | (true, k) => take k l ++ lossy_loop n (drop k l)
    | (false, k) => replacement ++ lossy_loop n (drop k l)
    end
  | _, _ => []
  end.

Definition from_utf8_lossy (l : list byte) : str := lossy_loop (length l) l.

Lemma fmap_same {A} (f : A -> A) (l : list A) : (forall x, x ∈ l -> f x = x) -> f <$> l = l.
Proof. induction l as [|x l IH]; intros H; [done|]. rewrite fmap_cons, H, IH; set_solver. Qed.

(** ** Joining and splitting *)

Lemma split_join (c : byte) (ps : list str) :
  ps <> [] -> Forall (fun p => c ∉ p) ps -> split c (join [c] ps) = ps.
Proof.
  intros Hn Hf. induction Hf as [|p ps Hp _ IH]; [done|]. destruct ps as [|q ps]; [by apply split_no_sep|].
  change (join [c] (p :: q :: ps)) with (p ++ c :: join [c] (q :: ps)).
  rewrite split_app by done. by rewrite IH.
Qed.

Lemma join_split (c : byte) (s : str) : join [c] (split c s) = s.
Proof.
  induction s as [|b s IH]; [done|]. simpl. case_bool_decide as Hb; subst.
  - destruct (split c s) eqn:E; [by apply split_not_nil in E|]. simpl in *. by rewrite IH.
  - destruct (split c s) as [|p ps] eqn:E; [by apply split_not_nil in E|]. destruct ps; simpl in *; by rewrite IH.
Qed.

Lemma split_snoc (c : byte) (s : str) : split c (s ++ [c]) = split c s ++ [[]].
Proof.
  induction s as [|b s IH]; simpl; [by rewrite bool_decide_true|].
  rewrite IH. case_bool_decide; [done|]. destruct (split c s) eqn:E; [by apply split_not_nil in E|done].
Qed.

Lemma split_bytes (c : byte) (s p : str) b : p ∈ split c s -> b ∈ p -> b ∈ s /\ b <> c.
Proof.
  revert p. induction s as [|a s IH]; intros p; simpl; [intros ->%list_elem_of_singleton; set_solver|].
  case_bool_decide as Ha.
  - intros [->|Hp]%elem_of_cons Hb; [set_solver|]. destruct (IH p Hp Hb). set_solver.
  - destruct (split c s) as [|q qs] eqn:E; [intros ->%list_elem_of_singleton; set_solver|].
    intros [->|Hp]%elem_of_cons Hb.
    + apply elem_of_cons in Hb as [->|Hb]; [set_solver|]. destruct (IH q ltac:(left) Hb). set_solver.
    + destruct (IH p ltac:(by right) Hb). set_solver.
Qed.

Lemma elem_of_join (c b : byte) ps : b ∈ join [c] ps -> b = c \/ exists p, p ∈ ps /\ b ∈ p.
Proof.
  induction ps as [|p ps IH]; simpl; [set_solver|]. destruct ps as [|q ps]; [set_solver|].
  rewrite elem_of_app, elem_of_cons. intros [H|[->|H]]; [set_solver|by left|]. destruct (IH H); set_solver.
Qed.

(** ** Valid text *)

(** The encoding of one character: an ASCII byte, or bytes above it. *)
Definition char_bytes (c : list byte) : Prop :=
  utf8_valid c = true /\ ((exists b, c = [b] /\ b2z b < 128) \/ (c <> [] /\ Forall (fun b => 128 <= b2z b) c)) /\
  (length c <= 4)%nat /\ exists b t, c = b :: t /\ is_cont b = false /\ Forall (fun b => is_cont b = true) t.

Lemma in_range_spec lo hi z : in_range lo hi z = true <-> lo <= z <= hi.
Proof. unfold in_range. rewrite andb_true_iff, !Z.leb_le. done. Qed.

Lemma is_cont_high b : is_cont b = true -> 128 <= b2z b.
Proof. unfold is_cont. rewrite in_range_spec. lia. Qed.

Lemma second_cont b0 b1 : second_ok b0 b1 = true -> is_cont b1 = true.
Proof. unfold second_ok, is_cont. repeat case_match; rewrite !in_range_spec; lia. Qed.

Lemma lead_high b n : lead_width b = Some (S n) -> 128 <= b2z b.
Proof. unfold lead_width. destruct (Z.ltb_spec (b2z b) 0x80); [done|lia]. Qed.

Lemma lead_ascii b : lead_width b = Some 0%nat -> b2z b < 128.
Proof. unfold lead_width. destruct (Z.ltb_spec (b2z b) 0x80); [done|]. by repeat case_match. Qed.

Lemma lead_not_cont b n : lead_width b = Some n -> is_cont b = false.
Proof.
  intros H. apply not_true_is_false. unfold is_cont, lead_width, in_range in *.
  rewrite andb_true_iff, !Z.leb_le. intros Hr. revert H. repeat case_match; bool_to_prop; try done; lia.
Qed.

Lemma ascii_char b : lead_width b = Some 0%nat -> char_bytes [b].
Proof.
  intros H. split_and!; [|left; eauto using lead_ascii|simpl; lia|by exists b, []; eauto using lead_not_cont].
  apply utf8_valid_ascii. by repeat constructor; apply lead_ascii.
Qed.

Lemma multi_char b t n :
  lead_width b = Some (S n) -> is_Some (utf8_chars (b :: t)) -> (length t <= 3)%nat -> Forall (fun b => is_cont b = true) t ->
  char_bytes (b :: t).
Proof.
  intros H Hv Hl Ht. split_and!; [by apply bool_decide_eq_true| |simpl; lia|by exists b, t; eauto using lead_not_cont].
  right. split; [done|]. constructor; [by eapply lead_high|]. eapply Forall_mono; [|exact Ht]. intros. by apply is_cont_high.
Qed.

(** The first character of a valid string; [utf8_step] finds it. *)
Lemma first_char b0 t cs :
  utf8_chars (b0 :: t) = Some cs ->
  exists c rest, b0 :: t = c ++ rest /\ char_bytes c /\ is_Some (utf8_chars rest) /\ utf8_step b0 t = (true, length c).
Proof.
  cbn [utf8_chars]. destruct (lead_width b0) as [[|[|[|[|n]]]]|] eqn:El; try done.
  - destruct (utf8_chars t) eqn:E; [|done]. intros _. exists [b0], t. unfold utf8_step. rewrite El.
    split_and!; [done|by apply ascii_char|by eexists|done].
  - destruct t as [|b1 t]; [done|]. destruct (is_cont b1) eqn:E1; [|done]. destruct (utf8_chars t) eqn:E; [|done]. intros _.
    exists [b0; b1], t. unfold utf8_step. rewrite El. simpl. rewrite E1.
    split_and!; [done| |by eexists|done]. eapply multi_char; [done| |simpl; lia|by repeat constructor].
    simpl. rewrite El, E1. by eexists.
  - destruct t as [|b1 [|b2 t]]; [done..|]. destruct (second_ok b0 b1 && is_cont b2) eqn:E1; [|done].
    destruct (utf8_chars t) eqn:E; [|done]. intros _. exists [b0; b1; b2], t. unfold utf8_step. rewrite El. simpl.
    pose proof E1 as [Es Ec]%andb_true_iff. rewrite Es, Ec. split_and!; [done| |by eexists|done].
    eapply multi_char; [done| |simpl; lia|repeat constructor; eauto using second_cont].
    cbn [utf8_chars]. rewrite El, E1. by eexists.
  - destruct t as [|b1 [|b2 [|b3 t]]]; [done..|]. destruct (second_ok b0 b1 && is_cont b2 && is_cont b3) eqn:E1; [|done].
    destruct (utf8_chars t) eqn:E; [|done]. intros _. exists [b0; b1; b2; b3], t. unfold utf8_step. rewrite El. simpl.
    pose proof E1 as [[Es Ec]%andb_true_iff Ed]%andb_true_iff. rewrite Es, Ec, Ed. split_and!; [done| |by eexists|done].
    eapply multi_char; [done| |simpl; lia|repeat constructor; eauto using second_cont].
    cbn [utf8_chars]. rewrite El, E1. by eexists.
Qed.

Lemma char_nonempty c : char_bytes c -> c <> [].
Proof. by intros (_ & _ & _ & b & t & -> & _). Qed.

(** A valid string is its characters. *)
Lemma valid_ind (P : str -> Prop) :
  P [] -> (forall c s, char_bytes c -> utf8_valid s = true -> P s -> P (c ++ s)) -> forall s, utf8_valid s = true -> P s.
Proof.
  intros H0 Hs s. induction s as [s IH] using (induction_ltof1 _ (@length byte)). unfold ltof in IH.
  destruct s as [|b0 t]; [done|]. intros [cs H]%bool_decide_eq_true.
  destruct (first_char b0 t cs H) as (c & rest & E & Hc & Hr & _). rewrite E. pose proof (char_nonempty c Hc).
  assert (utf8_valid rest = true) by by apply bool_decide_eq_true.
  apply Hs; [done|done|]. apply IH; [|done]. rewrite E, length_app. destruct c; simpl in *; [done|lia].
Qed.

Lemma lossy_valid s fuel : utf8_valid s = true -> (length s <= fuel)%nat -> lossy_loop fuel s = s.
Proof.
  revert fuel. induction s as [s IH] using (induction_ltof1 _ (@length byte)). unfold ltof in IH.
  intros fuel. destruct s as [|b0 t]; [by destruct fuel|]. intros [cs H]%bool_decide_eq_true Hf.
  destruct (first_char b0 t cs H) as (c & rest & E & Hc & Hr & Est). pose proof (char_nonempty c Hc).
  destruct fuel as [|n]; [simpl in Hf; lia|]. cbn [lossy_loop]. rewrite Est, E, take_app_length, drop_app_length.
  rewrite E, length_app in Hf. assert (1 <= length c)%nat by (destruct c; simpl in *; [done|lia]).
  rewrite IH; [done|rewrite E, length_app; lia| |lia]. by apply bool_decide_eq_true.
Qed.

Lemma from_utf8_lossy_valid s : utf8_valid s = true -> from_utf8_lossy s = s.
Proof. intros. by apply lossy_valid. Qed.

(** Operations on ASCII characters keep text valid. *)
Lemma char_valid_app c s : char_bytes c -> utf8_valid s = true -> utf8_valid (c ++ s) = true.
Proof. intros [? _]. by apply utf8_valid_app. Qed.

Lemma char_no_ascii c b : char_bytes c -> b2z b < 128 -> b ∈ c -> c = [b].
Proof.
  intros (_ & [(a & -> & _)|[_ Hf]] & _) Hb Hi; [apply list_elem_of_singleton in Hi; by subst|].
  rewrite Forall_forall in Hf. specialize (Hf b Hi). lia.
Qed.

Lemma char_keep (f : byte -> byte) a c : char_bytes c -> b2z a < 128 -> (forall b, b <> a -> f b = b) -> b2z (f a) < 128 ->
  utf8_valid (f <$> c) = true.
Proof.
  intros Hc Ha Hf Hfa. destruct (decide (a ∈ c)) as [Hi|Hi].
  - rewrite (char_no_ascii c a Hc Ha Hi). simpl. apply utf8_valid_ascii. by repeat constructor.
  - rewrite fmap_same; [by destruct Hc|]. intros x Hx. apply Hf. by intros ->.
Qed.

Lemma replace_valid a b s : b2z a < 128 -> b2z b < 128 -> utf8_valid s = true -> utf8_valid (replace_byte a b s) = true.
Proof.
  intros Ha Hb. revert s. apply (valid_ind (fun s => utf8_valid (replace_byte a b s) = true)); [done|].
  intros c s Hc _ IH. unfold replace_byte. rewrite fmap_app. apply utf8_valid_app; [|done].
  apply (char_keep _ a); [done|done| |by rewrite bool_decide_true]. intros x Hx. by rewrite bool_decide_false.
Qed.

Lemma remove_valid a s : b2z a < 128 -> utf8_valid s = true -> utf8_valid (remove_byte a s) = true.
Proof.
  intros Ha. revert s. apply (valid_ind (fun s => utf8_valid (remove_byte a s) = true)); [done|].
  intros c s Hc _ IH. unfold remove_byte. rewrite filter_app. apply utf8_valid_app; [|done].
  destruct (decide (a ∈ c)) as [Hi|Hi].
  - rewrite (char_no_ascii c a Hc Ha Hi), filter_cons_False; [done|]. naive_solver.
  - rewrite filter_all; [by destruct Hc|]. apply Forall_forall. by intros x Hx ->.
Qed.

Lemma split_app_no c (l s : str) p ps : c ∉ l -> split c s = p :: ps -> split c (l ++ s) = (l ++ p) :: ps.
Proof.
  induction l as [|b l IH]; intros Hn E; [done|]. simpl. rewrite bool_decide_false by set_solver.
  by rewrite IH by set_solver.
Qed.

Lemma split_valid a s : b2z a < 128 -> utf8_valid s = true -> Forall (fun p => utf8_valid p = true) (split a s).
Proof.
  intros Ha. revert s. apply (valid_ind (fun s => Forall (fun p => utf8_valid p = true) (split a s))).
  - by repeat constructor.
  - intros c s Hc Hs IH. destruct (decide (a ∈ c)) as [Hi|Hi].
    + rewrite (char_no_ascii c a Hc Ha Hi). simpl. rewrite bool_decide_true by done. by constructor.
    + destruct (split a s) as [|p ps] eqn:E; [by apply split_not_nil in E|].
      rewrite (split_app_no a c s p ps Hi E). inversion IH. constructor; [by apply char_valid_app|done].
Qed.

Lemma join_valid a ps : b2z a < 128 -> Forall (fun p => utf8_valid p = true) ps -> utf8_valid (join [a] ps) = true.
Proof.
  intros Ha. induction 1 as [|p ps Hp _ IH]; [done|]. destruct ps as [|q ps]; [done|].
  change (join [a] (p :: q :: ps)) with (p ++ [a] ++ join [a] (q :: ps)).
  apply utf8_valid_app; [done|]. apply utf8_valid_app; [|done]. apply utf8_valid_ascii. by repeat constructor.
Qed.


(** ** Character boundaries *)

Lemma valid_head b t : utf8_valid (b :: t) = true -> is_cont b = false.
Proof.
  intros [cs H]%bool_decide_eq_true. destruct (first_char b t cs H) as (c & r & E & (_ & _ & _ & b' & t' & -> & Hb & _) & _).
  simpl in E. by injection E as -> _.
Qed.

(** Cutting valid text at a boundary gives valid text. *)
Lemma boundary_split s i :
  utf8_valid s = true -> is_char_boundary s i = true -> utf8_valid (take i s) = true /\ utf8_valid (drop i s) = true.
Proof.
  intros Hv. revert s Hv i.
  apply (valid_ind (fun s => forall i, is_char_boundary s i = true -> utf8_valid (take i s) = true /\ utf8_valid (drop i s) = true)).
  - intros i _. by rewrite take_nil, drop_nil.
  - intros c s Hc Hs IH i Hi. pose proof Hc as (Hv & _ & _ & b & t & -> & Hb & Ht).
    destruct (decide (i = 0)%nat) as [->|Hn]; [split; [done|by apply char_valid_app]|].
    destruct (decide (i < length (b :: t))%nat) as [Hl|Hl].
    + exfalso. destruct i as [|i]; [done|]. destruct (lookup_lt_is_Some_2 t i) as [x Hx]; [simpl in Hl; lia|].
      revert Hi. unfold is_char_boundary. simpl. rewrite (lookup_app_l_Some _ _ _ _ Hx).
      rewrite Forall_lookup in Ht. by rewrite (Ht i x Hx).
    + rewrite take_app_ge, drop_app_ge by lia. destruct (IH (i - length (b :: t))%nat) as [H1 H2].
      * revert Hi. unfold is_char_boundary. rewrite lookup_app_r, length_app by lia. intros [->%Nat.eqb_eq|H]%orb_true_iff; [done|].
        apply orb_true_iff. right. case_match; [done|]. apply Nat.eqb_eq in H. apply Nat.eqb_eq. lia.
      * split; [by apply char_valid_app|done].
Qed.

(** From a boundary the next one is at most four bytes away. *)
Lemma boundary_next s i :
  utf8_valid s = true -> is_char_boundary s i = true -> (i < length s)%nat ->
  exists k, (1 <= k <= 4)%nat /\ (i + k <= length s)%nat /\ is_char_boundary s (i + k) = true.
Proof.
  intros Hv Hi Hl. destruct (boundary_split s i Hv Hi) as [_ Hd]. destruct (drop i s) as [|b t] eqn:E.
  { apply (f_equal length) in E. rewrite length_drop in E. simpl in E. lia. }
  pose proof Hd as [cs H]%bool_decide_eq_true. destruct (first_char b t cs H) as (c & r & Ec & Hc & Hr & _).
  pose proof (f_equal length E) as El. rewrite Ec, length_drop, length_app in El. pose proof (char_nonempty c Hc) as Hn.
  exists (length c). pose proof Hc as (_ & _ & H4 & _).
  split_and!; [destruct c; simpl in *; [done|lia]|lia|lia|]. unfold is_char_boundary. apply orb_true_iff. right.
  rewrite <- lookup_drop, E, Ec, lookup_app_r, Nat.sub_diag by lia. destruct r as [|b' r]; simpl.
  - apply Nat.eqb_eq. simpl in El. lia.
  - rewrite (valid_head b' r); [done|]. by apply bool_decide_eq_true.
Qed.
