(* ===== verification/Cursor.v ===== *)
(** * Bounded byte cursors and lib0 variable-length integers

    [collab/wire.rs], [collab/y_sync.rs] and [collab/awareness.rs] each hold a
    copy of the same [Cursor] and the same [write_var_uint]; the copies differ
    only in their error type.  The model has one definition, over a class that
    names the two errors every copy raises. *)

From stdpp Require Import base list numbers.
From Stdlib Require Import ZArith Lia.
From S2P Require Import Prelude Text.

(** lib0 [readVarUint] refuses values above [Number.MAX_SAFE_INTEGER]. *)
Definition LIB0_MAX_SAFE_UINT : Z := Z.shiftl 1 53 - 1.

(** The errors a cursor raises by itself. *)
Class CursorError (E : Type) := {
  truncated : E;
  invalid_var_uint : E;
}.

(** [Cursor { input, pos }]; the limits of the source's field are arguments of
    the operations that read them. *)
Record cursor := Cursor { input : list byte; pos : nat }.

Definition cursor_new (i : list byte) : cursor := Cursor i 0.

(** [self.input.len().saturating_sub(self.pos)]. *)
Definition remaining (c : cursor) : nat := length (input c) - pos c.

Section cursor.
Context {E : Type} `{CursorError E}.

Abbreviation M := (stateE cursor E).

Definition read_byte : M byte := fun c =>
  match input c !! pos c with
  | None => Err truncated
  | Some b => Ok (b, Cursor (input c) (S (pos c)))
  end.

Definition read_exact (n : nat) : M (list byte) := fun c =>
  if (remaining c <? n)%nat then Err truncated
  else Ok (take n (drop (pos c) (input c)), Cursor (input c) (pos c + n)).

(** The [for _ in 0..10] loop, [k] iterations left. *)
Fixpoint read_var_uint_loop (k : nat) (result shift : Z) : M Z :=
  match k with
  | O => throw invalid_var_uint
  | S k' =>
    byte ← read_byte;
    let bits := Z.land (b2z byte) 0x7f in
    if (64 <=? shift) || (Z.shiftr u64_max shift <? bits) then throw invalid_var_uint
    else
      let result := Z.lor result (wrap 64 (Z.shiftl bits shift)) in
      if Z.land (b2z byte) 0x80 =? 0 then
        if LIB0_MAX_SAFE_UINT <? result then throw invalid_var_uint else mret result
      else read_var_uint_loop k' result (shift + 7)
  end.

Definition read_var_uint : M Z := read_var_uint_loop 10 0 0.

End cursor.

(** ** Writing *)

(** The bytes [write_var_uint] pushes for a [u64].  The loop shifts seven bits
    out per turn, so ten turns are enough for 64 bits ([write_loop_fuel]). *)
Fixpoint write_loop (fuel : nat) (remaining : Z) : list byte :=
  match fuel with
  | O => []
  | S f =>
    if remaining <? 0x80 then [z2b remaining]
    else z2b (Z.lor (Z.land (wrap 8 remaining) 0x7f) 0x80) :: write_loop f (Z.shiftr remaining 7)
  end.

(** [write_var_uint(out: &mut Vec<u8>, value: u64)]. *)
Definition write_var_uint (out : list byte) (value : Z) : list byte := out ++ write_loop 10 value.

(** [write_var_bytes(out, value)]. *)
Definition write_var_bytes (out : list byte) (value : list byte) : list byte :=
  write_var_uint out (len value) ++ value.

Definition varuint (value : Z) : list byte := write_loop 10 value.
Arguments varuint : simpl never.

(** A length prefix and the bytes it announces. *)
Definition string_bytes (s : list byte) : list byte := varuint (len s) ++ s.

Lemma write_var_bytes_eq out s : write_var_bytes out s = out ++ string_bytes s.
Proof. unfold write_var_bytes, write_var_uint, string_bytes, varuint. by rewrite <- app_assoc. Qed.

(** ** The cursor between what it read and what is left *)

(** A cursor that has read [pre] of [pre ++ suf]. *)
Definition at_split (pre suf : list byte) : cursor := Cursor (pre ++ suf) (length pre).

Lemma cursor_new_split l : cursor_new l = at_split [] l.
Proof. reflexivity. Qed.

Lemma remaining_split pre suf : remaining (at_split pre suf) = length suf.
Proof. unfold remaining. simpl. rewrite length_app. lia. Qed.

Lemma at_split_app pre used suf : at_split pre (used ++ suf) = Cursor ((pre ++ used) ++ suf) (length pre).
Proof. unfold at_split. by rewrite app_assoc. Qed.

Section read.
Context {E : Type} `{CursorError E}.

Lemma read_byte_split pre b suf :
  read_byte (at_split pre (b :: suf)) = Ok (b, at_split (pre ++ [b]) suf).
Proof.
  unfold read_byte, at_split; simpl. rewrite list_lookup_middle by done.
  rewrite <- app_assoc, length_app. simpl. do 3 f_equal. lia.
Qed.

Lemma read_byte_nil pre : read_byte (at_split pre []) = Err truncated.
Proof. unfold read_byte; simpl. by rewrite lookup_ge_None_2 by (rewrite length_app; simpl; lia). Qed.

Lemma read_exact_split pre used suf :
  read_exact (length used) (at_split pre (used ++ suf)) = Ok (used, at_split (pre ++ used) suf).
Proof.
  unfold read_exact. rewrite remaining_split, length_app.
  rewrite (proj2 (Nat.ltb_ge _ _)) by lia.
  simpl. rewrite drop_app_length, take_app_length.
  unfold at_split. rewrite length_app, <- app_assoc. done.
Qed.

Lemma read_exact_short pre suf n :
  (length suf < n)%nat -> read_exact n (at_split pre suf) = Err truncated.
Proof.
  intros. unfold read_exact. rewrite remaining_split. by rewrite (proj2 (Nat.ltb_lt _ _)).
Qed.

Lemma read_exact_Ok pre suf n l c :
  read_exact n (at_split pre suf) = Ok (l, c) ->
  exists suf', suf = l ++ suf' /\ length l = n /\ c = at_split (pre ++ l) suf'.
Proof.
  intros Hr. destruct (Nat.lt_ge_cases (length suf) n).
  { by rewrite read_exact_short in Hr. }
  pose proof (read_exact_split pre (take n suf) (drop n suf)) as Hs.
  rewrite take_drop, length_take, Nat.min_l in Hs by done.
  rewrite Hs in Hr. injection Hr as <- <-.
  exists (drop n suf). rewrite take_drop, length_take. split_and!; [done|lia|done].
Qed.

End read.

(** ** Lengths *)

Lemma write_loop_S f v :
  write_loop (S f) v =
  if v <? 0x80 then [z2b v]
  else z2b (Z.lor (Z.land (wrap 8 v) 0x7f) 0x80) :: write_loop f (Z.shiftr v 7).
Proof. reflexivity. Qed.

Arguments write_loop : simpl never.

Lemma write_loop_length_pos f v : (0 < f)%nat -> (0 < length (write_loop f v))%nat.
Proof. destruct f; [lia|]. rewrite write_loop_S. destruct (v <? 128); simpl; lia. Qed.

Lemma write_loop_length f v k :
  0 <= v < 128 ^ Z.of_nat k -> (0 < k)%nat -> (length (write_loop f v) <= k)%nat.
Proof.
  revert v k. induction f as [|f IH]; intros v k Hv Hk; [simpl; lia|]. rewrite write_loop_S.
  destruct (Z.ltb_spec v 128); simpl; [lia|].
  destruct k as [|[|k]]; [lia|simpl in Hv; lia|].
  rewrite Z.shiftr_div_pow2 by lia.
  apply le_n_S, IH; [|lia].
  rewrite (Nat2Z.inj_succ (S k)), Z.pow_succ_r in Hv by lia.
  split; [apply Z.div_pos; lia|apply Z.div_lt_upper_bound; lia].
Qed.

Lemma write_loop_fuel f g v :
  0 <= v < 128 ^ Z.of_nat f -> (0 < f)%nat -> (f <= g)%nat -> write_loop g v = write_loop f v.
Proof.
  revert g v. induction f as [|f IH]; intros g v Hv Hf Hg; [lia|].
  destruct g as [|g]; [lia|]. rewrite !write_loop_S.
  destruct (Z.ltb_spec v 128); [done|]. f_equal.
  destruct f as [|f]; [simpl in Hv; lia|].
  apply IH; [|lia|lia]. rewrite Z.shiftr_div_pow2 by lia.
  rewrite (Nat2Z.inj_succ (S f)), Z.pow_succ_r in Hv by lia.
  split; [apply Z.div_pos; lia|apply Z.div_lt_upper_bound; lia].
Qed.

Lemma varuint_length_pos v : (0 < length (varuint v))%nat.
Proof. apply write_loop_length_pos. lia. Qed.

Lemma varuint_small v : 0 <= v < 128 -> varuint v = [z2b v].
Proof. intros. unfold varuint. rewrite write_loop_S. by rewrite (proj2 (Z.ltb_lt _ _)) by lia. Qed.

(** ** Reading what was written *)

Lemma cont_byte v :
  let b := z2b (Z.lor (Z.land (wrap 8 v) 0x7f) 0x80) in
  Z.land (b2z b) 0x7f = v mod 128 /\ Z.land (b2z b) 0x80 = 0x80.
Proof.
  cbv zeta. rewrite !land_127.
  assert (Hm : wrap 8 v mod 128 = v mod 128).
  { unfold wrap. change (2 ^ 8) with (128 * 2). rewrite Z.rem_mul_r by lia.
    rewrite (Z.mul_comm 128), Z.mod_add by lia. by apply Z.mod_mod. }
  rewrite Hm. pose proof (Z.mod_pos_bound v 128 ltac:(lia)) as Hb.
  assert (Hl : Z.lor (v mod 128) 128 = v mod 128 + 128).
  { change 128 with (Z.shiftl 1 7) at 2. rewrite lor_shiftl_add; lia. }
  rewrite Hl, b2z_z2b_small by lia. split.
  - rewrite <- Z.add_mod_idemp_r by lia. change (128 mod 128) with 0.
    rewrite Z.add_0_r. apply Z.mod_small; lia.
  - rewrite <- Hl, Z.land_lor_distr_l. change (Z.land 128 128) with 128.
    assert (Z.land (v mod 128) 128 = 0) as ->; [|done].
    change 128 with (Z.shiftl 1 7) at 2.
    apply Z.bits_inj'; intros n Hn. rewrite Z.land_spec, Z.bits_0, Z.shiftl_spec by done.
    destruct (Z.lt_ge_cases n 7).
    + rewrite (Z.testbit_neg_r 1) by lia. apply andb_false_r.
    + change 128 with (2 ^ 7). rewrite Z.mod_pow2_bits_high by lia. done.
Qed.

Lemma small_byte v :
  0 <= v < 128 -> Z.land (b2z (z2b v)) 0x7f = v /\ Z.land (b2z (z2b v)) 0x80 = 0.
Proof.
  intros. rewrite b2z_z2b_small, land_127, Z.mod_small by lia. split; [done|].
  apply Z.bits_inj'; intros n Hn. rewrite Z.land_spec, Z.bits_0.
  change 0x80 with (2 ^ 7). destruct (decide (n = 7)) as [->|].
  - rewrite <- (Z.mod_small v (2 ^ 7)), Z.mod_pow2_bits_high by lia. done.
  - rewrite Z.pow2_bits_false by lia. apply andb_false_r.
Qed.

Section roundtrip.
Context {E : Type} `{CursorError E}.

Lemma read_loop_S (k : nat) (result shift : Z) :
  read_var_uint_loop (E:=E) (S k) result shift =
  (byte ← read_byte;
   let bits := Z.land (b2z byte) 0x7f in
   if (64 <=? shift) || (Z.shiftr u64_max shift <? bits) then throw invalid_var_uint
   else
     let result := Z.lor result (wrap 64 (Z.shiftl bits shift)) in
     if Z.land (b2z byte) 0x80 =? 0 then
       if LIB0_MAX_SAFE_UINT <? result then throw invalid_var_uint else mret result
     else read_var_uint_loop k result (shift + 7)).
Proof. reflexivity. Qed.

(** One turn of the reading loop on a byte whose bits still fit. *)
Lemma read_loop_step k res shift pre b suf :
  0 <= shift < 64 -> 0 <= res < 2 ^ shift ->
  Z.land (b2z b) 0x7f * 2 ^ shift <= u64_max ->
  read_var_uint_loop (E:=E) (S k) res shift (at_split pre (b :: suf)) =
  (let result := res + Z.land (b2z b) 0x7f * 2 ^ shift in
   if Z.land (b2z b) 0x80 =? 0 then
     if LIB0_MAX_SAFE_UINT <? result then Err invalid_var_uint
     else Ok (result, at_split (pre ++ [b]) suf)
   else read_var_uint_loop k result (shift + 7) (at_split (pre ++ [b]) suf)).
Proof.
  intros Hs Hr Hb. rewrite read_loop_S.
  unfold mbind, stateE_bind. rewrite read_byte_split.
  rewrite land_127 in *. pose proof (Z.mod_pos_bound (b2z b) 128 ltac:(lia)) as Hm.
  pose proof (Z.pow_pos_nonneg 2 shift ltac:(lia) ltac:(lia)) as Hp.
  assert (Hle : b2z b mod 128 <= Z.shiftr u64_max shift).
  { rewrite Z.shiftr_div_pow2 by lia. apply Z.div_le_lower_bound; lia. }
  cbv zeta. rewrite (proj2 (Z.leb_gt _ _)), (proj2 (Z.ltb_ge _ _)) by lia. simpl orb.
  rewrite wrap_small by (rewrite Z.shiftl_mul_pow2 by lia; unfold u64_max in *; lia).
  rewrite lor_shiftl_add by lia.
  destruct (Z.land (b2z b) 128 =? 0); [|done].
  by destruct (LIB0_MAX_SAFE_UINT <? _).
Qed.

Lemma read_loop_write f k pre suf v res shift :
  0 <= v < 128 ^ Z.of_nat f -> (0 < f <= k)%nat ->
  shift = 7 * (10 - Z.of_nat k) -> (k <= 10)%nat -> 0 <= res < 2 ^ shift ->
  res + v * 2 ^ shift <= LIB0_MAX_SAFE_UINT ->
  read_var_uint_loop (E:=E) k res shift (at_split pre (write_loop f v ++ suf)) =
  Ok (res + v * 2 ^ shift, at_split (pre ++ write_loop f v) suf).
Proof.
  revert k pre v res shift. induction f as [|f IH]; intros k pre v res shift Hv Hf Hs Hk Hr Hn; [lia|].
  destruct k as [|k]; [lia|].
  pose proof (Z.pow_pos_nonneg 2 shift ltac:(lia) ltac:(lia)) as Hp.
  assert (LIB0_MAX_SAFE_UINT <= u64_max) by done.
  rewrite write_loop_S. destruct (Z.ltb_spec v 128).
  - destruct (small_byte v ltac:(lia)) as [Hlo Hhi].
    simpl app at 1. rewrite read_loop_step by (rewrite ?Hlo; nia).
    rewrite Hlo, Hhi. cbv zeta. simpl. by rewrite (proj2 (Z.ltb_ge _ _)).
  - destruct (cont_byte v) as [Hlo Hhi].
    set (b := z2b _) in *. pose proof (Z.mod_pos_bound v 128 ltac:(lia)).
    pose proof (Z.div_mod v 128 ltac:(lia)).
    assert (Hd : Z.shiftr v 7 = v / 128) by (rewrite Z.shiftr_div_pow2; [done|lia]).
    simpl app at 1. rewrite read_loop_step by (rewrite ?Hlo; nia).
    rewrite Hlo, Hhi. cbv zeta. simpl (128 =? 0). cbv iota.
    assert (Hsplit : res + v mod 128 * 2 ^ shift + v / 128 * 2 ^ (shift + 7) = res + v * 2 ^ shift).
    { rewrite Z.pow_add_r by lia. change (2 ^ 7) with 128. nia. }
    destruct f as [|f]; [simpl in Hv; lia|].
    rewrite IH; rewrite ?Hd, ?Hsplit, <- ?app_assoc; [done|..]; try lia.
    + rewrite (Nat2Z.inj_succ (S f)), Z.pow_succ_r in Hv by lia.
      split; [apply Z.div_pos; lia|apply Z.div_lt_upper_bound; lia].
    + rewrite Z.pow_add_r by lia. change (2 ^ 7) with 128. nia.
Qed.

(** Reading a written integer gives it back and leaves the rest. *)
Lemma read_varuint pre suf v :
  0 <= v <= LIB0_MAX_SAFE_UINT ->
  read_var_uint (E:=E) (at_split pre (varuint v ++ suf)) = Ok (v, at_split (pre ++ varuint v) suf).
Proof.
  intros Hv. unfold read_var_uint, varuint.
  rewrite read_loop_write; [do 2 f_equal; lia|..]; try lia.
  assert (LIB0_MAX_SAFE_UINT < 128 ^ Z.of_nat 10) by done. lia.
Qed.

(** Every accepted integer: what was consumed is at least as long as the
    integer's own encoding. *)
Lemma read_loop_Ok k res shift pre suf n c :
  shift = 7 * (10 - Z.of_nat k) -> (k <= 10)%nat -> 0 <= res < 2 ^ shift ->
  read_var_uint_loop (E:=E) k res shift (at_split pre suf) = Ok (n, c) ->
  n <= LIB0_MAX_SAFE_UINT /\ exists used suf' w, suf = used ++ suf' /\ c = at_split (pre ++ used) suf' /\
    n = res + w * 2 ^ shift /\ 0 <= w < 128 ^ len used /\ (0 < length used <= k)%nat.
Proof.
  revert res shift pre suf. induction k as [|k IH]; intros res shift pre suf Hs Hk Hr Hok; [done|].
  pose proof (Z.pow_pos_nonneg 2 shift ltac:(lia) ltac:(lia)) as Hp.
  destruct suf as [|b suf].
  { rewrite read_loop_S in Hok. unfold mbind, stateE_bind in Hok. by rewrite read_byte_nil in Hok. }
  assert (Hb : Z.land (b2z b) 127 * 2 ^ shift <= u64_max).
  { rewrite read_loop_S in Hok. unfold mbind, stateE_bind in Hok. rewrite read_byte_split in Hok.
    cbv zeta in Hok. case_hyp Hok; [done|]. bool_to_prop.
    match goal with H : _ <= Z.shiftr _ _ |- _ => rewrite Z.shiftr_div_pow2 in H by lia end.
    pose proof (Z.mul_div_le u64_max (2 ^ shift) ltac:(lia)). nia. }
  rewrite read_loop_step in Hok by (done || lia). cbv zeta in Hok.
  rewrite land_127 in *. pose proof (Z.mod_pos_bound (b2z b) 128 ltac:(lia)) as Hm.
  destruct (Z.land (b2z b) 128 =? 0).
  - destruct (Z.ltb_spec LIB0_MAX_SAFE_UINT (res + b2z b mod 128 * 2 ^ shift)); [done|].
    injection Hok as <- <-. split; [done|]. exists [b], suf, (b2z b mod 128).
    change (len [b]) with 1. split_and!; try done; simpl; lia.
  - apply IH in Hok; [|lia|lia|rewrite Z.pow_add_r by lia; change (2 ^ 7) with 128; nia].
    destruct Hok as (Hn & used & suf' & w & -> & -> & -> & Hw & Hl).
    split; [done|]. exists (b :: used), suf', (b2z b mod 128 + w * 128).
    assert (128 ^ len (b :: used) = 128 * 128 ^ len used) as ->.
    { rewrite len_cons, Z.pow_add_r by (unfold len; lia). done. }
    rewrite <- app_assoc, Z.pow_add_r by lia. change (2 ^ 7) with 128.
    split_and!; try done; simpl length; lia.
Qed.

Lemma read_var_uint_Ok pre suf n c :
  read_var_uint (E:=E) (at_split pre suf) = Ok (n, c) ->
  0 <= n <= LIB0_MAX_SAFE_UINT /\ exists used suf', suf = used ++ suf' /\
    c = at_split (pre ++ used) suf' /\ (length (varuint n) <= length used <= 10)%nat.
Proof.
  intros Hok. apply read_loop_Ok in Hok; [|done|lia|done].
  destruct Hok as (Hn & used & suf' & w & -> & -> & -> & Hw & Hl).
  rewrite Z.pow_0_r, Z.mul_1_r, Z.add_0_l in *. split; [lia|].
  exists used, suf'. split_and!; try done; [|lia].
  apply write_loop_length; [done|lia].
Qed.

End roundtrip.

(** ** Local readers

    [reads m used x]: wherever the cursor stands, if [used] comes next then
    [m] consumes exactly [used] and returns [x].  A reader is [Local] when
    every success is of that form: it depends on nothing before its position
    and on nothing after what it consumed. *)

Section local.
Context {E : Type} `{CursorError E}.

Definition reads {A} (m : stateE cursor E A) (used : list byte) (x : A) : Prop :=
  forall pre suf, m (at_split pre (used ++ suf)) = Ok (x, at_split (pre ++ used) suf).

Class Local {A} (m : stateE cursor E A) : Prop :=
  local_reads : forall pre suf x c, m (at_split pre suf) = Ok (x, c) ->
    exists used suf', suf = used ++ suf' /\ c = at_split (pre ++ used) suf' /\ reads m used x.

Lemma reads_ret {A} (x : A) : reads (mret x) [] x.
Proof. intros pre suf. by rewrite app_nil_r. Qed.

Lemma reads_lift {A} (x : A) : reads (lift (Ok x)) [] x.
Proof. intros pre suf. by rewrite app_nil_r. Qed.

Lemma reads_bind {A B} (m : stateE cursor E A) (k : A -> stateE cursor E B) u1 u2 x y :
  reads m u1 x -> reads (k x) u2 y -> reads (m ≫= k) (u1 ++ u2) y.
Proof.
  intros Hm Hk pre suf. unfold mbind, stateE_bind.
  rewrite <- app_assoc, Hm, Hk. by rewrite app_assoc.
Qed.

(** A bind whose second half reads nothing. *)
Lemma reads_bind_r {A B} (m : stateE cursor E A) (k : A -> stateE cursor E B) u x y :
  reads m u x -> reads (k x) [] y -> reads (m ≫= k) u y.
Proof. intros. rewrite <- (app_nil_r u). eauto using reads_bind. Qed.

(** A bind whose first half reads nothing. *)
Lemma reads_bind_l {A B} (m : stateE cursor E A) (k : A -> stateE cursor E B) u x y :
  reads m [] x -> reads (k x) u y -> reads (m ≫= k) u y.
Proof. intros. change u with ([] ++ u). eauto using reads_bind. Qed.

Lemma reads_varuint v : 0 <= v <= LIB0_MAX_SAFE_UINT -> reads read_var_uint (varuint v) v.
Proof. intros Hv pre suf. by apply read_varuint. Qed.

Lemma reads_exact l : reads (read_exact (length l)) l l.
Proof. intros pre suf. apply read_exact_split. Qed.

#[export] Instance Local_ret {A} (x : A) : Local (mret x).
Proof.
  intros pre suf y c [= <- <-]. exists [], suf. rewrite app_nil_r. split_and!; auto using reads_ret.
Qed.

#[export] Instance Local_lift {A} (r : result E A) : Local (lift r).
Proof.
  intros pre suf y c Hok. destruct r as [x|e]; [|done]. injection Hok as <- <-.
  exists [], suf. rewrite app_nil_r. split_and!; auto using reads_lift.
Qed.

#[export] Instance Local_throw {A} (e : E) : Local (throw (A:=A) e).
Proof. by intros ????. Qed.

#[export] Instance Local_bind {A B} (m : stateE cursor E A) (k : A -> stateE cursor E B) :
  Local m -> (forall x, Local (k x)) -> Local (m ≫= k).
Proof.
  intros Hm Hk pre suf y c Hok. unfold mbind, stateE_bind in Hok.
  destruct (m (at_split pre suf)) as [[x c1]|] eqn:E1; [|done].
  apply Hm in E1 as (u1 & s1 & -> & -> & Hr1).
  apply Hk in Hok as (u2 & s2 & -> & -> & Hr2).
  exists (u1 ++ u2), s2. rewrite !app_assoc. split_and!; eauto using reads_bind.
Qed.

#[export] Instance Local_read_byte : Local read_byte.
Proof.
  intros pre [|b suf] x c Hok; [by rewrite read_byte_nil in Hok|].
  rewrite read_byte_split in Hok. injection Hok as <- <-.
  exists [b], suf. split_and!; [done..|]. intros p s. apply read_byte_split.
Qed.

#[export] Instance Local_read_exact n : Local (read_exact n).
Proof.
  intros pre suf x c Hok. apply read_exact_Ok in Hok as (suf' & -> & <- & ->).
  exists x, suf'. split_and!; auto using reads_exact.
Qed.

#[export] Instance Local_read_loop k res shift : Local (read_var_uint_loop k res shift).
Proof.
  revert res shift. induction k as [|k IH]; intros res shift; [apply Local_throw|].
  rewrite read_loop_S. apply Local_bind; [apply Local_read_byte|intros b]. cbv zeta.
  destruct (_ || _); [apply Local_throw|].
  destruct (_ =? 0); [|apply IH].
  destruct (_ <? _); [apply Local_throw|apply Local_ret].
Qed.

#[export] Instance Local_read_var_uint : Local read_var_uint.
Proof. apply Local_read_loop. Qed.

(** An accepted integer, its bounds, and the bytes it was read from. *)
Lemma read_var_uint_inv pre suf n c :
  read_var_uint (at_split pre suf) = Ok (n, c) ->
  exists used suf', suf = used ++ suf' /\ c = at_split (pre ++ used) suf' /\
    reads read_var_uint used n /\ 0 <= n <= LIB0_MAX_SAFE_UINT /\ len (varuint n) <= len used.
Proof.
  intros Hok. pose proof (read_var_uint_Ok _ _ _ _ Hok) as (Hn & u & s & -> & -> & Hl).
  apply Local_read_var_uint in Hok as (u' & s' & Heq & Hc & Hr).
  assert (u' = u /\ s' = s) as [-> ->].
  { injection Hc as Happ Hlen. rewrite !length_app in Hlen.
    apply app_inj_1 in Heq; [naive_solver|lia]. }
  exists u, s. unfold len. split_and!; try done; lia.
Qed.

End local.

(** ** Independence of the error type

    The three copies of the cursor accept the same inputs with the same
    results. *)

Section two_errors.
Context {E1 E2 : Type} `{CursorError E1, CursorError E2}.

Definition same_ok {A} (m1 : stateE cursor E1 A) (m2 : stateE cursor E2 A) : Prop :=
  forall c r, m1 c = Ok r -> m2 c = Ok r.

Lemma same_ok_bind {A B} (m1 : stateE cursor E1 A) (m2 : stateE cursor E2 A) (k1 : A -> stateE cursor E1 B) k2 :
  same_ok m1 m2 -> (forall x, same_ok (k1 x) (k2 x)) -> same_ok (m1 ≫= k1) (m2 ≫= k2).
Proof.
  intros Hm Hk c r. unfold mbind, stateE_bind.
  destruct (m1 c) as [[x c']|] eqn:E; [|done]. rewrite (Hm _ _ E). apply Hk.
Qed.

Lemma same_ok_byte : same_ok read_byte read_byte.
Proof. intros c r. unfold read_byte. destruct (input c !! pos c); [by intros [= <-]|done]. Qed.

Lemma same_ok_exact n : same_ok (read_exact n) (read_exact n).
Proof. intros c r. unfold read_exact. destruct (remaining c <? n)%nat; [done|by intros [= <-]]. Qed.

Lemma same_ok_loop k res shift : same_ok (read_var_uint_loop k res shift) (read_var_uint_loop k res shift).
Proof.
  revert res shift. induction k as [|k IH]; intros res shift; [by intros c r|].
  rewrite !read_loop_S. apply same_ok_bind; [apply same_ok_byte|intros b]. cbv zeta.
  destruct (_ || _); [by intros c r|]. destruct (_ =? 0); [|apply IH].
  destruct (_ <? _); [by intros c r|by intros c r [= <-]].
Qed.

Lemma same_ok_var_uint : same_ok read_var_uint read_var_uint.
Proof. apply same_ok_loop. Qed.

End two_errors.
