(* ===== verification/Uuid.v ===== *)
(** * The [uuid] crate

    The server parses and prints identifiers with the third-party [uuid]
    crate.  [UuidLib] names the operations the components use and [UuidLaws]
    what they rely on, as the crate documents it.  [uuid128] is a concrete
    instance of both: a 128-bit number printed as 8-4-4-4-12 lowercase hex. *)

From stdpp Require Import base list numbers strings gmap proof_irrel.
From Stdlib Require Import ZArith Lia.
From S2P Require Import Prelude Text.

Class UuidLib := {
  uuid : Type;
  uuid_eq_dec :: EqDecision uuid;
  uuid_countable :: Countable uuid;
  (** [Uuid::try_parse] and [Uuid::parse_str]. *)
  try_parse : str -> option uuid;
  (** [Display], the hyphenated form. *)
  hyphenated : uuid -> str;
  (** [Uuid::as_simple], displayed. *)
  simple : uuid -> str;
  (** [Uuid::as_u128]; [Ord] on identifiers is the order of this number. *)
  as_u128 : uuid -> Z;
}.

(** Lowercase hexadecimal digits and the hyphen. *)
Definition is_lower_hex (b : byte) : bool :=
  in_range 48 57 (b2z b) || in_range 97 102 (b2z b).
Definition uuid_char (b : byte) : bool := is_lower_hex b || bool_decide (b = Byte.x2d).

Class UuidLaws (L : UuidLib) : Prop := {
  try_parse_hyphenated (u : uuid) : try_parse (hyphenated u) = Some u;
  hyphenated_length (u : uuid) : length (hyphenated u) = 36%nat;
  hyphenated_chars (u : uuid) : Forall (fun b => uuid_char b = true) (hyphenated u);
  simple_length (u : uuid) : length (simple u) = 32%nat;
  simple_chars (u : uuid) : Forall (fun b => is_lower_hex b = true) (simple u);
  as_u128_inj (u v : uuid) : as_u128 u = as_u128 v -> u = v;
  as_u128_range (u : uuid) : 0 <= as_u128 u < 2 ^ 128;
}.

(** ** A concrete instance *)

Definition hex_char (d : Z) : byte := z2b (if d <? 10 then 48 + d else 87 + d).

Definition hex_val (b : byte) : option Z :=
  let z := b2z b in
  if in_range 48 57 z then Some (z - 48)
  else if in_range 97 102 z then Some (z - 87)
  else if in_range 65 70 z then Some (z - 55)
  else None.

(** [hex::encode] and [hex::decode]. *)
Definition hex_encode (b : list byte) : str := b ≫= fun b => [hex_char (b2z b / 16); hex_char (b2z b mod 16)].
Fixpoint hex_decode (s : str) : option (list byte) :=
  match s with
  | [] => Some []
  | [_] => None
  | h :: l :: rest => hi ← hex_val h; lo ← hex_val l; t ← hex_decode rest; Some (z2b (16 * hi + lo) :: t)
  end.

(** The low [n] hexadecimal digits of [z], most significant first. *)
Fixpoint hex_digits (n : nat) (z : Z) : list Z :=
  match n with
  | O => []
  | S n' => z / 16 ^ Z.of_nat n' mod 16 :: hex_digits n' z
  end.

Definition of_digits (ds : list Z) : Z := foldl (fun acc d => acc * 16 + d) 0 ds.

Record uuid128 := Uuid128 {
  u128 : Z;
  u128_ok : bool_decide (0 <= u128 < 2 ^ 128) = true;
}.

Definition uuid128_of (z : Z) : option uuid128 :=
  match decide (bool_decide (0 <= z < 2 ^ 128) = true) with
  | left p => Some (Uuid128 z p)
  | right _ => None
  end.

Definition hyphen : byte := Byte.x2d.

Definition group_hex (cs : str) : str :=
  take 8 cs ++ hyphen :: take 4 (drop 8 cs) ++ hyphen :: take 4 (drop 12 cs) ++
  hyphen :: take 4 (drop 16 cs) ++ hyphen :: drop 20 cs.

Definition uuid128_print (u : uuid128) : str := group_hex (hex_char <$> hex_digits 32 (u128 u)).

Definition ungroup_hex (s : str) : str :=
  take 8 s ++ take 4 (drop 9 s) ++ take 4 (drop 14 s) ++ take 4 (drop 19 s) ++ drop 24 s.

Definition uuid128_parse (s : str) : option uuid128 :=
  if bool_decide (length s = 36%nat /\ Forall (fun i => s !! i = Some hyphen) [8; 13; 18; 23]%nat)
  then ds ← mapM hex_val (ungroup_hex s); uuid128_of (of_digits ds)
  else None.

#[export] Instance uuid128_eq_dec : EqDecision uuid128.
Proof.
  intros [a Ha] [b Hb]. destruct (decide (a = b)) as [->|Hne].
  - left. f_equal. apply proof_irrel.
  - right. congruence.
Defined.

Lemma uuid128_of_val u : uuid128_of (u128 u) = Some u.
Proof.
  destruct u as [z p]. unfold uuid128_of; simpl.
  destruct (decide _) as [q|q]; [|contradiction]. do 2 f_equal. apply proof_irrel.
Qed.

#[export] Instance uuid128_countable : Countable uuid128 :=
  inj_countable u128 uuid128_of uuid128_of_val.

#[export] Instance uuid128_lib : UuidLib := {|
  uuid := uuid128;
  try_parse := uuid128_parse;
  hyphenated := uuid128_print;
  simple u := hex_char <$> hex_digits 32 (u128 u);
  as_u128 := u128;
|}.

Lemma in_range_true lo hi z : lo <= z <= hi -> in_range lo hi z = true.
Proof. intros. unfold in_range. apply andb_true_iff; split; apply Z.leb_le; lia. Qed.

Lemma in_range_false lo hi z : z < lo \/ hi < z -> in_range lo hi z = false.
Proof. intros. unfold in_range. apply andb_false_iff. rewrite !Z.leb_gt. lia. Qed.

Lemma hex_char_val d : 0 <= d < 16 -> hex_val (hex_char d) = Some d.
Proof.
  intros Hd. unfold hex_val, hex_char.
  destruct (Z.ltb_spec d 10); rewrite b2z_z2b_small by lia.
  - rewrite in_range_true by lia. f_equal. lia.
  - rewrite in_range_false, in_range_true by lia. f_equal. lia.
Qed.

Lemma hex_nibbles b : (0 <= b2z b / 16 < 16) /\ (0 <= b2z b mod 16 < 16).
Proof.
  pose proof (b2z_range b). split; [|apply Z.mod_pos_bound; lia].
  split; [apply Z.div_pos; lia|apply Z.div_lt_upper_bound; lia].
Qed.

Lemma hex_decode_encode b : hex_decode (hex_encode b) = Some b.
Proof.
  induction b as [|x b IH]; [done|]. unfold hex_encode in *. rewrite bind_cons. cbn [app hex_decode].
  destruct (hex_nibbles x). rewrite !hex_char_val by done. cbn [mbind option_bind]. rewrite IH. cbn [mbind option_bind].
  rewrite <- Z.div_mod by lia. by rewrite z2b_b2z.
Qed.

Lemma hex_encode_inj b b' : hex_encode b = hex_encode b' -> b = b'.
Proof. intros E. apply (f_equal hex_decode) in E. rewrite !hex_decode_encode in E. by injection E. Qed.

Lemma hex_char_lower d : 0 <= d < 16 -> is_lower_hex (hex_char d) = true.
Proof.
  intros Hd. unfold is_lower_hex, hex_char.
  destruct (Z.ltb_spec d 10); rewrite b2z_z2b_small by lia.
  - by rewrite in_range_true by lia.
  - rewrite (in_range_true 97) by lia. apply orb_true_r.
Qed.

Lemma hex_digits_length n z : length (hex_digits n z) = n.
Proof. induction n; simpl; auto. Qed.

Lemma hex_digits_range n z : Forall (fun d => 0 <= d < 16) (hex_digits n z).
Proof. induction n; simpl; constructor; [apply Z.mod_pos_bound; lia|done]. Qed.

Lemma of_digits_hex n z acc :
  foldl (fun a d => a * 16 + d) acc (hex_digits n z) = acc * 16 ^ Z.of_nat n + z mod 16 ^ Z.of_nat n.
Proof.
  revert acc. induction n as [|n IH]; intros acc; simpl.
  - rewrite Z.pow_0_r, Z.mod_1_r. lia.
  - rewrite IH. change (Z.pos (Pos.of_succ_nat n)) with (Z.of_nat (S n)).
    rewrite Nat2Z.inj_succ, Z.pow_succ_r by lia.
    rewrite (Z.mul_comm 16), Z.rem_mul_r by lia. lia.
Qed.

Lemma of_digits_eq n z : of_digits (hex_digits n z) = z mod 16 ^ Z.of_nat n.
Proof. unfold of_digits. rewrite of_digits_hex. lia. Qed.

Lemma mapM_hex ds : Forall (fun d => 0 <= d < 16) ds -> mapM hex_val (hex_char <$> ds) = Some ds.
Proof.
  induction 1 as [|d ds Hd _ IH]; [done|].
  rewrite fmap_cons. simpl mapM. rewrite hex_char_val by done. simpl mbind.
  by rewrite IH.
Qed.

(** Grouping 32 characters and reading the groups back. *)
Lemma ungroup_group (cs : str) :
  length cs = 32%nat ->
  ungroup_hex (group_hex cs) = cs /\ length (group_hex cs) = 36%nat /\
  Forall (fun i => group_hex cs !! i = Some hyphen) [8; 13; 18; 23]%nat.
Proof.
  intros Hl. do 32 (destruct cs as [|? cs]; [done|]). destruct cs; [|done].
  split_and!; [done..|]. by repeat constructor.
Qed.

Lemma group_hex_Forall (P : byte -> Prop) cs : P hyphen -> Forall P cs -> Forall P (group_hex cs).
Proof.
  intros Hh Hc. unfold group_hex.
  repeat (rewrite Forall_app || rewrite Forall_cons_iff). split_and!;
    eauto using Forall_take, Forall_drop.
Qed.

#[export] Instance uuid128_laws : UuidLaws uuid128_lib.
Proof.
  assert (Hl : forall z, length (hex_char <$> hex_digits 32 z) = 32%nat).
  { intros z. by rewrite length_fmap, hex_digits_length. }
  split.
  - intros u. change (uuid128_parse (uuid128_print u) = Some u). destruct (ungroup_group _ (Hl (u128 u))) as (Hu & Hg & Hh).
    unfold uuid128_parse, uuid128_print. rewrite bool_decide_true by done.
    rewrite Hu, mapM_hex by apply hex_digits_range. cbn [mbind option_bind].
    rewrite of_digits_eq, Z.mod_small; [apply uuid128_of_val|].
    pose proof (u128_ok u) as Hok. by apply bool_decide_eq_true in Hok.
  - intros u. apply (ungroup_group _ (Hl _)).
  - intros u. apply (group_hex_Forall (fun b => uuid_char b = true)); [done|]. apply Forall_fmap.
    eapply Forall_mono; [|apply (hex_digits_range 32 (u128 u))]. intros d Hd. simpl.
    unfold uuid_char. by rewrite hex_char_lower.
  - intros u. apply Hl.
  - intros u. apply Forall_fmap. eapply Forall_mono; [|apply (hex_digits_range 32 (u128 u))].
    intros d. apply hex_char_lower.
  - intros [a Ha] [b Hb]; simpl; intros ->. f_equal. apply proof_irrel.
  - intros [a Ha]. exact (bool_decide_eq_true_1 _ Ha).
Qed.

Lemma uuid_char_not b c : uuid_char b = true -> uuid_char c = false -> b <> c.
Proof. congruence. Qed.
