(* ===== verification/Wire.v ===== *)
(** * The Hocuspocus wire codec ([src/collab/wire.rs])

    One WebSocket frame is either a connection-level [Ping]/[Pong] byte or a
    document frame [varString(routingKey) + varUint(type) + payload].  The
    file models the whole codec: limits, message types, room names, decoder
    and encoder, with every error path. *)

From stdpp Require Import base list numbers strings gmap.
From Stdlib Require Import ZArith Lia.
From S2P Require Import Prelude Text Cursor Uuid.

(** ** Limits *)

Record Limits := {
  max_frame_bytes : Z;
  max_routing_key_bytes : Z;
  max_string_bytes : Z;
  max_binary_payload_bytes : Z;
}.

Definition DEFAULT : Limits := {|
  max_frame_bytes := 8 * 1048576;
  max_routing_key_bytes := 512;
  max_string_bytes := 65536;
  max_binary_payload_bytes := 8 * 1048576;
|}.

(** ** Message types *)

Inductive MessageType :=
| MSync | MAwareness | MAuth | MQueryAwareness | MStateless | MClose | MSyncStatus | MPing | MPong.

#[export] Instance MessageType_eq_dec : EqDecision MessageType.
Proof. solve_decision. Defined.

Definition MessageType_from_u64 (value : Z) : option MessageType :=
  match value with
  | 0 => Some MSync
  | 1 => Some MAwareness
  | 2 => Some MAuth
  | 3 => Some MQueryAwareness
  | 5 => Some MStateless
  | 7 => Some MClose
  | 8 => Some MSyncStatus
  | 9 => Some MPing
  | 10 => Some MPong
  | _ => None
  end.

Definition MessageType_as_u64 (m : MessageType) : Z :=
  match m with
  | MSync => 0 | MAwareness => 1 | MAuth => 2 | MQueryAwareness => 3 | MStateless => 5
  | MClose => 7 | MSyncStatus => 8 | MPing => 9 | MPong => 10
  end.

Inductive AuthMessageType := AToken | APermissionDenied | AAuthenticated.

Definition AuthMessageType_from_u64 (value : Z) : option AuthMessageType :=
  match value with
  | 0 => Some AToken
  | 1 => Some APermissionDenied
  | 2 => Some AAuthenticated
  | _ => None
  end.

Definition AuthMessageType_as_u64 (m : AuthMessageType) : Z :=
  match m with AToken => 0 | APermissionDenied => 1 | AAuthenticated => 2 end.

Inductive SyncStep := Step1 | Step2 | Update.

#[export] Instance SyncStep_eq_dec : EqDecision SyncStep.
Proof. solve_decision. Defined.

Definition SyncStep_from_u64 (value : Z) : option SyncStep :=
  match value with
  | 0 => Some Step1
  | 1 => Some Step2
  | 2 => Some Update
  | _ => None
  end.

(** The discriminant of the Rust enum. *)
Definition SyncStep_as_u64 (s : SyncStep) : Z :=
  match s with Step1 => 0 | Step2 => 1 | Update => 2 end.

(** ** Errors *)

Inductive WireError :=
| EmptyFrame
| FrameTooLarge (size max : Z)
| Truncated
| Utf8
| RoutingKeyTooLong (size max : Z)
| StringTooLong (size max : Z)
| BinaryTooLong (size max : Z)
| UnknownMessageType (value : Z)
| UnknownAuthMessageType (value : Z)
| UnknownSyncStep (value : Z)
| InvalidVarUint
| DocumentPingNotAllowed
| DocumentPongNotAllowed.

#[export] Instance WireError_eq_dec : EqDecision WireError.
Proof. solve_decision. Defined.

#[export] Instance WireError_cursor : CursorError WireError :=
  {| truncated := Truncated; invalid_var_uint := InvalidVarUint |}.

(** ** Room names *)

Inductive CollabKind := Document | Task.

#[export] Instance CollabKind_eq_dec : EqDecision CollabKind.
Proof. solve_decision. Defined.

Definition colon : byte := Byte.x3a.

Section wire.
Context {UL : UuidLib}.

Record CollabRoomName := {
  workspace_id : uuid;
  kind : CollabKind;
  resource_id : uuid;
}.

#[export] Instance CollabRoomName_eq_dec : EqDecision CollabRoomName.
Proof. solve_decision. Defined.

Definition parse_source_uuid (value : str) : option uuid :=
  if bool_decide (length value = 36%nat) then try_parse value else None.

Definition parse_kind (kind : str) : option CollabKind :=
  if bool_decide (kind = bs "document") then Some Document
  else if bool_decide (kind = bs "task") then Some Task
  else None.

(** [CollabRoomName::parse]: the three [parts.next()?] and the test that there
    is no fourth part are the match on the list of parts. *)
Definition parse (name : str) : option CollabRoomName :=
  match split colon name with
  | [ws; kd; res] =>
    if bool_decide (ws = []) || bool_decide (kd = []) || bool_decide (res = []) then None
    else
      kind ← parse_kind kd;
      workspace_id ← parse_source_uuid ws;
      resource_id ← parse_source_uuid res;
      Some {| workspace_id := workspace_id; kind := kind; resource_id := resource_id |}
  | _ => None
  end.

Definition routing_key (r : CollabRoomName) : str :=
  let kind := match kind r with Document => bs "document" | Task => bs "task" end in
  hyphenated (workspace_id r) ++ colon :: kind ++ colon :: hyphenated (resource_id r).

(** ** Frames *)

Inductive ConnectionMessage := CPing | CPong.

Record SyncMessage := { step : SyncStep; y_protocol : list byte }.

Inductive AuthMessage :=
| Token (token : str) (provider_version : option str)
| TokenRequest
| PermissionDenied (reason : str)
| Authenticated (scope : str).

Inductive DocumentMessage :=
| DSync (m : SyncMessage)
| DAwareness (payload : list byte)
| DAuth (m : AuthMessage)
| DQueryAwareness
| DStateless (payload : str)
| DClose (reason : option str)
| DSyncStatus (applied : bool).

Inductive WireFrame :=
| FConnection (m : ConnectionMessage)
| FDocument (routing_key : str) (room : option CollabRoomName) (message : DocumentMessage).

#[export] Instance SyncMessage_eq_dec : EqDecision SyncMessage.
Proof. solve_decision. Defined.
#[export] Instance AuthMessage_eq_dec : EqDecision AuthMessage.
Proof. solve_decision. Defined.
#[export] Instance ConnectionMessage_eq_dec : EqDecision ConnectionMessage.
Proof. solve_decision. Defined.
#[export] Instance DocumentMessage_eq_dec : EqDecision DocumentMessage.
Proof. solve_decision. Defined.
#[export] Instance WireFrame_eq_dec : EqDecision WireFrame.
Proof. solve_decision. Defined.

(** ** Decoding *)

Section decode.
Context (limits : Limits).

Abbreviation D := (stateE cursor WireError).

(** [Cursor::bounded_len]; on a 64-bit target [usize::try_from] keeps every
    [u64]. *)
Definition bounded_len (n max : Z) : result Z Z :=
  if n <=? u64_max then if n <=? max then Ok n else Err n else Err u64_max.

Definition read_var_string : D str :=
  n ← read_var_uint;
  n ← lift (map_err (fun size => StringTooLong size (max_string_bytes limits))
                    (bounded_len n (max_string_bytes limits)));
  bytes ← read_exact (Z.to_nat n);
  lift (ok_or (from_utf8 bytes) Utf8).

Definition read_var_bytes : D (list byte) :=
  n ← read_var_uint;
  n ← lift (map_err (fun size => BinaryTooLong size (max_binary_payload_bytes limits))
                    (bounded_len n (max_binary_payload_bytes limits)));
  read_exact (Z.to_nat n).

Definition decode_sync_payload : D SyncMessage :=
  start ← gets pos;
  step_value ← read_var_uint;
  step ← lift (ok_or (SyncStep_from_u64 step_value) (UnknownSyncStep step_value));
  _payload ← read_var_bytes;
  y ← gets (fun c => take (pos c - start) (drop start (input c)));
  mret {| step := step; y_protocol := y |}.

(** [if cursor.remaining() > 0 { return Err(Truncated) }] *)
Definition expect_end : D unit := fun c =>
  if (0 <? remaining c)%nat then Err Truncated else Ok (tt, c).

Definition read_optional_string : D (option str) :=
  r ← gets remaining;
  if (0 <? r)%nat then s ← read_var_string; mret (Some s) else mret None.

Definition decode_auth : D AuthMessage :=
  auth_value ← read_var_uint;
  auth_type ← lift (ok_or (AuthMessageType_from_u64 auth_value) (UnknownAuthMessageType auth_value));
  match auth_type with
  | AToken =>
    r ← gets remaining;
    if (r =? 0)%nat then mret TokenRequest
    else
      token ← read_var_string;
      provider_version ← read_optional_string;
      _ ← expect_end;
      mret (Token token provider_version)
  | APermissionDenied =>
    reason ← read_var_string; _ ← expect_end; mret (PermissionDenied reason)
  | AAuthenticated =>
    scope ← read_var_string; _ ← expect_end; mret (Authenticated scope)
  end.

Definition nul : byte := Byte.x00.

(** [routing_key_base]: the document name is before the first NUL. *)
Definition routing_key_base (key : str) : str :=
  match split_once nul key with Some (document_name, _) => document_name | None => key end.

(** The [match message_type] of [decode_with_limits]. *)
Definition decode_message (t : MessageType) : D DocumentMessage :=
  match t with
  | MPing => throw DocumentPingNotAllowed
  | MPong => throw DocumentPongNotAllowed
  | MSync => m ← decode_sync_payload; mret (DSync m)
  | MAwareness => p ← read_var_bytes; mret (DAwareness p)
  | MAuth => m ← decode_auth; mret (DAuth m)
  | MQueryAwareness => _ ← expect_end; mret DQueryAwareness
  | MStateless => s ← read_var_string; mret (DStateless s)
  | MClose => reason ← read_optional_string; _ ← expect_end; mret (DClose reason)
  | MSyncStatus => v ← read_var_uint; _ ← expect_end; mret (DSyncStatus (v =? 1))
  end.

Definition decode_document : D WireFrame :=
  routing_key ← read_var_string;
  if max_routing_key_bytes limits <? len routing_key then
    throw (RoutingKeyTooLong (len routing_key) (max_routing_key_bytes limits))
  else
    type_value ← read_var_uint;
    message_type ← lift (ok_or (MessageType_from_u64 type_value) (UnknownMessageType type_value));
    let room := parse (routing_key_base routing_key) in
    message ← decode_message message_type;
    _ ← expect_end;
    mret (FDocument routing_key room message).

Definition decode_with_limits (i : list byte) : result WireError WireFrame :=
  if bool_decide (i = []) then Err EmptyFrame
  else if max_frame_bytes limits <? len i then Err (FrameTooLarge (len i) (max_frame_bytes limits))
  else if bool_decide (i = [z2b (MessageType_as_u64 MPing)]) then Ok (FConnection CPing)
  else if bool_decide (i = [z2b (MessageType_as_u64 MPong)]) then Ok (FConnection CPong)
  else fst <$> decode_document (cursor_new i).

(** ** Encoding *)

(** [Encoder]: the state is [out]; its limits are the section's. *)
Abbreviation W := (stateE (list byte) WireError).

Definition ensure_frame_capacity (additional : Z) : W unit := fun out =>
  if max_frame_bytes limits <? len out + additional
  then Err (FrameTooLarge (len out + additional) (max_frame_bytes limits))
  else Ok (tt, out).

Definition push (l : list byte) : W unit := fun out => Ok (tt, out ++ l).

(** The [loop] of [Encoder::write_var_uint]; a [u64] needs at most ten turns
    ([enc_var_uint_spec] shows that ten are enough). *)
Fixpoint enc_var_uint_loop (fuel : nat) (remaining : Z) : W unit :=
  match fuel with
  | O => mret tt
  | S f =>
    _ ← ensure_frame_capacity 1;
    if remaining <? 0x80 then push [z2b remaining]
    else
      _ ← push [z2b (Z.lor (Z.land (wrap 8 remaining) 0x7f) 0x80)];
      enc_var_uint_loop f (Z.shiftr remaining 7)
  end.

Definition enc_var_uint (value : Z) : W unit := enc_var_uint_loop 10 value.

Definition enc_raw (value : list byte) : W unit :=
  _ ← ensure_frame_capacity (len value); push value.

Definition enc_var_string (value : str) : W unit :=
  if max_string_bytes limits <? len value
  then throw (StringTooLong (len value) (max_string_bytes limits))
  else _ ← enc_var_uint (len value); enc_raw value.

Definition enc_var_bytes (value : list byte) : W unit :=
  if max_binary_payload_bytes limits <? len value
  then throw (BinaryTooLong (len value) (max_binary_payload_bytes limits))
  else _ ← enc_var_uint (len value); enc_raw value.

Definition encode_auth (m : AuthMessage) : W unit :=
  match m with
  | Token token provider_version =>
    _ ← enc_var_uint (AuthMessageType_as_u64 AToken);
    _ ← enc_var_string token;
    match provider_version with Some version => enc_var_string version | None => mret tt end
  | TokenRequest => enc_var_uint (AuthMessageType_as_u64 AToken)
  | PermissionDenied reason =>
    _ ← enc_var_uint (AuthMessageType_as_u64 APermissionDenied); enc_var_string reason
  | Authenticated scope =>
    _ ← enc_var_uint (AuthMessageType_as_u64 AAuthenticated); enc_var_string scope
  end.

Definition encode_message (m : DocumentMessage) : W unit :=
  match m with
  | DSync sync => _ ← enc_var_uint (MessageType_as_u64 MSync); enc_raw (y_protocol sync)
  | DAwareness payload => _ ← enc_var_uint (MessageType_as_u64 MAwareness); enc_var_bytes payload
  | DAuth auth => _ ← enc_var_uint (MessageType_as_u64 MAuth); encode_auth auth
  | DQueryAwareness => enc_var_uint (MessageType_as_u64 MQueryAwareness)
  | DStateless payload => _ ← enc_var_uint (MessageType_as_u64 MStateless); enc_var_string payload
  | DClose reason =>
    _ ← enc_var_uint (MessageType_as_u64 MClose);
    match reason with Some reason => enc_var_string reason | None => mret tt end
  | DSyncStatus applied =>
    _ ← enc_var_uint (MessageType_as_u64 MSyncStatus);
    enc_var_uint (if applied then 1 else 0)
  end.

Definition encode_frame (frame : WireFrame) : W unit :=
  match frame with
  | FConnection CPing => _ ← ensure_frame_capacity 1; push [z2b (MessageType_as_u64 MPing)]
  | FConnection CPong => enc_var_uint (MessageType_as_u64 MPong)
  | FDocument routing_key _ message =>
    if max_routing_key_bytes limits <? len routing_key then
      throw (RoutingKeyTooLong (len routing_key) (max_routing_key_bytes limits))
    else _ ← enc_var_string routing_key; encode_message message
  end.

Definition encode_with_limits (frame : WireFrame) : result WireError (list byte) :=
  snd <$> encode_frame frame [].

End decode.

Definition decode (i : list byte) : result WireError WireFrame := decode_with_limits DEFAULT i.
Definition encode (f : WireFrame) : result WireError (list byte) := encode_with_limits DEFAULT f.

End wire.
