(* ===== verification/WireFacts.v ===== *)
(** * Facts about the wire codec

    What an encoder computation writes is described by [emits], what a decoder
    computation reads by [reads]; both compose along the monadic bind, so the
    codec theorems follow the structure of [encode_message] and
    [decode_message]. *)

From stdpp Require Import base list numbers strings gmap.
From Stdlib Require Import ZArith Lia.
From S2P Require Import Prelude Text Cursor Uuid Wire.

Section facts.
Context {UL : UuidLib}.

(** ** Encoder computations *)

(** [emits m l P]: on any output within the frame limit, [m] succeeds exactly
    when [P] holds and [l] still fits, and then appends [l]. *)
Definition emits (limits : Limits) (m : stateE (list byte) WireError unit) (l : list byte) (P : Prop) : Prop :=
  forall out, len out <= max_frame_bytes limits ->
    (P -> len out + len l <= max_frame_bytes limits -> m out = Ok (tt, out ++ l)) /\
    (forall r, m out = Ok r -> P /\ len out + len l <= max_frame_bytes limits /\ r = (tt, out ++ l)).

Section limits.
Context (limits : Limits).

Abbreviation emits := (emits limits).

Lemma emits_ret : emits (mret tt) [] True.
Proof.
  intros out Hout. split; [intros; by rewrite app_nil_r|].
  intros r [= <-]. rewrite app_nil_r. unfold len in *. simpl. split_and!; try done; lia.
Qed.

Lemma emits_bind m k l1 l2 P1 P2 :
  emits m l1 P1 -> emits k l2 P2 -> emits (m ≫= fun _ => k) (l1 ++ l2) (P1 /\ P2).
Proof.
  intros Hm Hk out Hout. destruct (Hm out Hout) as [Hm1 Hm2].
  rewrite len_app. pose proof (len_nonneg l1). pose proof (len_nonneg l2).
  unfold mbind, stateE_bind. split.
  - intros [HP1 HP2] Hfit. rewrite Hm1 by (done || len_lia).
    destruct (Hk (out ++ l1)) as [Hk1 _]; [rewrite len_app; lia|].
    rewrite Hk1 by (rewrite ?len_app; done || len_lia). by rewrite app_assoc.
  - intros r Hr. destruct (m out) as [[[] o]|] eqn:E; [|done].
    destruct (Hm2 _ eq_refl) as (HP1 & Hf1 & [= ->]).
    destruct (Hk (out ++ l1)) as [_ Hk2]; [rewrite len_app; lia|].
    destruct (Hk2 _ Hr) as (HP2 & Hf2 & ->). rewrite len_app in Hf2.
    rewrite app_assoc. split_and!; try done; lia.
Qed.

Lemma emits_weaken m l P Q : emits m l P -> (P <-> Q) -> emits m l Q.
Proof. intros Hm HPQ out Hout. destruct (Hm out Hout) as [H1 H2]. split; naive_solver. Qed.

Lemma emits_ext m m' l P : (forall out, m out = m' out) -> emits m l P -> emits m' l P.
Proof. intros Heq Hm out Hout. rewrite <- Heq. by apply Hm. Qed.

Lemma emits_throw e l : emits (throw e) l False.
Proof. intros out _. split; [done|]. by intros r [=]. Qed.

(** A guard that throws before the computation. *)
Lemma emits_guard (b : bool) e m l P :
  emits m l P -> emits (if b then throw e else m) l (b = false /\ P).
Proof.
  intros Hm. destruct b.
  - eapply emits_weaken; [apply (emits_throw e l)|]. naive_solver.
  - eapply emits_weaken; [done|]. naive_solver.
Qed.

Lemma emits_raw l : emits (enc_raw limits l) l True.
Proof.
  intros out Hout. unfold enc_raw, ensure_frame_capacity, push, mbind, stateE_bind.
  destruct (Z.ltb_spec (max_frame_bytes limits) (len out + len l)); split; intros; simplify_eq; auto; lia.
Qed.

Lemma enc_loop_S f v :
  enc_var_uint_loop limits (S f) v =
  (_ ← ensure_frame_capacity limits 1;
   if v <? 0x80 then push [z2b v]
   else
     _ ← push [z2b (Z.lor (Z.land (wrap 8 v) 0x7f) 0x80)];
     enc_var_uint_loop limits f (Z.shiftr v 7)).
Proof. reflexivity. Qed.

Lemma emits_byte b : emits (_ ← ensure_frame_capacity limits 1; push [b]) [b] True.
Proof. exact (emits_raw [b]). Qed.

(** The bounded loop writes the bytes of the unbounded one. *)
Lemma emits_loop f v : emits (enc_var_uint_loop limits f v) (write_loop f v) True.
Proof.
  revert v. induction f as [|f IH]; intros v; [apply emits_ret|].
  rewrite enc_loop_S, write_loop_S. destruct (v <? 128); [apply emits_byte|].
  set (b := z2b _).
  eapply emits_weaken; [eapply emits_ext|];
    [|apply (emits_bind _ _ _ _ _ _ (emits_byte b) (IH (Z.shiftr v 7)))|tauto].
  intros out. unfold mbind, stateE_bind. by destruct (ensure_frame_capacity _ _ _) as [[??]|].
Qed.

Lemma emits_var_uint v : emits (enc_var_uint limits v) (varuint v) True.
Proof. apply emits_loop. Qed.

Lemma emits_var_string s :
  emits (enc_var_string limits s) (varuint (len s) ++ s) (len s <= max_string_bytes limits).
Proof.
  unfold enc_var_string. eapply emits_weaken.
  - apply emits_guard, emits_bind; [apply emits_var_uint|apply emits_raw].
  - rewrite Z.ltb_ge. tauto.
Qed.

Lemma emits_var_bytes s :
  emits (enc_var_bytes limits s) (varuint (len s) ++ s) (len s <= max_binary_payload_bytes limits).
Proof.
  unfold enc_var_bytes. eapply emits_weaken.
  - apply emits_guard, emits_bind; [apply emits_var_uint|apply emits_raw].
  - rewrite Z.ltb_ge. tauto.
Qed.

(** ** The bytes of a frame *)

Definition opt_string_bytes (o : option str) : list byte := from_option string_bytes [] o.

Definition auth_bytes (m : AuthMessage) : list byte :=
  match m with
  | Token t v => varuint 0 ++ string_bytes t ++ opt_string_bytes v
  | TokenRequest => varuint 0
  | PermissionDenied r => varuint 1 ++ string_bytes r
  | Authenticated s => varuint 2 ++ string_bytes s
  end.

Definition message_bytes (m : DocumentMessage) : list byte :=
  match m with
  | DSync s => varuint 0 ++ y_protocol s
  | DAwareness p => varuint 1 ++ string_bytes p
  | DAuth a => varuint 2 ++ auth_bytes a
  | DQueryAwareness => varuint 3
  | DStateless s => varuint 5 ++ string_bytes s
  | DClose r => varuint 7 ++ opt_string_bytes r
  | DSyncStatus a => varuint 8 ++ varuint (if a then 1 else 0)
  end.

Definition frame_bytes (f : WireFrame) : list byte :=
  match f with
  | FConnection CPing => [Byte.x09]
  | FConnection CPong => varuint 10
  | FDocument key _ m => string_bytes key ++ message_bytes m
  end.

(** ** Size limits a frame must respect to be encodable *)

Definition str_fits (s : str) : Prop := len s <= max_string_bytes limits.
Definition opt_fits (o : option str) : Prop := from_option str_fits True o.

Definition auth_fits (m : AuthMessage) : Prop :=
  match m with
  | Token t v => str_fits t /\ opt_fits v
  | TokenRequest => True
  | PermissionDenied r => str_fits r
  | Authenticated s => str_fits s
  end.

Definition message_fits (m : DocumentMessage) : Prop :=
  match m with
  | DAwareness p => len p <= max_binary_payload_bytes limits
  | DAuth a => auth_fits a
  | DStateless s => str_fits s
  | DClose r => opt_fits r
  | DSync _ | DQueryAwareness | DSyncStatus _ => True
  end.

Definition frame_fits (f : WireFrame) : Prop :=
  match f with
  | FConnection _ => True
  | FDocument key _ m =>
    len key <= max_routing_key_bytes limits /\ str_fits key /\ message_fits m
  end.

Lemma emits_opt o :
  emits (match o with Some s => enc_var_string limits s | None => mret tt end)
        (opt_string_bytes o) (opt_fits o).
Proof. destruct o; [apply emits_var_string|apply emits_ret]. Qed.

Lemma emits_tagged t k l P :
  emits k l P -> emits (_ ← enc_var_uint limits t; k) (varuint t ++ l) P.
Proof.
  intros Hk. eapply emits_weaken; [apply emits_bind; [apply emits_var_uint|exact Hk]|tauto].
Qed.

Lemma emits_auth m : emits (encode_auth limits m) (auth_bytes m) (auth_fits m).
Proof.
  destruct m; cbn [encode_auth auth_bytes auth_fits AuthMessageType_as_u64].
  2: apply emits_var_uint.
  all: apply emits_tagged; try apply emits_var_string.
  apply emits_bind; [apply emits_var_string|apply emits_opt].
Qed.

Lemma emits_message m : emits (encode_message limits m) (message_bytes m) (message_fits m).
Proof.
  destruct m; cbn [encode_message message_bytes message_fits MessageType_as_u64].
  4: apply emits_var_uint.
  all: apply emits_tagged; auto using emits_raw, emits_var_bytes, emits_auth, emits_var_uint, emits_var_string, emits_opt.
Qed.

Lemma emits_frame f : emits (encode_frame limits f) (frame_bytes f) (frame_fits f).
Proof.
  destruct f as [[]|key room m]; cbn [encode_frame frame_bytes frame_fits];
    [apply emits_byte|apply emits_var_uint|].
  eapply emits_weaken.
  - apply emits_guard, emits_bind; [apply emits_var_string|apply emits_message].
  - rewrite Z.ltb_ge. unfold str_fits. tauto.
Qed.

(** The encoder's result on every frame: it succeeds exactly on the frames
    that respect the limits, with exactly [frame_bytes]. *)
Lemma encode_Ok_iff f l :
  0 <= max_frame_bytes limits ->
  encode_with_limits limits f = Ok l <->
  l = frame_bytes f /\ frame_fits f /\ len (frame_bytes f) <= max_frame_bytes limits.
Proof.
  intros Hmax. unfold encode_with_limits.
  destruct (emits_frame f [] Hmax) as [H1 H2]. change (len []) with 0 in *. split.
  - destruct (encode_frame limits f []) as [[[] o]|] eqn:E; [|done]. intros [= <-].
    destruct (H2 _ eq_refl) as (? & ? & [= ->]). done.
  - intros (-> & Hf & Hl). by rewrite H1.
Qed.

(** ** Well-formed frames

    The Rust types carry these invariants: a [String] is UTF-8, [room] is the
    parse of the routing key, and a sync message's payload is one complete
    y-protocol sync message with its step. *)

Definition str_wf (s : str) : Prop := utf8_valid s = true.
Definition opt_wf (o : option str) : Prop := from_option str_wf True o.

Definition auth_wf (m : AuthMessage) : Prop :=
  match m with
  | Token t v => str_wf t /\ opt_wf v
  | TokenRequest => True
  | PermissionDenied r => str_wf r
  | Authenticated s => str_wf s
  end.

Definition sync_wf (m : SyncMessage) : Prop :=
  decode_sync_payload limits (cursor_new (y_protocol m)) = Ok (m, at_split (y_protocol m) []).

Definition message_wf (m : DocumentMessage) : Prop :=
  match m with
  | DSync s => sync_wf s
  | DAuth a => auth_wf a
  | DStateless s => str_wf s
  | DClose r => opt_wf r
  | DAwareness _ | DQueryAwareness | DSyncStatus _ => True
  end.

Definition frame_wf (f : WireFrame) : Prop :=
  match f with
  | FConnection _ => True
  | FDocument key room m => str_wf key /\ room = parse (routing_key_base key) /\ message_wf m
  end.

(** ** Decoder computations *)

(** A reader that consumes everything that is left. *)
Definition reads_all {A} (m : stateE cursor WireError A) (l : list byte) (x : A) : Prop :=
  forall pre, m (at_split pre l) = Ok (x, at_split (pre ++ l) []).

Lemma reads_reads_all {A} (m : stateE cursor WireError A) l x : reads m l x -> reads_all m l x.
Proof. intros Hm pre. rewrite <- (app_nil_r l) at 1. apply Hm. Qed.

Lemma reads_all_bind {A B} (m : stateE cursor WireError A) (k : A -> stateE cursor WireError B) u1 u2 x y :
  reads m u1 x -> reads_all (k x) u2 y -> reads_all (m ≫= k) (u1 ++ u2) y.
Proof.
  intros Hm Hk pre. unfold mbind, stateE_bind. rewrite Hm, Hk. by rewrite app_assoc.
Qed.

Lemma reads_all_then {A B} (m : stateE cursor WireError A) (k : A -> stateE cursor WireError B) u x y :
  reads_all m u x -> reads_all (k x) [] y -> reads_all (m ≫= k) u y.
Proof. intros Hm Hk pre. unfold mbind, stateE_bind. rewrite Hm, Hk. by rewrite app_nil_r. Qed.

Lemma reads_all_ret {A} (x : A) : reads_all (mret x) [] x.
Proof. apply reads_reads_all, reads_ret. Qed.

Lemma reads_all_end : reads_all expect_end [] tt.
Proof. intros pre. unfold expect_end. rewrite remaining_split. by rewrite app_nil_r. Qed.

Lemma reads_all_remaining {A} (k : nat -> stateE cursor WireError A) l x :
  reads_all (k (length l)) l x -> reads_all (r ← gets remaining; k r) l x.
Proof. intros Hk pre. unfold gets, mbind, stateE_bind. rewrite remaining_split. apply Hk. Qed.

(** A value, then the check that nothing is left. *)
Lemma reads_all_close {A B} (k : stateE cursor WireError A) (f : A -> B) l x :
  reads_all k l x -> reads_all (x' ← k; _ ← expect_end; mret (f x')) l (f x).
Proof.
  intros Hk. eapply reads_all_then; [done|].
  eapply reads_all_then; [apply reads_all_end|apply reads_all_ret].
Qed.

Context (Hsafe : max_frame_bytes limits <= LIB0_MAX_SAFE_UINT).

Lemma bounded_len_ok n max : 0 <= n <= u64_max -> n <= max -> bounded_len n max = Ok n.
Proof.
  intros. unfold bounded_len. rewrite !(proj2 (Z.leb_le _ _)) by lia. done.
Qed.

Lemma reads_string s :
  str_fits s -> str_wf s -> len s <= LIB0_MAX_SAFE_UINT ->
  reads (read_var_string limits) (string_bytes s) s.
Proof.
  intros Hf Hw Hl. unfold read_var_string, string_bytes.
  pose proof (len_nonneg s). assert (LIB0_MAX_SAFE_UINT <= u64_max) by done.
  eapply reads_bind; [by apply reads_varuint|].
  rewrite bounded_len_ok by (unfold str_fits in Hf; lia).
  eapply reads_bind_l; [apply reads_lift|].
  eapply reads_bind_r; [unfold len; rewrite Nat2Z.id; apply reads_exact|].
  rewrite (proj2 (from_utf8_Some s s)) by done. apply reads_lift.
Qed.

Lemma reads_bytes s :
  len s <= max_binary_payload_bytes limits -> len s <= LIB0_MAX_SAFE_UINT ->
  reads (read_var_bytes limits) (string_bytes s) s.
Proof.
  intros Hf Hl. unfold read_var_bytes, string_bytes.
  pose proof (len_nonneg s). assert (LIB0_MAX_SAFE_UINT <= u64_max) by done.
  eapply reads_bind; [by apply reads_varuint|].
  rewrite bounded_len_ok by lia.
  eapply reads_bind_l; [apply reads_lift|].
  unfold len; rewrite Nat2Z.id; apply reads_exact.
Qed.

Lemma string_bytes_length s : (0 < length (string_bytes s))%nat /\ len s <= len (string_bytes s).
Proof.
  unfold string_bytes. rewrite len_app, length_app.
  pose proof (varuint_length_pos (len s)). pose proof (len_nonneg (varuint (len s))). lia.
Qed.

Lemma reads_opt o :
  opt_fits o -> opt_wf o -> len (opt_string_bytes o) <= LIB0_MAX_SAFE_UINT ->
  reads_all (read_optional_string limits) (opt_string_bytes o) o.
Proof.
  intros Hf Hw Hl. apply reads_all_remaining. destruct o as [s|]; simpl in *; [|apply reads_all_ret].
  destruct (string_bytes_length s) as [Hpos Hle].
  rewrite (proj2 (Nat.ltb_lt _ _)) by done.
  eapply reads_all_then; [apply reads_reads_all, reads_string; done || len_lia|apply reads_all_ret].
Qed.

Lemma reads_auth m :
  auth_fits m -> auth_wf m -> len (auth_bytes m) <= LIB0_MAX_SAFE_UINT ->
  reads_all (decode_auth limits) (auth_bytes m) m.
Proof.
  intros Hf Hw Hl. unfold decode_auth.
  assert (Htag : forall v, 0 <= v < 3 -> reads (E:=WireError) read_var_uint (varuint v) v).
  { intros v Hv. apply reads_varuint. assert (2 <= LIB0_MAX_SAFE_UINT) by done. lia. }
  destruct m as [t v| |r|sc]; cbn [auth_bytes auth_fits auth_wf] in *;
    rewrite ?len_app in Hl.
  2: rewrite <- (app_nil_r (varuint 0)).
  all: eapply reads_all_bind; [apply Htag; lia|].
  all: eapply (reads_all_bind _ _ []); [apply reads_lift|]; cbv iota.
  - destruct Hf as [Hf Hfv], Hw as [Hw Hwv], (string_bytes_length t) as [Hpos Hle].
    apply reads_all_remaining. rewrite length_app.
    destruct (Nat.eqb_spec (length (string_bytes t) + length (opt_string_bytes v)) 0); [lia|].
    eapply reads_all_bind; [apply reads_string; done || len_lia|].
    apply (reads_all_close _ (Token t)). apply reads_opt; done || len_lia.
  - apply reads_all_remaining, reads_all_ret.
  - destruct (string_bytes_length r).
    apply (reads_all_close _ PermissionDenied), reads_reads_all, reads_string; done || len_lia.
  - destruct (string_bytes_length sc).
    apply (reads_all_close _ Authenticated), reads_reads_all, reads_string; done || len_lia.
Qed.

(** ** Sync payloads *)

Lemma reads_sync u1 u2 sv st p :
  reads read_var_uint u1 sv -> SyncStep_from_u64 sv = Some st -> reads (read_var_bytes limits) u2 p ->
  reads (decode_sync_payload limits) (u1 ++ u2) {| step := st; y_protocol := u1 ++ u2 |}.
Proof.
  intros H1 Hst H2 pre suf. unfold decode_sync_payload, gets, mbind, stateE_bind.
  rewrite <- app_assoc, H1, Hst. simpl. rewrite H2. simpl.
  rewrite <- !app_assoc. do 3 f_equal. unfold at_split; simpl.
  rewrite !length_app, drop_app_length.
  rewrite (app_assoc u1), take_app_length'; [done|]. rewrite length_app. lia.
Qed.

Lemma read_var_bytes_Local : Local (read_var_bytes limits).
Proof. apply _. Qed.

(** The two parts of a decoded sync message. *)
Lemma decode_sync_parts pre suf m c :
  decode_sync_payload limits (at_split pre suf) = Ok (m, c) ->
  exists u1 u2 sv p suf', suf = y_protocol m ++ suf' /\ c = at_split (pre ++ y_protocol m) suf' /\
    y_protocol m = u1 ++ u2 /\ reads (E:=WireError) read_var_uint u1 sv /\
    SyncStep_from_u64 sv = Some (step m) /\ reads (read_var_bytes limits) u2 p.
Proof.
  intros Hok. pose proof Hok as Hok'.
  unfold decode_sync_payload, gets, mbind, stateE_bind in Hok'.
  destruct (read_var_uint (at_split pre suf)) as [[sv c1]|] eqn:E1; [|done].
  apply read_var_uint_inv in E1 as (u1 & s1 & -> & -> & Hr1 & _).
  destruct (SyncStep_from_u64 sv) as [st|] eqn:Est; [|done]. simpl in Hok'.
  destruct (read_var_bytes limits _) as [[p c2]|] eqn:E2; [|done].
  apply read_var_bytes_Local in E2 as (u2 & s2 & -> & -> & Hr2).
  pose proof (reads_sync u1 u2 sv st p Hr1 Est Hr2) as Hr.
  rewrite app_assoc, Hr in Hok. injection Hok as <- <-.
  exists u1, u2, sv, p, s2. rewrite app_assoc. done.
Qed.

Lemma decode_sync_inv pre suf m c :
  decode_sync_payload limits (at_split pre suf) = Ok (m, c) ->
  exists suf', suf = y_protocol m ++ suf' /\ c = at_split (pre ++ y_protocol m) suf' /\
    reads (decode_sync_payload limits) (y_protocol m) m.
Proof.
  intros (u1 & u2 & sv & p & s & -> & -> & Hy & Hr1 & Est & Hr2)%decode_sync_parts.
  exists s. split_and!; [done..|]. destruct m as [st y]; simpl in *; subst y.
  eauto using reads_sync.
Qed.

Lemma sync_wf_reads m : sync_wf m -> reads (decode_sync_payload limits) (y_protocol m) m.
Proof.
  unfold sync_wf. rewrite cursor_new_split. intros H. by apply decode_sync_inv in H as (? & ? & ? & ?).
Qed.

(** ** Whole messages and frames *)

Lemma reads_tag v : 0 <= v <= 10 -> reads (E:=WireError) read_var_uint (varuint v) v.
Proof. intros Hv. apply reads_varuint. assert (10 <= LIB0_MAX_SAFE_UINT) by done. lia. Qed.

Definition message_type (m : DocumentMessage) : MessageType :=
  match m with
  | DSync _ => MSync | DAwareness _ => MAwareness | DAuth _ => MAuth
  | DQueryAwareness => MQueryAwareness | DStateless _ => MStateless
  | DClose _ => MClose | DSyncStatus _ => MSyncStatus
  end.

(** The bytes after the message type. *)
Definition payload_bytes (m : DocumentMessage) : list byte :=
  match m with
  | DSync s => y_protocol s
  | DAwareness p => string_bytes p
  | DAuth a => auth_bytes a
  | DQueryAwareness => []
  | DStateless s => string_bytes s
  | DClose r => opt_string_bytes r
  | DSyncStatus a => varuint (if a then 1 else 0)
  end.

Lemma message_bytes_split m :
  message_bytes m = varuint (MessageType_as_u64 (message_type m)) ++ payload_bytes m.
Proof. by destruct m; cbn [message_bytes payload_bytes]; rewrite ?app_nil_r. Qed.

Lemma MessageType_round t : MessageType_from_u64 (MessageType_as_u64 t) = Some t.
Proof. by destruct t. Qed.

Lemma reads_payload m :
  message_fits m -> message_wf m -> len (payload_bytes m) <= LIB0_MAX_SAFE_UINT ->
  reads_all (decode_message limits (message_type m)) (payload_bytes m) m.
Proof.
  intros Hf Hw Hl. destruct m as [s|p|a| |s|r|b];
    cbn [message_fits message_wf message_type payload_bytes decode_message] in *;
    try destruct (string_bytes_length s); try destruct (string_bytes_length p).
  - eapply reads_all_then; [apply reads_reads_all, sync_wf_reads, Hw|by destruct s; apply reads_all_ret].
  - eapply reads_all_then; [apply reads_reads_all, reads_bytes; done || len_lia|apply reads_all_ret].
  - eapply reads_all_then; [apply reads_auth; done|apply reads_all_ret].
  - eapply reads_all_then; [apply reads_all_end|apply reads_all_ret].
  - eapply reads_all_then; [apply reads_reads_all, reads_string; done || len_lia|apply reads_all_ret].
  - apply (reads_all_close _ DClose), reads_opt; done.
  - assert (b = ((if b then 1 else 0) =? 1)) as Hb by by destruct b.
    rewrite Hb at 2. apply (reads_all_close _ (fun v => DSyncStatus (v =? 1))).
    apply reads_reads_all, reads_tag. destruct b; lia.
Qed.

Lemma reads_document key m :
  frame_fits (FDocument key (parse (routing_key_base key)) m) -> str_wf key -> message_wf m ->
  len (string_bytes key ++ message_bytes m) <= LIB0_MAX_SAFE_UINT ->
  reads_all (decode_document limits) (string_bytes key ++ message_bytes m)
    (FDocument key (parse (routing_key_base key)) m).
Proof.
  intros (Hk & Hks & Hf) Hkw Hw Hl. destruct (string_bytes_length key).
  rewrite message_bytes_split, !len_app in *.
  eapply reads_all_bind; [apply reads_string; done || len_lia|].
  rewrite (proj2 (Z.ltb_ge _ _)) by done.
  eapply reads_all_bind; [apply reads_tag; destruct m; simpl; lia|].
  rewrite MessageType_round.
  eapply (reads_all_bind _ _ []); [apply reads_lift|].
  apply (reads_all_close _ (FDocument key _)), reads_payload; done || len_lia.
Qed.

Lemma decode_encoded f :
  frame_wf f -> frame_fits f -> len (frame_bytes f) <= max_frame_bytes limits ->
  decode_with_limits limits (frame_bytes f) = Ok f.
Proof.
  intros Hw Hf Hl. unfold decode_with_limits.
  rewrite (proj2 (Z.ltb_ge _ _)) by done.
  destruct f as [[]|key room m]; cbn [frame_bytes frame_wf] in *; [done..|].
  destruct Hw as (Hkw & -> & Hmw).
  assert (Hlen : (1 < length (string_bytes key ++ message_bytes m))%nat).
  { rewrite message_bytes_split, !length_app.
    pose proof (varuint_length_pos (MessageType_as_u64 (message_type m))).
    destruct (string_bytes_length key). lia. }
  rewrite !bool_decide_false by (intros E; rewrite E in Hlen; simpl in Hlen; lia).
  rewrite cursor_new_split, reads_document; [done..|]. lia.
Qed.

(** ** What a successful decode says *)

(** [post m Q]: whenever [m] succeeds it has consumed some [used], leaves
    [suf], and [Q x used suf] holds of its result. *)
Definition post {A} (m : stateE cursor WireError A) (Q : A -> list byte -> list byte -> Prop) : Prop :=
  forall pre suf x c, m (at_split pre suf) = Ok (x, c) ->
    exists used suf', suf = used ++ suf' /\ c = at_split (pre ++ used) suf' /\ Q x used suf'.

Lemma post_weaken {A} (m : stateE cursor WireError A) Q R :
  post m Q -> (forall x u s, Q x u s -> R x u s) -> post m R.
Proof. intros Hm HQR pre suf x c Hok. apply Hm in Hok as (u & s & ? & ? & ?). exists u, s. auto. Qed.

Lemma post_ret {A} (x : A) : post (mret x) (fun y u _ => y = x /\ u = []).
Proof. intros pre suf y c [= <- <-]. exists [], suf. by rewrite app_nil_r. Qed.

Lemma post_lift {A} (r : result WireError A) : post (lift r) (fun y u _ => r = Ok y /\ u = []).
Proof.
  intros pre suf y c Hok. destruct r as [x|]; [|done]. injection Hok as <- <-.
  exists [], suf. by rewrite app_nil_r.
Qed.

Lemma post_throw {A} e Q : post (A:=A) (throw e) Q.
Proof. by intros ????. Qed.

Lemma post_bind {A B} (m : stateE cursor WireError A) (k : A -> stateE cursor WireError B) Q R :
  post m Q -> (forall x, post (k x) (R x)) ->
  post (m ≫= k) (fun y u s => exists x u1 u2, u = u1 ++ u2 /\ Q x u1 (u2 ++ s) /\ R x y u2 s).
Proof.
  intros Hm Hk pre suf y c Hok. unfold mbind, stateE_bind in Hok.
  destruct (m (at_split pre suf)) as [[x c1]|] eqn:E1; [|done].
  apply Hm in E1 as (u1 & s1 & -> & -> & HQ).
  apply Hk in Hok as (u2 & s2 & -> & -> & HR).
  exists (u1 ++ u2), s2. rewrite !app_assoc. split_and!; [done..|]. exists x, u1, u2. done.
Qed.

Lemma post_end : post expect_end (fun _ u s => u = [] /\ s = []).
Proof.
  intros pre suf x c. unfold expect_end. rewrite remaining_split.
  destruct suf; simpl; [|done].
  intros [= <- <-]. exists [], []. by rewrite (app_nil_r pre).
Qed.

Lemma post_remaining : post (gets remaining) (fun x u s => u = [] /\ x = length s).
Proof.
  intros pre suf x c. unfold gets. rewrite remaining_split. intros [= <- <-].
  exists [], suf. by rewrite app_nil_r.
Qed.

Lemma post_var_uint :
  post read_var_uint (fun n u _ => 0 <= n <= LIB0_MAX_SAFE_UINT /\ len (varuint n) <= len u).
Proof.
  intros pre suf n c Hok. apply read_var_uint_inv in Hok as (u & s & -> & -> & _ & ? & ?).
  exists u, s. done.
Qed.

Lemma post_exact n : post (read_exact n) (fun l u _ => l = u /\ length l = n).
Proof.
  intros pre suf l c Hok. apply read_exact_Ok in Hok as (s & -> & <- & ->). exists l, s. done.
Qed.

Lemma bounded_len_inv n max m : bounded_len n max = Ok m -> m = n /\ n <= max.
Proof. unfold bounded_len. repeat case_goal; intros [= <-]; bool_to_prop; done. Qed.

Lemma post_string :
  post (read_var_string limits)
    (fun s u _ => str_wf s /\ str_fits s /\ len (string_bytes s) <= len u).
Proof.
  unfold read_var_string. eapply post_weaken.
  { eapply post_bind; [apply post_var_uint|intros n].
    eapply post_bind; [apply post_lift|intros m].
    eapply post_bind; [apply post_exact|intros l]. apply post_lift. }
  intros s u suf (n & u1 & ? & -> & [Hn Hu1] & m & ? & ? & -> & [Hb ->] & l & u4 & ? & -> & [-> Hl] & Hs & ->).
  unfold map_err in Hb. destruct (bounded_len _ _) as [k|] eqn:Eb; [|done]. injection Hb as ->.
  apply bounded_len_inv in Eb as [-> Hmax].
  destruct (from_utf8 u4) as [t|] eqn:Eu; [|done]. injection Hs as ->.
  apply from_utf8_Some in Eu as [-> Hv].
  assert (Hlen : len u4 = n) by (unfold len; lia).
  unfold str_wf, str_fits, string_bytes. rewrite Hlen, !len_app.
  change (len []) with 0. split_and!; [done|lia|]. lia.
Qed.

Lemma post_bytes :
  post (read_var_bytes limits)
    (fun s u _ => len s <= max_binary_payload_bytes limits /\ len (string_bytes s) <= len u).
Proof.
  unfold read_var_bytes. eapply post_weaken.
  { eapply post_bind; [apply post_var_uint|intros n].
    eapply post_bind; [apply post_lift|intros m]. apply post_exact. }
  intros s u suf (n & u1 & ? & -> & [Hn Hu1] & m & ? & u3 & -> & [Hb ->] & -> & Hl).
  unfold map_err in Hb. destruct (bounded_len _ _) as [k|] eqn:Eb; [|done]. injection Hb as ->.
  apply bounded_len_inv in Eb as [-> Hmax].
  assert (Hlen : len u3 = n) by (unfold len; lia).
  unfold string_bytes. rewrite Hlen, !len_app. change (len []) with 0. split; lia.
Qed.

Lemma post_opt :
  post (read_optional_string limits)
    (fun o u _ => opt_wf o /\ opt_fits o /\ len (opt_string_bytes o) <= len u).
Proof.
  unfold read_optional_string. eapply post_weaken.
  { eapply post_bind; [apply post_remaining|intros r].
    instantiate (1 := fun r o u _ => opt_wf o /\ opt_fits o /\ len (opt_string_bytes o) <= len u).
    destruct (0 <? r)%nat.
    - eapply post_weaken; [eapply post_bind; [apply post_string|intros s; apply post_ret]|].
      intros o u suf (s & u1 & ? & -> & (? & ? & ?) & -> & ->). rewrite app_nil_r. done.
    - eapply post_weaken; [apply post_ret|]. by intros o u suf [-> ->]. }
  by intros o u suf (r & ? & ? & -> & [-> _] & ?).
Qed.

(** A value followed by the end check: its facts, and nothing is left. *)
Lemma post_close {A B} (m : stateE cursor WireError A) (f : A -> B) Q :
  post m Q -> post (x ← m; _ ← expect_end; mret (f x)) (fun y u s => exists x, y = f x /\ Q x u s /\ s = []).
Proof.
  intros Hm. eapply post_weaken.
  { eapply post_bind; [exact Hm|intros x]. eapply post_bind; [apply post_end|intros ?]. apply post_ret. }
  intros y u s (x & u1 & ? & -> & HQ & ? & ? & ? & -> & [-> Hs] & -> & ->).
  simpl in *. rewrite app_nil_r. eauto.
Qed.

Lemma post_then {A B} (m : stateE cursor WireError A) (f : A -> B) Q :
  post m Q -> post (x ← m; mret (f x)) (fun y u s => exists x, y = f x /\ Q x u s).
Proof.
  intros Hm. eapply post_weaken; [eapply post_bind; [exact Hm|intros x; apply post_ret]|].
  intros y u s (x & u1 & ? & -> & HQ & -> & ->). simpl in *. rewrite app_nil_r. eauto.
Qed.

Lemma AuthMessageType_round v t : AuthMessageType_from_u64 v = Some t -> v = AuthMessageType_as_u64 t.
Proof. unfold AuthMessageType_from_u64. repeat case_goal; intros [= <-]; done. Qed.

Lemma MessageType_inv v t : MessageType_from_u64 v = Some t -> v = MessageType_as_u64 t.
Proof. unfold MessageType_from_u64. repeat case_goal; intros [= <-]; done. Qed.

Lemma post_auth :
  post (decode_auth limits) (fun m u _ => auth_wf m /\ auth_fits m /\ len (auth_bytes m) <= len u).
Proof.
  unfold decode_auth. eapply post_weaken.
  { eapply post_bind; [apply post_var_uint|intros v].
    eapply post_bind; [apply post_lift|intros t].
    instantiate (1 := fun t m u _ => auth_wf m /\ auth_fits m /\
      len (auth_bytes m) <= len (varuint (AuthMessageType_as_u64 t)) + len u).
    destruct t; simpl AuthMessageType_as_u64.
    2, 3: eapply post_weaken; [apply post_close, post_string|];
      intros m u s (r & -> & (? & ? & ?) & ->); cbn [auth_wf auth_fits auth_bytes];
      rewrite len_app; split_and!; done || lia.
    eapply post_weaken.
    { eapply post_bind; [apply post_remaining|intros r].
      instantiate (1 := fun r m u _ => auth_wf m /\ auth_fits m /\
        len (auth_bytes m) <= len (varuint 0) + len u).
      destruct (r =? 0)%nat.
      - eapply post_weaken; [apply post_ret|]. intros m u s [-> ->].
        cbn [auth_wf auth_fits auth_bytes]. split_and!; done || len_lia.
      - eapply post_weaken; [eapply post_bind; [apply post_string|intros tk]; apply post_close, post_opt|].
        intros m u s (tk & u1 & u2 & -> & (? & ? & ?) & o & -> & (? & ? & ?) & ->).
        cbn [auth_wf auth_fits auth_bytes]. rewrite !len_app. split_and!; done || lia. }
    by intros m u s (r & ? & ? & -> & [-> _] & ?). }
  intros m u s (v & u1 & ? & -> & [_ Hv] & t & ? & u3 & -> & [Ht ->] & Hw & Hf & Hl).
  apply ok_or_inv, AuthMessageType_round in Ht as ->.
  rewrite len_app. simpl app. split_and!; [done..|]. lia.
Qed.

Lemma post_sync :
  post (decode_sync_payload limits) (fun m u _ => sync_wf m /\ y_protocol m = u).
Proof.
  intros pre suf m c Hok. apply decode_sync_inv in Hok as (s & -> & -> & Hr).
  exists (y_protocol m), s. split_and!; try done. unfold sync_wf. rewrite cursor_new_split.
  apply (reads_reads_all _ _ _ Hr).
Qed.

Lemma post_message t :
  post (decode_message limits t)
    (fun m u _ => message_type m = t /\ message_wf m /\ message_fits m /\ len (payload_bytes m) <= len u).
Proof.
  destruct t; cbn [decode_message]; try apply post_throw.
  - eapply post_weaken; [apply post_then, post_sync|].
    intros m u s (x & -> & Hw & <-). split_and!; done.
  - eapply post_weaken; [apply post_then, post_bytes|].
    intros m u s (x & -> & ? & ?). split_and!; done.
  - eapply post_weaken; [apply post_then, post_auth|].
    intros m u s (x & -> & ? & ? & ?). split_and!; done.
  - eapply post_weaken; [apply (post_then _ (fun _ => DQueryAwareness)), post_end|].
    intros m u s (x & -> & -> & ->). split_and!; done.
  - eapply post_weaken; [apply post_then, post_string|].
    intros m u s (x & -> & ? & ? & ?). split_and!; done.
  - eapply post_weaken; [apply post_close, post_opt|].
    intros m u s (x & -> & (? & ? & ?) & ->). split_and!; done.
  - eapply post_weaken; [apply (post_close _ (fun v => DSyncStatus (v =? 1))), post_var_uint|].
    intros m u s (x & -> & [Hx Hl] & ->). split_and!; try done.
    cbn [payload_bytes]. assert (1 <= len (varuint x)).
    { pose proof (varuint_length_pos x). unfold len. lia. }
    assert (len (varuint (if x =? 1 then 1 else 0)) = 1) by by destruct (x =? 1).
    lia.
Qed.

Lemma post_document :
  post (decode_document limits)
    (fun f u s => s = [] /\ frame_wf f /\ frame_fits f /\ len (frame_bytes f) <= len u).
Proof.
  unfold decode_document. eapply post_weaken.
  { eapply post_bind; [apply post_string|intros key].
    instantiate (1 := fun key f u s => s = [] /\ exists m, f = FDocument key (parse (routing_key_base key)) m /\
      len key <= max_routing_key_bytes limits /\ message_wf m /\ message_fits m /\
      len (message_bytes m) <= len u).
    destruct (Z.ltb_spec (max_routing_key_bytes limits) (len key)); [apply post_throw|].
    eapply post_weaken.
    { eapply post_bind; [apply post_var_uint|intros v].
      eapply post_bind; [apply post_lift|intros t]. apply post_close, post_message. }
    intros f u s (v & u1 & ? & -> & [_ Hv] & t & ? & u3 & -> & [Ht ->] & m & -> & (<- & Hw & Hf & Hl) & ->).
    apply ok_or_inv, MessageType_inv in Ht as ->. split; [done|]. exists m.
    rewrite message_bytes_split, !len_app. change (len []) with 0. split_and!; done || lia. }
  intros f u s (key & u1 & u2 & -> & (Hkw & Hkf & Hkl) & -> & m & -> & ? & ? & ? & ?).
  cbn [frame_wf frame_fits frame_bytes]. rewrite !len_app. split_and!; done || lia.
Qed.

(** Every frame the decoder accepts is well formed, within the limits, and no
    longer when encoded than what it was read from. *)
Lemma decode_Ok i f :
  decode_with_limits limits i = Ok f ->
  frame_wf f /\ frame_fits f /\ len (frame_bytes f) <= len i <= max_frame_bytes limits.
Proof.
  unfold decode_with_limits. case_bool_decide; [done|].
  destruct (Z.ltb_spec (max_frame_bytes limits) (len i)); [done|].
  case_bool_decide; [intros [= <-]; subst; done|].
  case_bool_decide; [intros [= <-]; subst; done|].
  rewrite cursor_new_split. destruct (decode_document limits _) as [[f' c]|] eqn:E; [|done].
  intros [= ->]. apply post_document in E as (u & s & -> & _ & -> & Hw & Hf & Hl).
  rewrite len_app in *. change (len []) with 0 in *. split_and!; done || lia.
Qed.

End limits.

(** ** Room names *)

Context {ULaws : UuidLaws UL}.

Lemma hyphenated_no c u : uuid_char c = false -> c ∉ hyphenated u.
Proof.
  intros Hc Hin. pose proof (hyphenated_chars u) as Hall. rewrite Forall_forall in Hall.
  apply Hall in Hin. congruence.
Qed.

Lemma parse_source_uuid_hyphenated u : parse_source_uuid (hyphenated u) = Some u.
Proof.
  unfold parse_source_uuid. rewrite hyphenated_length. apply try_parse_hyphenated.
Qed.

Lemma hyphenated_not_nil u : hyphenated u <> [].
Proof. pose proof (hyphenated_length u). by destruct (hyphenated u). Qed.

Lemma parse_routing_key r : parse (routing_key r) = Some r.
Proof.
  unfold parse, routing_key. destruct r as [ws k res]; simpl.
  pose proof (hyphenated_no colon ws eq_refl). pose proof (hyphenated_no colon res eq_refl).
  rewrite split_app by done.
  rewrite (split_app colon (match k with Document => _ | Task => _ end))
    by (destruct k; apply (bool_decide_eq_true_1 _); reflexivity).
  rewrite split_no_sep by done.
  rewrite !bool_decide_false by (try apply hyphenated_not_nil; by destruct k).
  simpl. rewrite !parse_source_uuid_hyphenated. by destruct k.
Qed.

End facts.

(** * Theorems of the wire codec

    Round trip, exact success condition of the encoder, the decoder's type
    invariant, canonical re-encoding, room names and message-type errors. *)

Section theorems.
Context {UL : UuidLib}.

(** C15: a well-formed frame that the encoder accepts under some limits decodes
    under the same limits to itself, whatever the message and its strings. *)
Theorem wire_roundtrip (limits : Limits) (f : WireFrame) (l : list byte) :
  0 <= max_frame_bytes limits <= LIB0_MAX_SAFE_UINT ->
  frame_wf limits f ->
  encode_with_limits limits f = Ok l ->
  decode_with_limits limits l = Ok f.
Proof.
  intros [H0 Hsafe] Hw He. apply encode_Ok_iff in He as (-> & Hf & Hl); [|done].
  by apply decode_encoded.
Qed.

(** The encoder succeeds exactly on the frames whose strings and payloads
    respect their own limits and whose encoding fits the frame limit; the
    result is the concatenation of the parts, so it never exceeds the limit. *)
Theorem wire_encode_exact (limits : Limits) (f : WireFrame) (l : list byte) :
  0 <= max_frame_bytes limits ->
  encode_with_limits limits f = Ok l <->
  l = frame_bytes f /\ frame_fits limits f /\ len (frame_bytes f) <= max_frame_bytes limits.
Proof. apply encode_Ok_iff. Qed.

(** Every accepted input gives a well-formed frame within the limits: its
    strings are UTF-8, its room is the parse of its routing key, a sync
    payload is one complete sync message. *)
Theorem wire_decode_wf (limits : Limits) (i : list byte) (f : WireFrame) :
  decode_with_limits limits i = Ok f -> frame_wf limits f /\ frame_fits limits f.
Proof. intros Hd. by apply decode_Ok in Hd as (? & ? & ?). Qed.

(** An accepted frame can be sent on: it encodes under the same limits to
    at most as many bytes as it came in, and those bytes decode to the same
    frame, also when the input used non-minimal integers. *)
Theorem wire_reencode (limits : Limits) (i : list byte) (f : WireFrame) :
  max_frame_bytes limits <= LIB0_MAX_SAFE_UINT ->
  decode_with_limits limits i = Ok f ->
  exists l, encode_with_limits limits f = Ok l /\ len l <= len i /\ decode_with_limits limits l = Ok f.
Proof.
  intros Hsafe Hd. apply decode_Ok in Hd as (Hw & Hf & Hl & Hm). pose proof (len_nonneg i).
  exists (frame_bytes f). split_and!; [apply encode_Ok_iff; [lia|]|done|apply decode_encoded; try done; lia].
  split_and!; [done|done|lia].
Qed.

(** The routing key of a room, alone or followed by a NUL and a session
    suffix, parses back to the room; and a name that parses is exactly
    [workspace:document|task:resource] with two 36-byte identifiers. *)
Theorem room_name_roundtrip `{!UuidLaws UL} (r : CollabRoomName) (session name : str) (r' : CollabRoomName) :
  parse (routing_key_base (routing_key r)) = Some r /\
  parse (routing_key_base (routing_key r ++ nul :: session)) = Some r /\
  (parse name = Some r' ->
   exists ws res, name = ws ++ colon :: (match kind r' with Document => bs "document" | Task => bs "task" end)
                         ++ colon :: res /\
     length ws = 36%nat /\ length res = 36%nat /\
     try_parse ws = Some (workspace_id r') /\ try_parse res = Some (resource_id r')).
Proof.
  assert (Hn : nul ∉ routing_key r).
  { unfold routing_key. pose proof (hyphenated_no nul (workspace_id r) eq_refl).
    pose proof (hyphenated_no nul (resource_id r) eq_refl).
    rewrite elem_of_app, elem_of_cons, elem_of_app, elem_of_cons.
    destruct (kind r); (intros [?|[?|[Hk|[?|?]]]]; [done|done| |done|done]);
      revert Hk; apply (bool_decide_eq_true_1 (_ ∉ _)); reflexivity. }
  split_and!.
  - unfold routing_key_base. rewrite (proj2 (split_once_None _ _)) by done. apply parse_routing_key.
  - unfold routing_key_base. rewrite split_once_app by done. apply parse_routing_key.
  - unfold parse. destruct (split colon name) as [|ws [|kd [|res [|]]]] eqn:E; try done.
    destruct (_ || _); [done|]. unfold parse_kind, parse_source_uuid.
    apply split_cons in E as [_ [[? _]|(r1 & -> & E)]]; [done|].
    apply split_cons in E as [_ [[? _]|(r2 & -> & E)]]; [done|].
    apply split_cons in E as [_ [[_ ->]|(r3 & _ & E)]]; [|by apply split_not_nil in E].
    repeat case_bool_decide; subst; simpl; try done.
    all: destruct (try_parse ws) eqn:?; simpl; [|done].
    all: destruct (try_parse res) eqn:?; simpl; [|done].
    all: intros [= <-]; simpl; eauto 10.
Qed.

(** A document frame whose message type is unknown, or is the
    connection-level Ping or Pong, is refused with the error that names it. *)
Theorem wire_type_errors (limits : Limits) (key : str) (v : Z) (rest : list byte) :
  max_frame_bytes limits <= LIB0_MAX_SAFE_UINT ->
  str_wf key -> str_fits limits key -> len key <= max_routing_key_bytes limits ->
  0 <= v <= LIB0_MAX_SAFE_UINT ->
  let i := string_bytes key ++ varuint v ++ rest in
  len i <= max_frame_bytes limits ->
  (MessageType_from_u64 v = None -> decode_with_limits limits i = Err (UnknownMessageType v)) /\
  (v = MessageType_as_u64 MPing -> decode_with_limits limits i = Err DocumentPingNotAllowed) /\
  (v = MessageType_as_u64 MPong -> decode_with_limits limits i = Err DocumentPongNotAllowed).
Proof.
  intros Hsafe Hw Hf Hk Hv i Hi.
  destruct (string_bytes_length key) as [Hp Hle].
  pose proof (varuint_length_pos v) as Hvp.
  assert (Hlen : (1 < length i)%nat) by (subst i; rewrite !length_app; lia).
  assert (Hd : decode_with_limits limits i =
    fst <$> (t ← lift (ok_or (MessageType_from_u64 v) (UnknownMessageType v));
             m ← decode_message limits t; _ ← expect_end;
             mret (FDocument key (parse (routing_key_base key)) m)) (at_split (string_bytes key ++ varuint v) rest)).
  { unfold decode_with_limits.
    rewrite !bool_decide_false by (intros E; rewrite E in Hlen; simpl in Hlen; lia).
    rewrite (proj2 (Z.ltb_ge _ _)) by done. f_equal.
    rewrite cursor_new_split. unfold decode_document, mbind at 1, stateE_bind at 1, i.
    rewrite (reads_string limits key) by (done || (unfold i in Hi; rewrite len_app in Hi; len_lia)).
    rewrite (proj2 (Z.ltb_ge _ _)) by done.
    unfold mbind at 1, stateE_bind at 1. rewrite (reads_varuint v) by done. done. }
  rewrite Hd. unfold mbind at 1, stateE_bind at 1. split_and!.
  - by intros ->.
  - by intros ->.
  - by intros ->.
Qed.

End theorems.

(** ** Witnesses *)

Definition sample_uuid (z : Z) (H : bool_decide (0 <= z < 2 ^ 128) = true) : uuid128 := Uuid128 z H.

Definition sample_room : CollabRoomName := {|
  workspace_id := sample_uuid 1 eq_refl : uuid;
  kind := Document;
  resource_id := sample_uuid (2 ^ 127 + 11) eq_refl : uuid;
|}.

Definition sample_sync : SyncMessage :=
  {| step := Update; y_protocol := [Byte.x02; Byte.x02; Byte.x00; Byte.x00] |}.

Definition sample_frame : WireFrame :=
  FDocument (routing_key sample_room) (Some sample_room) (DSync sample_sync).

Lemma wire_roundtrip_witness :
  exists l, encode_with_limits DEFAULT sample_frame = Ok l /\ decode_with_limits DEFAULT l = Ok sample_frame.
Proof.
  eexists. split; [vm_compute; reflexivity|].
  apply (wire_roundtrip DEFAULT sample_frame);
    [split; vm_compute; discriminate|repeat split; vm_compute; reflexivity|vm_compute; reflexivity].
Defined.

Lemma wire_encode_exact_witness :
  encode_with_limits DEFAULT (FConnection CPong) = Ok [Byte.x0a].
Proof.
  apply (wire_encode_exact DEFAULT (FConnection CPong) [Byte.x0a]); [vm_compute; discriminate|].
  repeat split; vm_compute; discriminate.
Defined.

(** A stateless message whose key length is written with two bytes. *)
Definition sample_input : list byte :=
  [Byte.x81; Byte.x00; Byte.x72; Byte.x05; Byte.x02; Byte.x68; Byte.x69].

Definition sample_stateless : WireFrame := FDocument (bs "r") None (DStateless (bs "hi")).

Lemma wire_decode_wf_witness : frame_wf DEFAULT sample_stateless /\ frame_fits DEFAULT sample_stateless.
Proof. apply (wire_decode_wf DEFAULT sample_input). by_decide. Defined.

Lemma wire_reencode_witness :
  exists l, encode_with_limits DEFAULT sample_stateless = Ok l /\ len l <= len sample_input /\
    decode_with_limits DEFAULT l = Ok sample_stateless.
Proof.
  apply (wire_reencode DEFAULT sample_input); [vm_compute; discriminate|by_decide].
Defined.

Lemma room_name_roundtrip_witness :
  parse (routing_key_base (routing_key sample_room ++ nul :: bs "session")) = Some sample_room.
Proof.
  destruct (room_name_roundtrip sample_room (bs "session") (routing_key sample_room) sample_room)
    as (_ & H & _). exact H.
Defined.

Lemma wire_type_errors_witness :
  decode_with_limits DEFAULT (string_bytes (bs "r") ++ varuint 4 ++ []) = Err (UnknownMessageType 4).
Proof.
  refine (proj1 (wire_type_errors DEFAULT (bs "r") 4 [] _ _ _ _ _ _) _);
    unfold str_wf, str_fits; by_decide.
Defined.
