(* ===== verification/YSync.v ===== *)
(** * The y-protocol sync envelope ([src/collab/y_sync.rs])

    The payload of a Hocuspocus [Sync] message: a step number and one
    length-prefixed update.  The wire codec keeps these bytes opaque; the room
    parses them here. *)

From stdpp Require Import base list numbers strings gmap.
From Stdlib Require Import ZArith Lia.
From S2P Require Import Prelude Text Cursor Uuid Wire WireFacts.

Inductive YSyncError := YTruncated | YInvalidVarUint | YBinaryTooLong.

#[export] Instance YSyncError_eq_dec : EqDecision YSyncError.
Proof. solve_decision. Defined.

#[export] Instance YSyncError_cursor : CursorError YSyncError :=
  {| truncated := YTruncated; invalid_var_uint := YInvalidVarUint |}.

(** [Cursor::read_var_bytes]; [usize::try_from] keeps every [u64] on a 64-bit
    target. *)
Definition y_read_var_bytes (max_binary : Z) : stateE cursor YSyncError (list byte) :=
  n ← read_var_uint;
  n ← lift (if n <=? u64_max then Ok n else Err YBinaryTooLong);
  if max_binary <? n then throw YBinaryTooLong else read_exact (Z.to_nat n).

Definition parse_sync_payload (y : list byte) (max_binary : Z) : result YSyncError (SyncStep * list byte) :=
  fst <$> (step_value ← read_var_uint;
           step ← match step_value with
                  | 0 => mret Step1
                  | 1 => mret Step2
                  | 2 => mret Update
                  | _ => throw YInvalidVarUint
                  end;
           payload ← y_read_var_bytes max_binary;
           r ← gets remaining;
           if negb (r =? 0)%nat then throw YTruncated else mret (step, payload)) (cursor_new y).

Definition encode_sync_payload (step : SyncStep) (payload : list byte) : list byte :=
  let step_value := match step with Step1 => 0 | Step2 => 1 | Update => 2 end in
  write_var_bytes (write_var_uint [] step_value) payload.

(** [payload == [0, 0]] *)
Definition is_empty_update (payload : list byte) : bool :=
  bool_decide (payload = [Byte.x00; Byte.x00]).

(** ** Facts *)

Lemma encode_sync_bytes st p :
  encode_sync_payload st p = varuint (SyncStep_as_u64 st) ++ string_bytes p.
Proof. unfold encode_sync_payload, write_var_bytes, write_var_uint, string_bytes. by destruct st; rewrite <- app_assoc. Qed.

Lemma step_match v :
  match v with
  | 0 => mret Step1 | 1 => mret Step2 | 2 => mret Update | _ => throw YInvalidVarUint
  end = lift (S:=cursor) (ok_or (SyncStep_from_u64 v) YInvalidVarUint).
Proof. unfold SyncStep_from_u64. by repeat case_goal. Qed.

Lemma SyncStep_round st : SyncStep_from_u64 (SyncStep_as_u64 st) = Some st.
Proof. by destruct st. Qed.

(** The envelope parsed whole: a step, then bytes, then the end. *)
Lemma parse_sync_Ok y max st p :
  parse_sync_payload y max = Ok (st, p) <->
  exists u1 u2 sv, y = u1 ++ u2 /\ reads (E:=YSyncError) read_var_uint u1 sv /\
    SyncStep_from_u64 sv = Some st /\ reads (y_read_var_bytes max) u2 p.
Proof.
  unfold parse_sync_payload. rewrite cursor_new_split. split.
  - unfold mbind, stateE_bind. destruct (read_var_uint _) as [[sv c1]|] eqn:E1; [|done].
    apply local_reads in E1 as (u1 & s1 & -> & -> & Hr1).
    rewrite step_match. destruct (SyncStep_from_u64 sv) as [st'|] eqn:Est; [|done]. simpl.
    destruct (y_read_var_bytes max _) as [[p' c2]|] eqn:E2; [|done].
    assert (Local (y_read_var_bytes max)) as HL.
    { unfold y_read_var_bytes. apply Local_bind; [apply _|intros n].
      apply Local_bind; [apply _|intros k]. destruct (max <? k); apply _. }
    apply HL in E2 as (u2 & s2 & -> & -> & Hr2).
    unfold gets. rewrite remaining_split. destruct s2; simpl; [|done]. intros [= <- <-].
    exists u1, u2, sv. by rewrite app_nil_r.
  - intros (u1 & u2 & sv & -> & Hr1 & Est & Hr2). unfold mbind, stateE_bind.
    rewrite Hr1, step_match, Est. simpl. rewrite <- (app_nil_r u2), Hr2. simpl.
    unfold gets. rewrite remaining_split. done.
Qed.

Lemma reads_same {E1 E2 : Type} `{CursorError E1, CursorError E2} {A}
    (m1 : stateE cursor E1 A) (m2 : stateE cursor E2 A) u x :
  same_ok m1 m2 -> reads m1 u x -> reads m2 u x.
Proof. intros Hs Hr pre suf. apply Hs, Hr. Qed.

(** The two [read_var_bytes] accept the same bytes. *)
Lemma var_bytes_same_wy limits : same_ok (read_var_bytes limits) (y_read_var_bytes (max_binary_payload_bytes limits)).
Proof.
  apply same_ok_bind; [apply same_ok_var_uint|intros n].
  intros c r. unfold bounded_len, mbind, stateE_bind, lift, map_err.
  destruct (n <=? u64_max); [|done].
  destruct (Z.leb_spec n (max_binary_payload_bytes limits)); [|done].
  rewrite (proj2 (Z.ltb_ge _ _)) by done. apply same_ok_exact.
Qed.

Lemma var_bytes_same_yw limits : same_ok (y_read_var_bytes (max_binary_payload_bytes limits)) (read_var_bytes limits).
Proof.
  apply same_ok_bind; [apply same_ok_var_uint|intros n].
  intros c r. unfold bounded_len, mbind, stateE_bind, lift, map_err.
  destruct (n <=? u64_max); [|done].
  destruct (Z.ltb_spec (max_binary_payload_bytes limits) n); [done|].
  rewrite (proj2 (Z.leb_le _ _)) by done. apply same_ok_exact.
Qed.

Lemma reads_y_payload max p :
  len p <= max -> len p <= LIB0_MAX_SAFE_UINT -> reads (y_read_var_bytes max) (string_bytes p) p.
Proof.
  intros Hm Hs.
  set (L := {| max_frame_bytes := 0; max_routing_key_bytes := 0; max_string_bytes := 0;
               max_binary_payload_bytes := max |}).
  apply (reads_same _ _ _ _ (var_bytes_same_wy L)). by apply reads_bytes.
Qed.

(** ** Theorems *)

(** Parsing an encoded sync message gives back its step and payload, for
    every payload within the binary limit. *)
Theorem ysync_roundtrip (st : SyncStep) (p : list byte) (max : Z) :
  len p <= max -> len p <= LIB0_MAX_SAFE_UINT ->
  parse_sync_payload (encode_sync_payload st p) max = Ok (st, p).
Proof.
  intros Hm Hs. apply parse_sync_Ok. rewrite encode_sync_bytes.
  exists (varuint (SyncStep_as_u64 st)), (string_bytes p), (SyncStep_as_u64 st).
  split_and!; [done|apply reads_varuint; by destruct st|apply SyncStep_round|by apply reads_y_payload].
Qed.

(** The room's parser and the wire decoder agree on what a sync payload
    is: bytes form a well-formed wire sync message with a step exactly when
    the room parses them, under the same binary limit, to that step. *)
Theorem ysync_wire_agree (limits : Limits) (m : SyncMessage) :
  sync_wf limits m <->
  exists p, parse_sync_payload (y_protocol m) (max_binary_payload_bytes limits) = Ok (step m, p).
Proof.
  unfold sync_wf. rewrite cursor_new_split. split.
  - intros (u1 & u2 & sv & p & s & _ & _ & Hy & Hr1 & Est & Hr2)%decode_sync_parts.
    exists p. apply parse_sync_Ok. exists u1, u2, sv. split_and!; try done.
    + apply (reads_same _ _ _ _ same_ok_var_uint Hr1).
    + apply (reads_same _ _ _ _ (var_bytes_same_wy limits) Hr2).
  - intros [p (u1 & u2 & sv & Hy & Hr1 & Est & Hr2)%parse_sync_Ok].
    apply (reads_same (E2:=WireError) _ _ _ _ same_ok_var_uint) in Hr1.
    apply (reads_same _ _ _ _ (var_bytes_same_yw limits)) in Hr2.
    pose proof (reads_sync limits u1 u2 sv _ p Hr1 Est Hr2) as Hr.
    destruct m as [st y]; simpl in *. subst y. apply reads_reads_all in Hr. apply (Hr []).
Qed.

Lemma ysync_roundtrip_witness :
  parse_sync_payload (encode_sync_payload Update [Byte.x00; Byte.x00]) 16 = Ok (Update, [Byte.x00; Byte.x00]).
Proof. apply ysync_roundtrip; vm_compute; discriminate. Defined.
