(* ===== verification/Float.v ===== *)
(** * Rust's [f64]

    IEEE 754 binary64 arithmetic, executable: the formalisation of the Standard
    Library ([SpecFloat]) at precision 53 and exponent bound 1024, with the
    operations and casts the layout code uses. *)

From stdpp Require Import base list numbers countable.
From Stdlib Require Import ZArith Lia.
From Stdlib Require Import SpecFloat.
From S2P Require Import Prelude.

Abbreviation f64 := spec_float.

#[export] Instance f64_eq_dec : EqDecision f64.
Proof. solve_decision. Defined.

#[export] Instance f64_countable : Countable f64.
Proof.
  refine (inj_countable'
    (fun x => match x with
              | S754_zero s => inl s
              | S754_infinity s => inr (inl s)
              | S754_nan => inr (inr (inl ()))
              | S754_finite s m e => inr (inr (inr (s, m, e)))
              end)
    (fun y => match y with
              | inl s => S754_zero s
              | inr (inl s) => S754_infinity s
              | inr (inr (inl ())) => S754_nan
              | inr (inr (inr (s, m, e))) => S754_finite s m e
              end) _).
  by intros [].
Defined.

Declare Scope f64_scope.
Delimit Scope f64_scope with f64.

Definition fadd (a b : f64) : f64 := SFadd 53 1024 a b.
Definition fsub (a b : f64) : f64 := SFsub 53 1024 a b.
Definition fmul (a b : f64) : f64 := SFmul 53 1024 a b.
Definition fdiv (a b : f64) : f64 := SFdiv 53 1024 a b.
Definition fneg (a : f64) : f64 := SFopp a.
Definition fabs (a : f64) : f64 := SFabs a.
Definition fltb (a b : f64) : bool := SFltb a b.
Definition fleb (a b : f64) : bool := SFleb a b.
Definition feqb (a b : f64) : bool := SFeqb a b.

Infix "+" := fadd : f64_scope.
Infix "-" := fsub : f64_scope.
Infix "*" := fmul : f64_scope.
Infix "/" := fdiv : f64_scope.
Infix "<?" := fltb : f64_scope.
Infix "<=?" := fleb : f64_scope.

(** [n as f64] for an integer. *)
Definition of_int (n : Z) : f64 := binary_normalize 53 1024 n 0 false.

(** A decimal literal [n / 10^k]: the nearest binary64 number. *)
Definition lit (n : Z) (k : Z) : f64 := fdiv (of_int n) (of_int (10 ^ k)).

Definition is_nan (a : f64) : bool := match a with S754_nan => true | _ => false end.

(** [f64::max] and [f64::min]: a NaN operand is ignored. *)
Definition fmax (a b : f64) : f64 :=
  if is_nan a then b else if is_nan b then a else if fltb a b then b else a.
Definition fmin (a b : f64) : f64 :=
  if is_nan a then b else if is_nan b then a else if fltb b a then b else a.

(** [f64::partial_cmp]. *)
Definition partial_cmp (a b : f64) : option comparison := SFcompare a b.

(** The value of a finite number, rounded to an integer by [rnd], which gets
    the numerator and the positive denominator. *)
Definition int_value (rnd : Z -> Z -> Z) (a : f64) : option Z :=
  match a with
  | S754_zero _ => Some 0
  | S754_finite s m e =>
    let n := if s then Z.neg m else Z.pos m in
    Some (if 0 <=? e then n * 2 ^ e else rnd n (2 ^ (- e)))
  | S754_infinity _ | S754_nan => None
  end.

Definition rnd_floor (n d : Z) : Z := n / d.
Definition rnd_ceil (n d : Z) : Z := - (- n / d).
Definition rnd_trunc (n d : Z) : Z := Z.quot n d.
(** [round]: half away from zero. *)
Definition rnd_round (n d : Z) : Z := if 0 <=? n then (2 * n + d) / (2 * d) else - ((- 2 * n + d) / (2 * d)).

(** [a.floor() as iN] and the like: the cast saturates, NaN gives zero. *)
Definition to_int (rnd : Z -> Z -> Z) (lo hi : Z) (a : f64) : Z :=
  match int_value rnd a with
  | Some z => Z.max lo (Z.min hi z)
  | None => match a with S754_infinity true => lo | S754_infinity false => hi | _ => 0 end
  end.

Definition i32_min : Z := - 2 ^ 31.
Definition i64_min : Z := - 2 ^ 63.
Definition i64_max : Z := 2 ^ 63 - 1.

Definition floor_i32 : f64 -> Z := to_int rnd_floor i32_min i32_max.
Definition ceil_i32 : f64 -> Z := to_int rnd_ceil i32_min i32_max.
Definition trunc_i64 : f64 -> Z := to_int rnd_trunc i64_min i64_max.
Definition round_i64 : f64 -> Z := to_int rnd_round i64_min i64_max.
