(* ===== verification/Json.v ===== *)
(** * [serde_json] values

    [Value] and [Map] as the server uses them: without the [preserve_order]
    feature a [Map] is a [BTreeMap], so its entries are in key order.  Parsing
    and printing belong to the third-party crate: [SerdeJson] names them and
    [SerdeJsonLaws] states the behaviour the components rely on. *)

From stdpp Require Import base list numbers strings gmap.
From Stdlib Require Import ZArith Lia.
From S2P Require Import Prelude Text.

(** [serde_json::Value] over an abstract type of numbers. *)
Inductive value (num : Type) : Type :=
| VNull
| VBool (b : bool)
| VNumber (n : num)
| VString (s : str)
| VArray (l : list (value num))
| VObject (m : list (str * value num)).
Arguments VNull {num}.
Arguments VBool {num} b.
Arguments VNumber {num} n.
Arguments VString {num} s.
Arguments VArray {num} l.
Arguments VObject {num} m.

(** ** Maps *)

Section map.
Context {A : Type}.

(** [Map::get]. *)
Fixpoint map_get (k : str) (m : list (str * A)) : option A :=
  match m with
  | [] => None
  | (k', v) :: t => if bool_decide (k = k') then Some v else map_get k t
  end.

(** [Map::insert], in key order. *)
Fixpoint map_insert (k : str) (v : A) (m : list (str * A)) : list (str * A) :=
  match m with
  | [] => [(k, v)]
  | (k', v') :: t =>
    match str_compare k k' with
    | Lt => (k, v) :: m
    | Eq => (k, v) :: t
    | Gt => (k', v') :: map_insert k v t
    end
  end.

(** The keys are strictly increasing. *)
Fixpoint map_sorted (m : list (str * A)) : Prop :=
  match m with
  | [] => True
  | (k, _) :: t => Forall (fun e => str_lt k e.1) t /\ map_sorted t
  end.

Lemma map_get_insert k v m : map_sorted m -> map_get k (map_insert k v m) = Some v.
Proof.
  induction m as [|[k' v'] m IH]; simpl; [intros _; by rewrite bool_decide_true|].
  intros [_ Hs]. destruct (str_compare k k') eqn:E; simpl.
  - by rewrite bool_decide_true.
  - by rewrite bool_decide_true.
  - rewrite bool_decide_false; [auto|]. intros ->. by rewrite str_compare_refl in E.
Qed.

Lemma map_get_insert_ne k k0 v m : k0 <> k -> map_get k0 (map_insert k v m) = map_get k0 m.
Proof.
  intros Hne. induction m as [|[k' v'] m IH]; simpl; [by rewrite bool_decide_false|].
  destruct (str_compare k k') eqn:E; simpl.
  - apply str_compare_eq in E as ->. by rewrite !bool_decide_false by done.
  - by rewrite (bool_decide_false (k0 = k)).
  - by case_bool_decide.
Qed.

Lemma map_insert_Forall (P : str * A -> Prop) k v m :
  P (k, v) -> Forall P m -> Forall P (map_insert k v m).
Proof.
  intros Hk. induction 1 as [|[k' v'] m Hx Hm IH]; simpl; [auto|].
  destruct (str_compare k k'); auto.
Qed.

Lemma map_insert_sorted k v m : map_sorted m -> map_sorted (map_insert k v m).
Proof.
  induction m as [|[k' v'] m IH]; simpl; [auto|]. intros [Hf Hs].
  destruct (str_compare k k') eqn:E; simpl.
  - apply str_compare_eq in E as ->. auto.
  - split; [|auto]. constructor; [done|]. eapply Forall_mono; [|exact Hf].
    intros e He. simpl in He. by apply (str_lt_trans k k').
  - split; [|auto]. apply map_insert_Forall; [by apply str_compare_gt|done].
Qed.

(** Entries of the result are the new entry or old ones with another key. *)
Lemma map_get_None_Forall k (m : list (str * A)) : Forall (fun e => str_lt k e.1) m -> map_get k m = None.
Proof.
  induction 1 as [|[k' v] m Hx _ IH]; simpl; [done|].
  rewrite bool_decide_false; [done|]. intros ->. by apply str_lt_irrefl in Hx.
Qed.

(** Sorted maps with the same lookups are equal. *)
Lemma map_sorted_ext (m1 m2 : list (str * A)) :
  map_sorted m1 -> map_sorted m2 -> (forall k, map_get k m1 = map_get k m2) -> m1 = m2.
Proof.
  revert m2. induction m1 as [|[k1 v1] m1 IH]; intros [|[k2 v2] m2]; simpl; intros Hs1 Hs2 Hg; [done|..].
  - specialize (Hg k2). rewrite bool_decide_true in Hg; done.
  - specialize (Hg k1). rewrite bool_decide_true in Hg; done.
  - destruct Hs1 as [Hf1 Hs1], Hs2 as [Hf2 Hs2].
    assert (k1 = k2) as ->.
    { destruct (str_compare k1 k2) eqn:E; [by apply str_compare_eq|..].
      - pose proof (Hg k1) as H1. rewrite bool_decide_true, bool_decide_false in H1 by
          (try done; intros ->; by rewrite str_compare_refl in E).
        rewrite (map_get_None_Forall k1 m2) in H1; [done|].
        eapply Forall_mono; [|exact Hf2]. intros e He. by apply (str_lt_trans k1 k2).
      - pose proof (Hg k2) as H1. rewrite bool_decide_false, bool_decide_true in H1 by
          (try done; intros ->; by rewrite str_compare_refl in E).
        rewrite (map_get_None_Forall k2 m1) in H1; [done|].
        eapply Forall_mono; [|exact Hf1]. intros e He. apply (str_lt_trans k2 k1); [|done].
        by apply str_compare_gt. }
    pose proof (Hg k2) as Hv. rewrite !bool_decide_true in Hv by done. injection Hv as ->.
    f_equal. apply IH; try done. intros k. specialize (Hg k). case_bool_decide as Hk; [|done].
    subst k. by rewrite !map_get_None_Forall.
Qed.

End map.

(** ** Accessors *)

Section accessors.
Context {num : Type}.
Implicit Types v : value num.

Definition as_object v : option (list (str * value num)) :=
  match v with VObject m => Some m | _ => None end.
Definition as_str v : option str := match v with VString s => Some s | _ => None end.
Definition as_bool v : option bool := match v with VBool b => Some b | _ => None end.
Definition as_array v : option (list (value num)) := match v with VArray l => Some l | _ => None end.
Definition is_null v : bool := match v with VNull => true | _ => false end.
Definition is_number v : bool := match v with VNumber _ => true | _ => false end.

(** What the Rust types guarantee: strings are UTF-8, maps are ordered. *)
Fixpoint value_wf v : Prop :=
  match v with
  | VNull | VBool _ | VNumber _ => True
  | VString s => utf8_valid s = true
  | VArray l => (fix go l := match l with [] => True | x :: t => value_wf x /\ go t end) l
  | VObject m =>
    map_sorted m /\
    (fix go m := match m with [] => True | (k, x) :: t => utf8_valid k = true /\ value_wf x /\ go t end) m
  end.

Lemma value_wf_object m :
  value_wf (VObject m) <->
  map_sorted m /\ Forall (fun e : str * value num => utf8_valid e.1 = true /\ value_wf e.2) m.
Proof.
  simpl. split; intros [Hs Hm]; (split; [done|]); clear Hs.
  - induction m as [|[k x] m IH]; [constructor|]. destruct Hm as (? & ? & ?). constructor; auto.
  - induction Hm as [|[k x] m [Hk Hx] _ IH]; auto.
Qed.

Lemma value_wf_array (l : list (value num)) : value_wf (VArray l) <-> Forall value_wf l.
Proof.
  simpl. split.
  - induction l as [|x l IH]; [constructor|]. intros [? ?]. constructor; auto.
  - induction 1; auto.
Qed.

Lemma map_get_wf k (m : list (str * value num)) x :
  value_wf (VObject m) -> map_get k m = Some x -> utf8_valid k = true /\ value_wf x.
Proof.
  intros [_ Hm]%value_wf_object. induction Hm as [|[k' v'] m [Hk Hv] _ IH]; simpl; [done|].
  case_bool_decide; [intros [= ->]; subst; done|auto].
Qed.

Lemma map_insert_wf k x (m : list (str * value num)) :
  utf8_valid k = true -> value_wf x -> value_wf (VObject m) -> value_wf (VObject (map_insert k x m)).
Proof.
  rewrite !value_wf_object. intros Hk Hx [Hs Hm]. split; [by apply map_insert_sorted|].
  by apply map_insert_Forall.
Qed.

Lemma value_wf_empty : value_wf (VObject []).
Proof. by apply value_wf_object. Qed.

End accessors.

(** ** The crate *)

Class SerdeJson := {
  number : Type;
  (** [serde_json::from_slice] and [from_str], into a [Value]. *)
  from_slice : list byte -> option (value number);
  (** [serde_json::to_vec]. *)
  to_vec : value number -> option (list byte);
}.

Class SerdeJsonLaws (J : SerdeJson) : Prop := {
  (** A parsed value is a well-formed value. *)
  from_slice_wf s v : from_slice s = Some v -> value_wf v;
  (** Printing a value succeeds, gives UTF-8, and parses back to the value. *)
  to_vec_from v : value_wf v ->
    exists s, to_vec v = Some s /\ utf8_valid s = true /\ from_slice s = Some v;
  (** The text [null] is the null value. *)
  from_slice_null : from_slice (bs "null") = Some VNull;
}.
