(* ===== verification/JsonInstance.v ===== *)
(** * An instance of the [serde_json] interface

    A length-prefixed text format for values whose numbers are floats.  It satisfies
    [SerdeJsonLaws], so theorems that assume the laws are not vacuous; it is
    used by witnesses only. *)

From stdpp Require Import base list numbers strings gmap.
From Stdlib Require Import ZArith Lia.
From S2P Require Import Prelude Text Json Float.

Abbreviation val := (value f64).

(** Induction over nested values. *)
Lemma value_nested_ind (P : val -> Prop) :
  P VNull -> (forall b, P (VBool b)) -> (forall n, P (VNumber n)) -> (forall s, P (VString s)) ->
  (forall l, Forall P l -> P (VArray l)) ->
  (forall m, Forall (fun e => P e.2) m -> P (VObject m)) ->
  forall v, P v.
Proof.
  intros Hn Hb Hnum Hs Ha Ho. fix IH 1. intros [| | | |l|m]; [exact Hn|apply Hb|apply Hnum|apply Hs| |].
  - apply Ha. induction l as [|x l IHl]; constructor; [apply IH|apply IHl].
  - apply Ho. induction m as [|[k v] m IHm]; constructor; [apply IH|apply IHm].
Qed.

(** ** Well-formedness, decided *)

Fixpoint map_sortedb {A} (m : list (str * A)) : bool :=
  match m with
  | [] => true
  | (k, _) :: t => forallb (fun e => bool_decide (str_compare k e.1 = Lt)) t && map_sortedb t
  end.

Fixpoint value_wfb (v : val) : bool :=
  match v with
  | VNull | VBool _ | VNumber _ => true
  | VString s => utf8_valid s
  | VArray l => forallb value_wfb l
  | VObject m => map_sortedb m && forallb (fun e => utf8_valid e.1 && value_wfb e.2) m
  end.

Lemma forallb_Forall {A} (f : A -> bool) (P : A -> Prop) l :
  Forall (fun x => f x = true <-> P x) l -> forallb f l = true <-> Forall P l.
Proof.
  induction 1 as [|x l Hx _ IH]; simpl; [by split|].
  rewrite andb_true_iff, Hx, IH. split; [intros []; by constructor|by inversion 1].
Qed.

Lemma map_sortedb_iff {A} (m : list (str * A)) : map_sortedb m = true <-> map_sorted m.
Proof.
  induction m as [|[k v] m IH]; simpl; [done|]. rewrite andb_true_iff, IH.
  rewrite (forallb_Forall _ (fun e => str_lt k e.1)); [done|].
  apply Forall_forall. intros e _. apply bool_decide_eq_true.
Qed.

Lemma value_wfb_iff v : value_wfb v = true <-> value_wf v.
Proof.
  induction v as [| | | |l IH|m IH] using value_nested_ind; try done.
  - rewrite value_wf_array. by apply forallb_Forall.
  - rewrite value_wf_object. simpl. rewrite andb_true_iff, map_sortedb_iff.
    rewrite (forallb_Forall _ (fun e => utf8_valid e.1 = true /\ value_wf e.2)); [done|].
    eapply Forall_mono; [|exact IH]. intros e He. simpl. by rewrite andb_true_iff, He.
Qed.

(** ** The format *)

Definition unary (n : nat) : str := replicate n Byte.x23 ++ [Byte.x2e].

Fixpoint take_unary (s : str) : option (nat * str) :=
  match s with
  | Byte.x23 :: t => match take_unary t with Some (n, r) => Some (S n, r) | None => None end
  | Byte.x2e :: t => Some (0%nat, t)
  | _ => None
  end.

Definition text (s : str) : str := unary (length s) ++ s.

Definition take_text (s : str) : option (str * str) :=
  match take_unary s with
  | Some (n, r) => if (length r <? n)%nat then None else Some (take n r, drop n r)
  | None => None
  end.

(** A number is the binary text of its code. *)
Fixpoint pos_text (p : positive) : str :=
  match p with
  | xH => []
  | xO p => Byte.x30 :: pos_text p
  | xI p => Byte.x31 :: pos_text p
  end.

Fixpoint pos_of_text (s : str) : option positive :=
  match s with
  | [] => Some xH
  | Byte.x30 :: t => xO <$> pos_of_text t
  | Byte.x31 :: t => xI <$> pos_of_text t
  | _ => None
  end.

Fixpoint print (v : val) : str :=
  match v with
  | VNull => bs "null"
  | VBool b => bs (if b then "t" else "f")
  | VNumber x => bs "d" ++ text (pos_text (encode x))
  | VString s => bs "s" ++ text s
  | VArray l => bs "a" ++ unary (length l) ++ concat (map print l)
  | VObject m => bs "o" ++ unary (length m) ++ concat (map (fun e => text e.1 ++ print e.2) m)
  end.

(** [n] items read one after the other. *)
Fixpoint many {A} (item : str -> option (A * str)) (n : nat) (s : str) : option (list A * str) :=
  match n with
  | O => Some ([], s)
  | S n' =>
    match item s with
    | Some (x, r) => match many item n' r with Some (xs, r') => Some (x :: xs, r') | None => None end
    | None => None
    end
  end.

Fixpoint scan (fuel : nat) (s : str) : option (val * str) :=
  match fuel with
  | O => None
  | S f =>
    match s with
    | Byte.x6e :: Byte.x75 :: Byte.x6c :: Byte.x6c :: r => Some (VNull, r)
    | Byte.x74 :: r => Some (VBool true, r)
    | Byte.x66 :: r => Some (VBool false, r)
    | Byte.x64 :: r =>
      match take_text r with
      | Some (t, r) => match pos_of_text t ≫= decode with Some x => Some (VNumber x, r) | None => None end
      | None => None
      end
    | Byte.x73 :: r => match take_text r with Some (t, r) => Some (VString t, r) | None => None end
    | Byte.x61 :: r =>
      match take_unary r with
      | Some (n, r) => match many (scan f) n r with Some (l, r) => Some (VArray l, r) | None => None end
      | None => None
      end
    | Byte.x6f :: r =>
      match take_unary r with
      | Some (n, r) =>
        match many (fun s => match take_text s with
                             | Some (k, r) => match scan f r with Some (v, r) => Some ((k, v), r) | None => None end
                             | None => None
                             end) n r with
        | Some (m, r) => Some (VObject m, r)
        | None => None
        end
      | None => None
      end
    | _ => None
    end
  end.

#[export] Instance toy_json : SerdeJson := {|
  number := f64;
  from_slice s :=
    match scan (length s) s with
    | Some (v, []) => if value_wfb v then Some v else None
    | _ => None
    end;
  to_vec v := Some (print v);
|}.

(** ** The laws *)

Lemma take_unary_app n r : take_unary (unary n ++ r) = Some (n, r).
Proof. induction n as [|n IH]; simpl; [done|]. unfold unary in IH. simpl in IH. by rewrite IH. Qed.

Lemma take_text_app s r : take_text (text s ++ r) = Some (s, r).
Proof.
  unfold take_text, text. rewrite <- app_assoc, take_unary_app.
  rewrite (proj2 (Nat.ltb_ge _ _)) by (rewrite length_app; lia).
  by rewrite take_app_length, drop_app_length.
Qed.

Lemma many_app {A} (item : str -> option (A * str)) (pr : A -> str) l r :
  Forall (fun x => forall r, item (pr x ++ r) = Some (x, r)) l ->
  many item (length l) (concat (map pr l) ++ r) = Some (l, r).
Proof. induction 1 as [|x l Hx _ IH]; simpl; [done|]. rewrite <- app_assoc, Hx, IH. done. Qed.

Lemma concat_length_le {A} (pr : A -> str) l x : x ∈ l -> (length (pr x) <= length (concat (map pr l)))%nat.
Proof. induction 1 as [|x y l _ IH]; simpl; rewrite length_app; lia. Qed.

Lemma pos_of_text_print p : pos_of_text (pos_text p) = Some p.
Proof. induction p as [p IH|p IH|]; simpl; [by rewrite IH..|done]. Qed.

Lemma pos_text_utf8 p : utf8_valid (pos_text p) = true.
Proof. apply utf8_valid_ascii. induction p; simpl; repeat constructor; done. Qed.

Lemma scan_print v : forall fuel r, (length (print v) <= fuel)%nat -> scan fuel (print v ++ r) = Some (v, r).
Proof.
  induction v as [|b|x|s|l IH|m IH] using value_nested_ind; intros [|f] r Hf; try (by simpl in Hf; lia); try done.
  - destruct b; simpl in Hf; lia.
  - by destruct b.
  - cbn -[text encode take_text pos_text]. by rewrite take_text_app, pos_of_text_print; cbn -[decode encode]; rewrite decode_encode.
  - simpl. by rewrite take_text_app.
  - simpl. rewrite <- app_assoc, take_unary_app, (many_app _ print); [done|].
    simpl in Hf. rewrite length_app in Hf.
    rewrite Forall_forall in *. intros x Hx r'. apply IH; [done|].
    pose proof (concat_length_le print l x Hx). lia.
  - simpl. rewrite <- app_assoc, take_unary_app, (many_app _ (fun e => text e.1 ++ print e.2)); [done|].
    simpl in Hf. rewrite length_app in Hf.
    rewrite Forall_forall in *. intros [k x] Hx r'. simpl. rewrite <- app_assoc, take_text_app.
    rewrite (IH (k, x)); [done|done|].
    pose proof (concat_length_le (fun e => text e.1 ++ print e.2) m (k, x) Hx) as Hle.
    simpl in *. rewrite length_app in Hle. lia.
Qed.

Lemma utf8_unary n : utf8_valid (unary n) = true.
Proof.
  apply utf8_valid_ascii. unfold unary. apply Forall_app. split; [|by repeat constructor].
  apply Forall_replicate. done.
Qed.

Lemma utf8_text s : utf8_valid s = true -> utf8_valid (text s) = true.
Proof. intros. apply utf8_valid_app; [apply utf8_unary|done]. Qed.

Lemma utf8_concat {A} (pr : A -> str) l :
  Forall (fun x => utf8_valid (pr x) = true) l -> utf8_valid (concat (map pr l)) = true.
Proof. induction 1; simpl; [done|by apply utf8_valid_app]. Qed.

Lemma print_utf8 v : value_wf v -> utf8_valid (print v) = true.
Proof.
  induction v as [|b|x|s|l IH|m IH] using value_nested_ind; intros Hw; try done; try (by destruct b).
  - apply (utf8_valid_app (bs "d")); [done|apply utf8_text, pos_text_utf8].
  - apply (utf8_valid_app (bs "s")); [done|by apply utf8_text].
  - apply (utf8_valid_app (bs "a")); [done|]. apply utf8_valid_app; [apply utf8_unary|].
    apply utf8_concat. apply value_wf_array in Hw. rewrite Forall_forall in *. auto.
  - apply (utf8_valid_app (bs "o")); [done|]. apply utf8_valid_app; [apply utf8_unary|].
    apply utf8_concat. apply value_wf_object in Hw as [_ Hw]. rewrite Forall_forall in *.
    intros e He. destruct (Hw e He). apply utf8_valid_app; [by apply utf8_text|auto].
Qed.

#[export] Instance toy_json_laws : SerdeJsonLaws toy_json.
Proof.
  split.
  - intros s v. simpl. destruct (scan _ _) as [[v' [|]]|]; try done.
    destruct (value_wfb v') eqn:E; [|done]. intros [= <-]. by apply value_wfb_iff.
  - intros v Hw. exists (print v). split_and!; [done|by apply print_utf8|]. simpl.
    pose proof (scan_print v (length (print v)) [] ltac:(lia)) as Hp. rewrite app_nil_r in Hp.
    rewrite Hp. by apply value_wfb_iff in Hw as ->.
  - reflexivity.
Qed.
