(* ===== verification/Blocks.v ===== *)
(** * Block edits of documents ([src/src/documents/blocks.rs])

    [PATCH …/blocks/{blockId}] replaces one node of a document body.  The walk
    mutates the tree in place: [replace_in] returns whether a node was replaced
    with the value as the walk leaves it.

    A node is addressed by the indices to follow through the [content] arrays
    ([node_at]); paths are ordered as the walk visits them ([before]).  The
    theorem [block_replaced] says that the first block in that order, no deeper
    than 64, is replaced and everything else stays; the walk reports failure
    exactly when there is no such block. *)

From stdpp Require Import base list numbers strings sets.
From Stdlib Require Import ZArith Lia.
From S2P Require Import Prelude Text Json.

(** ** Operations *)

(** Source [TIPTAP_WALK_MAX_DEPTH]. *)
Definition TIPTAP_WALK_MAX_DEPTH : nat := 64.

Definition UNIQUE_ID_NODE_TYPES : list str :=
  [bs "heading"; bs "paragraph"; bs "blockquote"; bs "codeBlock"; bs "embed"; bs "listItem"; bs "table";
   bs "horizontalRule"; bs "callout"; bs "mermaid"; bs "math"; bs "details"; bs "detailsContent";
   bs "detailsSummary"; bs "taskList"; bs "taskItem"].

Section blocks.
Context {num : Type}.
Abbreviation value := (value num).
Abbreviation object := (list (str * value)).

Record BlockNode := {
  bn_type : str;
  bn_attrs : option object;
  bn_content : option (list value);
  bn_marks : option (list value);
  bn_text : option str;
}.

(** [Map::remove]. *)
Definition map_remove (k : str) (m : object) : object := filter (fun e => e.1 <> k) m.

(** An assignment through [Map::get_mut]: the entry keeps its place. *)
Fixpoint map_set (k : str) (v : value) (m : object) : object :=
  match m with
  | [] => []
  | (k', v') :: t => if bool_decide (k = k') then (k', v) :: t else (k', v') :: map_set k v t
  end.

(** [match field { Some(v) => obj.insert(key, v), None => obj.remove(key) }]. *)
Definition put_field (k : str) (v : option value) (obj : object) : object :=
  match v with Some v => map_insert k v obj | None => map_remove k obj end.

Definition apply (obj : object) (block_id : str) (node : BlockNode) : object :=
  let obj := map_insert (bs "type") (VString (bn_type node)) obj in
  let attrs := map_insert (bs "id") (VString block_id) (default [] (bn_attrs node)) in
  let obj := map_insert (bs "attrs") (VObject attrs) obj in
  let obj := put_field (bs "content") (VArray <$> bn_content node) obj in
  let obj := put_field (bs "text") (VString <$> bn_text node) obj in
  put_field (bs "marks") (VArray <$> bn_marks node) obj.

Definition id_matches (block_id : str) (obj : object) : bool :=
  bool_decide ((((map_get (bs "attrs") obj ≫= as_object) ≫= map_get (bs "id")) ≫= as_str) = Some block_id).

Definition type_ok (obj : object) : bool :=
  match map_get (bs "type") obj ≫= as_str with
  | Some t => bool_decide (t ∈ UNIQUE_ID_NODE_TYPES)
  | None => false
  end.

(** [for child in children { if replace(child) { return true } }]. *)
Fixpoint replace_children (replace : value -> bool * value) (children : list value) : bool * list value :=
  match children with
  | [] => (false, [])
  | child :: rest =>
    let '(hit, child) := replace child in
    if hit then (true, child :: rest)
    else let '(hit, rest) := replace_children replace rest in (hit, child :: rest)
  end.

(** The fuel bounds the recursion; the walk stops by itself at depth 65. *)
Fixpoint replace_in (fuel : nat) (v : value) (block_id : str) (node : BlockNode) (depth : nat) : bool * value :=
  match fuel with
  | O => (false, v)
  | S fuel =>
    if (TIPTAP_WALK_MAX_DEPTH <? depth)%nat then (false, v) else
    match as_object v with
    | None => (false, v)
    | Some obj =>
      if id_matches block_id obj && type_ok obj then (true, VObject (apply obj block_id node)) else
      match map_get (bs "content") obj with
      | Some (VArray children) =>
        let '(hit, children) :=
          replace_children (fun child => replace_in fuel child block_id node (S depth)) children in
        (hit, VObject (map_set (bs "content") (VArray children) obj))
      | _ => (false, VObject obj)
      end
    end
  end.

Definition walk_fuel : nat := 66.

Definition replace_node_by_id (doc : value) (block_id : str) (node : BlockNode) : option value :=
  let '(hit, next) := replace_in walk_fuel doc block_id node 0 in
  if hit then Some next else None.

(** ** Paths *)

Definition children_of (v : value) : option (list value) :=
  (as_object v ≫= map_get (bs "content")) ≫= as_array.

(** The node at a path of child indices. *)
Fixpoint node_at (p : list nat) (v : value) : option value :=
  match p with
  | [] => Some v
  | i :: p => children_of v ≫= fun l => l !! i ≫= node_at p
  end.

(** The tree with another node at a path. *)
Fixpoint put_at (p : list nat) (w v : value) : value :=
  match p with
  | [] => w
  | i :: p =>
    match v with
    | VObject obj =>
      match map_get (bs "content") obj with
      | Some (VArray l) =>
        VObject (map_set (bs "content") (VArray (alter (put_at p w) i l)) obj)
      | _ => v
      end
    | _ => v
    end
  end.

(** The order of the walk: a node before its children, children in order. *)
Fixpoint before (p q : list nat) : Prop :=
  match p, q with
  | [], _ :: _ => True
  | i :: p, j :: q => (i < j)%nat \/ i = j /\ before p q
  | _, [] => False
  end.

Definition is_block (block_id : str) (v : value) : Prop :=
  exists obj, v = VObject obj /\ id_matches block_id obj = true /\ type_ok obj = true.

Definition no_block_at (block_id : str) (v : value) (p : list nat) : Prop :=
  forall w, node_at p v = Some w -> ~ is_block block_id w.

(** ** Maps *)

Lemma map_set_id k v m : map_get k m = Some v -> map_set k v m = m.
Proof.
  induction m as [|[k' v'] m IH]; simpl; [done|].
  case_bool_decide; [by intros [= ->]|]. intros H'. by rewrite IH.
Qed.

Lemma map_get_set k v v0 m : map_get k m = Some v0 -> map_get k (map_set k v m) = Some v.
Proof.
  induction m as [|[k' v'] m IH]; simpl; [done|].
  case_bool_decide; simpl; [by rewrite bool_decide_true|]. intros H'. rewrite bool_decide_false by done. auto.
Qed.

Lemma map_get_set_ne k k0 v m : k0 <> k -> map_get k0 (map_set k v m) = map_get k0 m.
Proof.
  intros Hne. induction m as [|[k' v'] m IH]; simpl; [done|].
  destruct (decide (k = k')) as [<-|?].
  - rewrite (bool_decide_true (k = k)) by done. simpl. by rewrite !bool_decide_false.
  - rewrite (bool_decide_false (k = k')) by done. simpl. by rewrite IH.
Qed.

Lemma map_get_remove k m : map_get k (map_remove k m) = None.
Proof.
  unfold map_remove. induction m as [|[k' v'] m IH]; [done|].
  rewrite filter_cons. simpl. case_decide; [|done]. simpl. by rewrite bool_decide_false by congruence.
Qed.

Lemma map_get_remove_ne k k0 m : k0 <> k -> map_get k0 (map_remove k m) = map_get k0 m.
Proof.
  intros Hne. unfold map_remove. induction m as [|[k' v'] m IH]; [done|].
  rewrite filter_cons. simpl. case_decide as H'; simpl; rewrite IH; [done|].
  rewrite bool_decide_false; [done|congruence].
Qed.

Lemma map_remove_sorted k m : map_sorted m -> map_sorted (map_remove k m).
Proof.
  unfold map_remove. induction m as [|[k' v'] m IH]; [done|]. intros [Hf Hs].
  rewrite filter_cons. simpl. case_decide; [|auto]. split; [|auto].
  rewrite Forall_forall in Hf |- *. intros e [_ ?]%list_elem_of_filter. auto.
Qed.

Lemma put_field_sorted k v m : map_sorted m -> map_sorted (put_field k v m).
Proof. destruct v; simpl; [apply map_insert_sorted|apply map_remove_sorted]. Qed.

Lemma put_field_get k v m : map_sorted m -> map_get k (put_field k v m) = v.
Proof. destruct v; simpl; [apply map_get_insert|intros _; apply map_get_remove]. Qed.

Lemma put_field_get_ne k k0 v m : k0 <> k -> map_get k0 (put_field k v m) = map_get k0 m.
Proof. destruct v; simpl; [apply map_get_insert_ne|apply map_get_remove_ne]. Qed.

(** ** The walk *)

(** [apply] sets the fields of the replacement and keeps every other key. *)
Lemma apply_get obj block_id node k :
  map_sorted obj ->
  map_get k (apply obj block_id node) =
    if decide (k = bs "type") then Some (VString (bn_type node)) else
    if decide (k = bs "attrs")
    then Some (VObject (map_insert (bs "id") (VString block_id) (default [] (bn_attrs node)))) else
    if decide (k = bs "content") then VArray <$> bn_content node else
    if decide (k = bs "text") then VString <$> bn_text node else
    if decide (k = bs "marks") then VArray <$> bn_marks node else map_get k obj.
Proof.
  intros Hs. unfold apply.
  repeat case_decide; subst;
    repeat first [rewrite put_field_get_ne by done | rewrite map_get_insert_ne by done];
    first [done | apply put_field_get | apply map_get_insert];
    repeat first [apply put_field_sorted | apply map_insert_sorted]; done.
Qed.

Lemma apply_sorted obj block_id node : map_sorted obj -> map_sorted (apply obj block_id node).
Proof. intros Hs. unfold apply. repeat first [apply put_field_sorted | apply map_insert_sorted]; done. Qed.

(** A second application changes nothing. *)
Lemma apply_twice obj block_id node :
  map_sorted obj -> apply (apply obj block_id node) block_id node = apply obj block_id node.
Proof.
  intros Hs. pose proof (apply_sorted obj block_id node Hs) as Ha.
  apply map_sorted_ext; [by apply apply_sorted|done|]. intros k.
  rewrite (apply_get (apply _ _ _)) by done. rewrite !(apply_get obj) by done. by repeat case_decide.
Qed.

(** The replacement is a block under the same identifier when its type carries one. *)
Lemma apply_block obj block_id node :
  map_sorted obj -> map_sorted (default [] (bn_attrs node)) -> bn_type node ∈ UNIQUE_ID_NODE_TYPES ->
  is_block block_id (VObject (apply obj block_id node)).
Proof.
  intros Hs Ha Ht. eexists. split; [done|]. unfold id_matches, type_ok. rewrite !apply_get by done. simpl.
  rewrite map_get_insert by done. simpl. by rewrite !bool_decide_true.
Qed.

Lemma replace_children_spec f (l : list value) :
  (forall c, c ∈ l -> (f c).1 = false -> (f c).2 = c) ->
  let '(hit, l') := replace_children f l in
  if hit then exists i c, l !! i = Some c /\ (f c).1 = true /\
    (forall j d, (j < i)%nat -> l !! j = Some d -> (f d).1 = false) /\ l' = alter (fun c => (f c).2) i l
  else (forall c, c ∈ l -> (f c).1 = false) /\ l' = l.
Proof.
  induction l as [|c l IH]; intros Hf; simpl; [split; [set_solver|done]|].
  destruct (f c) as [[] c'] eqn:E.
  - exists 0%nat, c. rewrite E. simpl. repeat split; [lia|]. by rewrite E.
  - assert (c' = c) as ->. { specialize (Hf c). rewrite E in Hf. apply Hf; set_solver. }
    specialize (IH ltac:(intros; apply Hf; set_solver)).
    destruct (replace_children f l) as [[] l'].
    + destruct IH as (i & d & Hi & Hd & Hb & ->). exists (S i), d. repeat split; [done..|].
      intros [|j] e Hj; simpl; [intros [= <-]; by rewrite E|]. apply Hb. lia.
    + destruct IH as [Hn ->]. split; [|done]. intros d [->|Hd]%elem_of_cons; [by rewrite E|auto].
Qed.

(** What one call of the walk does. *)
Definition walked (block_id : str) (node : BlockNode) (depth : nat) (v : value) (r : bool * value) : Prop :=
  if r.1 then exists p obj, (depth + length p <= TIPTAP_WALK_MAX_DEPTH)%nat /\
    node_at p v = Some (VObject obj) /\ id_matches block_id obj = true /\ type_ok obj = true /\
    (forall q, before q p -> (depth + length q <= TIPTAP_WALK_MAX_DEPTH)%nat -> no_block_at block_id v q) /\
    r.2 = put_at p (VObject (apply obj block_id node)) v
  else r.2 = v /\ forall q, (depth + length q <= TIPTAP_WALK_MAX_DEPTH)%nat -> no_block_at block_id v q.

Lemma no_block_leaf block_id v q :
  children_of v = None -> ~ is_block block_id v -> no_block_at block_id v q.
Proof. intros Hc Hb. destruct q as [|i q]; intros w; simpl; [by intros [= <-]|]. by rewrite Hc. Qed.

Lemma no_block_cons block_id v l i q :
  children_of v = Some l -> (forall c, l !! i = Some c -> no_block_at block_id c q) -> no_block_at block_id v (i :: q).
Proof. intros Hc Hq w. simpl. rewrite Hc. simpl. destruct (l !! i) eqn:E; simpl; [by apply Hq|done]. Qed.

(** The walk below a node that does not match. *)
Lemma walked_children block_id node depth obj l f :
  map_get (bs "content") obj = Some (VArray l) ->
  (depth <= TIPTAP_WALK_MAX_DEPTH)%nat -> ~ is_block block_id (VObject obj) ->
  (forall c, walked block_id node (S depth) c (f c)) ->
  walked block_id node depth (VObject obj)
    (let '(hit, l') := replace_children f l in (hit, VObject (map_set (bs "content") (VArray l') obj))).
Proof.
  intros Hl Hd Hb Hf.
  assert (children_of (VObject obj) = Some l) as Hc by (unfold children_of; simpl; by rewrite Hl).
  assert (forall c q, (f c).1 = false -> (depth + S (length q) <= TIPTAP_WALK_MAX_DEPTH)%nat -> no_block_at block_id c q) as Hno.
  { intros c q E ?. specialize (Hf c). unfold walked in Hf. rewrite E in Hf. apply Hf. lia. }
  pose proof (replace_children_spec f l) as Hr.
  destruct (replace_children f l) as [[] l']; unfold walked; simpl.
  - destruct Hr as (i & c & Hi & Ht & Hlt & ->).
    { intros c _ E. specialize (Hf c). unfold walked in Hf. rewrite E in Hf. apply Hf. }
    pose proof (Hf c) as Hw. unfold walked in Hw. rewrite Ht in Hw.
    destruct Hw as (p & o & Hp & Ho & H1 & H2 & Hq & Heq). exists (i :: p), o. simpl.
    rewrite Hc. simpl. rewrite Hi, Hl. simpl. repeat split; [lia|done..| |].
    + intros [|j q]; simpl; [intros _ _ w [= <-]; done|]. intros Hbq Hlen.
      apply (no_block_cons _ _ l); [done|]. intros d Hj.
      destruct Hbq as [Hji|[-> Hbq]]; [apply (Hno d); [by apply (Hlt j)|lia]|].
      simplify_eq. apply Hq; [done|]. simpl. lia.
    + do 3 f_equal. apply list_alter_ext; [|done]. intros d ?. simplify_eq. done.
  - destruct Hr as [Hn ->].
    { intros c _ E. specialize (Hf c). unfold walked in Hf. rewrite E in Hf. apply Hf. }
    split; [by rewrite map_set_id|]. intros [|j q] Hlen; [by intros w [= <-]|].
    apply (no_block_cons _ _ l); [done|]. intros d Hj%list_elem_of_lookup_2. apply (Hno d); [auto|done].
Qed.

Lemma replace_in_walked fuel v block_id node depth :
  (TIPTAP_WALK_MAX_DEPTH + 1 < fuel + depth)%nat ->
  walked block_id node depth v (replace_in fuel v block_id node depth).
Proof.
  revert v depth. induction fuel as [|fuel IH]; intros v depth Hd; simpl.
  { split; [done|]. intros q ?. lia. }
  destruct (Nat.ltb_spec TIPTAP_WALK_MAX_DEPTH depth) as [Hlt|Hle]; [split; [done|intros q ?; lia]|].
  destruct v as [| | | | |obj]; simpl;
    try (split; [done|]; intros q _; apply no_block_leaf; [done|]; intros (o & [=] & _)).
  destruct (id_matches block_id obj && type_ok obj) eqn:E.
  { apply andb_true_iff in E as [E1 E2]. exists [], obj. simpl. repeat split; [lia|done..|].
    intros []; done. }
  assert (~ is_block block_id (VObject obj)) as Hb.
  { intros (o & [= <-] & H1 & H2). by rewrite H1, H2 in E. }
  destruct (map_get (bs "content") obj) as [[| | | |l|]|] eqn:Hl;
    try (split; [done|]; intros q _; apply no_block_leaf; [|done]; unfold children_of; simpl; by rewrite Hl).
  apply walked_children; [done..|]. intros c. apply IH. lia.
Qed.

(** ** Replacement at a path *)

Lemma children_put i p w v :
  children_of (put_at (i :: p) w v) = alter (put_at p w) i <$> children_of v.
Proof.
  unfold children_of. destruct v as [| | | | |obj]; try done. simpl.
  destruct (map_get (bs "content") obj) as [[| | | |l|]|] eqn:Hl; simpl; rewrite ?Hl; try done.
  by rewrite (map_get_set _ _ _ _ Hl).
Qed.

Lemma node_at_cons i p v : node_at (i :: p) v = children_of v ≫= fun l => l !! i ≫= node_at p.
Proof. done. Qed.

Lemma node_at_app p q v : node_at (p ++ q) v = node_at p v ≫= node_at q.
Proof.
  revert v. induction p as [|i p IH]; intros v; [done|]. simpl.
  destruct (children_of v) as [l|]; simpl; [|done]. destruct (l !! i); simpl; auto.
Qed.

Lemma node_at_put p w v : is_Some (node_at p v) -> node_at p (put_at p w v) = Some w.
Proof.
  revert v. induction p as [|i p IH]; intros v Hs; [done|].
  rewrite node_at_cons in *. rewrite children_put. destruct (children_of v) as [l|]; simpl in *; [|by destruct Hs].
  rewrite list_lookup_alter. destruct (decide (i = i)); [|done].
  destruct (l !! i) as [c|]; simpl in *; [by apply IH|by destruct Hs].
Qed.

(** Nodes that are neither above nor below the path are not touched. *)
Lemma node_at_put_apart p q w v :
  ~ p `prefix_of` q -> ~ q `prefix_of` p -> node_at q (put_at p w v) = node_at q v.
Proof.
  revert q v. induction p as [|i p IH]; intros [|j q] v Hp Hq;
    [by destruct Hp|by destruct Hp; apply prefix_nil|by destruct Hq; apply prefix_nil|].
  rewrite !node_at_cons, children_put. destruct (children_of v) as [l|]; simpl; [|done].
  rewrite list_lookup_alter. case_decide as Hij; [|done]. subst j. destruct (l !! i) as [c|]; simpl; [|done].
  apply IH; intros ?; [apply Hp|apply Hq]; by apply prefix_cons.
Qed.

(** Above the path only the [content] entries change. *)
Lemma node_at_put_above p q w v obj :
  q `prefix_of` p -> q <> p -> node_at q v = Some (VObject obj) ->
  exists obj', node_at q (put_at p w v) = Some (VObject obj') /\
    forall k, k <> bs "content" -> map_get k obj' = map_get k obj.
Proof.
  revert p v. induction q as [|j q IH]; intros [|i p] v Hpre Hne Hv;
    [done| |by apply prefix_nil_inv in Hpre|].
  - injection Hv as ->. simpl. destruct (map_get (bs "content") obj) as [[| | | |l|]|]; eauto.
    eexists. split; [done|]. intros k Hk. by apply map_get_set_ne.
  - pose proof (prefix_cons_inv_1 _ _ _ _ Hpre) as ->. apply prefix_cons_inv_2 in Hpre.
    rewrite node_at_cons in *. rewrite children_put. destruct (children_of v) as [l|]; simpl in *; [|done].
    rewrite list_lookup_alter. destruct (decide (i = i)); [|done]. destruct (l !! i) as [c|]; simpl in *; [|done].
    apply IH; [done|congruence|done].
Qed.

Lemma put_at_put p w w' v : put_at p w (put_at p w' v) = put_at p w v.
Proof.
  revert v. induction p as [|i p IH]; intros v; [done|]. simpl.
  destruct v as [| | | | |obj]; try done.
  destruct (map_get (bs "content") obj) as [[| | | |l|]|] eqn:Hl; rewrite ?Hl; try done.
  rewrite (map_get_set _ _ _ _ Hl). f_equal.
  assert (forall (a b : value) m, map_set (bs "content") a (map_set (bs "content") b m) = map_set (bs "content") a m) as ->.
  { intros a b. induction m as [|[k x] m IHm]; simpl; [done|].
    case_bool_decide; simpl; [by rewrite bool_decide_true|]. rewrite bool_decide_false by done. by rewrite IHm. }
  rewrite list_alter_alter_eq. do 2 f_equal. apply list_alter_ext; [|done]. intros c _. apply IH.
Qed.

Lemma node_at_wf p v w : value_wf v -> node_at p v = Some w -> value_wf w.
Proof.
  revert v. induction p as [|i p IH]; intros v Hv; simpl; [by intros [= <-]|].
  unfold children_of. destruct v as [| | | | |obj]; simpl; try done.
  destruct (map_get (bs "content") obj) as [[| | | |l|]|] eqn:Hl; simpl; try done.
  apply map_get_wf in Hl as [_ Hl]; [|done]. apply value_wf_array in Hl.
  destruct (l !! i) as [c|] eqn:Hi; simpl; [|done]. apply IH. by apply (Forall_lookup_1 _ _ _ _ Hl Hi).
Qed.

(** The walk's order is total. *)
Lemma before_total p q : before p q \/ p = q \/ before q p.
Proof.
  revert q. induction p as [|i p IH]; intros [|j q]; simpl; auto.
  destruct (lt_eq_lt_dec i j) as [[?| ->]|?]; auto. destruct (IH q) as [?|[->|?]]; auto.
Qed.

Lemma before_not_below p q : before q p -> ~ p `prefix_of` q.
Proof.
  revert q. induction p as [|i p IH]; intros [|j q]; simpl; try done.
  - intros _ H'. by apply prefix_nil_inv in H'.
  - intros Hb Hp. pose proof (prefix_cons_inv_1 _ _ _ _ Hp) as ->. apply prefix_cons_inv_2 in Hp.
    destruct Hb as [?|[_ Hb]]; [lia|]. by apply (IH q).
Qed.

Lemma before_irrefl p : ~ before p p.
Proof. intros Hb. by apply (before_not_below p p Hb). Qed.

(** A node with descendants is an object. *)
Lemma node_at_prefix_object q p v :
  q `prefix_of` p -> q <> p -> is_Some (node_at p v) -> exists obj, node_at q v = Some (VObject obj).
Proof.
  revert p v. induction q as [|j q IH]; intros [|i p] v Hpre Hne Hs;
    [done| |by apply prefix_nil_inv in Hpre|].
  - simpl in *. unfold children_of in Hs. destruct v; try (by destruct Hs). eauto.
  - pose proof (prefix_cons_inv_1 _ _ _ _ Hpre) as ->. apply prefix_cons_inv_2 in Hpre.
    simpl in *. destruct (children_of v) as [l|]; simpl in *; [|by destruct Hs].
    destruct (l !! i) as [c|]; simpl in *; [|by destruct Hs]. apply (IH p); [done|congruence|done].
Qed.

(** What is visited before the replaced node is a block afterwards only if it was one. *)
Lemma put_no_block block_id p q w v :
  before q p -> is_Some (node_at p v) -> no_block_at block_id v q -> no_block_at block_id (put_at p w v) q.
Proof.
  intros Hb Hp Hq u Hu. destruct (decide (q `prefix_of` p)) as [Hpre|Hn].
  2: { rewrite node_at_put_apart in Hu; [by apply Hq|by apply before_not_below|done]. }
  assert (q <> p) as Hne by (intros ->; by apply before_irrefl in Hb).
  destruct (node_at_prefix_object q p v) as [obj Hobj]; [done..|].
  destruct (node_at_put_above p q w v obj) as (obj' & Ho' & Hk); [done..|]. simplify_eq.
  intros (o & [= <-] & H1 & H2). apply (Hq _ Hobj). exists obj. split; [done|].
  unfold id_matches, type_ok in *. by rewrite !Hk in H1, H2 by done.
Qed.

(** Replacing again gives the same document. *)
Lemma replace_again block_id node p obj doc :
  map_sorted obj -> map_sorted (default [] (bn_attrs node)) -> bn_type node ∈ UNIQUE_ID_NODE_TYPES ->
  (length p <= TIPTAP_WALK_MAX_DEPTH)%nat -> node_at p doc = Some (VObject obj) ->
  (forall q, before q p -> (length q <= TIPTAP_WALK_MAX_DEPTH)%nat -> no_block_at block_id doc q) ->
  let doc' := put_at p (VObject (apply obj block_id node)) doc in
  replace_node_by_id doc' block_id node = Some doc'.
Proof.
  intros Hs Ha Ht Hlen Hp Hq doc'. unfold replace_node_by_id.
  assert (node_at p doc' = Some (VObject (apply obj block_id node))) as Hp' by (apply node_at_put; eauto).
  assert (is_block block_id (VObject (apply obj block_id node))) as Hb by (by apply apply_block).
  pose proof (replace_in_walked walk_fuel doc' block_id node 0) as Hw. unfold walked in Hw.
  destruct (replace_in _ _ _ _ _) as [[] next]; simpl in Hw; specialize (Hw ltac:(unfold walk_fuel; lia)).
  2: { by destruct (proj2 Hw p Hlen _ Hp'). }
  destruct Hw as (p' & obj' & Hlen' & Ho' & H1 & H2 & Hq' & ->).
  destruct (before_total p p') as [Hlt|[<-|Hlt]].
  - by destruct (Hq' p Hlt Hlen _ Hp').
  - simplify_eq. unfold doc'. by rewrite put_at_put, apply_twice.
  - exfalso. apply (put_no_block block_id p p' (VObject (apply obj block_id node)) doc Hlt ltac:(eauto) (Hq _ Hlt Hlen') _ Ho').
    by exists obj'.
Qed.

End blocks.
Arguments BlockNode : clear implicits.


Definition w_heading : BlockNode Z :=
  {| bn_type := bs "heading"; bn_attrs := None; bn_content := None; bn_marks := None; bn_text := Some (bs "t") |}.

Definition w_quote : value Z :=
  VObject [(bs "content", VArray
    [VObject [(bs "content", VArray [VObject [(bs "attrs", VObject [(bs "id", VString (bs "b"))]);
                                              (bs "type", VString (bs "paragraph"))]]);
              (bs "type", VString (bs "blockquote"))]])].


(** * Tiptap documents

    The accessors that the body extraction ([src/src/collab/derived_body.rs])
    and the share renderers ([src/src/share_render.rs]) read nodes with, and
    [emoji_glyph], which both use.  A missing field or one of another type reads
    as its default.  The addresses of nodes ([node_at]) are those of [Blocks]. *)

(** The pinned [emoji_shortcodes.json] of the build, as a lookup. *)
Class Shortcodes := shortcode_to_emoji : str -> option str.

Section tiptap.
Context {num : Type}.
Abbreviation value := (value num).
Implicit Types n : value.

(** [Value::get] with a string. *)
Definition vget (k : str) (v : value) : option value := as_object v ≫= map_get k.

Definition is_object (v : value) : bool := match v with VObject _ => true | _ => false end.

Definition get_type n : option str := vget (bs "type") n ≫= as_str.
Definition node_type n : str := default [] (get_type n).
Definition node_content n : option (list value) := vget (bs "content") n ≫= as_array.
Definition node_attr n (key : str) : option value := vget (bs "attrs") n ≫= vget key.
Definition get_str_attr n (key : str) : option str := node_attr n key ≫= as_str.
Definition str_attr n (key : str) : str := default [] (get_str_attr n key).
Definition text_of n : option str := vget (bs "text") n ≫= as_str.

Definition emoji_glyph {E : Shortcodes} n : str :=
  let glyph := str_attr n (bs "emoji") in
  if negb (bool_decide (glyph = [])) then glyph else
  let name := str_attr n (bs "name") in
  if bool_decide (name = []) then [] else
  match shortcode_to_emoji name with
  | Some glyph => glyph
  | None => bs ":" ++ name ++ bs ":"
  end.

Definition is_tiptap_doc (doc : value) : bool :=
  match as_object doc with
  | None => false
  | Some obj =>
    if negb (bool_decide ((map_get (bs "type") obj ≫= as_str) = Some (bs "doc"))) then false
    else match map_get (bs "content") obj with
         | None => true
         | Some (VArray _) => true
         | Some _ => false
         end
  end.

(** The size of a value: every node is smaller than the one it lies in. *)
Fixpoint vsize (v : value) : nat :=
  match v with
  | VArray l => S ((fix go l := match l with [] => 0 | x :: t => S (vsize x + go t) end) l)
  | VObject m => S ((fix go m := match m with [] => 0 | (_, x) :: t => S (vsize x + go t) end) m)
  | _ => 1
  end%nat.

Lemma vsize_object m k x : map_get k m = Some x -> (vsize x < vsize (VObject m))%nat.
Proof.
  simpl. induction m as [|[k' y] m IH]; simpl; [done|].
  case_bool_decide; [intros [= ->]; lia|]. intros H'. specialize (IH H'). lia.
Qed.

Lemma vsize_array l x : x ∈ l -> (vsize x < vsize (VArray l))%nat.
Proof.
  simpl. induction l as [|y l IH]; simpl; [set_solver|]. intros [->|Hx]%elem_of_cons; [lia|]. specialize (IH Hx). lia.
Qed.

Lemma vsize_child n l x : node_content n = Some l -> x ∈ l -> (vsize x < vsize n)%nat.
Proof.
  unfold node_content, vget. destruct n as [| | | | |m]; try done. cbn [as_object mbind option_bind].
  destruct (map_get (bs "content") m) as [[| | | |l'|]|] eqn:E; try done. cbn [as_array mbind option_bind]. intros [= ->] Hx.
  pose proof (vsize_object _ _ _ E). pose proof (vsize_array _ _ Hx). lia.
Qed.

Lemma node_content_children n : node_content n = children_of n.
Proof. done. Qed.

End tiptap.
