(* ===== verification/DerivedBody.v ===== *)
(** * Derived bodies ([src/src/collab/derived_body.rs])

    What the server derives from a document body: the searchable text and its
    initial consonants, the references to documents and tasks, and the files a
    draft refers to, which the caller then authorises one by one.

    The walks stop at depth 64.  [attachment_refs_exact]: an accepted body has
    no node the walk misses, and the answer is exactly the files it refers to.
    [internal_refs_exact]: every reference of the walked nodes is reported once,
    provided no entity name contains a colon; [internal_refs_hidden] is a body
    in which such a name hides a reference. *)

From stdpp Require Import base list numbers strings sets gmap.
From Stdlib Require Import ZArith Lia.
From S2P Require Import Prelude Text TextFacts Uuid Json Blocks.

Definition DOCUMENT_MAX_BODY_BYTES : Z := 1024 * 1024.
Definition HANGUL_FIRST : Z := 0xAC00.
Definition HANGUL_LAST : Z := 0xD7A3.
Definition SYLLABLES_PER_CHOSUNG : Z := 21 * 28.

(** The 19 initial consonants, by code point. *)
Definition CHOSUNG : list Z :=
  [0x3131; 0x3132; 0x3134; 0x3137; 0x3138; 0x3139; 0x3141; 0x3142; 0x3143; 0x3145;
   0x3146; 0x3147; 0x3148; 0x3149; 0x314A; 0x314B; 0x314C; 0x314D; 0x314E].

Inductive DerivedBodyError :=
| TooLarge
| InvalidDocumentBody (message : str).

Inductive InternalRefKind := RefDocument | RefTask.

#[export] Instance InternalRefKind_eq_dec : EqDecision InternalRefKind.
Proof. solve_decision. Defined.

Record InternalRef := { ref_kind : InternalRefKind; ref_id : str }.

#[export] Instance InternalRef_eq_dec : EqDecision InternalRef.
Proof. solve_decision. Defined.

(** [to_chosung], on code points. *)
Definition chosung_char (cp : Z) : Z :=
  if negb (in_range HANGUL_FIRST HANGUL_LAST cp) then cp
  else let idx := (cp - HANGUL_FIRST) / SYLLABLES_PER_CHOSUNG in
       default cp (CHOSUNG !! Z.to_nat idx).

Definition to_chosung (text : list Z) : list Z := chosung_char <$> text.

(** [nfc().collect()] of [unicode-normalization], third-party. *)
Class Nfc := nfc : str -> str.

Section derived.
Context {U : UuidLib} {J : SerdeJson} {E : Shortcodes} {N : Nfc}.
Abbreviation value := (value number).

Record PreparedDerivedBody := {
  content_json : value;
  pb_text : str;
  pb_chosung : list Z;
}.

(** ** Text *)

Definition nonempty (s : str) : bool := negb (bool_decide (s = [])).

(** The types whose children are separate lines. *)
Definition line_types : list str :=
  [bs "doc"; bs "blockquote"; bs "bulletList"; bs "orderedList"; bs "listItem"; bs "callout"; bs "details";
   bs "detailsContent"; bs "taskList"; bs "taskItem"].

(** The text a node has by its type alone, before its content is looked at. *)
Definition leaf_text (node : value) : option str :=
  match get_type node with
  | Some t =>
    if bool_decide (t = bs "mention") then
      let label := str_attr node (bs "label") in
      Some (if nonempty label then label else str_attr node (bs "id"))
    else if bool_decide (t = bs "embed") then Some (str_attr node (bs "ref"))
    else if bool_decide (t = bs "mermaid") then Some (str_attr node (bs "source"))
    else if bool_decide (t = bs "math") || bool_decide (t = bs "mathInline") then Some (str_attr node (bs "latex"))
    else if bool_decide (t = bs "attachment") then Some (str_attr node (bs "name"))
    else if bool_decide (t = bs "hardBreak") then Some [Byte.x0a]
    else if bool_decide (t = bs "emoji") then Some (emoji_glyph node)
    else None
  | None => None
  end.

(** The fuel bounds the recursion; the walk stops by itself at depth 65. *)
Fixpoint tiptap_text (fuel : nat) (node : value) (depth : nat) : str :=
  match fuel with
  | O => []
  | S fuel =>
    if (TIPTAP_WALK_MAX_DEPTH <? depth)%nat then [] else
    match node with
    | VString text => text
    | VObject obj =>
      match map_get (bs "text") obj ≫= as_str with
      | Some text => text
      | None =>
        match leaf_text node with
        | Some text => text
        | None =>
          match node_content node with
          | None => []
          | Some content =>
            if bool_decide (get_type node = Some (bs "table")) then
              join [Byte.x0a] ((fun row =>
                join [Byte.x20] ((fun cell => tiptap_text fuel cell (depth + 2)) <$> default [] (node_content row)))
                <$> content)
            else
              let parts := filter (fun s => nonempty s = true) ((fun child => tiptap_text fuel child (S depth)) <$> content) in
              match get_type node with
              | Some t => if bool_decide (t ∈ line_types) then join [Byte.x0a] parts else join [] parts
              | None => join [] parts
              end
          end
        end
      end
    | _ => []
    end
  end.

Definition extract_text (root : value) : str :=
  match node_content root with
  | Some content =>
    if bool_decide (get_type root = Some (bs "doc")) then
      join [Byte.x0a] (filter (fun s => nonempty s = true) ((fun child => tiptap_text walk_fuel child 1) <$> content))
    else tiptap_text walk_fuel root 0
  | None => tiptap_text walk_fuel root 0
  end.

Definition prepare_derived_body_with_cap (body : value) (max_bytes : Z) : result DerivedBodyError PreparedDerivedBody :=
  match to_vec body with
  | None => Err (InvalidDocumentBody (bs "contentJson could not be serialized"))
  | Some bytes =>
    if max_bytes <? Z.of_nat (length bytes) then Err TooLarge
    else if negb (is_tiptap_doc body) then Err (InvalidDocumentBody (bs "contentJson must be a Tiptap doc"))
    else
      let text := nfc (extract_text body) in
      Ok {| content_json := body; pb_text := text; pb_chosung := to_chosung (chars text) |}
  end.

Definition prepare_derived_body (body : value) : result DerivedBodyError PreparedDerivedBody :=
  prepare_derived_body_with_cap body DOCUMENT_MAX_BODY_BYTES.

(** ** The walk *)

Fixpoint walk_tiptap {S} (fuel : nat) (visit : S -> value -> nat -> S) (node : value) (depth : nat) (s : S) : S :=
  match fuel with
  | O => s
  | Datatypes.S fuel =>
    if (TIPTAP_WALK_MAX_DEPTH <? depth)%nat then s
    else if negb (is_object node) then s
    else
      let s := visit s node depth in
      match node_content node with
      | Some content => foldl (fun s child => walk_tiptap fuel visit child (Datatypes.S depth) s) s content
      | None => s
      end
  end.

(** ** References *)

Definition is_uuid (s : str) : bool := bool_decide (is_Some (try_parse s)).

(** The set of seen keys and the references found so far. *)
Record refs_state := { rs_seen : gset str; rs_out : list InternalRef }.

Definition ref_key (entity id : str) : str := entity ++ bs ":" ++ id.

Definition kind_of (entity : str) : option InternalRefKind :=
  if bool_decide (entity = bs "document") then Some RefDocument
  else if bool_decide (entity = bs "task") then Some RefTask
  else None.

Definition add_internal_ref (s : refs_state) (entity id : str) : refs_state :=
  if negb (is_uuid id) then s else
  let key := ref_key entity id in
  if bool_decide (key ∈ rs_seen s) then s else
  let seen := {[key]} ∪ rs_seen s in
  match kind_of entity with
  | None => {| rs_seen := seen; rs_out := rs_out s |}
  | Some kind => {| rs_seen := seen; rs_out := rs_out s ++ [{| ref_kind := kind; ref_id := id |}] |}
  end.

(** The entity and identifier of a mention or an embed. *)
Definition ref_of (node : value) : option (str * str) :=
  match get_type node with
  | Some t =>
    if bool_decide (t = bs "mention") then
      entity ← get_str_attr node (bs "entity"); id ← get_str_attr node (bs "id"); Some (entity, id)
    else if bool_decide (t = bs "embed") then
      entity ← get_str_attr node (bs "entity"); id ← get_str_attr node (bs "ref"); Some (entity, id)
    else None
  | None => None
  end.

Definition visit_internal (s : refs_state) (node : value) (depth : nat) : refs_state :=
  match ref_of node with
  | Some (entity, id) => add_internal_ref s entity id
  | None => s
  end.

Definition extract_internal_refs (root : value) : list InternalRef :=
  rs_out (walk_tiptap walk_fuel visit_internal root 0 {| rs_seen := ∅; rs_out := [] |}).

(** [ids], [invalid] and [nodes] of the strict extraction. *)
Record stored_state := { ss_ids : gset uuid; ss_invalid : bool; ss_nodes : Z }.

(** [content] is not an array of objects, or not empty at the last depth. *)
Definition bad_content (node : value) (depth : nat) : bool :=
  match vget (bs "content") node with
  | None => false
  | Some content =>
    match as_array content with
    | None => true
    | Some children =>
      existsb (fun child => negb (is_object child)) children ||
      (bool_decide (depth = TIPTAP_WALK_MAX_DEPTH) && negb (bool_decide (children = [])))
    end
  end.

(** [Uuid::parse_str(id)], not nil. *)
Definition parse_id (id : option str) : option uuid :=
  id ← id; u ← try_parse id; if as_u128 u =? 0 then None else Some u.

(** A recognised reference without a proper identifier. *)
Definition bad_ref (node : value) : bool :=
  match get_str_attr node (bs "entity") with
  | Some entity =>
    if bool_decide (entity = bs "document") || bool_decide (entity = bs "task") then
      match get_type node with
      | Some t =>
        if bool_decide (t = bs "mention") then negb (bool_decide (is_Some (parse_id (get_str_attr node (bs "id")))))
        else if bool_decide (t = bs "embed") then negb (bool_decide (is_Some (parse_id (get_str_attr node (bs "ref")))))
        else false
      | None => false
      end
    else false
  | None => false
  end.

Definition is_attachment (node : value) : bool := bool_decide (get_type node = Some (bs "attachment")).

Definition visit_stored (s : stored_state) (node : value) (depth : nat) : stored_state :=
  let nodes := ss_nodes s + 1 in
  let invalid := ss_invalid s || (20000 <? nodes) || negb (bool_decide (is_Some (get_type node)))
                 || bad_content node depth || bad_ref node in
  if is_attachment node then
    match parse_id (get_str_attr node (bs "id")) with
    | Some id => {| ss_ids := {[id]} ∪ ss_ids s; ss_invalid := invalid; ss_nodes := nodes |}
    | None => {| ss_ids := ss_ids s; ss_invalid := true; ss_nodes := nodes |}
    end
  else {| ss_ids := ss_ids s; ss_invalid := invalid; ss_nodes := nodes |}.

Definition extract_stored_attachment_refs (root : value) : result DerivedBodyError (gset uuid) :=
  match prepare_derived_body root with
  | Err e => Err e
  | Ok _ =>
    let s := walk_tiptap walk_fuel visit_stored root 0 {| ss_ids := ∅; ss_invalid := false; ss_nodes := 0 |} in
    if ss_invalid s
    then Err (InvalidDocumentBody (bs "attachment reference body is malformed or exceeds structural bounds"))
    else Ok (ss_ids s)
  end.

(** ** The visited nodes *)

Fixpoint visited (fuel : nat) (node : value) (depth : nat) : list (value * nat) :=
  match fuel with
  | O => []
  | Datatypes.S fuel =>
    if (TIPTAP_WALK_MAX_DEPTH <? depth)%nat || negb (is_object node) then []
    else (node, depth) :: (default [] (node_content node) ≫= fun child => visited fuel child (Datatypes.S depth))
  end.

(** A walk is a fold over the visited nodes. *)
Lemma walk_fold {S} fuel (visit : S -> value -> nat -> S) node depth s :
  walk_tiptap fuel visit node depth s = foldl (fun s e => visit s e.1 e.2) s (visited fuel node depth).
Proof.
  revert node depth s. induction fuel as [|fuel IH]; intros node depth s; simpl; [done|].
  case_match; simpl; [done|]. case_match; simpl; [done|].
  destruct (node_content node) as [content|]; simpl; [|done].
  generalize (visit s node depth). induction content as [|c content IHc]; intros s'; simpl; [done|].
  by rewrite IH, IHc, foldl_app.
Qed.

(** The visited nodes are the objects at depth at most 64. *)
Lemma elem_of_visited fuel node depth w d :
  (TIPTAP_WALK_MAX_DEPTH + 1 < fuel + depth)%nat ->
  (w, d) ∈ visited fuel node depth <->
  exists p, node_at p node = Some w /\ is_object w = true /\ d = (depth + length p)%nat /\ (d <= TIPTAP_WALK_MAX_DEPTH)%nat.
Proof.
  revert node depth. induction fuel as [|fuel IH]; intros node depth Hf.
  { simpl. split; [set_solver|]. intros (p & ? & ? & ? & ?). lia. }
  cbn [visited]. destruct (Nat.ltb_spec TIPTAP_WALK_MAX_DEPTH depth) as [Hlt|Hle]; cbn [orb].
  { split; [set_solver|]. intros (p & ? & ? & ? & ?). lia. }
  destruct (is_object node) eqn:Ho; cbn [negb].
  2: { split; [set_solver|]. intros ([|i p] & Hn & Hw & ? & ?); [simpl in Hn; congruence|].
       rewrite node_at_cons in Hn. unfold children_of in Hn. by destruct node. }
  rewrite elem_of_cons, list_elem_of_bind. split.
  - intros [[= -> ->]|(c & Hd & Hc)].
    + exists []. simpl. repeat split; [done|lia|lia].
    + rewrite node_content_children in Hc.
      destruct (children_of node) as [l|] eqn:El; unfold default, id in Hc; [|set_solver].
      apply IH in Hd as (p & Hp & Hw & -> & ?); [|lia]. apply list_elem_of_lookup in Hc as [i Hi].
      exists (i :: p). rewrite node_at_cons, El. simpl. rewrite Hi. simpl. repeat split; [done..|lia|lia].
  - intros ([|i p] & Hn & Hw & -> & Hd); [left; simpl in Hn; simplify_eq; f_equal; simpl; lia|right].
    rewrite node_at_cons in Hn. rewrite node_content_children.
    destruct (children_of node) as [l|] eqn:El; simpl in Hn; [|done].
    destruct (l !! i) as [c|] eqn:Hi; simpl in Hn; [|done]. exists c. split; [|by eapply list_elem_of_lookup_2].
    apply IH; [lia|]. exists p. simpl in *. repeat split; [done..|lia|lia].
Qed.

Lemma elem_of_walk root w d :
  (w, d) ∈ visited walk_fuel root 0 <->
  exists p, node_at p root = Some w /\ is_object w = true /\ d = length p /\ (d <= TIPTAP_WALK_MAX_DEPTH)%nat.
Proof. apply elem_of_visited. unfold walk_fuel, TIPTAP_WALK_MAX_DEPTH. lia. Qed.

(** ** Stored files *)

(** What the strict extraction asks of one node. *)
Definition node_fine (node : value) (depth : nat) : Prop :=
  is_Some (get_type node) /\ bad_content node depth = false /\ bad_ref node = false /\
  (is_attachment node = true -> is_Some (parse_id (get_str_attr node (bs "id")))).

Definition refers (node : value) (u : uuid) : Prop :=
  is_attachment node = true /\ parse_id (get_str_attr node (bs "id")) = Some u.

Lemma visit_stored_valid s node depth :
  ss_invalid (visit_stored s node depth) = false ->
  ss_invalid s = false /\ ss_nodes s < 20000 /\ node_fine node depth /\
  ss_nodes (visit_stored s node depth) = ss_nodes s + 1 /\
  forall u, u ∈ ss_ids (visit_stored s node depth) <-> u ∈ ss_ids s \/ refers node u.
Proof.
  unfold visit_stored, node_fine, refers. intros Hi.
  assert (ss_invalid s || (20000 <? ss_nodes s + 1) || negb (bool_decide (is_Some (get_type node)))
          || bad_content node depth || bad_ref node = false /\
          (is_attachment node = true -> parse_id (get_str_attr node (bs "id")) <> None)) as [Hb Hatt].
  { destruct (is_attachment node); [destruct (parse_id _)|]; done. }
  rewrite !orb_false_iff in Hb. destruct Hb as ((((H1 & H2) & H3) & H4) & H5).
  apply Z.ltb_ge in H2. apply negb_false_iff, bool_decide_eq_true in H3.
  clear Hi. destruct (is_attachment node) eqn:Ea; [destruct (parse_id (get_str_attr node (bs "id"))) as [u0|] eqn:Ep|].
  - split_and!; try done; [lia|]. intros u. simpl. rewrite elem_of_union, elem_of_singleton. naive_solver.
  - by destruct Hatt.
  - split_and!; try done; [lia|]. intros u. simpl. naive_solver.
Qed.

Lemma fold_stored_valid (L : list (value * nat)) : forall s,
  let s' := foldl (fun s e => visit_stored s e.1 e.2) s L in
  ss_invalid s' = false ->
  (forall w d, (w, d) ∈ L -> node_fine w d) /\
  ss_nodes s' = ss_nodes s + Z.of_nat (length L) /\ (L <> [] -> ss_nodes s' <= 20000) /\
  forall u, u ∈ ss_ids s' <-> u ∈ ss_ids s \/ exists w d, (w, d) ∈ L /\ refers w u.
Proof.
  induction L as [|[w d] L IH]; intros s; simpl.
  { intros _. split; [set_solver|]. split; [lia|]. split; [done|set_solver]. }
  intros Hi. destruct (IH _ Hi) as (Hf & Hn & Hm & Hu).
  assert (ss_invalid (visit_stored s w d) = false) as Hs.
  { clear -Hi. revert Hi. generalize (visit_stored s w d). induction L as [|[w' d'] L IHL]; [done|].
    intros s' Hi. specialize (IHL _ Hi). by apply visit_stored_valid in IHL as [? _]. }
  destruct (visit_stored_valid _ _ _ Hs) as (_ & Hc & Hfine & Hcnt & Hids).
  split; [set_solver|]. split; [lia|]. split.
  - intros _. destruct L; [simpl; lia|]. by apply Hm.
  - intros u. rewrite Hu, Hids. set_solver.
Qed.

Lemma no_bad_content node depth l c :
  bad_content node depth = false -> children_of node = Some l -> c ∈ l ->
  is_object c = true /\ depth <> TIPTAP_WALK_MAX_DEPTH.
Proof.
  unfold bad_content, children_of, vget. intros Hb Hl Hc. destruct (as_object node ≫= map_get (bs "content")) as [v|]; [|done].
  simpl in Hl. rewrite Hl in Hb. apply orb_false_iff in Hb as [Hb1 Hb2]. split.
  - destruct (is_object c) eqn:Ec; [done|]. exfalso. apply not_true_iff_false in Hb1. apply Hb1.
    apply existsb_exists. exists c. split; [by apply list_elem_of_In|by rewrite Ec].
  - intros ->. rewrite bool_decide_true, bool_decide_false in Hb2; [done|intros ->; by apply not_elem_of_nil in Hc|done].
Qed.

(** In a body whose walked nodes are fine, every node is walked. *)
Lemma all_walked root p w :
  is_object root = true ->
  (forall w d, (w, d) ∈ visited walk_fuel root 0 -> node_fine w d) ->
  node_at p root = Some w -> (w, length p) ∈ visited walk_fuel root 0.
Proof.
  intros Hr Hf. revert w. induction p as [|i p IH] using rev_ind; intros w.
  { intros [= <-]. apply elem_of_walk. exists []. repeat split; [done|simpl; lia]. }
  rewrite node_at_app. destruct (node_at p root) as [w0|] eqn:E0; simpl; [|done].
  specialize (IH w0 eq_refl). destruct (children_of w0) as [l|] eqn:El; simpl; [|done].
  destruct (l !! i) as [c|] eqn:Ei; simpl; [|done]. intros [= ->].
  destruct (Hf _ _ IH) as (_ & Hb & _).
  destruct (no_bad_content _ _ _ w Hb El) as [Ho Hd]; [by eapply list_elem_of_lookup_2|].
  apply elem_of_walk in IH as (_ & _ & _ & _ & Hle). apply elem_of_walk. exists (p ++ [i]).
  rewrite node_at_app, E0. simpl. rewrite El. simpl. rewrite Ei. simpl. rewrite length_app. simpl.
  repeat split; [done|lia].
Qed.

Lemma prepare_object root b : prepare_derived_body root = Ok b ->
  is_object root = true /\ exists bytes, to_vec root = Some bytes /\ Z.of_nat (length bytes) <= DOCUMENT_MAX_BODY_BYTES.
Proof.
  unfold prepare_derived_body, prepare_derived_body_with_cap.
  destruct (to_vec root) as [bytes|]; [|done]. destruct (Z.ltb_spec DOCUMENT_MAX_BODY_BYTES (Z.of_nat (length bytes))); [done|].
  destruct (is_tiptap_doc root) eqn:Ed; [|done]. intros _. split; [by destruct root|eauto].
Qed.

(** C6: the list of files that a draft's author must be allowed to see is never
    partial.  When the strict extraction accepts a body of at most 1 MiB, every
    node of the tree, however deep, is an object with a type, within 64 levels,
    at most 20,000 of them are walked, every attachment and every document or
    task reference has a proper identifier, and the answer is exactly the set of
    the attachments' identifiers. *)
Theorem attachment_refs_exact root ids :
  extract_stored_attachment_refs root = Ok ids ->
  (exists bytes, to_vec root = Some bytes /\ Z.of_nat (length bytes) <= DOCUMENT_MAX_BODY_BYTES) /\
  Z.of_nat (length (visited walk_fuel root 0)) <= 20000 /\
  (forall p w, node_at p root = Some w ->
    (length p <= TIPTAP_WALK_MAX_DEPTH)%nat /\ is_object w = true /\ is_Some (get_type w) /\ bad_ref w = false /\
    (is_attachment w = true -> is_Some (parse_id (get_str_attr w (bs "id"))))) /\
  (forall u, u ∈ ids <-> exists p w, node_at p root = Some w /\ refers w u).
Proof.
  unfold extract_stored_attachment_refs. destruct (prepare_derived_body root) as [b|e] eqn:Hp; [|done].
  apply prepare_object in Hp as [Hroot Hbytes]. rewrite walk_fold.
  set (s := foldl _ _ _). destruct (ss_invalid s) eqn:Hi; [done|]. intros [= <-].
  destruct (fold_stored_valid _ _ Hi) as (Hf & Hn & Hm & Hu).
  assert ((root, 0%nat) ∈ visited walk_fuel root 0) as H0 by exact (all_walked root [] root Hroot Hf eq_refl).
  split; [done|]. split.
  { cbn [ss_nodes] in Hn. specialize (Hm ltac:(intros Ev; rewrite Ev in H0; by apply not_elem_of_nil in H0)).
    rewrite Z.add_0_l in Hn. by rewrite <- Hn. }
  split.
  - intros p w Hw. pose proof (all_walked root p w Hroot Hf Hw) as Hv. destruct (Hf _ _ Hv) as (? & _ & ? & ?).
    apply elem_of_walk in Hv as (q & _ & ? & _ & ?). done.
  - intros u. unfold s. rewrite Hu. split.
    + intros [?|(w & d & Hv & Hr)]; [set_solver|]. apply elem_of_walk in Hv as (p & Hp & _). eauto.
    + intros (p & w & Hw & Hr). right. exists w, (length p). split; [by apply all_walked|done].
Qed.

(** ** Internal references *)

Definition colon : byte := Byte.x3a.

Definition entity_name (k : InternalRefKind) : str :=
  match k with RefDocument => bs "document" | RefTask => bs "task" end.

Lemma kind_of_name e k : kind_of e = Some k <-> e = entity_name k.
Proof.
  unfold kind_of. split.
  - case_bool_decide; [by intros [= <-]|]. by case_bool_decide; [intros [= <-]|].
  - intros ->. by destruct k.
Qed.

Lemma entity_no_colon k : colon ∉ entity_name k.
Proof. apply split_once_None. by destruct k. Qed.

(** Without a colon in the entity, the key determines both parts. *)
Lemma ref_key_inj e e' i i' : colon ∉ e -> colon ∉ e' -> ref_key e i = ref_key e' i' -> e = e' /\ i = i'.
Proof.
  intros He He' Hk. unfold ref_key in Hk. change (bs ":" ++ ?x) with (colon :: x) in Hk.
  apply (f_equal (split_once colon)) in Hk. rewrite !split_once_app in Hk by done. by simplify_eq.
Qed.

(** The keys seen so far are those of the references found so far. *)
Definition refs_ok (s : refs_state) : Prop :=
  NoDup (rs_out s) /\
  (forall r, r ∈ rs_out s -> ref_key (entity_name (ref_kind r)) (ref_id r) ∈ rs_seen s) /\
  (forall r, ref_key (entity_name (ref_kind r)) (ref_id r) ∈ rs_seen s -> r ∈ rs_out s).

(** A node names a document or a task by an identifier. *)
Definition names (node : value) (r : InternalRef) : Prop :=
  ref_of node = Some (entity_name (ref_kind r), ref_id r) /\ is_uuid (ref_id r) = true.

Lemma visit_internal_ok s node depth :
  (forall e i, ref_of node = Some (e, i) -> colon ∉ e) -> refs_ok s ->
  refs_ok (visit_internal s node depth) /\
  forall r, r ∈ rs_out (visit_internal s node depth) <-> r ∈ rs_out s \/ names node r.
Proof.
  intros Hc (Hn & Hin & Hseen). unfold visit_internal, names.
  destruct (ref_of node) as [[e i]|] eqn:Er; [|split; [done|naive_solver]].
  specialize (Hc e i eq_refl). unfold add_internal_ref.
  destruct (is_uuid i) eqn:Eu; cbn [negb]; [|split; [done|]; intros r; split; [auto|]; intros [?|[[= -> ->] ?]]; [done|congruence]].
  case_bool_decide as Hk.
  { split; [done|]. intros r. split; [auto|]. intros [?|[[= -> ->] _]]; auto. }
  destruct (kind_of e) as [k|] eqn:Ek.
  - apply kind_of_name in Ek as ->. unfold refs_ok. cbn [rs_out rs_seen]. split_and!.
    + apply NoDup_app. split_and!; [done| |apply NoDup_singleton].
      intros r Hr ->%list_elem_of_singleton. by apply Hin in Hr.
    + intros r [Hr| ->%list_elem_of_singleton]%elem_of_app; [apply Hin in Hr|]; set_solver.
    + intros r [Hr%elem_of_singleton|Hr]%elem_of_union; apply elem_of_app; [right|auto].
      apply ref_key_inj in Hr as [He Hi]; [|apply entity_no_colon..]. apply list_elem_of_singleton.
      destruct r as [k' i']; simpl in *. subst i'. f_equal. by destruct k, k'.
    + intros r. rewrite elem_of_app, list_elem_of_singleton. split; [|intros [?|[[= He Hi] _]]; auto].
      * intros [?|Hr]; [auto|right; by subst r].
      * right. destruct r as [k' i']; simpl in *. subst i'. f_equal. by destruct k, k'.
  - unfold refs_ok. cbn [rs_out rs_seen]. split_and!; [done|set_solver| |].
    + intros r [Hr%elem_of_singleton|Hr]%elem_of_union; [|auto].
      apply ref_key_inj in Hr as [He _]; [|apply entity_no_colon|done]. symmetry in He.
      apply kind_of_name in He. congruence.
    + intros r. split; [auto|]. intros [?|[[= He _] _]]; [done|]. apply kind_of_name in He. congruence.
Qed.

Lemma fold_internal_ok (L : list (value * nat)) : forall s,
  (forall w d e i, (w, d) ∈ L -> ref_of w = Some (e, i) -> colon ∉ e) -> refs_ok s ->
  let s' := foldl (fun s e => visit_internal s e.1 e.2) s L in
  refs_ok s' /\ forall r, r ∈ rs_out s' <-> r ∈ rs_out s \/ exists w d, (w, d) ∈ L /\ names w r.
Proof.
  induction L as [|[w d] L IH]; intros s Hc Hs; simpl; [split; [done|set_solver]|].
  destruct (visit_internal_ok s w d) as [Hs1 Hr1]; [intros e i; apply (Hc w d); set_solver|done|].
  destruct (IH (visit_internal s w d)) as [Hs2 Hr2]; [intros w' d' e i ?; apply (Hc w' d'); set_solver|done|].
  split; [done|]. intros r. rewrite Hr2, Hr1. set_solver.
Qed.

(** The references of a body are reported once each and exactly: those of the
    mentions and embeds within 64 levels that name a document or a task by an
    identifier, provided no entity name contains a colon. *)
Theorem internal_refs_exact root :
  (forall p w e i, node_at p root = Some w -> ref_of w = Some (e, i) -> colon ∉ e) ->
  NoDup (extract_internal_refs root) /\
  forall r, r ∈ extract_internal_refs root <->
    exists p w, node_at p root = Some w /\ (length p <= TIPTAP_WALK_MAX_DEPTH)%nat /\ names w r.
Proof.
  intros Hc. unfold extract_internal_refs. rewrite walk_fold.
  destruct (fold_internal_ok (visited walk_fuel root 0) {| rs_seen := ∅; rs_out := [] |}) as [[Hn _] Hr].
  - intros w d e i (p & Hp & _)%elem_of_walk. by apply (Hc p).
  - split_and!; [constructor|cbn; set_solver..].
  - split; [done|]. intros r. rewrite Hr. cbn [rs_out]. split.
    + intros [?|(w & d & (p & Hp & _ & -> & Hd)%elem_of_walk & Hw)]; [set_solver|eauto].
    + intros (p & w & Hp & Hd & Hw). right. exists w, (length p). split; [|done].
      apply elem_of_walk. exists p. split_and!; [done| |done|done].
      destruct Hw as [Hw _]. by destruct w.
Qed.

(** A body of two nodes: a mention of the entity [document:urn:uuid] and an
    embedded document, with one identifier in two of its forms. *)
Definition hiding_mention (id : str) : value :=
  VObject [(bs "attrs", VObject [(bs "entity", VString (bs "document:urn:uuid")); (bs "id", VString id)]);
           (bs "type", VString (bs "mention"))].
Definition hidden_embed (id : str) : value :=
  VObject [(bs "attrs", VObject [(bs "entity", VString (bs "document")); (bs "ref", VString (bs "urn:uuid:" ++ id))]);
           (bs "type", VString (bs "embed"))].
Definition hiding_body (id : str) : value :=
  VObject [(bs "content", VArray [hiding_mention id; hidden_embed id]); (bs "type", VString (bs "doc"))].

Lemma ref_of_hiding id : ref_of (hiding_mention id) = Some (bs "document:urn:uuid", id).
Proof. reflexivity. Qed.

Lemma ref_of_hidden id : ref_of (hidden_embed id) = Some (bs "document", bs "urn:uuid:" ++ id).
Proof. reflexivity. Qed.

(** C38: a reference can be hidden from the extraction.  The keys of seen
    references join entity and identifier with a colon, and [uuid] also reads
    the form [urn:uuid:…]; so a mention of the entity [document:urn:uuid] has
    the key of an embedded document after it, which is then left out, although
    the strict extraction accepts the body and the node names the document. *)
Theorem internal_refs_hidden id u v bytes :
  try_parse id = Some v -> try_parse (bs "urn:uuid:" ++ id) = Some u -> as_u128 u <> 0 ->
  to_vec (hiding_body id) = Some bytes -> Z.of_nat (length bytes) <= DOCUMENT_MAX_BODY_BYTES ->
  node_at [1%nat] (hiding_body id) = Some (hidden_embed id) /\
  names (hidden_embed id) {| ref_kind := RefDocument; ref_id := bs "urn:uuid:" ++ id |} /\
  extract_stored_attachment_refs (hiding_body id) = Ok ∅ /\
  extract_internal_refs (hiding_body id) = [].
Proof.
  intros Hid Hurn Hu Hb Hlen.
  assert (is_uuid (bs "urn:uuid:" ++ id) = true) as Hi by (unfold is_uuid; rewrite Hurn; by apply bool_decide_true).
  assert (visited walk_fuel (hiding_body id) 0 =
    [(hiding_body id, 0%nat); (hiding_mention id, 1%nat); (hidden_embed id, 1%nat)]) as Hv by reflexivity.
  split_and!; [done|by split|..].
  - unfold extract_stored_attachment_refs, prepare_derived_body, prepare_derived_body_with_cap.
    rewrite Hb, (proj2 (Z.ltb_ge _ _)) by done. rewrite walk_fold, Hv. cbn [foldl fst snd].
    assert (bad_ref (hidden_embed id) = false) as Hr.
    { assert (bad_ref (hidden_embed id) = negb (bool_decide (is_Some (parse_id (Some (bs "urn:uuid:" ++ id)))))) as -> by reflexivity.
      unfold parse_id. cbn [mbind option_bind]. rewrite Hurn. cbn. rewrite (proj2 (Z.eqb_neq _ _)) by done. done. }
    unfold visit_stored at 1. rewrite Hr. reflexivity.
  - unfold extract_internal_refs. rewrite walk_fold, Hv. cbn [foldl fst snd].
    unfold visit_internal. rewrite ref_of_hiding, ref_of_hidden.
    assert (ref_of (hiding_body id) = None) as -> by reflexivity.
    assert (forall s, rs_seen s = ∅ -> add_internal_ref s (bs "document:urn:uuid") id =
      {| rs_seen := {[ref_key (bs "document:urn:uuid") id]} ∪ rs_seen s; rs_out := rs_out s |}) as ->; [| |done].
    { intros s Hs. unfold add_internal_ref, is_uuid. rewrite Hid, (bool_decide_true (is_Some _)) by done. cbn [negb].
      by rewrite (bool_decide_false (_ ∈ _)) by (rewrite Hs; set_solver). }
    unfold add_internal_ref. rewrite Hi. cbn [negb rs_seen rs_out]. rewrite bool_decide_true; [done|].
    apply elem_of_union_l, elem_of_singleton. reflexivity.
Qed.

End derived.

(** * Concrete bodies for the theorems of [DerivedBody]

    The identifiers are those of [Uuid], also read in their [urn:uuid:] form as
    the [uuid] crate does. *)

From S2P Require Import JsonInstance.

#[local] Instance urn_lib : UuidLib := {|
  uuid := uuid128;
  uuid_eq_dec := uuid128_eq_dec;
  uuid_countable := uuid128_countable;
  try_parse s := uuid128_parse (default s (strip_prefix (bs "urn:uuid:") s));
  hyphenated := uuid128_print;
  simple u := hex_char <$> hex_digits 32 (u128 u);
  as_u128 := u128;
|}.

#[local] Instance no_shortcodes : Shortcodes := fun _ => None.
#[local] Instance no_nfc : Nfc := fun s => s.

Definition w_id : str := bs "00000000-0000-0000-0000-00000000002a".

(** A paragraph with an attachment and a mention of a document. *)
Definition w_body : value number :=
  VObject [(bs "content", VArray [VObject [
      (bs "content", VArray [
        VObject [(bs "attrs", VObject [(bs "id", VString w_id); (bs "name", VString (bs "a.pdf"))]); (bs "type", VString (bs "attachment"))];
        VObject [(bs "attrs", VObject [(bs "entity", VString (bs "document")); (bs "id", VString w_id)]); (bs "type", VString (bs "mention"))]]);
      (bs "type", VString (bs "paragraph"))]]);
    (bs "type", VString (bs "doc"))].

Definition w_uuid : uuid128 := Uuid128 42 eq_refl.

Lemma w_body_accepted :
  match extract_stored_attachment_refs w_body with Ok _ => True | Err _ => False end.
Proof. vm_compute. exact I. Qed.

Lemma attachment_refs_exact_witness :
  exists ids, extract_stored_attachment_refs w_body = Ok ids /\ w_uuid ∈ ids.
Proof.
  pose proof w_body_accepted as Hok.
  destruct (extract_stored_attachment_refs w_body) as [ids|e] eqn:E; [clear Hok|done].
  exists ids. split; [done|].
  destruct (attachment_refs_exact w_body ids E) as (_ & _ & _ & Hu).
  apply Hu. exists [0%nat; 0%nat]. eexists. split; [reflexivity|]. split; [by vm_compute|].
  reflexivity.
Defined.

Lemma internal_refs_exact_witness :
  exists p w, node_at p w_body = Some w /\ (length p <= TIPTAP_WALK_MAX_DEPTH)%nat /\
    names w {| ref_kind := RefDocument; ref_id := w_id |}.
Proof.
  apply (internal_refs_exact w_body).
  - intros p w e i Hp Hr. destruct p as [|[|?] [|[|[|?]] [|? ?]]]; vm_compute in Hp; try done;
      injection Hp as <-; vm_compute in Hr; try done. injection Hr as <- <-.
    apply split_once_None. by vm_compute.
  - vm_compute. left.
Defined.

Lemma internal_refs_hidden_witness :
  node_at [1%nat] (hiding_body w_id) = Some (hidden_embed w_id) /\
  names (hidden_embed w_id) {| ref_kind := RefDocument; ref_id := bs "urn:uuid:" ++ w_id |} /\
  extract_stored_attachment_refs (hiding_body w_id) = Ok ∅ /\
  extract_internal_refs (hiding_body w_id) = [].
Proof.
  destruct (to_vec (hiding_body w_id)) as [bytes|] eqn:Eb; [|by vm_compute in Eb].
  eapply (internal_refs_hidden w_id); [by vm_compute|by vm_compute|by vm_compute|exact Eb|].
  vm_compute in Eb. injection Eb as <-. by vm_compute.
Defined.
