(* ===== verification/Awareness.v ===== *)
(** * Presence ([src/collab/awareness.rs])

    The y-protocol awareness codec, the allowlist that filters a client's
    presence state, and the per-room registry of presence records. *)

From stdpp Require Import base list numbers strings gmap sorting.
From Stdlib Require Import ZArith Lia.
From S2P Require Import Prelude Text Cursor Uuid Json.

Definition MAX_AWARENESS_BYTES : Z := 65536.
Definition MAX_AWARENESS_CLIENTS : Z := 128.
Definition NULL_JSON : list byte := bs "null".

Definition PRESENCE_COLORS : list str :=
  [bs "#b91c1c"; bs "#c2410c"; bs "#b45309"; bs "#15803d"; bs "#0f766e"; bs "#1d4ed8"; bs "#6d28d9"; bs "#be185d"].

Inductive AwarenessError :=
| ATooLarge | ATruncated | ATrailingBytes | AInvalidVarUint | AInvalidClientId | AInvalidUtf8 | AInvalidJson.

#[export] Instance AwarenessError_eq_dec : EqDecision AwarenessError.
Proof. solve_decision. Defined.

#[export] Instance AwarenessError_cursor : CursorError AwarenessError :=
  {| truncated := ATruncated; invalid_var_uint := AInvalidVarUint |}.

Record AwarenessUpdate := Upd { client_id : Z; clock : Z; state : option (list byte) }.

#[export] Instance AwarenessUpdate_eq_dec : EqDecision AwarenessUpdate.
Proof. solve_decision. Defined.

(** [Cursor::read_var_string]. *)
Definition a_read_var_string : stateE cursor AwarenessError str :=
  n ← read_var_uint;
  n ← lift (if n <=? u64_max then Ok n else Err ATooLarge);
  if MAX_AWARENESS_BYTES <? n then throw ATooLarge
  else
    bytes ← read_exact (Z.to_nat n);
    lift (ok_or (from_utf8 bytes) AInvalidUtf8).

Section codec.
Context `{SerdeJson}.

(** The body of the [for _ in 0..count] loop. *)
Definition read_update : stateE cursor AwarenessError AwarenessUpdate :=
  client_id ← read_var_uint;
  if u32_max <? client_id then throw AInvalidClientId
  else
    clock ← read_var_uint;
    json ← a_read_var_string;
    value ← lift (ok_or (from_slice json) AInvalidJson);
    mret (Upd (wrap 32 client_id) clock (if is_null value then None else Some json)).

Fixpoint read_updates (count : nat) : stateE cursor AwarenessError (list AwarenessUpdate) :=
  match count with
  | O => mret []
  | S n => u ← read_update; us ← read_updates n; mret (u :: us)
  end.

Definition decode_awareness (i : list byte) : result AwarenessError (list AwarenessUpdate) :=
  if MAX_AWARENESS_BYTES <? len i then Err ATooLarge
  else if len i =? 0 then Err ATruncated
  else fst <$> (count ← read_var_uint;
                if MAX_AWARENESS_CLIENTS <? count then throw ATooLarge
                else
                  updates ← read_updates (Z.to_nat count);
                  r ← gets remaining;
                  if negb (r =? 0)%nat then throw ATrailingBytes else mret updates) (cursor_new i).

End codec.

(** One turn of the encoder's loop. *)
Definition write_update (out : list byte) (u : AwarenessUpdate) : list byte :=
  let out := write_var_uint out (client_id u) in
  let out := write_var_uint out (clock u) in
  match state u with
  | Some state => write_var_bytes out state
  | None => write_var_bytes out NULL_JSON
  end.

Definition encode_awareness (updates : list AwarenessUpdate) : list byte :=
  foldl write_update (write_var_uint [] (len updates)) updates.

(** ** The state allowlist *)

Section sanitize.
Context `{SerdeJson}.
Abbreviation Value := (value number).
Abbreviation Map := (list (str * Value)).

Definition json_id_pair (v : Value) : option Value :=
  obj ← as_object v;
  client ← map_get (bs "client") obj;
  clock ← map_get (bs "clock") obj;
  if negb (is_number client) || negb (is_number clock) then None
  else Some (VObject (map_insert (bs "clock") clock (map_insert (bs "client") client []))).

(** [if let Some(v) = v { out.insert(key, v) }] *)
Definition insert_some (k : str) (v : option Value) (out : Map) : Map :=
  match v with Some v => map_insert k v out | None => out end.

(** [matches!(&v, Some(v) if !v.is_null())] *)
Definition is_target (v : option Value) : bool :=
  match v with Some v => negb (is_null v) | None => false end.

(** The match on [type] and [item]; the outer option is the [?]. *)
Definition id_field (v : option Value) : option (option Value) :=
  match v with
  | None => Some None
  | Some VNull => Some (Some VNull)
  | Some v => p ← json_id_pair v; Some (Some p)
  end.

Definition sanitize_relative_position (v : Value) : option Value :=
  obj ← as_object v;
  type_v ← id_field (map_get (bs "type") obj);
  tname_v ← match map_get (bs "tname") obj with
            | None => Some None
            | Some VNull => Some (Some VNull)
            | Some (VString s) => Some (Some (VString s))
            | Some _ => None
            end;
  item_v ← id_field (map_get (bs "item") obj);
  assoc_v ← match map_get (bs "assoc") obj with
            | None => Some None
            | Some VNull => Some (Some VNull)
            | Some v => if is_number v then Some (Some v) else None
            end;
  if negb (is_target type_v || is_target tname_v || is_target item_v) then None
  else
    let out := insert_some (bs "type") type_v [] in
    let out := insert_some (bs "tname") tname_v out in
    let out := insert_some (bs "item") item_v out in
    let out := insert_some (bs "assoc") assoc_v out in
    Some (VObject out).

Definition sanitize_cursor (v : Value) : option Value :=
  obj ← as_object v;
  a ← map_get (bs "anchor") obj;
  anchor ← sanitize_relative_position a;
  h ← map_get (bs "head") obj;
  head ← sanitize_relative_position h;
  Some (VObject (map_insert (bs "head") head (map_insert (bs "anchor") anchor []))).

Definition sanitize_block (v : Value) : option Value :=
  obj ← as_object v;
  id ← map_get (bs "id") obj;
  id ← as_str id;
  if len id =? 0 then None
  else Some (VObject (map_insert (bs "id") (VString id) [])).

(** The body of the loop over the claimed state's entries. *)
Definition sanitize_entry (out : Map) (e : str * Value) : Map :=
  let (key, val) := e in
  if bool_decide (key = bs "user") then out
  else if bool_decide (key = bs "cursor") && is_null val then map_insert (bs "cursor") VNull out
  else if bool_decide (key = bs "cursor") then
    match sanitize_cursor val with Some c => map_insert (bs "cursor") c out | None => out end
  else if bool_decide (key = bs "block") && is_null val then map_insert (bs "block") VNull out
  else if bool_decide (key = bs "block") then
    match sanitize_block val with Some b => map_insert (bs "block") b out | None => out end
  else if bool_decide (key = bs "title") && is_null val then map_insert (bs "title") VNull out
  else if bool_decide (key = bs "title") && bool_decide (as_bool val = Some true)
    then map_insert (bs "title") (VBool true) out
  else out.

Definition sanitize_user_state (raw : list byte) (user_id display_name color : str) : option (list byte) :=
  value ← from_slice raw;
  obj ← as_object value;
  user ← map_get (bs "user") obj;
  user ← as_object user;
  claimed_id ← map_get (bs "id") user;
  claimed_id ← as_str claimed_id;
  if negb (bool_decide (claimed_id = user_id)) then None
  else
    let verified_user := map_insert (bs "id") (VString user_id) [] in
    let verified_user := map_insert (bs "name") (VString display_name) verified_user in
    let verified_user := map_insert (bs "color") (VString color) verified_user in
    let out := map_insert (bs "user") (VObject verified_user) [] in
    to_vec (VObject (foldl sanitize_entry out obj)).

End sanitize.

Definition user_color `{UuidLib} (user_id : uuid) : str :=
  let s := simple user_id in
  let tail := drop (length s - 6) s in
  let parsed := default 0 (from_str_radix 16 u32_max tail) in
  let index := parsed mod len PRESENCE_COLORS in
  PRESENCE_COLORS !!! Z.to_nat index.

Definition display_name (given : str) (family : option str) (locale : str) : str :=
  let given := trim given in
  let family := f ← trim <$> family; if len f =? 0 then None else Some f in
  if bool_decide (locale = bs "ko") then
    match family with Some f => f ++ given | None => given end
  else
    match family with Some f => given ++ bs " " ++ f | None => given end.

(** ** The registry *)

Record ClientRecord := Rec {
  rec_clock : Z;
  rec_generation : Z;
  rec_state : option (list byte);
  rec_seq : Z;
}.

Record AwarenessRegistry := Reg {
  by_client : gmap Z ClientRecord;
  reg_generation : Z;
  reg_seq : Z;
}.

Definition registry_new : AwarenessRegistry := Reg ∅ 0 0.

Definition connection_generation (r : AwarenessRegistry) : Z * AwarenessRegistry :=
  let g := sat_add_u64 (reg_generation r) 1 in
  (g, Reg (by_client r) g (reg_seq r)).

Definition next_seq (r : AwarenessRegistry) : Z * AwarenessRegistry :=
  let s := sat_add_u64 (reg_seq r) 1 in
  (s, Reg (by_client r) (reg_generation r) s).

Definition insert_client (k : Z) (c : ClientRecord) (r : AwarenessRegistry) : AwarenessRegistry :=
  Reg (<[k := c]> (by_client r)) (reg_generation r) (reg_seq r).

Definition is_tombstone (e : Z * ClientRecord) : bool :=
  match rec_state e.2 with None => true | Some _ => false end.

Definition evict_oldest_tombstone (r : AwarenessRegistry) : bool * AwarenessRegistry :=
  let tombstones := filter (fun e => is_tombstone e = true) (btree_iter (by_client r)) in
  match min_by_key (fun e => rec_seq e.2) tombstones with
  | Some (client_id, _) => (true, Reg (delete client_id (by_client r)) (reg_generation r) (reg_seq r))
  | None => (false, r)
  end.

Definition tracked (r : AwarenessRegistry) : Z := Z.of_nat (size (by_client r)).

(** The [while] loop.  Each turn removes a record, so the number of records
    bounds the turns ([make_room_enough]). *)
Fixpoint make_room (fuel : nat) (r : AwarenessRegistry) : bool * AwarenessRegistry :=
  if MAX_AWARENESS_CLIENTS <=? tracked r then
    match fuel with
    | O => (false, r)
    | S f =>
      let (evicted, r) := evict_oldest_tombstone r in
      if negb evicted then (false, r) else make_room f r
    end
  else (true, r).

Definition fits_new_client (client_id : Z) (r : AwarenessRegistry) : bool * AwarenessRegistry :=
  match by_client r !! client_id with
  | Some _ => (true, r)
  | None => make_room (size (by_client r)) r
  end.

Definition claim_connection_client (client_id conn_generation : Z) (r : AwarenessRegistry) : AwarenessRegistry :=
  match by_client r !! client_id with
  | Some record =>
    if conn_generation <? rec_generation record then r
    else insert_client client_id
           (Rec (rec_clock record) conn_generation (rec_state record) (rec_seq record)) r
  | None =>
    let (fits, r) := fits_new_client client_id r in
    if negb fits then r
    else
      let (seq, r) := next_seq r in
      insert_client client_id (Rec 0 conn_generation None seq) r
  end.

Definition clock_applies (current : option ClientRecord) (clock : Z) (incoming_null : bool) : bool :=
  let curr_clock := default 0 (rec_clock <$> current) in
  let has_state := match current with Some c => bool_decide (is_Some (rec_state c)) | None => false end in
  (curr_clock <? clock) || ((curr_clock =? clock) && incoming_null && has_state).

Section registry.
Context `{SerdeJson}.

(** One turn of the loop over the updates; [changed] is the vector it grows. *)
Definition apply_update (claimed_client_id : Z) (user_id display_name color : str) (conn_generation : Z)
    (acc : list AwarenessUpdate * AwarenessRegistry) (u : AwarenessUpdate)
    : list AwarenessUpdate * AwarenessRegistry :=
  let (changed, r) := acc in
  if negb (client_id u =? claimed_client_id) then acc
  else
    let current := by_client r !! client_id u in
    if match current with Some c => conn_generation <? rec_generation c | None => false end then acc
    else
      let incoming_null := bool_decide (state u = None) in
      if negb (clock_applies current (clock u) incoming_null) then acc
      else
        let st := raw ← state u; sanitize_user_state raw user_id display_name color in
        if bool_decide (is_Some (state u)) && bool_decide (st = None) then acc
        else
          let (fits, r) := fits_new_client (client_id u) r in
          if negb fits then (changed, r)
          else
            let (seq, r) := next_seq r in
            (changed ++ [Upd (client_id u) (clock u) st],
             insert_client (client_id u) (Rec (clock u) conn_generation st seq) r).

Definition apply_connection_updates (claimed_client_id : Z) (updates : list AwarenessUpdate)
    (user_id display_name color : str) (conn_generation : Z) (r : AwarenessRegistry)
    : option (list byte) * AwarenessRegistry :=
  let (changed, r) :=
    foldl (apply_update claimed_client_id user_id display_name color conn_generation) ([], r) updates in
  (if len changed =? 0 then None else Some (encode_awareness changed), r).

End registry.

Definition remove_client (client_id conn_generation : Z) (r : AwarenessRegistry)
    : option (list byte) * AwarenessRegistry :=
  match by_client r !! client_id with
  | None => (None, r)
  | Some current =>
    if (conn_generation <? rec_generation current) || bool_decide (rec_state current = None) then (None, r)
    else
      let clock := sat_add_u64 (rec_clock current) 1 in
      let (seq, r) := next_seq r in
      (Some (encode_awareness [Upd client_id clock None]),
       insert_client client_id (Rec clock conn_generation None seq) r)
  end.

(** The [filter_map] of [encode_all]. *)
Definition live_updates (r : AwarenessRegistry) : list AwarenessUpdate :=
  omap (fun e : Z * ClientRecord =>
          (fun st => Upd e.1 (rec_clock e.2) (Some st)) <$> rec_state e.2) (btree_iter (by_client r)).

Definition encode_all (r : AwarenessRegistry) : list byte :=
  let updates := live_updates r in
  if len updates =? 0 then [] else encode_awareness updates.
