(* ===== verification/AwarenessFacts.v ===== *)
(** * Facts about presence

    The codec's byte layout, the lookups of a filtered state, and what each
    registry operation does to the records. *)

From stdpp Require Import base list numbers strings gmap sorting relations.
From Stdlib Require Import ZArith Lia.
From S2P Require Import Prelude Text Cursor Uuid Json Awareness.

(** ** The codec *)

(** The bytes of one update. *)
Definition update_bytes (u : AwarenessUpdate) : list byte :=
  varuint (client_id u) ++ varuint (clock u) ++ string_bytes (default NULL_JSON (state u)).

Lemma write_update_eq out u : write_update out u = out ++ update_bytes u.
Proof.
  unfold write_update, update_bytes, write_var_uint. fold (varuint (client_id u)) (varuint (clock u)).
  destruct (state u); rewrite write_var_bytes_eq; by rewrite <- !app_assoc.
Qed.

Lemma encode_awareness_eq us : encode_awareness us = varuint (len us) ++ concat (update_bytes <$> us).
Proof.
  unfold encode_awareness, write_var_uint. fold (varuint (len us)). simpl.
  generalize (varuint (len us)). induction us as [|u us IH]; intros out; simpl; [by rewrite app_nil_r|].
  by rewrite IH, write_update_eq, <- app_assoc.
Qed.

Section codec.
Context `{SerdeJsonLaws}.

(** A presence state the decoder keeps: UTF-8 text of a JSON value other than
    [null]. *)
Definition state_ok (raw : list byte) : bool :=
  utf8_valid raw && match from_slice raw with Some v => negb (is_null v) | None => false end.

Definition update_wf (u : AwarenessUpdate) : Prop :=
  is_u32 (client_id u) /\ 0 <= clock u <= LIB0_MAX_SAFE_UINT /\
  from_option (fun raw => state_ok raw = true) True (state u).

#[export] Instance update_wf_dec u : Decision (update_wf u).
Proof. unfold update_wf, is_u32. destruct (state u); simpl; apply _. Defined.

Lemma reads_a_string s :
  len s <= MAX_AWARENESS_BYTES -> utf8_valid s = true -> reads a_read_var_string (string_bytes s) s.
Proof.
  intros Hl Hu. unfold a_read_var_string, string_bytes.
  assert (len s <= LIB0_MAX_SAFE_UINT) by (change LIB0_MAX_SAFE_UINT with 9007199254740991; unfold MAX_AWARENESS_BYTES in *; lia).
  apply reads_bind with (x := len s); [apply reads_varuint; split; [apply len_nonneg|done]|].
  rewrite (proj2 (Z.leb_le _ _)) by (unfold u64_max; unfold MAX_AWARENESS_BYTES in *; lia).
  apply reads_bind_l with (x := len s); [apply reads_lift|].
  rewrite (proj2 (Z.ltb_ge _ _)) by done.
  apply reads_bind_r with (x := s); [unfold len; rewrite Nat2Z.id; apply reads_exact|].
  unfold from_utf8. rewrite Hu. apply reads_lift.
Qed.

Lemma update_bytes_length u :
  len (default NULL_JSON (state u)) <= len (update_bytes u).
Proof. unfold update_bytes, string_bytes. rewrite !len_app. len_lia. Qed.

Lemma reads_update u :
  update_wf u -> len (update_bytes u) <= MAX_AWARENESS_BYTES -> reads read_update (update_bytes u) u.
Proof.
  intros (Hc & Hk & Hs) Hl. pose proof (update_bytes_length u) as Hj. unfold read_update, update_bytes.
  unfold is_u32 in Hc.
  eapply reads_bind; [apply reads_varuint; change LIB0_MAX_SAFE_UINT with 9007199254740991; unfold u32_max in Hc; lia|].
  rewrite (proj2 (Z.ltb_ge _ _)) by lia.
  eapply reads_bind; [by apply reads_varuint|]. rewrite wrap_small by (unfold u32_max in Hc; lia).
  eapply reads_bind_r.
  - apply reads_a_string; [lia|]. destruct (state u); [|done]. simpl in *.
    unfold state_ok in Hs. by bool_to_prop.
  - destruct u as [i k [raw|]]; simpl in *.
    + unfold state_ok in Hs. bool_to_prop. destruct (from_slice raw) as [v|]; [|done]. bool_to_prop.
      simpl. eapply reads_bind_r; [apply reads_lift|]. simpl.
      match goal with Hv : is_null v = _ |- _ => rewrite Hv end. apply reads_ret.
    + unfold NULL_JSON. rewrite from_slice_null. eapply reads_bind_r; [apply reads_lift|]. apply reads_ret.
Qed.

Lemma reads_updates us :
  Forall update_wf us -> len (concat (update_bytes <$> us)) <= MAX_AWARENESS_BYTES ->
  reads (read_updates (length us)) (concat (update_bytes <$> us)) us.
Proof.
  induction 1 as [|u us Hu _ IH]; csimpl; intros Hl; [apply reads_ret|].
  rewrite len_app in Hl. eapply reads_bind; [apply reads_update; [done|len_lia]|].
  eapply reads_bind_r; [apply IH; len_lia|]. apply reads_ret.
Qed.

(** Decoding the bytes of an update list. *)
Lemma decode_encode us :
  Forall update_wf us -> len us <= MAX_AWARENESS_CLIENTS ->
  len (encode_awareness us) <= MAX_AWARENESS_BYTES ->
  decode_awareness (encode_awareness us) = Ok us.
Proof.
  intros Hw Hn Hl. unfold decode_awareness.
  rewrite (proj2 (Z.ltb_ge _ _)) by done. rewrite encode_awareness_eq in *. rewrite len_app in *.
  pose proof (varuint_length_pos (len us)) as Hp.
  rewrite (proj2 (Z.eqb_neq _ _)) by (unfold len at 1; len_lia).
  rewrite cursor_new_split. unfold mbind, stateE_bind.
  assert (0 <= len us <= LIB0_MAX_SAFE_UINT)
    by (change LIB0_MAX_SAFE_UINT with 9007199254740991; unfold MAX_AWARENESS_CLIENTS in *; len_lia).
  rewrite (reads_varuint (len us)) by done.
  rewrite (proj2 (Z.ltb_ge _ _)) by done.
  replace (Z.to_nat (len us)) with (length us) by (unfold len; lia).
  rewrite <- (app_nil_r (concat _)), reads_updates by (try done; len_lia).
  unfold gets. by rewrite remaining_split.
Qed.

Lemma a_read_var_string_inv pre suf s c :
  a_read_var_string (at_split pre suf) = Ok (s, c) ->
  utf8_valid s = true /\ len s <= MAX_AWARENESS_BYTES /\ exists pre' suf', c = at_split pre' suf'.
Proof.
  unfold a_read_var_string, mbind, stateE_bind.
  destruct (read_var_uint _) as [[n c1]|] eqn:E1; [|done].
  apply read_var_uint_inv in E1 as (u1 & s1 & -> & -> & _ & Hn & _).
  unfold lift at 1. destruct (n <=? u64_max); [|done].
  destruct (Z.ltb_spec MAX_AWARENESS_BYTES n); [done|].
  destruct (read_exact _ _) as [[b c2]|] eqn:E2; [|done].
  apply read_exact_Ok in E2 as (s2 & -> & Hb & ->).
  unfold from_utf8. destruct (utf8_valid b) eqn:Eu; [|done]. simpl. intros [= <- <-].
  split_and!; [done|unfold len; lia|by eexists _, _].
Qed.

Lemma read_update_inv pre suf u c :
  read_update (at_split pre suf) = Ok (u, c) -> update_wf u /\ exists pre' suf', c = at_split pre' suf'.
Proof.
  unfold read_update, mbind, stateE_bind.
  destruct (read_var_uint _) as [[i c1]|] eqn:E1; [|done].
  apply read_var_uint_inv in E1 as (u1 & s1 & -> & -> & _ & Hi & _).
  destruct (Z.ltb_spec u32_max i); [done|].
  destruct (read_var_uint _) as [[k c2]|] eqn:E2; [|done].
  apply read_var_uint_inv in E2 as (u2 & s2 & -> & -> & _ & Hk & _).
  destruct (a_read_var_string _) as [[s c3]|] eqn:E3; [|done].
  apply a_read_var_string_inv in E3 as (Hu & Hl & p3 & s3 & ->).
  unfold lift. destruct (from_slice s) as [v|] eqn:Ev; [|done]. simpl. intros [= <- <-].
  split; [|by eexists _, _]. split; [|split; [done|]]; simpl.
  - rewrite wrap_small; unfold is_u32, u32_max in *; lia.
  - unfold state_ok. destruct (is_null v) eqn:En; [done|]. simpl. by rewrite Hu, Ev, En.
Qed.

Lemma read_updates_inv n pre suf us c :
  read_updates n (at_split pre suf) = Ok (us, c) -> Forall update_wf us /\ length us = n.
Proof.
  revert pre suf us. induction n as [|n IH]; intros pre suf us; simpl.
  { intros [= <- _]. done. }
  unfold mbind, stateE_bind. destruct (read_update _) as [[u c1]|] eqn:E1; [|done].
  apply read_update_inv in E1 as (Hu & p1 & s1 & ->).
  destruct (read_updates n _) as [[us' c2]|] eqn:E2; [|done].
  intros [= <- ->]. apply IH in E2 as [Hf Hl]. split; [by constructor|simpl; lia].
Qed.

(** What the decoder accepts. *)
Lemma decode_awareness_inv i us :
  decode_awareness i = Ok us -> Forall update_wf us /\ len us <= MAX_AWARENESS_CLIENTS.
Proof.
  unfold decode_awareness. destruct (_ <? len i); [done|]. destruct (len i =? 0); [done|].
  rewrite cursor_new_split. unfold mbind, stateE_bind.
  destruct (read_var_uint _) as [[n c1]|] eqn:E1; [|done].
  apply read_var_uint_inv in E1 as (u1 & s1 & -> & -> & _ & Hn & _).
  destruct (Z.ltb_spec MAX_AWARENESS_CLIENTS n); [done|].
  destruct (read_updates _ _) as [[us' c2]|] eqn:E2; [|done].
  apply read_updates_inv in E2 as [Hf Hl]. unfold gets.
  destruct (negb _); [done|]. intros [= <-]. split; [done|unfold len; lia].
Qed.

(** A clock past lib0's largest integer does not decode. *)
Lemma read_over_max pre suf :
  read_var_uint (E:=AwarenessError) (at_split pre (varuint (sat_add_u64 LIB0_MAX_SAFE_UINT 1) ++ suf)) = Err AInvalidVarUint.
Proof.
  replace (varuint _) with (replicate 7 Byte.x80 ++ [Byte.x10]) by (vm_compute; reflexivity).
  unfold read_var_uint. cbn [replicate app].
  do 7 (rewrite read_loop_step by (vm_compute; repeat split; discriminate);
        match goal with |- context [Z.land (b2z Byte.x80) 128 =? 0] => change (Z.land (b2z Byte.x80) 128 =? 0) with false end;
        cbv iota zeta; match goal with |- context [read_var_uint_loop _ ?r ?s] =>
          let r' := eval vm_compute in r in let s' := eval vm_compute in s in change r with r'; change s with s' end).
  rewrite read_loop_step by (vm_compute; repeat split; discriminate). reflexivity.
Qed.

Lemma decode_clock_overflow k :
  is_u32 k -> decode_awareness (encode_awareness [Upd k (sat_add_u64 LIB0_MAX_SAFE_UINT 1) None]) = Err AInvalidVarUint.
Proof.
  intros Hk. assert (0 <= k <= LIB0_MAX_SAFE_UINT).
  { unfold is_u32, u32_max in Hk. change LIB0_MAX_SAFE_UINT with 9007199254740991. lia. }
  rewrite encode_awareness_eq. cbn [fmap list_fmap concat]. unfold update_bytes. cbn [client_id clock state default].
  rewrite app_nil_r. set (rest := string_bytes _).
  assert (Hl : len rest = 5) by (vm_compute; reflexivity).
  unfold decode_awareness. rewrite !len_app, Hl.
  assert (Hv : forall v, 0 <= v < 2 ^ 56 -> 0 < len (varuint v) <= 8).
  { intros v Hv. pose proof (varuint_length_pos v).
    pose proof (write_loop_length 10 v 8 ltac:(change (128 ^ Z.of_nat 8) with (2 ^ 56); lia) ltac:(lia)).
    unfold len, varuint in *. lia. }
  pose proof (Hv (len [Upd k (sat_add_u64 LIB0_MAX_SAFE_UINT 1) None]) ltac:(vm_compute; split; discriminate || reflexivity)).
  pose proof (Hv k ltac:(change LIB0_MAX_SAFE_UINT with 9007199254740991 in *; lia)).
  pose proof (Hv (sat_add_u64 LIB0_MAX_SAFE_UINT 1) ltac:(vm_compute; split; discriminate || reflexivity)).
  unfold MAX_AWARENESS_BYTES. rewrite (proj2 (Z.ltb_ge _ _)), (proj2 (Z.eqb_neq _ _)) by lia.
  rewrite cursor_new_split. unfold mbind, stateE_bind.
  rewrite (reads_varuint (len [_])) by (vm_compute; split; discriminate).
  change (MAX_AWARENESS_CLIENTS <? _) with false. cbv iota.
  change (Z.to_nat _) with 1%nat. cbn [read_updates]. unfold mbind, stateE_bind, read_update at 1.
  unfold mbind, stateE_bind. rewrite (reads_varuint k) by done.
  rewrite (proj2 (Z.ltb_ge _ _)) by apply Hk. by rewrite read_over_max.
Qed.

End codec.

(** ** The allowlist *)

Section sanitize.
Context `{SerdeJsonLaws}.
Abbreviation Value := (value number).

(** What the allowlist keeps of one entry. *)
Definition clean (key : str) (val : Value) : option Value :=
  if bool_decide (key = bs "cursor") then
    if is_null val then Some VNull else sanitize_cursor val
  else if bool_decide (key = bs "block") then
    if is_null val then Some VNull else sanitize_block val
  else if bool_decide (key = bs "title") then
    if is_null val then Some VNull else if bool_decide (as_bool val = Some true) then Some (VBool true) else None
  else None.

Lemma sanitize_entry_clean out k v : sanitize_entry out (k, v) = insert_some k (clean k v) out.
Proof.
  unfold sanitize_entry, clean.
  repeat (case_bool_decide; subst; simpl; try done); by repeat case_goal.
Qed.

Lemma insert_some_sorted k o (m : list (str * Value)) : map_sorted m -> map_sorted (insert_some k o m).
Proof. destruct o; [apply map_insert_sorted|done]. Qed.

Lemma get_insert_some k k' o (m : list (str * Value)) :
  map_sorted m ->
  map_get k (insert_some k' o m) = if bool_decide (k = k') then match o with Some v => Some v | None => map_get k m end else map_get k m.
Proof.
  intros Hs. case_bool_decide as Hk; subst.
  - destruct o; simpl; [by rewrite map_get_insert|done].
  - destruct o; simpl; [by rewrite map_get_insert_ne|done].
Qed.

Lemma fold_sorted obj : forall out, map_sorted out -> map_sorted (foldl sanitize_entry out obj).
Proof.
  induction obj as [|[k v] obj IH]; intros out Ho; simpl; [done|].
  apply IH. change (map_sorted (sanitize_entry out (k, v))). rewrite sanitize_entry_clean. by apply insert_some_sorted.
Qed.

(** Every lookup in the result of the loop. *)
Lemma fold_get obj : forall out k, map_sorted obj -> map_sorted out ->
  map_get k (foldl sanitize_entry out obj) =
  match map_get k obj ≫= clean k with Some v => Some v | None => map_get k out end.
Proof.
  induction obj as [|[k0 v0] obj IH]; intros out k Hs Ho; [done|].
  destruct Hs as [Hf Hs]. cbn [foldl]. rewrite IH, sanitize_entry_clean; [|done|].
  2: { rewrite sanitize_entry_clean. by apply insert_some_sorted. }
  rewrite get_insert_some by done. cbn [map_get]. case_bool_decide as Hk; subst; [|done].
  by rewrite map_get_None_Forall.
Qed.

(** The verified identity the server writes over the claimed one. *)
Definition verified_user (user_id display_name color : str) : Value :=
  VObject [(bs "color", VString color); (bs "id", VString user_id); (bs "name", VString display_name)].

(** Each field of the filtered state, from the claimed state's object. *)
Definition filtered (user_id display_name color : str) (obj : list (str * Value)) (k : str) : option Value :=
  if bool_decide (k = bs "user") then Some (verified_user user_id display_name color)
  else map_get k obj ≫= clean k.

(** The claimed state is an object that names the connection's user. *)
Definition claims (raw : list byte) (user_id : str) (obj : list (str * Value)) : Prop :=
  from_slice raw = Some (VObject obj) /\
  exists user, map_get (bs "user") obj = Some (VObject user) /\ map_get (bs "id") user = Some (VString user_id).

Definition base_map (user_id display_name color : str) : list (str * Value) :=
  [(bs "user", verified_user user_id display_name color)].

Lemma as_object_Some (v : Value) m : as_object v = Some m -> v = VObject m.
Proof. destruct v; naive_solver. Qed.

Lemma as_str_Some (v : Value) s : as_str v = Some s -> v = VString s.
Proof. destruct v; naive_solver. Qed.

Lemma sanitize_claims raw uid name color out :
  sanitize_user_state raw uid name color = Some out <->
  exists obj, claims raw uid obj /\ to_vec (VObject (foldl sanitize_entry (base_map uid name color) obj)) = Some out.
Proof.
  unfold sanitize_user_state, claims. split.
  - intros (v & Hv & H1)%bind_Some. apply bind_Some in H1 as (obj & ->%as_object_Some & H1).
    apply bind_Some in H1 as (us & Hus & H1). apply bind_Some in H1 as (user & ->%as_object_Some & H1).
    apply bind_Some in H1 as (i & Hi & H1). apply bind_Some in H1 as (s & ->%as_str_Some & H1).
    case_bool_decide; [|done]. subst. exists obj. split; [|done]. split; [done|]. by exists user.
  - intros (obj & (Hv & user & Hu & Hi) & Ho). rewrite Hv. simpl. rewrite Hu. simpl. rewrite Hi. simpl.
    by rewrite bool_decide_true.
Qed.

Lemma base_get uid name color k :
  map_get k (base_map uid name color) =
  if bool_decide (k = bs "user") then Some (verified_user uid name color) else None.
Proof. done. Qed.

Lemma clean_user v : clean (bs "user") v = None.
Proof. done. Qed.

Lemma out_get uid name color obj k :
  map_sorted obj ->
  map_get k (foldl sanitize_entry (base_map uid name color) obj) = filtered uid name color obj k.
Proof.
  intros Hs. rewrite fold_get by done. rewrite base_get. unfold filtered.
  case_bool_decide; subst; [by destruct (map_get _ obj)|by destruct (_ ≫= _)].
Qed.

(** *** Well-formed results *)

Lemma insert_some_wf k o (m : list (str * Value)) :
  utf8_valid k = true -> from_option value_wf True o -> value_wf (VObject m) -> value_wf (VObject (insert_some k o m)).
Proof. intros. destruct o; [by apply map_insert_wf|done]. Qed.

Lemma map_get_wf_snd k (m : list (str * Value)) x : value_wf (VObject m) -> map_get k m = Some x -> value_wf x.
Proof. intros. by eapply map_get_wf. Qed.

Lemma json_id_pair_wf v w : value_wf v -> json_id_pair v = Some w -> value_wf w.
Proof.
  intros Hv (obj & ->%as_object_Some & H1)%bind_Some.
  apply bind_Some in H1 as (c & Hc & H1). apply bind_Some in H1 as (k & Hk & H1).
  destruct (_ || _); [done|]. apply (inj Some) in H1 as <-.
  repeat (apply map_insert_wf; [done|eauto using map_get_wf_snd|]). apply value_wf_empty.
Qed.

Lemma id_field_wf o r : from_option value_wf True o -> id_field o = Some r -> from_option value_wf True r.
Proof.
  intros Hw. destruct o as [[| | | | |]|]; simpl; try (intros [= <-]; done).
  all: intros (p & Hp & [= <-])%bind_Some; by apply json_id_pair_wf in Hp.
Qed.

Lemma get_option_wf k (m : list (str * Value)) : value_wf (VObject m) -> from_option value_wf True (map_get k m).
Proof. intros. destruct (map_get k m) eqn:E; [by eapply map_get_wf|done]. Qed.

Lemma relative_position_wf v w : value_wf v -> sanitize_relative_position v = Some w -> value_wf w.
Proof.
  intros Hv (obj & ->%as_object_Some & H1)%bind_Some.
  apply bind_Some in H1 as (ty & Hty & H1). apply bind_Some in H1 as (tn & Htn & H1).
  apply bind_Some in H1 as (it & Hit & H1). apply bind_Some in H1 as (assoc & Has & H1).
  destruct (negb _); [done|]. apply (inj Some) in H1 as <-.
  pose proof (get_option_wf (bs "tname") obj Hv) as Ht. pose proof (get_option_wf (bs "assoc") obj Hv) as Ha.
  repeat apply insert_some_wf; try done; try (eapply id_field_wf; [|done]; by apply get_option_wf).
  - by destruct (map_get (bs "assoc") obj) as [[]|]; simplify_eq/=.
  - by destruct (map_get (bs "tname") obj) as [[]|]; simplify_eq/=.
Qed.

Lemma clean_wf k v w : value_wf v -> clean k v = Some w -> value_wf w.
Proof.
  intros Hv. unfold clean. repeat case_bool_decide; try done; destruct (is_null v); try (by intros [= <-]).
  - intros (obj & ->%as_object_Some & Hr)%bind_Some.
    apply bind_Some in Hr as (a & Ha & Hr). apply bind_Some in Hr as (a' & Ha' & Hr).
    apply bind_Some in Hr as (h & Hh & Hr). apply bind_Some in Hr as (h' & Hh' & Hr). apply (inj Some) in Hr as <-.
    repeat (apply map_insert_wf; [done|eauto using map_get_wf_snd, relative_position_wf|]). apply value_wf_empty.
  - intros (obj & ->%as_object_Some & Hr)%bind_Some.
    apply bind_Some in Hr as (i & Hi & Hr). apply bind_Some in Hr as (s & ->%as_str_Some & Hr).
    destruct (_ =? 0); [done|]. apply (inj Some) in Hr as <-.
    apply map_insert_wf; [done|by eapply map_get_wf|apply value_wf_empty].
Qed.

Lemma verified_user_wf uid name color :
  utf8_valid uid = true -> utf8_valid name = true -> utf8_valid color = true ->
  value_wf (verified_user uid name color).
Proof. intros. apply value_wf_object. split; [by repeat constructor|]. by repeat constructor. Qed.

Lemma fold_wf obj : forall out, value_wf (VObject obj) -> value_wf (VObject out) ->
  value_wf (VObject (foldl sanitize_entry out obj)).
Proof.
  induction obj as [|[k v] obj IH]; intros out Hw Ho; [done|]. cbn [foldl].
  apply value_wf_object in Hw as [[_ Hs] Hw]. inversion Hw as [|?? [Hk Hv] Ht]; subst.
  apply IH; [by apply value_wf_object|]. rewrite sanitize_entry_clean. apply insert_some_wf; [done| |done].
  destruct (clean k v) eqn:E; [by apply clean_wf in E|done].
Qed.

Lemma sanitized_wf raw uid name color obj :
  utf8_valid uid = true -> utf8_valid name = true -> utf8_valid color = true ->
  from_slice raw = Some (VObject obj) ->
  value_wf (VObject (foldl sanitize_entry (base_map uid name color) obj)).
Proof.
  intros Hu Hn Hc Hp%from_slice_wf. apply fold_wf; [done|]. apply value_wf_object. split; [by repeat constructor|].
  constructor; [|constructor]. split; [done|by apply verified_user_wf].
Qed.

(** Only the allowed keys are in the result. *)
Lemma fold_keys uid name color obj :
  Forall (fun e => e.1 ∈ [bs "user"; bs "cursor"; bs "block"; bs "title"])
    (foldl sanitize_entry (base_map uid name color) obj).
Proof.
  assert (Hg : forall out, Forall (fun e : str * Value => e.1 ∈ [bs "user"; bs "cursor"; bs "block"; bs "title"]) out ->
    Forall (fun e => e.1 ∈ [bs "user"; bs "cursor"; bs "block"; bs "title"]) (foldl sanitize_entry out obj)).
  { induction obj as [|[k v] obj IH]; intros out Ho; [done|]. cbn [foldl]. apply IH.
    rewrite sanitize_entry_clean. destruct (clean k v) eqn:E; [|done]. apply map_insert_Forall; [|done].
    unfold clean in E. simpl. repeat case_bool_decide; subst; try done; set_solver. }
  apply Hg. constructor; [by left|constructor].
Qed.

(** *** Filtering twice *)

Lemma json_id_pair_idem v w : json_id_pair v = Some w -> json_id_pair w = Some w.
Proof.
  intros (obj & ->%as_object_Some & H1)%bind_Some.
  apply bind_Some in H1 as (c & Hc & H1). apply bind_Some in H1 as (k & Hk & H1).
  destruct (_ || _) eqn:E; [done|]. apply (inj Some) in H1 as <-. by destruct c, k.
Qed.

Lemma json_id_pair_object v w : json_id_pair v = Some w -> exists m, w = VObject m.
Proof.
  intros (obj & _ & H1)%bind_Some. apply bind_Some in H1 as (c & _ & H1). apply bind_Some in H1 as (k & _ & H1).
  destruct (_ || _); [done|]. apply (inj Some) in H1 as <-. by eexists.
Qed.

Lemma id_field_idem o r : id_field o = Some r -> id_field r = Some r.
Proof.
  destruct o as [[| | | | |]|]; simpl; try (by intros [= <-]).
  all: intros (p & Hp & [= <-])%bind_Some; apply json_id_pair_idem in Hp as Hi;
    apply json_id_pair_object in Hp as [m' ->]; cbn [id_field]; by rewrite Hi.
Qed.

(** The four optional fields of a position, read back after insertion. *)
Lemma position_gets (ty tn it assoc : option Value) :
  let out := insert_some (bs "assoc") assoc (insert_some (bs "item") it
               (insert_some (bs "tname") tn (insert_some (bs "type") ty []))) in
  map_get (bs "type") out = ty /\ map_get (bs "tname") out = tn /\
  map_get (bs "item") out = it /\ map_get (bs "assoc") out = assoc.
Proof. destruct ty, tn, it, assoc; done. Qed.

Lemma relative_position_idem v w :
  sanitize_relative_position v = Some w -> sanitize_relative_position w = Some w.
Proof.
  intros (obj & ->%as_object_Some & H1)%bind_Some.
  apply bind_Some in H1 as (ty & Hty & H1). apply bind_Some in H1 as (tn & Htn & H1).
  apply bind_Some in H1 as (it & Hit & H1). apply bind_Some in H1 as (assoc & Has & H1).
  destruct (negb _) eqn:Et; [done|]. apply (inj Some) in H1 as <-.
  unfold sanitize_relative_position. cbn [as_object mbind option_bind].
  destruct (position_gets ty tn it assoc) as (-> & -> & -> & ->).
  rewrite (id_field_idem _ _ Hty), (id_field_idem _ _ Hit). cbn [mbind option_bind].
  assert (match tn with None => Some None | Some VNull => Some (Some VNull)
          | Some (VString s) => Some (Some (VString s)) | Some _ => None end = Some tn) as ->
    by (by destruct (map_get (bs "tname") obj) as [[]|]; simplify_eq/=).
  assert (match assoc with None => Some None | Some VNull => Some (Some VNull)
          | Some v => if is_number v then Some (Some v) else None end = Some assoc) as ->
    by (by destruct (map_get (bs "assoc") obj) as [[]|]; simplify_eq/=).
  cbn [mbind option_bind]. by rewrite Et.
Qed.

Lemma sanitize_cursor_idem v w : sanitize_cursor v = Some w -> is_null w = false /\ sanitize_cursor w = Some w.
Proof.
  intros (obj & ->%as_object_Some & H1)%bind_Some.
  apply bind_Some in H1 as (a & Ha & H1). apply bind_Some in H1 as (a' & Ha' & H1).
  apply bind_Some in H1 as (h & Hh & H1). apply bind_Some in H1 as (h' & Hh' & H1). apply (inj Some) in H1 as <-.
  split; [done|]. change (sanitize_relative_position a' ≫= (fun anchor =>
    sanitize_relative_position h' ≫= fun head =>
      Some (VObject (map_insert (bs "head") head (map_insert (bs "anchor") anchor [])))) =
    Some (VObject (map_insert (bs "head") h' (map_insert (bs "anchor") a' [])))).
  apply relative_position_idem in Ha', Hh'. rewrite Ha'. cbn [mbind option_bind]. by rewrite Hh'.
Qed.

Lemma sanitize_block_idem v w : sanitize_block v = Some w -> is_null w = false /\ sanitize_block w = Some w.
Proof.
  intros (obj & ->%as_object_Some & H1)%bind_Some.
  apply bind_Some in H1 as (i & Hi & H1). apply bind_Some in H1 as (s & ->%as_str_Some & H1).
  destruct (_ =? 0) eqn:E; [done|]. apply (inj Some) in H1 as <-. split; [done|]. by destruct s.
Qed.

Lemma clean_idem k v w : clean k v = Some w -> clean k w = Some w.
Proof.
  unfold clean. repeat case_bool_decide; try done; destruct (is_null v); try (by intros [= <-]).
  - intros [-> ->]%sanitize_cursor_idem. done.
  - intros [-> ->]%sanitize_block_idem. done.
Qed.

End sanitize.

(** * Facts about the presence registry

    What eviction, claims, updates and removals do to the records of a room. *)

(** ** Eviction *)

(** [r'] is [r] without some of its tombstones. *)
Definition evicted (r r' : AwarenessRegistry) : Prop :=
  reg_generation r' = reg_generation r /\ reg_seq r' = reg_seq r /\
  forall k, by_client r' !! k = by_client r !! k \/
            by_client r' !! k = None /\ exists c, by_client r !! k = Some c /\ rec_state c = None.

#[export] Instance evicted_preorder : PreOrder evicted.
Proof.
  split; [intros r; repeat split; auto|].
  intros r1 r2 r3 (Hg1 & Hs1 & Hk1) (Hg2 & Hs2 & Hk2). split_and!; [congruence..|].
  intros k. destruct (Hk1 k) as [E1|[E1 Hc]], (Hk2 k) as [E2|[E2 (c & Hc2 & Ht)]].
  - left. congruence.
  - right. split; [done|]. exists c. rewrite <- E1. done.
  - right. split; [congruence|done].
  - congruence.
Qed.

(** The tombstones, in client order. *)
Definition tombstones (r : AwarenessRegistry) : list (Z * ClientRecord) :=
  filter (fun e => is_tombstone e = true) (btree_iter (by_client r)).

Lemma elem_of_tombstones r k c :
  (k, c) ∈ tombstones r <-> by_client r !! k = Some c /\ rec_state c = None.
Proof.
  unfold tombstones. rewrite list_elem_of_filter, elem_of_btree_iter.
  unfold is_tombstone; simpl. destruct (rec_state c); naive_solver.
Qed.

(** One eviction: the victim is a tombstone with the least sequence number. *)
Lemma evict_true r r' :
  evict_oldest_tombstone r = (true, r') ->
  exists k c, by_client r !! k = Some c /\ rec_state c = None /\
    (forall k' c', by_client r !! k' = Some c' -> rec_state c' = None -> rec_seq c <= rec_seq c') /\
    r' = Reg (delete k (by_client r)) (reg_generation r) (reg_seq r).
Proof.
  unfold evict_oldest_tombstone. fold (tombstones r).
  destruct (min_by_key _ (tombstones r)) as [[k c]|] eqn:E; [|done]. intros [= <-].
  apply min_by_key_Some in E as [Hin Hmin]. apply elem_of_tombstones in Hin as [Hk Hc].
  exists k, c. split_and!; try done. intros k' c' Hk' Hc'.
  apply (Hmin (k', c')). by apply elem_of_tombstones.
Qed.

Lemma evict_false r r' :
  evict_oldest_tombstone r = (false, r') ->
  r' = r /\ forall k c, by_client r !! k = Some c -> is_Some (rec_state c).
Proof.
  unfold evict_oldest_tombstone. fold (tombstones r).
  destruct (min_by_key _ (tombstones r)) as [[k c]|] eqn:E; [done|]. intros [= <-]. split; [done|].
  intros k c Hk. apply min_by_key_None in E. destruct (rec_state c) eqn:Es; [done|].
  assert (Hin : (k, c) ∈ tombstones r) by (by apply elem_of_tombstones). rewrite E in Hin. by apply elem_of_nil in Hin.
Qed.

Lemma evict_evicted r r' : evict_oldest_tombstone r = (true, r') -> evicted r r'.
Proof.
  intros (k & c & Hk & Hc & _ & ->)%evict_true. split_and!; [done..|]. intros k'. simpl.
  destruct (decide (k = k')) as [<-|Hne].
  - right. rewrite lookup_delete_eq. eauto.
  - left. by rewrite lookup_delete_ne.
Qed.

Lemma evict_size r r' :
  evict_oldest_tombstone r = (true, r') -> size (by_client r) = S (size (by_client r')).
Proof.
  intros (k & c & Hk & _ & _ & ->)%evict_true. simpl.
  rewrite <- (insert_delete_id (by_client r) k c) at 1 by done.
  by rewrite map_size_insert_None by apply lookup_delete_eq.
Qed.

(** The loop's result: room for one more, or a registry full of live records. *)
Lemma make_room_spec fuel : forall r b r', (size (by_client r) <= fuel)%nat -> make_room fuel r = (b, r') ->
  evicted r r' /\
  if b then tracked r' < MAX_AWARENESS_CLIENTS
  else MAX_AWARENESS_CLIENTS <= tracked r' /\ forall k c, by_client r' !! k = Some c -> is_Some (rec_state c).
Proof.
  induction fuel as [|f IH]; intros r b r' Hf; simpl.
  - destruct (Z.leb_spec MAX_AWARENESS_CLIENTS (tracked r)); unfold tracked, MAX_AWARENESS_CLIENTS in *; [lia|].
    intros [= <- <-]. split; [reflexivity|lia].
  - destruct (Z.leb_spec MAX_AWARENESS_CLIENTS (tracked r)).
    + destruct (evict_oldest_tombstone r) as [[] r1] eqn:E; simpl.
      * intros Hr. pose proof (evict_size _ _ E). destruct (IH r1 b r' ltac:(lia) Hr) as [He Hb].
        split; [|done]. etrans; [by apply evict_evicted|done].
      * intros [= <- <-]. apply evict_false in E as [-> E]. split; [reflexivity|done].
    + intros [= <- <-]. by split.
Qed.

(** The record count is enough fuel for the loop: more gives the same. *)
Lemma make_room_enough r : forall f g, (size (by_client r) <= f)%nat -> (f <= g)%nat -> make_room g r = make_room f r.
Proof.
  intros f. revert r. induction f as [|f IH]; intros r g Hf Hg; simpl.
  - assert (tracked r = 0) as E by (unfold tracked; lia). destruct g; simpl; by rewrite E.
  - destruct g as [|g]; [lia|]. simpl.
    destruct (_ <=? _); [|done]. destruct (evict_oldest_tombstone r) as [[] r1] eqn:E; simpl; [|done].
    pose proof (evict_size _ _ E). apply IH; lia.
Qed.

Lemma fits_spec k r b r' :
  fits_new_client k r = (b, r') ->
  evicted r r' /\ by_client r' !! k = by_client r !! k /\
  if b then is_Some (by_client r !! k) \/ tracked r' < MAX_AWARENESS_CLIENTS
  else MAX_AWARENESS_CLIENTS <= tracked r' /\ forall k c, by_client r' !! k = Some c -> is_Some (rec_state c).
Proof.
  unfold fits_new_client. destruct (by_client r !! k) as [c|] eqn:Ek.
  - intros [= <- <-]. split_and!; [reflexivity|done|]. left. by exists c.
  - intros Hr. apply make_room_spec in Hr as [He Hb]; [|done]. split_and!; [done| |].
    + destruct He as (_ & _ & He). destruct (He k) as [->|[-> _]]; done.
    + destruct b; [by right|done].
Qed.

Lemma evicted_tracked r r' : evicted r r' -> tracked r' <= tracked r.
Proof.
  intros (_ & _ & He). unfold tracked. apply Nat2Z.inj_le, map_subseteq_size, map_subseteq_spec.
  intros k c Hk. destruct (He k) as [E|[E _]]; congruence.
Qed.

Lemma insert_tracked k c r :
  is_Some (by_client r !! k) \/ tracked r < MAX_AWARENESS_CLIENTS -> tracked r <= MAX_AWARENESS_CLIENTS ->
  tracked (insert_client k c r) <= MAX_AWARENESS_CLIENTS.
Proof.
  unfold tracked; simpl. intros Hr Hl. destruct (by_client r !! k) as [c'|] eqn:E.
  - by rewrite map_size_insert_Some.
  - rewrite map_size_insert_None by done. destruct Hr as [[? [=]]|]. lia.
Qed.

(** ** The invariant *)

Section invariant.
Context `{SerdeJsonLaws}.

(** A record a room may hold: a live one carries a clock that decodes and a
    state the decoder accepts; a tombstone's clock may be one larger. *)
Definition record_ok (r : AwarenessRegistry) (k : Z) (c : ClientRecord) : Prop :=
  is_u32 k /\ 0 <= rec_generation c <= reg_generation r /\ 0 < rec_seq c <= reg_seq r /\
  match rec_state c with
  | Some st => 0 <= rec_clock c <= LIB0_MAX_SAFE_UINT /\ state_ok st = true
  | None => 0 <= rec_clock c <= LIB0_MAX_SAFE_UINT + 1
  end.

Definition registry_wf (r : AwarenessRegistry) : Prop :=
  tracked r <= MAX_AWARENESS_CLIENTS /\ is_u64 (reg_generation r) /\ is_u64 (reg_seq r) /\
  forall k c, by_client r !! k = Some c -> record_ok r k c.

Lemma record_ok_mono r r' k c :
  reg_generation r <= reg_generation r' -> reg_seq r <= reg_seq r' -> record_ok r k c -> record_ok r' k c.
Proof. unfold record_ok. intros. destruct (rec_state c); intuition lia. Qed.

Lemma wf_evicted r r' : evicted r r' -> registry_wf r -> registry_wf r'.
Proof.
  intros He (Ht & Hg & Hs & Hr). pose proof (evicted_tracked _ _ He). destruct He as (Eg & Es & He).
  unfold registry_wf. rewrite Eg, Es. split_and!; try done; [lia|].
  intros k c Hk. apply record_ok_mono with r; [lia..|]. apply Hr. destruct (He k) as [E|[E _]]; congruence.
Qed.

Lemma wf_next_seq r : registry_wf r -> registry_wf (next_seq r).2 /\ 0 < reg_seq (next_seq r).2.
Proof.
  intros (Ht & Hg & Hs & Hr). unfold is_u64 in *. simpl. pose proof (sat_add_u64_bounds (reg_seq r) 1 Hs ltac:(lia)).
  split; [|unfold sat_add_u64, u64_max in *; lia]. split_and!; simpl; [done| |unfold is_u64; lia|].
  - done.
  - intros k c Hk. eapply record_ok_mono; [..|by apply Hr]; simpl; lia.
Qed.

(** Inserting a good record, when it fits. *)
Lemma wf_insert k c r :
  registry_wf r -> is_Some (by_client r !! k) \/ tracked r < MAX_AWARENESS_CLIENTS -> record_ok r k c ->
  registry_wf (insert_client k c r).
Proof.
  intros (Ht & Hg & Hs & Hr) Hf Hc. split_and!; [by apply insert_tracked|done..|]. simpl.
  intros k' c' [[<- <-]|[_ Hk]]%lookup_insert_Some; [done|]. apply (record_ok_mono r); [done..|by apply Hr].
Qed.

Lemma wf_generation r : registry_wf r -> registry_wf (connection_generation r).2.
Proof.
  intros (Ht & Hg & Hs & Hr). unfold is_u64 in *. simpl.
  pose proof (sat_add_u64_bounds (reg_generation r) 1 Hg ltac:(lia)).
  split_and!; simpl; try done; [unfold is_u64; lia|].
  intros k c Hk. eapply record_ok_mono; [..|by apply Hr]; simpl; lia.
Qed.

(** The common tail of a claim and of an update: make room, number, insert. *)
Lemma wf_fits_insert k r b r1 g clock st :
  registry_wf r -> fits_new_client k r = (b, r1) -> b = true -> is_u32 k -> 0 <= g <= reg_generation r ->
  match st with Some s => 0 <= clock <= LIB0_MAX_SAFE_UINT /\ state_ok s = true
              | None => 0 <= clock <= LIB0_MAX_SAFE_UINT + 1 end ->
  registry_wf (insert_client k (Rec clock g st (next_seq r1).1) (next_seq r1).2).
Proof.
  intros Hw Hf -> Hk Hg Hst. apply fits_spec in Hf as (He & Hl & Hb).
  apply (wf_evicted _ _ He) in Hw. destruct (wf_next_seq _ Hw) as [Hw' Hp].
  apply wf_insert; [done| |].
  - destruct Hb as [Hb|Hb]; [left; simpl; by rewrite Hl|by right].
  - destruct He as (Eg & _). repeat split; try done; simpl; try (apply Hk || lia).
Qed.

Lemma wf_claim k g r :
  registry_wf r -> is_u32 k -> 0 <= g <= reg_generation r -> registry_wf (claim_connection_client k g r).
Proof.
  intros Hw Hk Hg. unfold claim_connection_client. destruct (by_client r !! k) as [c|] eqn:Ek.
  - destruct (_ <? _); [done|]. apply wf_insert; [done|left; by rewrite Ek|].
    destruct Hw as (_ & _ & _ & Hr). specialize (Hr k c Ek). unfold record_ok in *. simpl.
    destruct (rec_state c); intuition lia.
  - destruct (fits_new_client k r) as [b r1] eqn:Ef. destruct b; simpl.
    + eapply (wf_fits_insert k r true r1 g 0 None); try done.
    + apply fits_spec in Ef as (He & _). by apply (wf_evicted r).
Qed.

Lemma wf_remove k g r :
  registry_wf r -> 0 <= g <= reg_generation r -> registry_wf (remove_client k g r).2.
Proof.
  intros Hw Hg. unfold remove_client. destruct (by_client r !! k) as [c|] eqn:Ek; [|done].
  destruct (_ || _) eqn:Eb; [done|]. destruct (wf_next_seq _ Hw) as [Hw' Hp].
  pose proof Hw as (_ & _ & _ & Hr). specialize (Hr k c Ek).
  apply wf_insert; [done|left; simpl; by rewrite Ek|].
  unfold record_ok in *. simpl in *. bool_to_prop. destruct (rec_state c); [|done].
  unfold sat_add_u64, u64_max. change LIB0_MAX_SAFE_UINT with 9007199254740991 in *. intuition lia.
Qed.

(** ** Updates *)

(** Filtered states are states the decoder accepts. *)
Lemma sanitize_state_ok raw uid name color out :
  utf8_valid uid = true -> utf8_valid name = true -> utf8_valid color = true ->
  sanitize_user_state raw uid name color = Some out -> state_ok out = true.
Proof.
  intros Hu Hn Hc (obj & [Hp _] & Ho)%sanitize_claims.
  pose proof (sanitized_wf _ uid name color obj Hu Hn Hc Hp) as Hw.
  destruct (to_vec_from _ Hw) as (s & Hs & Hv & Hf). rewrite Hs in Ho. injection Ho as <-.
  unfold state_ok. by rewrite Hv, Hf.
Qed.

Section apply.
Context (k : Z) (uid name color : str) (g : Z).

(** The record and the broadcast one accepted update leaves behind. *)
Definition accepts (r : AwarenessRegistry) (u : AwarenessUpdate) (st : option (list byte)) : Prop :=
  client_id u = k /\
  (forall c, by_client r !! k = Some c -> rec_generation c <= g) /\
  clock_applies (by_client r !! k) (clock u) (bool_decide (state u = None)) = true /\
  match state u with
  | Some raw => is_Some st /\ sanitize_user_state raw uid name color = st
  | None => st = None
  end.

Lemma apply_update_cases ch r u ch' r' :
  apply_update k uid name color g (ch, r) u = (ch', r') ->
  (ch' = ch /\ evicted r r' /\ by_client r' !! k = by_client r !! k) \/
  exists st r1, accepts r u st /\ fits_new_client k r = (true, r1) /\
    ch' = ch ++ [Upd k (clock u) st] /\
    r' = insert_client k (Rec (clock u) g st (next_seq r1).1) (next_seq r1).2.
Proof.
  assert (Hsame : forall ch' r', (ch, r) = (ch', r') -> ch' = ch /\ evicted r r' /\ by_client r' !! k = by_client r !! k)
    by (intros ?? [= <- <-]; split_and!; reflexivity).
  unfold apply_update. destruct (Z.eqb_spec (client_id u) k) as [Hk|Hk]; simpl negb; cbv iota; [|auto].
  rewrite Hk. destruct (match by_client r !! k with Some c => g <? rec_generation c | None => false end) eqn:Eg; [auto|].
  destruct (clock_applies _ _ _) eqn:Ec; simpl negb; cbv iota; [|auto].
  set (st := state u ≫= _). destruct (bool_decide (is_Some (state u)) && _) eqn:Es; [auto|].
  destruct (fits_new_client k r) as [b r1] eqn:Ef. destruct b; simpl.
  - intros [= <- <-]. right. exists st, r1. split; [|done]. split; [done|]. split; [|split; [done|]].
    + intros c E. rewrite E in Eg. by apply Z.ltb_ge.
    + subst st. destruct (state u) as [raw|]; [|done]. simpl in *. split; [|done].
      destruct (sanitize_user_state _ _ _ _); done.
  - intros [= <- <-]. left. apply fits_spec in Ef as (He & Hl & _). done.
Qed.

(** What survives a batch of updates of client [k]: other clients lose at most
    tombstones, and the generation never goes back. *)
Definition framed (r r' : AwarenessRegistry) : Prop :=
  reg_generation r' = reg_generation r /\
  forall k', k' <> k -> by_client r' !! k' = by_client r !! k' \/
    by_client r' !! k' = None /\ exists c, by_client r !! k' = Some c /\ rec_state c = None.

#[export] Instance framed_preorder : PreOrder framed.
Proof.
  split; [intros r; split; auto|].
  intros r1 r2 r3 (Hg1 & Hk1) (Hg2 & Hk2). split; [congruence|].
  intros k' Hne. destruct (Hk1 k' Hne) as [E1|[E1 Hc]], (Hk2 k' Hne) as [E2|[E2 (c & Hc2 & Ht)]].
  - left. congruence.
  - right. split; [done|]. exists c. rewrite <- E1. done.
  - right. split; [congruence|done].
  - congruence.
Qed.

Lemma evicted_framed r r' : evicted r r' -> framed r r'.
Proof. intros (Hg & _ & Hk). split; auto. Qed.

Lemma insert_framed c r r1 b : fits_new_client k r = (b, r1) -> framed r (insert_client k c (next_seq r1).2).
Proof.
  intros (He & _ & _)%fits_spec. apply evicted_framed in He as [Hg Hk]. split; [done|].
  intros k' Hne. simpl. rewrite lookup_insert_ne by done. auto.
Qed.

Lemma apply_update_framed ch r u ch' r' :
  apply_update k uid name color g (ch, r) u = (ch', r') -> framed r r'.
Proof.
  intros [(_ & He & _)|(st & r1 & _ & Hf & _ & ->)]%apply_update_cases;
    [by apply evicted_framed|by eapply insert_framed].
Qed.

Lemma fold_framed us : forall ch r ch' r',
  foldl (apply_update k uid name color g) (ch, r) us = (ch', r') -> framed r r'.
Proof.
  induction us as [|u us IH]; intros ch r ch' r'; cbn [foldl]; [intros [= _ <-]; reflexivity|].
  destruct (apply_update k uid name color g (ch, r) u) as [ch1 r1] eqn:E. intros Hr.
  etrans; [by eapply apply_update_framed|by eapply IH].
Qed.

(** A client's record agrees with the last update broadcast for it. *)
Definition agrees (r : AwarenessRegistry) (u : AwarenessUpdate) : Prop :=
  exists s, by_client r !! k = Some (Rec (clock u) g (state u) s).

(** [u] comes after a record of clock [cl]: with a later clock, or with the
    same clock when it removes the state. *)
Definition comes_after (cl : Z) (u : AwarenessUpdate) : Prop := cl < clock u \/ cl = clock u /\ state u = None.

Lemma clock_applies_after o cl null c :
  clock_applies o cl null = true -> o = Some c -> rec_clock c < cl \/ rec_clock c = cl /\ null = true.
Proof. unfold clock_applies. intros E ->. simpl in E. bool_to_prop. destruct E; bool_to_prop; lia || auto. Qed.

Lemma accepts_after r u st c :
  accepts r u st -> by_client r !! k = Some c -> comes_after (rec_clock c) (Upd k (clock u) st).
Proof.
  intros (_ & _ & Hcl & Hst) Hc. destruct (clock_applies_after _ _ _ _ Hcl Hc) as [?|[? Hn]]; [by left|right].
  split; [done|]. bool_to_prop. by rewrite Hn in Hst.
Qed.

(** The updates a batch broadcasts, each after the record and after the ones
    before it, and the record they leave. *)
Lemma fold_changed us : forall ch r ch' r', foldl (apply_update k uid name color g) (ch, r) us = (ch', r') ->
  exists new, ch' = ch ++ new /\ (length new <= length us)%nat /\
    Forall (fun u => client_id u = k /\ (forall c, by_client r !! k = Some c -> comes_after (rec_clock c) u)) new /\
    StronglySorted (fun u v => comes_after (clock u) v) new /\
    match last new with
    | Some u => agrees r' u
    | None => by_client r' !! k = by_client r !! k
    end.
Proof.
  induction us as [|u us IH]; intros ch r ch' r'; cbn [foldl].
  { intros [= <- <-]. exists []. rewrite app_nil_r. repeat constructor. }
  destruct (apply_update k uid name color g (ch, r) u) as [ch1 r1] eqn:E. intros Hr.
  destruct (IH _ _ _ _ Hr) as (new & -> & Hl & Hf & Hs & Hlast).
  apply apply_update_cases in E as [(-> & _ & Hk)|(st & r2 & Ha & _ & -> & ->)].
  - exists new. rewrite Hk in *. split_and!; try done; simpl; lia.
  - assert (Hge : Forall (fun v => comes_after (clock u) v) new).
    { eapply Forall_mono; [|exact Hf]. intros v [_ Hv].
      eapply (Hv (Rec (clock u) g st (next_seq r2).1)). simpl. by rewrite lookup_insert_eq. }
    exists (Upd k (clock u) st :: new). rewrite <- app_assoc. split_and!; [done|simpl; lia|..].
    + constructor; [split; [done|]; intros; by eapply accepts_after|].
      rewrite Forall_forall in *. intros v Hv. destruct (Hf v Hv) as [Hvk _]. split; [done|].
      intros c Hc. pose proof (accepts_after _ _ _ _ Ha Hc) as Hac. specialize (Hge v Hv).
      unfold comes_after in *. simpl in Hac. lia || (destruct Hac, Hge; [left; lia..|]; right; split; [lia|tauto]).
    + by constructor.
    + rewrite last_cons. destruct (last new) as [v|]; [done|].
      unfold agrees. rewrite Hlast. exists (next_seq r2).1. simpl. by rewrite lookup_insert_eq.
Qed.

(** A newer connection owns the record: nothing is applied. *)
Lemma fold_older us ch r c :
  by_client r !! k = Some c -> g < rec_generation c ->
  foldl (apply_update k uid name color g) (ch, r) us = (ch, r).
Proof.
  intros Hk Hg. induction us as [|u us IH]; cbn [foldl]; [done|].
  assert (apply_update k uid name color g (ch, r) u = (ch, r)) as ->; [|done].
  unfold apply_update. destruct (Z.eqb_spec (client_id u) k) as [->|]; [|done]. simpl negb. cbv iota.
  by rewrite Hk, (proj2 (Z.ltb_lt _ _) Hg).
Qed.

Context (Hk : is_u32 k) (Hu : utf8_valid uid = true) (Hn : utf8_valid name = true) (Hc : utf8_valid color = true).

Lemma accepts_state r u st :
  accepts r u st -> update_wf u -> update_wf (Upd k (clock u) st).
Proof.
  intros (_ & _ & _ & Hst) (_ & Hcl & Hs). split; [done|split; [done|]]. simpl.
  destruct (state u) as [raw|]; [|by subst]. destruct Hst as [_ <-].
  destruct (sanitize_user_state _ _ _ _) eqn:E; [by apply sanitize_state_ok in E|done].
Qed.

Lemma fold_wf_registry us : forall ch r ch' r',
  registry_wf r -> 0 <= g <= reg_generation r -> Forall update_wf us -> Forall update_wf ch ->
  foldl (apply_update k uid name color g) (ch, r) us = (ch', r') -> registry_wf r' /\ Forall update_wf ch'.
Proof.
  induction us as [|u us IH]; intros ch r ch' r' Hw Hg Hus Hch; cbn [foldl]; [by intros [= <- <-]|].
  inversion Hus as [|?? Hwu Hus']; subst.
  destruct (apply_update k uid name color g (ch, r) u) as [ch1 r1] eqn:E.
  pose proof (apply_update_framed _ _ _ _ _ E) as [Eg _].
  apply IH; [|by rewrite Eg|done|].
  - apply apply_update_cases in E as [(_ & He & _)|(st & r2 & Ha & Hf & _ & ->)]; [by apply (wf_evicted r)|].
    apply (accepts_state _ _ _ Ha) in Hwu as (_ & Hcl & Hst). simpl in *.
    eapply wf_fits_insert; try done. destruct st; [done|lia].
  - apply apply_update_cases in E as [(-> & _)|(st & r2 & Ha & _ & -> & _)]; [done|].
    apply Forall_app. split; [done|]. constructor; [by eapply accepts_state|constructor].
Qed.

End apply.
End invariant.

(** ** Snapshots *)

Lemma elem_of_live r k cl st :
  Upd k cl (Some st) ∈ live_updates r <->
  exists c, by_client r !! k = Some c /\ rec_clock c = cl /\ rec_state c = Some st.
Proof.
  unfold live_updates. rewrite list_elem_of_omap. split.
  - intros ([k' c] & Hin & Hs). apply elem_of_btree_iter in Hin. simpl in Hs.
    destruct (rec_state c) as [st'|] eqn:E; [|done]. injection Hs as -> <- ->. eauto.
  - intros (c & Hk & <- & Hs). exists (k, c). rewrite elem_of_btree_iter. simpl. by rewrite Hs.
Qed.

Lemma live_sorted r : StronglySorted Z.lt (client_id <$> live_updates r).
Proof.
  unfold live_updates. pose proof (btree_iter_sorted (by_client r)) as Hs.
  induction (btree_iter (by_client r)) as [|[k c] l IH]; [constructor|].
  rewrite fmap_cons in Hs. apply StronglySorted_inv in Hs as [Hs Hf]. cbn [omap list_omap].
  simpl. destruct (rec_state c) as [st|]; simpl; [|by apply IH].
  constructor; [by apply IH|]. apply Forall_fmap, Forall_forall. intros u Hu.
  apply list_elem_of_omap in Hu as ([k' c'] & Hin & Hu'). simpl in *.
  destruct (rec_state c'); [|done]. injection Hu' as <-. simpl.
  rewrite Forall_forall in Hf. apply Hf. by apply (list_elem_of_fmap_2 fst _ (k', c')).
Qed.

Lemma live_length r : len (live_updates r) <= tracked r.
Proof.
  unfold live_updates, tracked, len. apply Nat2Z.inj_le.
  transitivity (length (btree_iter (by_client r))); [|by rewrite btree_iter_perm, length_map_to_list].
  generalize (btree_iter (by_client r)) as l. induction l as [|[k c] l IH]; [done|].
  cbn [omap list_omap]. simpl. destruct (rec_state c); simpl; lia.
Qed.

Lemma elem_of_live_inv r u :
  u ∈ live_updates r ->
  exists c, by_client r !! client_id u = Some c /\ clock u = rec_clock c /\ state u = rec_state c.
Proof.
  unfold live_updates. rewrite list_elem_of_omap. intros ([k c] & Hin & Hs).
  apply elem_of_btree_iter in Hin. simpl in Hs. destruct (rec_state c) as [st|] eqn:E; [|done].
  injection Hs as <-. eauto.
Qed.

Lemma live_state r u : u ∈ live_updates r -> is_Some (state u).
Proof.
  unfold live_updates. rewrite list_elem_of_omap. intros ([k c] & _ & Hs). simpl in Hs.
  destruct (rec_state c); [|done]. injection Hs as <-. by eexists.
Qed.

(** ** The life of a registry

    What a room does with its registry: it numbers connections, claims a
    client id for a connection, applies decoded updates of an authenticated
    connection, and removes a client when its connection closes. *)

Section life.
Context `{SerdeJsonLaws}.

Inductive registry_step (r : AwarenessRegistry) : AwarenessRegistry -> Prop :=
| step_generation : registry_step r (connection_generation r).2
| step_claim k g :
    is_u32 k -> 0 <= g <= reg_generation r -> registry_step r (claim_connection_client k g r)
| step_apply k us uid name color g :
    is_u32 k -> Forall update_wf us -> 0 <= g <= reg_generation r ->
    utf8_valid uid = true -> utf8_valid name = true -> utf8_valid color = true ->
    registry_step r (apply_connection_updates k us uid name color g r).2
| step_remove k g :
    0 <= g <= reg_generation r -> registry_step r (remove_client k g r).2.

Definition reachable (r : AwarenessRegistry) : Prop := rtc registry_step registry_new r.

Lemma registry_wf_step r1 r2 : registry_step r1 r2 -> registry_wf r1 -> registry_wf r2.
Proof.
  intros [|k g Hk Hg|k us uid name color g Hk Hus Hg Hu Hn Hc|k g Hg] Hw.
  - by apply wf_generation.
  - by apply wf_claim.
  - unfold apply_connection_updates. destruct (foldl _ _ _) as [ch r'] eqn:E.
    by destruct (fold_wf_registry k uid name color g Hk Hu Hn Hc us [] r1 ch r' Hw Hg Hus (Forall_nil_2 _) E).
  - by apply wf_remove.
Qed.

Lemma registry_wf_reachable r : reachable r -> registry_wf r.
Proof.
  unfold reachable. apply (rtc_ind_r registry_wf); [|intros; by eapply registry_wf_step].
  by split_and!.
Qed.

End life.
