(* ===== verification/AwarenessTheorems.v ===== *)
(** * Theorems about presence *)

From stdpp Require Import base list numbers strings gmap sorting relations.
From Stdlib Require Import ZArith Lia.
From S2P Require Import Prelude Text Cursor Uuid Json JsonInstance Awareness AwarenessFacts.

Section theorems.
Context `{SerdeJsonLaws}.

(** Decoding an encoded list of well-formed updates gives the list back,
    when it fits the decoder's byte and client limits. *)
Theorem awareness_roundtrip (us : list AwarenessUpdate) :
  Forall update_wf us -> len us <= MAX_AWARENESS_CLIENTS ->
  len (encode_awareness us) <= MAX_AWARENESS_BYTES ->
  decode_awareness (encode_awareness us) = Ok us.
Proof. apply decode_encode. Qed.

(** Every accepted frame is at most 64 KiB long and holds at most 128
    updates, each with a 32-bit client, a clock lib0 can represent and either
    no state or the text of a JSON value that is not [null]; and encoding the
    updates again loses nothing, when that fits. *)
Theorem awareness_decode_wf (i : list byte) (us : list AwarenessUpdate) :
  decode_awareness i = Ok us ->
  0 < len i <= MAX_AWARENESS_BYTES /\ len us <= MAX_AWARENESS_CLIENTS /\ Forall update_wf us /\
  (len (encode_awareness us) <= MAX_AWARENESS_BYTES -> decode_awareness (encode_awareness us) = Ok us).
Proof.
  intros Hd. destruct (decode_awareness_inv _ _ Hd) as [Hw Hn].
  split_and!; try done; [..|intros; by apply decode_encode].
  - unfold decode_awareness in Hd. destruct (_ <? len i); [done|].
    destruct (Z.eqb_spec (len i) 0); [done|]. pose proof (len_nonneg i). lia.
  - unfold decode_awareness in Hd. by destruct (Z.ltb_spec MAX_AWARENESS_BYTES (len i)).
Qed.

(** C21: the filter accepts a state exactly when it is an object whose user id
    is the connection's, and the result holds the verified user and, of the
    claimed fields, only what the allowlist keeps of [cursor], [block] and
    [title]. *)
Theorem sanitize_exact (raw uid name color : list byte) :
  utf8_valid uid = true -> utf8_valid name = true -> utf8_valid color = true ->
  (is_Some (sanitize_user_state raw uid name color) <-> exists obj, claims raw uid obj) /\
  forall out, sanitize_user_state raw uid name color = Some out ->
    exists obj m, claims raw uid obj /\ utf8_valid out = true /\ from_slice out = Some (VObject m) /\
      (forall k, map_get k m = filtered uid name color obj k) /\
      Forall (fun e => e.1 ∈ [bs "user"; bs "cursor"; bs "block"; bs "title"]) m.
Proof.
  intros Hu Hn Hc.
  assert (Hout : forall obj, claims raw uid obj ->
    let m := foldl sanitize_entry (base_map uid name color) obj in
    exists s, to_vec (VObject m) = Some s /\ utf8_valid s = true /\ from_slice s = Some (VObject m)).
  { intros obj [Hp _]. by apply to_vec_from, (sanitized_wf raw). }
  split; [split|].
  - intros [out (obj & Hcl & _)%sanitize_claims]. by exists obj.
  - intros [obj Hcl]. destruct (Hout obj Hcl) as (s & Hs & _). exists s. apply sanitize_claims. eauto.
  - intros out (obj & Hcl & Ho)%sanitize_claims. destruct (Hout obj Hcl) as (s & Hs & Hv & Hf).
    rewrite Hs in Ho. injection Ho as <-. eexists obj, _. split_and!; [done..| |by apply fold_keys].
    intros k. apply out_get. destruct Hcl as [Hp _]. apply from_slice_wf, value_wf_object in Hp. tauto.
Qed.

(** Filtering a filtered state changes nothing. *)
Theorem sanitize_idempotent (raw uid name color out : list byte) :
  utf8_valid uid = true -> utf8_valid name = true -> utf8_valid color = true ->
  sanitize_user_state raw uid name color = Some out ->
  sanitize_user_state out uid name color = Some out.
Proof.
  intros Hu Hn Hc (obj & Hcl & Ho)%sanitize_claims. destruct Hcl as [Hp _].
  pose proof (sanitized_wf raw uid name color obj Hu Hn Hc Hp) as Hw.
  apply from_slice_wf, value_wf_object in Hp as [Hs _].
  destruct (to_vec_from _ Hw) as (s & Hs' & _ & Hf). rewrite Hs' in Ho. injection Ho as <-.
  apply sanitize_claims. eexists. split; [split; [exact Hf|]|].
  - eexists. split; [by rewrite out_get by done|done].
  - rewrite <- Hs'. do 2 f_equal. apply value_wf_object in Hw as [Hm _].
    apply map_sorted_ext; [by apply fold_sorted|done|]. intros k. rewrite !out_get by done.
    unfold filtered. case_bool_decide; [done|]. rewrite out_get by done. unfold filtered.
    rewrite bool_decide_false by done. destruct (map_get k obj) as [v|]; [|done]. simpl.
    destruct (clean k v) eqn:E; [|done]. simpl. by apply clean_idem in E.
Qed.

(** C16: whatever a room does with its registry, it tracks at most 128
    clients, its counters stay 64-bit, every record belongs to a generation
    already handed out, and every live record holds a filtered state with a
    clock that decodes. *)
Theorem registry_invariant (r : AwarenessRegistry) : reachable r -> registry_wf r.
Proof. apply registry_wf_reachable. Qed.

(** C20: updates on one connection never change another client's live record:
    such a record is kept as it is, and a client other than the claimed one can
    lose at most a tombstone, to eviction. *)
Theorem presence_isolation (r r' : AwarenessRegistry) (k k' : Z) us uid name color g bytes :
  apply_connection_updates k us uid name color g r = (bytes, r') -> k' <> k ->
  (forall c, by_client r !! k' = Some c -> is_Some (rec_state c) -> by_client r' !! k' = Some c) /\
  (forall c, by_client r' !! k' = Some c -> by_client r !! k' = Some c).
Proof.
  unfold apply_connection_updates. destruct (foldl _ _ _) as [ch r1] eqn:E. intros [= _ <-] Hne.
  apply fold_framed in E as [_ Hf]. destruct (Hf k' Hne) as [->|[-> (c' & -> & Ht)]]; split; try done.
  intros c [= <-] [? Hs]. congruence.
Qed.

(** What a batch of updates broadcasts.  Nothing is sent exactly when the
    client's record did not change; otherwise the bytes encode well-formed
    updates of that client only, each later than the record and than the ones
    before it (a repeated clock is accepted from a removal only), the last one is what the registry now stores under
    the connection's generation, and the bytes decode to these updates when
    they fit a frame. *)
Theorem presence_broadcast (r r' : AwarenessRegistry) (k : Z) us uid name color g bytes :
  registry_wf r -> 0 <= g <= reg_generation r -> is_u32 k -> Forall update_wf us ->
  len us <= MAX_AWARENESS_CLIENTS ->
  utf8_valid uid = true -> utf8_valid name = true -> utf8_valid color = true ->
  apply_connection_updates k us uid name color g r = (bytes, r') ->
  match bytes with
  | None => by_client r' !! k = by_client r !! k
  | Some bytes =>
    exists changed u, bytes = encode_awareness changed /\ last changed = Some u /\
      Forall (fun v => client_id v = k /\ forall c, by_client r !! k = Some c -> comes_after (rec_clock c) v) changed /\
      StronglySorted (fun v w => comes_after (clock v) w) changed /\
      (exists s, by_client r' !! k = Some (Rec (clock u) g (state u) s)) /\
      (len bytes <= MAX_AWARENESS_BYTES -> decode_awareness bytes = Ok changed)
  end.
Proof.
  intros Hw Hg Hk Hus Hl Hu Hn Hc. unfold apply_connection_updates.
  destruct (foldl _ _ _) as [ch r1] eqn:E. intros [= <- <-].
  pose proof (fold_wf_registry _ _ _ _ _ Hk Hu Hn Hc _ _ _ _ _ Hw Hg Hus (Forall_nil_2 _) E) as [_ Hwc].
  apply fold_changed in E as (new & Hch & Hln & Hf & Hs & Hlast). simpl in Hch. subst ch.
  destruct (last new) as [u|] eqn:El.
  - assert (len new <> 0) as Hne by (by destruct new).
    rewrite (proj2 (Z.eqb_neq _ _) Hne). exists new, u. split_and!; try done.
    intros. apply decode_encode; [done|unfold len in *; lia|done].
  - apply last_None in El as ->. done.
Qed.

(** A snapshot of a reachable registry lists every live record once, in
    increasing client order, and decodes to that list when it fits a frame;
    with no live record it is empty. *)
Theorem snapshot_complete (r : AwarenessRegistry) :
  reachable r ->
  (forall k c st, by_client r !! k = Some c -> rec_state c = Some st -> Upd k (rec_clock c) (Some st) ∈ live_updates r) /\
  (forall u, u ∈ live_updates r ->
     exists c, by_client r !! client_id u = Some c /\ clock u = rec_clock c /\ state u = rec_state c) /\
  StronglySorted Z.lt (client_id <$> live_updates r) /\
  (live_updates r = [] <-> encode_all r = []) /\
  (live_updates r <> [] -> len (encode_all r) <= MAX_AWARENESS_BYTES -> decode_awareness (encode_all r) = Ok (live_updates r)).
Proof.
  intros Hr%registry_wf_reachable. split_and!.
  - intros k c st Hk Hs. apply elem_of_live. eauto.
  - intros u Hu. by apply elem_of_live_inv.
  - apply live_sorted.
  - unfold encode_all. destruct (live_updates r) as [|u l]; [done|]. simpl. split; [done|].
    intros He. exfalso. rewrite encode_awareness_eq in He. apply (f_equal length) in He. rewrite length_app in He.
    pose proof (varuint_length_pos (len (u :: l))). simpl in *. lia.
  - intros Hne. unfold encode_all. destruct (Z.eqb_spec (len (live_updates r)) 0) as [E|_].
    { destruct (live_updates r); [done|]. unfold len in E. simpl in E. lia. }
    intros Hl. destruct Hr as (Ht & _ & _ & Hr). apply decode_encode; [|pose proof (live_length r); lia|done].
    apply Forall_forall. intros u Hu. pose proof (elem_of_live_inv _ _ Hu) as (c & Hk & Ec & Es).
    destruct (Hr _ _ Hk) as (Hk' & _ & _ & Hst). split; [done|]. rewrite Ec, Es.
    destruct (live_state _ _ Hu) as [st Est]. rewrite Es in Est. rewrite Est in *. done.
Qed.

(** Connection generations.  A connection older than a record's can
    neither update nor remove it: both operations leave the registry as it is
    and send nothing.  Otherwise removing a live client leaves a tombstone with
    the next clock and every other record in place, drops the client from
    snapshots, and a second removal does nothing. *)
Theorem generation_ownership (r : AwarenessRegistry) (k g : Z) (c : ClientRecord) :
  by_client r !! k = Some c -> 0 <= rec_clock c <= LIB0_MAX_SAFE_UINT ->
  (g < rec_generation c ->
     remove_client k g r = (None, r) /\
     forall us uid name color, apply_connection_updates k us uid name color g r = (None, r)) /\
  (rec_generation c <= g -> is_Some (rec_state c) ->
     exists r', remove_client k g r = (Some (encode_awareness [Upd k (rec_clock c + 1) None]), r') /\
       by_client r' = <[k := Rec (rec_clock c + 1) g None (sat_add_u64 (reg_seq r) 1)]> (by_client r) /\
       (forall u, u ∈ live_updates r' -> client_id u <> k) /\
       remove_client k g r' = (None, r')).
Proof.
  intros Hk Hc. unfold remove_client at 1 2. rewrite Hk. split.
  - intros Hg. rewrite (proj2 (Z.ltb_lt _ _) Hg). split; [done|]. intros us uid name color.
    unfold apply_connection_updates. by rewrite (fold_older k uid name color g us [] r c).
  - intros Hg [st Hst]. rewrite (proj2 (Z.ltb_ge _ _) Hg), bool_decide_false by congruence.
    assert (sat_add_u64 (rec_clock c) 1 = rec_clock c + 1) as ->.
    { unfold sat_add_u64, u64_max. change LIB0_MAX_SAFE_UINT with 9007199254740991 in Hc. lia. }
    eexists. split; [reflexivity|]. split_and!; [done| |].
    + intros u Hu Heq. pose proof (live_state _ _ Hu) as [st' Hs'].
      apply elem_of_live_inv in Hu as (c' & Hk' & _ & Hs''). simpl in Hk'.
      rewrite Heq, lookup_insert_eq in Hk'. injection Hk' as <-. simpl in *. congruence.
    + unfold remove_client. simpl. rewrite lookup_insert_eq. simpl. by rewrite orb_true_r.
Qed.

(** A removal at the largest clock breaks the protocol's own limit: a
    live client whose clock is lib0's maximum, which the decoder accepts, is
    removed with a broadcast that the decoder rejects. *)
Theorem tombstone_clock_overflow (r : AwarenessRegistry) (k g : Z) (c : ClientRecord) :
  is_u32 k -> by_client r !! k = Some c -> is_Some (rec_state c) -> rec_generation c <= g ->
  rec_clock c = LIB0_MAX_SAFE_UINT ->
  exists bytes, (remove_client k g r).1 = Some bytes /\ decode_awareness bytes = Err AInvalidVarUint.
Proof.
  intros Hu Hk [st Hst] Hg Hc. unfold remove_client. rewrite Hk.
  rewrite (proj2 (Z.ltb_ge _ _) Hg), bool_decide_false by congruence. rewrite Hc.
  eexists. split; [reflexivity|]. by apply decode_clock_overflow.
Qed.

End theorems.

(** ** Witnesses *)

Definition w_state (uid : string) : list byte :=
  print (VObject [(bs "title", VBool true); (bs "user", VObject [(bs "id", VString (bs uid))])]).

Definition w_updates : list AwarenessUpdate := [Upd 7 1 (Some (w_state "a")); Upd 9 3 None].

Lemma awareness_roundtrip_witness :
  decode_awareness (encode_awareness w_updates) = Ok w_updates.
Proof. refine (awareness_roundtrip w_updates _ _ _); by_decide. Defined.

Lemma awareness_decode_wf_witness :
  Forall update_wf w_updates.
Proof. refine (proj1 (proj2 (proj2 (awareness_decode_wf (encode_awareness w_updates) w_updates _)))); by_decide. Defined.

Lemma sanitize_exact_witness :
  is_Some (sanitize_user_state (w_state "a") (bs "a") (bs "Ann") (bs "#b91c1c")) <->
  exists obj, claims (w_state "a") (bs "a") obj.
Proof. refine (proj1 (sanitize_exact (w_state "a") (bs "a") (bs "Ann") (bs "#b91c1c") _ _ _)); by_decide. Defined.

Definition w_clean : list byte :=
  default [] (sanitize_user_state (w_state "a") (bs "a") (bs "Ann") (bs "#b91c1c")).

Lemma sanitize_idempotent_witness :
  sanitize_user_state w_clean (bs "a") (bs "Ann") (bs "#b91c1c") = Some w_clean.
Proof.
  refine (sanitize_idempotent (w_state "a") (bs "a") (bs "Ann") (bs "#b91c1c") w_clean _ _ _ _); by_decide.
Defined.

Definition w_reg0 : AwarenessRegistry := (connection_generation registry_new).2.
Definition w_reg : AwarenessRegistry :=
  (apply_connection_updates 7 w_updates (bs "a") (bs "Ann") (bs "#b91c1c") 1 w_reg0).2.

Lemma w_reg_reachable : reachable w_reg.
Proof.
  eapply rtc_l; [apply step_generation|]. apply rtc_once. apply step_apply; by_decide.
Qed.

Lemma registry_invariant_witness : registry_wf w_reg /\ tracked w_reg = 1.
Proof. split; [apply (registry_invariant w_reg), w_reg_reachable|by_decide]. Defined.

Lemma presence_isolation_witness :
  by_client (apply_connection_updates 8 [Upd 8 1 None] (bs "b") (bs "Bo") (bs "#1d4ed8") 1 w_reg).2 !! 7 =
  by_client w_reg !! 7.
Proof.
  destruct (by_client w_reg !! 7) as [c|] eqn:E; [|exfalso; revert E; by_decide].
  refine (proj1 (presence_isolation w_reg _ 8 7 [Upd 8 1 None] (bs "b") (bs "Bo") (bs "#1d4ed8") 1 _
    (surjective_pairing _) _) c E _); [done|].
  revert E. vm_compute. intros [= <-]. by eexists.
Defined.

Lemma presence_broadcast_witness :
  exists changed u, last changed = Some u /\ agrees 7 1 w_reg u.
Proof.
  assert (Hw : registry_wf w_reg0) by (apply registry_wf_reachable, rtc_once, step_generation).
  pose proof (presence_broadcast w_reg0 w_reg 7 w_updates (bs "a") (bs "Ann") (bs "#b91c1c") 1
    (apply_connection_updates 7 w_updates (bs "a") (bs "Ann") (bs "#b91c1c") 1 w_reg0).1
    Hw ltac:(by_decide) ltac:(by_decide) ltac:(by_decide) ltac:(by_decide)
    ltac:(by_decide) ltac:(by_decide) ltac:(by_decide) (surjective_pairing _)) as Hb.
  destruct (apply_connection_updates 7 w_updates (bs "a") (bs "Ann") (bs "#b91c1c") 1 w_reg0).1 as [b|] eqn:E.
  - destruct Hb as (ch & u & _ & Hl & _ & _ & Ha & _). by exists ch, u.
  - exfalso. revert E. by_decide.
Defined.

Lemma snapshot_complete_witness : live_updates w_reg = [] <-> encode_all w_reg = [].
Proof. exact (proj1 (proj2 (proj2 (proj2 (snapshot_complete w_reg w_reg_reachable))))). Defined.

Definition w_rec (clock : Z) : ClientRecord := Rec clock 1 (Some (w_state "a")) 1.
Definition w_live (clock : Z) : AwarenessRegistry := Reg {[ 7 := w_rec clock ]} 2 1.

Lemma generation_ownership_witness : remove_client 7 0 (w_live 4) = (None, w_live 4).
Proof.
  refine (proj1 (proj1 (generation_ownership (w_live 4) 7 0 (w_rec 4) _ _) _)); [reflexivity|by_decide|by_decide].
Defined.

Lemma tombstone_clock_overflow_witness :
  exists bytes, (remove_client 7 2 (w_live LIB0_MAX_SAFE_UINT)).1 = Some bytes /\
    decode_awareness bytes = Err AInvalidVarUint.
Proof.
  refine (tombstone_clock_overflow (w_live LIB0_MAX_SAFE_UINT) 7 2 (w_rec LIB0_MAX_SAFE_UINT) _ eq_refl _ _ eq_refl);
    [by_decide|by eexists|by_decide].
Defined.
