(* ===== verification/EngineLimits.v ===== *)
(** * Resource limits of the collaboration engine

    [crates/collab-engine/src/limits.rs]: the constants, the [Limits] record
    and its validation, and the memory estimate of one room. *)

From stdpp Require Import base list numbers strings.
From Stdlib Require Import ZArith Lia.
From S2P Require Import Prelude.

Definition MAX_INPUT_BYTES : Z := 8 * 1024 * 1024.
Definition MAX_OUTPUT_BYTES : Z := MAX_INPUT_BYTES.
Definition MAX_LOAD_BYTES : Z := 32 * 1024 * 1024.
Definition MAX_FRAME_BYTES : Z := 48 * 1024 * 1024.
Definition MAX_TAIL_UPDATES : Z := 64.
Definition MAX_OPS : Z := 256.
Definition DEFAULT_TIMEOUT_MS : Z := 8000.
Definition MAX_CHILD_AS_BYTES : Z := 1024 * 1024 * 1024.
Definition MAX_OBSERVED_RSS_BYTES : Z := 512 * 1024 * 1024.
Definition MAX_CHILD_STACK_BYTES : Z := 8 * 1024 * 1024.
Definition MAX_PROJECT_JSON_BYTES : Z := 1024 * 1024.
Definition MAX_PROJECT_DEPTH : Z := 128.
Definition MAX_PROJECT_NODES : Z := 100000.
Definition MAX_PROJECT_STRING_BYTES : Z := MAX_PROJECT_JSON_BYTES.
Definition MIN_ROOM_MEMORY_RESERVATION_BYTES : Z := 16 * 1024 * 1024.
Definition PERSISTED_STATE_MEMORY_FACTOR : Z := 14.
Definition MIN_TIMEOUT_MS : Z := 1.
Definition MAX_TIMEOUT_MS : Z := 60000.
Definition MIN_CHILD_AS_BYTES : Z := 16 * 1024 * 1024.
Definition MIN_CHILD_STACK_BYTES : Z := 128 * 1024.

(** [u64::div_ceil]. *)
Definition div_ceil (a b : Z) : Z := a / b + (if 0 <? a mod b then 1 else 0).

Definition MAX_CHILD_CPU_SECS : Z := div_ceil MAX_TIMEOUT_MS 1000 * MAX_OPS.

Definition min_frame_bytes_for_input (decoded_bytes : Z) : Z :=
  sat_add_u64 (sat_add_u64 (sat_mul_u64 decoded_bytes 4) 2 / 3) 4096.

Record Limits := {
  max_input_bytes : Z;
  max_output_bytes : Z;
  max_load_bytes : Z;
  max_frame_bytes : Z;
  max_tail_updates : Z;
  max_ops : Z;
  max_project_json_bytes : Z;
  max_project_depth : Z;
  max_project_nodes : Z;
  max_project_string_bytes : Z;
  timeout_ms : Z;
  max_child_as_bytes : Z;
  max_observed_rss_bytes : Z;
  max_child_stack_bytes : Z;
}.

Definition limits_default : Limits := {|
  max_input_bytes := MAX_INPUT_BYTES;
  max_output_bytes := MAX_OUTPUT_BYTES;
  max_load_bytes := MAX_LOAD_BYTES;
  max_frame_bytes := MAX_FRAME_BYTES;
  max_tail_updates := MAX_TAIL_UPDATES;
  max_ops := MAX_OPS;
  max_project_json_bytes := MAX_PROJECT_JSON_BYTES;
  max_project_depth := MAX_PROJECT_DEPTH;
  max_project_nodes := MAX_PROJECT_NODES;
  max_project_string_bytes := MAX_PROJECT_STRING_BYTES;
  timeout_ms := DEFAULT_TIMEOUT_MS;
  max_child_as_bytes := MAX_CHILD_AS_BYTES;
  max_observed_rss_bytes := MAX_OBSERVED_RSS_BYTES;
  max_child_stack_bytes := MAX_CHILD_STACK_BYTES;
|}.

(** The messages of [validate]; the numbers they print are the arguments. *)
Inductive LimitsError :=
| Outside (field : string) (value lo hi : Z)
| MustEqual (output input : Z)
| RssExceedsAs (rss as_bytes : Z)
| CpuOutside (cpu : Z).

Definition cpu_budget_secs (l : Limits) : Z :=
  let per_op := Z.max (div_ceil (timeout_ms l) 1000) 1 in
  sat_mul_u64 per_op (max_ops l).

(** [if value < lo || value > hi { return Err(..) }] *)
Definition check_range (field : string) (value lo hi : Z) : result LimitsError unit :=
  if (value <? lo) || (hi <? value) then Err (Outside field value lo hi) else Ok tt.

(** [if value == 0 || value > hi { return Err(..) }] *)
Definition check_nonzero (field : string) (value hi : Z) : result LimitsError unit :=
  if (value =? 0) || (hi <? value) then Err (Outside field value 1 hi) else Ok tt.

Definition validate (l : Limits) : result LimitsError unit :=
  _ ← check_range "timeout_ms" (timeout_ms l) MIN_TIMEOUT_MS MAX_TIMEOUT_MS;
  _ ← check_nonzero "max_input_bytes" (max_input_bytes l) MAX_INPUT_BYTES;
  _ ← (if negb (max_output_bytes l =? max_input_bytes l)
       then Err (MustEqual (max_output_bytes l) (max_input_bytes l)) else Ok tt);
  _ ← check_range "max_load_bytes" (max_load_bytes l) (max_input_bytes l) MAX_LOAD_BYTES;
  let min_frame := min_frame_bytes_for_input (max_load_bytes l) in
  _ ← check_range "max_frame_bytes" (max_frame_bytes l) min_frame MAX_FRAME_BYTES;
  _ ← check_nonzero "max_tail_updates" (max_tail_updates l) MAX_TAIL_UPDATES;
  _ ← check_nonzero "max_ops" (max_ops l) MAX_OPS;
  _ ← check_nonzero "max_project_json_bytes" (max_project_json_bytes l) MAX_PROJECT_JSON_BYTES;
  _ ← check_nonzero "max_project_depth" (max_project_depth l) MAX_PROJECT_DEPTH;
  _ ← check_nonzero "max_project_nodes" (max_project_nodes l) MAX_PROJECT_NODES;
  _ ← check_nonzero "max_project_string_bytes" (max_project_string_bytes l) MAX_PROJECT_STRING_BYTES;
  _ ← check_range "max_child_as_bytes" (max_child_as_bytes l) MIN_CHILD_AS_BYTES MAX_CHILD_AS_BYTES;
  _ ← check_range "max_observed_rss_bytes" (max_observed_rss_bytes l) MIN_CHILD_AS_BYTES MAX_OBSERVED_RSS_BYTES;
  _ ← (if max_child_as_bytes l <? max_observed_rss_bytes l
       then Err (RssExceedsAs (max_observed_rss_bytes l) (max_child_as_bytes l)) else Ok tt);
  let cpu := cpu_budget_secs l in
  _ ← (if (cpu =? 0) || (MAX_CHILD_CPU_SECS <? cpu) then Err (CpuOutside cpu) else Ok tt);
  check_range "max_child_stack_bytes" (max_child_stack_bytes l) MIN_CHILD_STACK_BYTES MAX_CHILD_STACK_BYTES.

Definition room_memory_reservation_bytes (persisted_bytes : Z) : Z :=
  Z.max (sat_mul_u64 persisted_bytes PERSISTED_STATE_MEMORY_FACTOR) MIN_ROOM_MEMORY_RESERVATION_BYTES.

(** ** Facts *)

(** The fields as the Rust types bound them. *)
Definition limits_typed (l : Limits) : Prop :=
  is_u64 (max_input_bytes l) /\ is_u64 (max_output_bytes l) /\ is_u64 (max_load_bytes l) /\
  is_u64 (max_frame_bytes l) /\ is_u64 (max_tail_updates l) /\ is_u32 (max_ops l) /\
  is_u64 (max_project_json_bytes l) /\ is_u32 (max_project_depth l) /\ is_u32 (max_project_nodes l) /\
  is_u64 (max_project_string_bytes l) /\ is_u64 (timeout_ms l) /\ is_u64 (max_child_as_bytes l) /\
  is_u64 (max_observed_rss_bytes l) /\ is_u64 (max_child_stack_bytes l).

(** What a coherent configuration is. *)
Definition coherent (l : Limits) : Prop :=
  1 <= timeout_ms l <= 60000 /\
  1 <= max_input_bytes l <= MAX_INPUT_BYTES /\ max_output_bytes l = max_input_bytes l /\
  max_input_bytes l <= max_load_bytes l <= MAX_LOAD_BYTES /\
  (4 * max_load_bytes l + 2) / 3 + 4096 <= max_frame_bytes l <= MAX_FRAME_BYTES /\
  1 <= max_tail_updates l <= MAX_TAIL_UPDATES /\ 1 <= max_ops l <= MAX_OPS /\
  1 <= max_project_json_bytes l <= MAX_PROJECT_JSON_BYTES /\
  1 <= max_project_depth l <= MAX_PROJECT_DEPTH /\ 1 <= max_project_nodes l <= MAX_PROJECT_NODES /\
  1 <= max_project_string_bytes l <= MAX_PROJECT_STRING_BYTES /\
  MIN_CHILD_AS_BYTES <= max_child_as_bytes l <= MAX_CHILD_AS_BYTES /\
  MIN_CHILD_AS_BYTES <= max_observed_rss_bytes l <= MAX_OBSERVED_RSS_BYTES /\
  max_observed_rss_bytes l <= max_child_as_bytes l /\
  MIN_CHILD_STACK_BYTES <= max_child_stack_bytes l <= MAX_CHILD_STACK_BYTES.

Lemma check_range_Ok f v lo hi : check_range f v lo hi = Ok tt <-> lo <= v <= hi.
Proof.
  unfold check_range. destruct (Z.ltb_spec v lo), (Z.ltb_spec hi v); simpl; split; intros; try done; lia.
Qed.

Lemma check_nonzero_Ok f v hi : 0 <= v -> check_nonzero f v hi = Ok tt <-> 1 <= v <= hi.
Proof.
  intros. unfold check_nonzero. destruct (Z.eqb_spec v 0), (Z.ltb_spec hi v); simpl; split; intros; try done; lia.
Qed.

Lemma bind_unit_Ok {E} (m k : result E unit) : (_ ← m; k) = Ok tt <-> m = Ok tt /\ k = Ok tt.
Proof. destruct m as [[]|]; simpl; naive_solver. Qed.

Lemma if_err_Ok {E} (b : bool) (e : E) : (if b then Err e else Ok tt) = Ok tt <-> b = false.
Proof. destruct b; naive_solver. Qed.

Lemma min_frame_exact n :
  0 <= n <= MAX_LOAD_BYTES -> min_frame_bytes_for_input n = (4 * n + 2) / 3 + 4096.
Proof.
  unfold MAX_LOAD_BYTES, min_frame_bytes_for_input, sat_mul_u64, sat_add_u64, u64_max. intros.
  rewrite (Z.min_l (n * 4)), (Z.min_l (n * 4 + 2)), (Z.mul_comm n 4) by lia.
  rewrite Z.min_l; [done|]. assert ((4 * n + 2) / 3 <= 4 * n + 2) by (apply Z.div_le_upper_bound; lia). lia.
Qed.

Lemma div_ceil_spec a b : 0 <= a -> 0 < b -> a <= div_ceil a b * b < a + b.
Proof.
  intros. unfold div_ceil. pose proof (Z.div_mod a b ltac:(lia)). pose proof (Z.mod_pos_bound a b ltac:(lia)).
  destruct (Z.ltb_spec 0 (a mod b)); nia.
Qed.

(** The CPU budget of a coherent configuration never saturates and is within
    the engine's ceiling: the CPU check of [validate] cannot fail. *)
Lemma cpu_budget_bounds l :
  1 <= timeout_ms l <= 60000 -> 1 <= max_ops l <= MAX_OPS ->
  cpu_budget_secs l = div_ceil (timeout_ms l) 1000 * max_ops l /\ 1 <= cpu_budget_secs l <= MAX_CHILD_CPU_SECS.
Proof.
  intros Ht Ho. unfold MAX_OPS in Ho. pose proof (div_ceil_spec (timeout_ms l) 1000 ltac:(lia) ltac:(lia)).
  assert (Hd : 1 <= div_ceil (timeout_ms l) 1000 <= 60) by lia.
  unfold cpu_budget_secs, sat_mul_u64, u64_max. change MAX_CHILD_CPU_SECS with (60 * 256).
  rewrite Z.max_l, Z.min_l by nia. nia.
Qed.

Lemma validate_coherent l : limits_typed l -> validate l = Ok tt <-> coherent l.
Proof.
  intros (? & ? & ? & ? & ? & ? & ? & ? & ? & ? & ? & ? & ? & ?). unfold is_u64, is_u32 in *.
  unfold validate, coherent. cbv zeta. rewrite !bind_unit_Ok, !check_range_Ok, !if_err_Ok.
  rewrite !check_nonzero_Ok by tauto.
  rewrite negb_false_iff, Z.eqb_eq, Z.ltb_ge, orb_false_iff, Z.eqb_neq, Z.ltb_ge.
  change MIN_TIMEOUT_MS with 1. change MAX_TIMEOUT_MS with 60000.
  split.
  - intros (? & ? & ? & Hl & Hf & ?). rewrite min_frame_exact in Hf by lia. tauto.
  - intros (Ht & ? & ? & ? & ? & ? & Ho & ?). pose proof (cpu_budget_bounds l Ht Ho) as [_ Hc].
    rewrite min_frame_exact by lia. split_and!; try tauto; lia.
Qed.

(** ** Theorems *)

(** [validate] accepts exactly the coherent configurations, and in one every
    blob of at most [max_load_bytes] bytes fits a frame in base64 with at
    least 4,092 bytes left for the envelope, and the CPU budget is the exact product
    of per-operation seconds and operations. *)
Theorem validate_exact (l : Limits) :
  limits_typed l ->
  (validate l = Ok tt <-> coherent l) /\
  (validate l = Ok tt ->
     (forall n, 0 <= n <= max_load_bytes l -> 4 * div_ceil n 3 + 4092 <= max_frame_bytes l) /\
     cpu_budget_secs l = div_ceil (timeout_ms l) 1000 * max_ops l /\
     cpu_budget_secs l <= MAX_CHILD_CPU_SECS).
Proof.
  intros Ht. pose proof (validate_coherent l Ht) as Hv. split; [done|].
  intros Hc%Hv. destruct Hc as (Hti & _ & _ & _ & Hf & _ & Ho & _).
  destruct (cpu_budget_bounds l Hti Ho) as [Hc1 Hc2]. split_and!; [|done|apply Hc2].
  intros n Hn. pose proof (div_ceil_spec n 3 ltac:(lia) ltac:(lia)).
  assert ((4 * n + 2) / 3 <= (4 * max_load_bytes l + 2) / 3) by (apply Z.div_le_mono; lia).
  assert (4 * n <= 3 * ((4 * n + 2) / 3)) by (pose proof (Z.div_mod (4 * n + 2) 3 ltac:(lia)); pose proof (Z.mod_pos_bound (4 * n + 2) 3 ltac:(lia)); lia).
  lia.
Qed.

#[export] Instance limits_typed_dec l : Decision (limits_typed l).
Proof. unfold limits_typed, is_u64, is_u32. apply _. Defined.

Lemma validate_exact_witness : validate limits_default = Ok tt <-> coherent limits_default.
Proof. refine (proj1 (validate_exact limits_default _)). by_decide. Defined.
