(* ===== verification/Frame.v ===== *)
(** * Parent-child frames ([crates/collab-engine/src/frame.rs], [b64.rs])

    Length-prefixed frames on the pipes between the server and an engine
    process.  A pipe's read side is the bytes still to come and how the stream
    ends after them; a write side accepts bytes until it fails. *)

From stdpp Require Import base list numbers strings.
From Stdlib Require Import ZArith Lia.
From S2P Require Import Prelude EngineLimits.

(** ** Streams *)

Inductive ErrorKind := InvalidInput | UnexpectedEof | OtherError.

Record IoError := MkIoError { kind : ErrorKind; message : string }.

(** [std::io::Read] on a pipe: bytes to come, then end of file or an error. *)
Record reader := Reader { avail : list byte; ending : option IoError }.

(** [Read::read_exact]. *)
Definition read_exact_io (n : nat) (r : reader) : result IoError (list byte) * reader :=
  if (n <=? length (avail r))%nat
  then (Ok (take n (avail r)), Reader (drop n (avail r)) (ending r))
  else (Err (default (MkIoError UnexpectedEof "failed to fill whole buffer") (ending r)), Reader [] (ending r)).

(** [std::io::Write] on a pipe: what was written, and the bytes it still takes
    before it fails ([None]: any number). *)
Record writer := Writer { written : list byte; capacity : option nat; broken : IoError }.

(** [Write::write_all]. *)
Definition write_all (l : list byte) (w : writer) : result IoError unit * writer :=
  match capacity w with
  | None => (Ok tt, Writer (written w ++ l) None (broken w))
  | Some n =>
    if (length l <=? n)%nat then (Ok tt, Writer (written w ++ l) (Some (n - length l)%nat) (broken w))
    else (Err (broken w), Writer (written w ++ take n l) (Some 0%nat) (broken w))
  end.

(** [u32::to_le_bytes] and [u32::from_le_bytes]. *)
Definition to_le_bytes (z : Z) : list byte :=
  [z2b z; z2b (Z.shiftr z 8); z2b (Z.shiftr z 16); z2b (Z.shiftr z 24)].

Fixpoint from_le_bytes (l : list byte) : Z :=
  match l with
  | [] => 0
  | b :: t => b2z b + 256 * from_le_bytes t
  end.

(** ** Frames *)

Definition write_frame (payload : list byte) (max : Z) (w : writer) : result IoError unit * writer :=
  if max <? len payload then (Err (MkIoError InvalidInput "frame exceeds bound"), w)
  else if u32_max <? len payload then (Err (MkIoError InvalidInput "frame exceeds u32"), w)
  else
    match write_all (to_le_bytes (len payload)) w with
    | (Err e, w) => (Err e, w)
    | (Ok _, w) => write_all payload w
    end.

Inductive FrameError :=
| FTooLarge (len max : Z)
| FIo (message : string).

Definition read_frame (max : Z) (r : reader) : result FrameError (option (list byte)) * reader :=
  match read_exact_io 4 r with
  | (Err e, r) =>
    match kind e with
    | UnexpectedEof => (Ok None, r)
    | _ => (Err (FIo (message e)), r)
    end
  | (Ok hdr, r) =>
    let n := from_le_bytes hdr in
    if max <? n then (Err (FTooLarge n max), r)
    else
      match read_exact_io (Z.to_nat n) r with
      | (Err e, r) => (Err (FIo (message e)), r)
      | (Ok buf, r) => (Ok (Some buf), r)
      end
  end.

(** The statuses [FrameError::into_status] gives; the details are the
    formatted arguments. *)
Inductive EngineStatus :=
| ResourceLimitFrame (len max : Z)
| WorkerFailureProtocol (detail : string).

Definition into_status (e : FrameError) : EngineStatus :=
  match e with
  | FTooLarge len max => ResourceLimitFrame len max
  | FIo detail => WorkerFailureProtocol detail
  end.

(** [decoded_len_estimate]. *)
Definition decoded_len_estimate (b64_chars : Z) : Z := sat_mul_u64 b64_chars 3 / 4.

(** Writing and reading several frames. *)
Fixpoint write_frames (ps : list (list byte)) (max : Z) (w : writer) : result IoError unit * writer :=
  match ps with
  | [] => (Ok tt, w)
  | p :: ps => match write_frame p max w with (Ok _, w) => write_frames ps max w | (Err e, w) => (Err e, w) end
  end.

Fixpoint read_frames (n : nat) (max : Z) (r : reader) : result FrameError (list (option (list byte))) * reader :=
  match n with
  | O => (Ok [], r)
  | S n =>
    match read_frame max r with
    | (Ok f, r) => match read_frames n max r with (Ok fs, r) => (Ok (f :: fs), r) | (Err e, r) => (Err e, r) end
    | (Err e, r) => (Err e, r)
    end
  end.

(** ** Facts *)

Lemma from_to_le_bytes z : 0 <= z <= u32_max -> from_le_bytes (to_le_bytes z) = z.
Proof.
  unfold u32_max. intros Hz. unfold to_le_bytes, from_le_bytes. rewrite !b2z_z2b. unfold wrap.
  rewrite !Z.shiftr_div_pow2 by lia. change (2 ^ 8) with 256 in *. change (2 ^ 16) with (256 * 256).
  change (2 ^ 24) with (256 * 256 * 256). rewrite <- !Z.div_div by lia.
  pose proof (Z.div_mod z 256 ltac:(lia)). pose proof (Z.div_mod (z / 256) 256 ltac:(lia)).
  pose proof (Z.div_mod (z / 256 / 256) 256 ltac:(lia)).
  assert (0 <= z / 256 / 256 / 256 < 256).
  { rewrite !Z.div_div by lia. split; [apply Z.div_pos; lia|apply Z.div_lt_upper_bound; lia]. }
  rewrite (Z.mod_small (z / 256 / 256 / 256)) by lia. lia.
Qed.

Lemma read_exact_io_app l r e :
  read_exact_io (length l) (Reader (l ++ r) e) = (Ok l, Reader r e).
Proof.
  unfold read_exact_io; simpl. rewrite length_app, (proj2 (Nat.leb_le _ _)) by lia.
  by rewrite take_app_length, drop_app_length.
Qed.

(** The bytes of a frame. *)
Definition engine_frame_bytes (p : list byte) : list byte := to_le_bytes (len p) ++ p.

Lemma read_frame_app max p r e :
  len p <= max -> len p <= u32_max ->
  read_frame max (Reader (engine_frame_bytes p ++ r) e) = (Ok (Some p), Reader r e).
Proof.
  intros Hm Hu. unfold read_frame, engine_frame_bytes. rewrite <- app_assoc.
  change 4%nat with (length (to_le_bytes (len p))). rewrite read_exact_io_app.
  rewrite from_to_le_bytes by (pose proof (len_nonneg p); lia). rewrite (proj2 (Z.ltb_ge _ _)) by done.
  unfold len. rewrite Nat2Z.id. by rewrite read_exact_io_app.
Qed.

Lemma write_frame_Ok p max w w' :
  write_frame p max w = (Ok tt, w') ->
  len p <= max /\ len p <= u32_max /\ written w' = written w ++ engine_frame_bytes p.
Proof.
  unfold write_frame. destruct (Z.ltb_spec max (len p)); [done|]. destruct (Z.ltb_spec u32_max (len p)); [done|].
  unfold write_all at 1. destruct (capacity w) as [n|].
  - destruct (_ <=? _)%nat; [|done]. unfold write_all. cbn [capacity].
    destruct (_ <=? _)%nat; [|done]. intros [= <-]. cbn [written]. by rewrite <- app_assoc.
  - unfold write_all. cbn [capacity]. intros [= <-]. cbn [written]. by rewrite <- app_assoc.
Qed.

(** ** Theorems *)

(** Whatever a writer accepted as frames, the peer reads back: if writing
    [ps] succeeds on a fresh pipe, a reader of the written bytes gets exactly
    [ps] in order, and then a clean end of stream. *)
Theorem frames_roundtrip (ps : list (list byte)) (max : Z) (w w' : writer) :
  written w = [] -> write_frames ps max w = (Ok tt, w') ->
  read_frames (length ps + 1) max (Reader (written w') None) = (Ok ((Some <$> ps) ++ [None]), Reader [] None).
Proof.
  assert (Hg : forall w, write_frames ps max w = (Ok tt, w') ->
    exists rest, written w' = written w ++ rest /\
      read_frames (length ps + 1) max (Reader rest None) = (Ok ((Some <$> ps) ++ [None]), Reader [] None)).
  { induction ps as [|p ps IH]; intros w0; cbn [write_frames].
    - intros [= <-]. exists []. by rewrite app_nil_r.
    - destruct (write_frame p max w0) as [[[]|] w1] eqn:E; [|done].
      intros (rest & Hw & Hr)%IH. apply write_frame_Ok in E as (Hm & Hu & Hw1).
      exists (engine_frame_bytes p ++ rest). split; [by rewrite Hw, Hw1, app_assoc|].
      cbn [length Nat.add read_frames]. rewrite read_frame_app by done. by rewrite Hr. }
  intros Hn H. destruct (Hg w H) as (rest & -> & Hr). by rewrite Hn.
Qed.

(** A stream that ends inside a frame header is reported as a clean end: a
    reader cannot tell it from the end of the conversation, although up to
    three header bytes were lost.  A stream that ends inside a payload is an
    error. *)
Theorem truncated_frames (l : list byte) (max : Z) :
  ((length l < 4)%nat -> read_frame max (Reader l None) = (Ok None, Reader [] None)) /\
  (forall p k, len p <= max -> len p <= u32_max -> (4 <= k < 4 + length p)%nat ->
     exists m, read_frame max (Reader (take k (engine_frame_bytes p)) None) = (Err (FIo m), Reader [] None)).
Proof.
  split.
  - intros Hl. unfold read_frame, read_exact_io. cbn [avail]. by rewrite (proj2 (Nat.leb_gt _ _)).
  - intros p k Hm Hu Hk. eexists. unfold read_frame, engine_frame_bytes.
    rewrite take_app_ge by (simpl; lia). change (length (to_le_bytes (len p))) with 4%nat.
    change 4%nat with (length (to_le_bytes (len p))) at 1. rewrite read_exact_io_app.
    rewrite from_to_le_bytes by (pose proof (len_nonneg p); lia). rewrite (proj2 (Z.ltb_ge _ _)) by done.
    unfold read_exact_io. cbn [avail ending default]. rewrite length_take.
    rewrite (proj2 (Nat.leb_gt _ _)); [reflexivity|]. unfold len. lia.
Qed.

Definition w_pipe : writer := Writer [] None (MkIoError OtherError "broken pipe").

Lemma frames_roundtrip_witness :
  read_frames 3 16 (Reader (written (write_frames [bs "abc"; []] 16 w_pipe).2) None) =
  (Ok [Some (bs "abc"); Some []; None], Reader [] None).
Proof. exact (frames_roundtrip [bs "abc"; []] 16 w_pipe _ eq_refl eq_refl). Defined.

Lemma truncated_frames_witness : read_frame 16 (Reader [Byte.x03; Byte.x00] None) = (Ok None, Reader [] None).
Proof. refine (proj1 (truncated_frames [Byte.x03; Byte.x00] 16) _). simpl. lia. Defined.
