(* ===== verification/Admission.v ===== *)
(** * Memory admission of rooms ([src/collab/admission.rs])

    The ledger that holds the memory estimates of rooms between admission and
    their first load.  Its lock makes every operation atomic, so concurrent
    use is an interleaving of the operations. *)

From stdpp Require Import base list numbers relations.
From Stdlib Require Import ZArith Lia.
From S2P Require Import Prelude EngineLimits.

Record MemoryLedger := Ledger { budget_bytes : Z; outstanding_bytes : Z }.

Definition ledger_new (budget : Z) : MemoryLedger := Ledger budget 0.

(** [try_reserve_against]; [live_rss] is what the closure reads under the lock.
    The returned reservation is its bytes. *)
Definition try_reserve_against (persisted_bytes live_rss : Z) (l : MemoryLedger) : option Z * MemoryLedger :=
  let bytes := room_memory_reservation_bytes persisted_bytes in
  let committed := sat_add_u64 live_rss (outstanding_bytes l) in
  if budget_bytes l <? sat_add_u64 committed bytes then (None, l)
  else (Some bytes, Ledger (budget_bytes l) (sat_add_u64 (outstanding_bytes l) bytes)).

(** [Drop for MemoryReservation]. *)
Definition drop_reservation (bytes : Z) (l : MemoryLedger) : MemoryLedger :=
  Ledger (budget_bytes l) (sat_sub_u64 (outstanding_bytes l) bytes).

(** ** The ledger and the reservations that are alive *)

Inductive ledger_step : MemoryLedger * list Z -> MemoryLedger * list Z -> Prop :=
| step_reserve l l' rs persisted rss bytes :
    is_u64 persisted -> is_u64 rss ->
    try_reserve_against persisted rss l = (Some bytes, l') -> ledger_step (l, rs) (l', bytes :: rs)
| step_refuse l l' rs persisted rss :
    is_u64 persisted -> is_u64 rss ->
    try_reserve_against persisted rss l = (None, l') -> ledger_step (l, rs) (l', rs)
| step_drop l rs1 bytes rs2 :
    ledger_step (l, rs1 ++ bytes :: rs2) (drop_reservation bytes l, rs1 ++ rs2).

Definition sum (rs : list Z) : Z := foldr Z.add 0 rs.

Lemma sum_app rs ss : sum (rs ++ ss) = sum rs + sum ss.
Proof. induction rs as [|r rs IH]; simpl; [done|]. unfold sum in *. lia. Qed.

Lemma reservation_bounds n : is_u64 n -> MIN_ROOM_MEMORY_RESERVATION_BYTES <= room_memory_reservation_bytes n <= u64_max.
Proof.
  unfold is_u64, room_memory_reservation_bytes, sat_mul_u64, MIN_ROOM_MEMORY_RESERVATION_BYTES, u64_max. lia.
Qed.

(** The ledger's promise to a hub. *)
Definition ledger_ok (budget : Z) (s : MemoryLedger * list Z) : Prop :=
  budget_bytes s.1 = budget /\ outstanding_bytes s.1 = sum s.2 /\ sum s.2 <= budget /\
  Forall (fun b => MIN_ROOM_MEMORY_RESERVATION_BYTES <= b) s.2.

Lemma sum_nonneg rs : Forall (fun b => MIN_ROOM_MEMORY_RESERVATION_BYTES <= b) rs ->
  MIN_ROOM_MEMORY_RESERVATION_BYTES * len rs <= sum rs.
Proof.
  unfold MIN_ROOM_MEMORY_RESERVATION_BYTES. induction 1 as [|b rs Hb _ IH]; [done|]. rewrite len_cons.
  change (sum (b :: rs)) with (b + sum rs). lia.
Qed.

Lemma ledger_ok_step budget s s' :
  0 <= budget < u64_max -> ledger_step s s' -> ledger_ok budget s -> ledger_ok budget s'.
Proof.
  intros Hb Hs (Hbud & Hout & Hle & Hf). destruct Hs as [l l' rs p rss b Hp Hr Ht|l l' rs p rss Hp Hr Ht|l rs1 b rs2].
  - unfold try_reserve_against in Ht. cbv zeta in Ht. case_hyp Ht; [done|]. injection Ht as <- <-. bool_to_prop.
    pose proof (reservation_bounds p Hp) as Hbd. unfold MIN_ROOM_MEMORY_RESERVATION_BYTES in *.
    unfold ledger_ok; simpl in *. unfold sat_add_u64, is_u64 in *.
    change (sum (room_memory_reservation_bytes p :: rs)) with (room_memory_reservation_bytes p + sum rs).
    split_and!; [done|lia|lia|]. constructor; [unfold MIN_ROOM_MEMORY_RESERVATION_BYTES; lia|done].
  - unfold try_reserve_against in Ht. cbv zeta in Ht. case_hyp Ht; [|done]. injection Ht as <-. done.
  - unfold ledger_ok in *; simpl in *. rewrite sum_app in *. change (sum (b :: rs2)) with (b + sum rs2) in *.
    apply Forall_app in Hf as [Hf1 Hf2]. inversion Hf2 as [|?? Hbb Hf3]; subst.
    pose proof (sum_nonneg _ Hf1). pose proof (sum_nonneg _ Hf3). pose proof (len_nonneg rs1). pose proof (len_nonneg rs2).
    unfold sat_sub_u64, MIN_ROOM_MEMORY_RESERVATION_BYTES in *.
    split_and!; [done|lia|lia|]. by apply Forall_app.
Qed.

(** Over every interleaving of admissions, refusals and drops, the
    outstanding bytes are exactly the estimates of the rooms still waiting for
    their first load and never exceed the budget, so at most budget / 16 MiB
    rooms wait at once and the ledger returns to zero when all are gone.  The
    budget must be below the largest 64-bit number, where saturation would
    hide an overrun. *)
Theorem ledger_exact (budget : Z) (s : MemoryLedger * list Z) :
  0 <= budget < u64_max -> rtc ledger_step (ledger_new budget, []) s ->
  outstanding_bytes s.1 = sum s.2 /\ outstanding_bytes s.1 <= budget /\
  MIN_ROOM_MEMORY_RESERVATION_BYTES * len s.2 <= budget /\
  (s.2 = [] -> outstanding_bytes s.1 = 0).
Proof.
  intros Hb Hr. assert (ledger_ok budget s) as (Hbud & Hout & Hle & Hf).
  { revert Hr. apply (rtc_ind_r (ledger_ok budget)).
    - unfold ledger_ok; simpl. split_and!; [done|done|lia|constructor].
    - intros s1 s2 _ Hs. by apply ledger_ok_step. }
  pose proof (sum_nonneg _ Hf). split_and!; [done|lia|lia|]. intros E. by rewrite Hout, E.
Qed.

(** A room is admitted exactly when live memory, outstanding estimates and
    its own estimate fit the budget together; a refusal records nothing. *)
Theorem admission_exact (persisted rss : Z) (l : MemoryLedger) :
  is_u64 persisted -> is_u64 rss -> is_u64 (outstanding_bytes l) -> 0 <= budget_bytes l < u64_max ->
  let bytes := room_memory_reservation_bytes persisted in
  if bool_decide (rss + outstanding_bytes l + bytes <= budget_bytes l)
  then try_reserve_against persisted rss l = (Some bytes, Ledger (budget_bytes l) (outstanding_bytes l + bytes))
  else try_reserve_against persisted rss l = (None, l).
Proof.
  intros Hp Hr Ho Hb bytes. pose proof (reservation_bounds persisted Hp) as Hbd.
  unfold try_reserve_against. cbv zeta. fold bytes in Hbd |- *.
  unfold sat_add_u64, is_u64, MIN_ROOM_MEMORY_RESERVATION_BYTES in *.
  case_bool_decide.
  - rewrite (proj2 (Z.ltb_ge _ _)) by lia. by rewrite Z.min_l by lia.
  - by rewrite (proj2 (Z.ltb_lt _ _)) by lia.
Qed.

Definition w_ledger : MemoryLedger := (try_reserve_against 0 0 (ledger_new 33554432)).2.

Lemma ledger_exact_witness : outstanding_bytes w_ledger <= 33554432.
Proof.
  assert (Hr : rtc ledger_step (ledger_new 33554432, []) (w_ledger, [16777216])).
  { apply rtc_once, (step_reserve _ _ _ 0 0); [split; vm_compute; discriminate..|vm_compute; reflexivity]. }
  exact (proj1 (proj2 (ledger_exact 33554432 (w_ledger, [16777216])
    ltac:(vm_compute; split; [discriminate|reflexivity]) Hr))).
Defined.

Lemma admission_exact_witness :
  try_reserve_against 0 33554432 (ledger_new 33554432) = (None, ledger_new 33554432).
Proof.
  exact (admission_exact 0 33554432 (ledger_new 33554432) ltac:(vm_compute; split; discriminate)
    ltac:(vm_compute; split; discriminate) ltac:(vm_compute; split; discriminate)
    ltac:(vm_compute; split; [discriminate|reflexivity])).
Defined.
