(* ===== verification/Zip.v ===== *)
(** * Zip archives ([src/export_zip.rs], [src/documents/import_zip.rs])

    The writer produces stored archives chunk by chunk; the reader takes
    archives of any origin, walks the central directory and checks every local
    header against it.  CRC and DEFLATE are libraries: parameters. *)

From stdpp Require Import base list numbers strings.
From Stdlib Require Import ZArith Lia.
From S2P Require Import Prelude Text TextFacts Frame.

(** ** Names *)

Definition backslash : byte := Byte.x5c.
Definition slash : byte := Byte.x2f.
Definition nul : byte := Byte.x00.

Definition plain_part (part : str) : bool :=
  negb (bool_decide (part = [])) && negb (bool_decide (part = bs ".")) && negb (bool_decide (part = bs "..")).

Definition normalize_slashes (raw : str) : str := remove_byte nul (replace_byte backslash slash raw).

Definition zip_entry_name (raw : str) : str :=
  let joined := join [slash] (filter (fun p => plain_part p = true) (split slash (normalize_slashes raw))) in
  if bool_decide (joined = []) then bs "file" else joined.

Definition zip_safe_name (raw : str) : str :=
  let entry := zip_entry_name raw in
  let cleaned := trim (remove_byte nul (default (bs "file") (last (split slash entry)))) in
  if plain_part cleaned then cleaned else bs "file".

Definition title_from_file_name (name : str) : str :=
  let base := zip_safe_name name in
  let stem :=
    match rsplit_once Byte.x2e base with
    | Some (stem, ext) => if in_range 1 12 (len (chars ext)) then stem else base
    | None => base
    end in
  let stem := trim stem in
  if bool_decide (stem = []) then bs "untitled" else stem.

(** ** Little-endian fields *)

Fixpoint le_bytes (n : nat) (z : Z) : list byte :=
  match n with
  | O => []
  | S n => z2b z :: le_bytes n (Z.shiftr z 8)
  end.

Definition put_u16 (z : Z) : list byte := le_bytes 2 z.
Definition put_u32 (z : Z) : list byte := le_bytes 4 z.

Definition LOCAL_SIG : Z := 0x04034b50.
Definition DESCRIPTOR_SIG : Z := 0x08074b50.
Definition CENTRAL_SIG : Z := 0x02014b50.
Definition EOCD_SIG : Z := 0x06054b50.
Definition VERSION : Z := 20.
Definition FLAG_UTF8 : Z := 0x0800.
Definition FLAG_DATA_DESCRIPTOR : Z := 0x0008.
Definition FLAGS : Z := Z.lor FLAG_UTF8 FLAG_DATA_DESCRIPTOR.
Definition ZIP32_MAX : Z := 0xffffffff.
Definition MAX_ENTRIES : Z := 0xffff.

(** ** Libraries *)

(** [flate2::Crc]: its state, [new], [update] and [sum]; the sum is a [u32]. *)
Class Crc := {
  crc : Type;
  crc_new : crc;
  crc_update : crc -> list byte -> crc;
  crc_sum : crc -> Z;
}.

(** [flate2::read::DeflateDecoder]: the bytes it yields, and whether the
    stream then ends without an error. *)
Class Deflate := { inflate : list byte -> list byte * bool }.

(** ** The writer *)

Inductive ZipError := Overflow | EntryOpen | NoEntry.

Record CentralEntry := Central {
  e_flags : Z;
  e_name : list byte;
  e_crc : Z;
  e_size : Z;
  e_offset : Z;
}.

Definition to_u32 (v : Z) : result ZipError Z := if ZIP32_MAX <? v then Err Overflow else Ok v.

(** [u16::try_from]. *)
Definition to_u16 (v : Z) : result ZipError Z := if 0xffff <? v then Err Overflow else Ok v.

Definition local_header (flags crc size name_len : Z) : list byte :=
  put_u32 LOCAL_SIG ++ put_u16 VERSION ++ put_u16 flags ++ put_u16 0 ++ put_u16 0 ++ put_u16 0 ++
  put_u32 crc ++ put_u32 size ++ put_u32 size ++ put_u16 name_len ++ put_u16 0.

Definition central_record (e : CentralEntry) : list byte :=
  put_u32 CENTRAL_SIG ++ put_u16 VERSION ++ put_u16 VERSION ++ put_u16 (e_flags e) ++ put_u16 0 ++ put_u16 0 ++
  put_u16 0 ++ put_u32 (e_crc e) ++ put_u32 (e_size e) ++ put_u32 (e_size e) ++ put_u16 (len (e_name e)) ++
  put_u16 0 ++ put_u16 0 ++ put_u16 0 ++ put_u16 0 ++ put_u32 0 ++ put_u32 (e_offset e) ++ e_name e.

Definition eocd_record (count central_len central_start : Z) : list byte :=
  put_u32 EOCD_SIG ++ put_u16 0 ++ put_u16 0 ++ put_u16 count ++ put_u16 count ++
  put_u32 central_len ++ put_u32 central_start ++ put_u16 0.

Section writer.
Context {C : Crc}.

Record OpenEntry := Opened { o_name : list byte; o_offset : Z; o_crc : crc; o_size : Z }.

Record ZipStream := Zip { z_offset : Z; z_entries : list CentralEntry; z_open : option OpenEntry }.

Definition zip_new : ZipStream := Zip 0 [] None.

Definition crc32 (data : list byte) : Z := crc_sum (crc_update crc_new data).

(** The checks that [begin_entry] and [whole_entry] start with. *)
Definition entry_name (raw_name : str) (z : ZipStream) : result ZipError (list byte * Z) :=
  match z_open z with
  | Some _ => Err EntryOpen
  | None =>
    if MAX_ENTRIES <=? len (z_entries z) then Err Overflow
    else
      let name := zip_entry_name raw_name in
      name_len ← to_u16 (len name);
      Ok (name, name_len)
  end.

Definition begin_entry (raw_name : str) (z : ZipStream) : result ZipError (list byte) * ZipStream :=
  match '(name, name_len) ← entry_name raw_name z; offset ← to_u32 (z_offset z); Ok (name, name_len) with
  | Err e => (Err e, z)
  | Ok (name, name_len) =>
    let out := local_header FLAGS 0 0 name_len ++ name in
    (Ok out, Zip (z_offset z + len out) (z_entries z) (Some (Opened name (z_offset z) crc_new 0)))
  end.

Definition whole_entry (raw_name : str) (data : list byte) (z : ZipStream) : result ZipError (list byte) * ZipStream :=
  match
    '(name, name_len) ← entry_name raw_name z;
    offset ← to_u32 (z_offset z);
    size ← to_u32 (len data);
    let out := local_header FLAG_UTF8 (crc32 data) size name_len ++ name ++ data in
    _ ← to_u32 (z_offset z + len out);
    Ok (out, Central FLAG_UTF8 name (crc32 data) size offset)
  with
  | Err e => (Err e, z)
  | Ok (out, e) => (Ok out, Zip (z_offset z + len out) (z_entries z ++ [e]) None)
  end.

(** The entry's size has grown also when the check refuses it. *)
Definition entry_data (data : list byte) (z : ZipStream) : result ZipError unit * ZipStream :=
  match z_open z with
  | None => (Err NoEntry, z)
  | Some o =>
    let o := Opened (o_name o) (o_offset o) (crc_update (o_crc o) data) (o_size o + len data) in
    match to_u32 (o_size o) with
    | Err e => (Err e, Zip (z_offset z) (z_entries z) (Some o))
    | Ok _ => (Ok tt, Zip (z_offset z + len data) (z_entries z) (Some o))
    end
  end.

Definition end_entry (z : ZipStream) : result ZipError (list byte) * ZipStream :=
  match z_open z with
  | None => (Err NoEntry, z)
  | Some o =>
    match size ← to_u32 (o_size o); offset ← to_u32 (o_offset o); Ok (size, offset) with
    | Err e => (Err e, Zip (z_offset z) (z_entries z) None)
    | Ok (size, offset) =>
      let sum := crc_sum (o_crc o) in
      let out := put_u32 DESCRIPTOR_SIG ++ put_u32 sum ++ put_u32 size ++ put_u32 size in
      (Ok out, Zip (z_offset z + len out) (z_entries z ++ [Central FLAGS (o_name o) sum size offset]) None)
    end
  end.

Definition finish (z : ZipStream) : result ZipError (list byte) :=
  match z_open z with
  | Some _ => Err EntryOpen
  | None =>
    central_start ← to_u32 (z_offset z);
    let out := concat (central_record <$> z_entries z) in
    central_len ← to_u32 (len out);
    _ ← to_u32 (z_offset z + central_len);
    Ok (out ++ eocd_record (wrap 16 (len (z_entries z))) central_len central_start)
  end.

End writer.

(** ** The reader *)

Definition ZIP_MAX_ENTRIES : Z := 10000.
Definition ZIP_MAX_UNCOMPRESSED_BYTES : Z := 200 * 1024 * 1024.
Definition LOCAL_SIZE : Z := 30.
Definition CENTRAL_SIZE : Z := 46.
Definition EOCD_SIZE : Z := 22.
Definition ZIP64_EXTRA_ID : Z := 1.
Definition MAX_EOCD_COMMENT : Z := 65535.

Record ZipEntry := Entry { zname : str; zdata : list byte }.

Inductive ZipImportError :=
| Empty | Invalid | TooManyEntries | TooLarge | Traversal | Zip64 | Method | DataDescriptor | Mismatch.

#[export] Instance ZipImportError_eq_dec : EqDecision ZipImportError.
Proof. solve_decision. Defined.
#[export] Instance ZipEntry_eq_dec : EqDecision ZipEntry.
Proof. solve_decision. Defined.

(** [buf.get(from..to)], with the check of [slice] for [from > to]. *)
Definition slice (buf : list byte) (from to : Z) : result ZipImportError (list byte) :=
  if to <? from then Err Invalid
  else if len buf <? to then Err Invalid
  else Ok (take (Z.to_nat (to - from)) (drop (Z.to_nat from) buf)).

Definition u16_at (buf : list byte) (at_ : Z) : result ZipImportError Z :=
  from_le_bytes <$> slice buf at_ (at_ + 2).
Definition u32_at (buf : list byte) (at_ : Z) : result ZipImportError Z :=
  from_le_bytes <$> slice buf at_ (at_ + 4).

(** The positions are tried from [last] down; [n] of them are left. *)
Fixpoint find_sig (buf : list byte) (n : nat) (at_ : Z) : result ZipImportError Z :=
  match n with
  | O => Err Invalid
  | S n => if bool_decide (u32_at buf at_ = Ok EOCD_SIG) then Ok at_ else find_sig buf n (at_ - 1)
  end.

Definition find_eocd (buf : list byte) : result ZipImportError Z :=
  let last := len buf - EOCD_SIZE in
  let first := Z.max 0 (last - MAX_EOCD_COMMENT) in
  find_sig buf (Z.to_nat (last - first + 1)) last.

Definition assert_supported (method compressed size : Z) : result ZipImportError unit :=
  if negb (method =? 0) && negb (method =? 8) then Err Method
  else if (compressed =? ZIP32_MAX) || (size =? ZIP32_MAX) then Err Zip64
  else Ok tt.

(** The extra fields from [at] on; every field takes at least four bytes. *)
Fixpoint zip64_loop (fuel : nat) (extra : list byte) : result ZipImportError unit :=
  match fuel, extra with
  | S n, b0 :: b1 :: b2 :: b3 :: rest =>
    if from_le_bytes [b0; b1] =? ZIP64_EXTRA_ID then Err Zip64
    else zip64_loop n (drop (Z.to_nat (from_le_bytes [b2; b3])) rest)
  | _, _ => Ok tt
  end.

Definition assert_no_zip64_extra (extra : list byte) : result ZipImportError unit := zip64_loop (length extra) extra.

Definition is_ascii_alphabetic (b : byte) : bool := in_range 65 90 (b2z b) || in_range 97 122 (b2z b).

Definition has_drive (s : str) : bool :=
  match s with a :: b :: _ => is_ascii_alphabetic a && bool_decide (b = Byte.x3a) | _ => false end.

Definition assert_no_traversal (raw : str) : result ZipImportError unit :=
  let norm := normalize_slashes raw in
  if starts_with slash norm || has_drive norm then Err Traversal
  else if bool_decide (bs ".." ∈ split slash norm) then Err Traversal
  else Ok tt.

(** [local_payload]; [entry] is the name, method and sizes of the central
    record. *)
Definition local_payload (buf : list byte) (at_ : Z) (name : list byte) (method compressed size : Z)
  : result ZipImportError (list byte) :=
  if len buf <? at_ + LOCAL_SIZE then Err Invalid
  else
  sig ← u32_at buf at_;
  if negb (sig =? LOCAL_SIG) then Err Invalid
  else
  flags ← u16_at buf (at_ + 6);
  method' ← u16_at buf (at_ + 8);
  compressed' ← u32_at buf (at_ + 18);
  size' ← u32_at buf (at_ + 22);
  _ ← assert_supported method' compressed' size';
  if negb (Z.land flags FLAG_DATA_DESCRIPTOR =? 0) && (compressed' =? 0) then Err DataDescriptor
  else
  let name_at := at_ + LOCAL_SIZE in
  name_len ← u16_at buf (at_ + 26);
  let extra_at := name_at + name_len in
  extra_len ← u16_at buf (at_ + 28);
  let data_at := extra_at + extra_len in
  extra ← slice buf extra_at data_at;
  _ ← assert_no_zip64_extra extra;
  if negb (method' =? method) || negb (compressed' =? compressed) || negb (size' =? size) then Err Mismatch
  else
  name' ← slice buf name_at extra_at;
  if negb (bool_decide (name' = name)) then Err Mismatch
  else slice buf data_at (data_at + (if method' =? 0 then size' else compressed')).

Section reader.
Context {D : Deflate}.

(** [DeflateDecoder::new(payload).take(limit + 1).read_to_end]: an error of the
    decoder shows when it comes before the limit is reached. *)
Definition inflate_bounded (payload : list byte) (limit : Z) : result ZipImportError (list byte) :=
  let '(out, ok) := inflate payload in
  if sat_add_u64 limit 1 <=? len out then
    if limit <? sat_add_u64 limit 1 then Err TooLarge else Ok (take (Z.to_nat limit) out)
  else if ok then Ok out else Err Invalid.

Record walk := Walk { w_at : Z; w_total : Z; w_files : list ZipEntry }.

(** One central record. *)
Definition read_entry (buf : list byte) (max_total : Z) (select : str -> bool) (w : walk) : result ZipImportError walk :=
  let at_ := w_at w in
  if len buf <? at_ + CENTRAL_SIZE then Err Invalid
  else
  sig ← u32_at buf at_;
  if negb (sig =? CENTRAL_SIG) then Err Invalid
  else
  method ← u16_at buf (at_ + 10);
  compressed ← u32_at buf (at_ + 20);
  size ← u32_at buf (at_ + 24);
  _ ← assert_supported method compressed size;
  let name_at := at_ + CENTRAL_SIZE in
  name_len ← u16_at buf (at_ + 28);
  let extra_at := name_at + name_len in
  extra_len ← u16_at buf (at_ + 30);
  let comment_at := extra_at + extra_len in
  raw_name ← slice buf name_at extra_at;
  let name := from_utf8_lossy raw_name in
  _ ← assert_no_traversal name;
  extra ← slice buf extra_at comment_at;
  _ ← assert_no_zip64_extra extra;
  local ← u32_at buf (at_ + 42);
  payload ← local_payload buf local raw_name method compressed size;
  w' ← (if negb (ends_with slash name) && select (zip_entry_name name) then
          let remaining := sat_sub_u64 max_total (w_total w) in
          data ← (if method =? 0 then if remaining <? len payload then Err TooLarge else Ok payload
                  else inflate_bounded payload remaining);
          Ok (Walk at_ (w_total w + len data) (w_files w ++ [Entry (zip_entry_name name) data]))
        else Ok w);
  comment_len ← u16_at buf (at_ + 32);
  Ok (Walk (comment_at + comment_len) (w_total w') (w_files w')).

Fixpoint read_entries_loop (n : nat) (buf : list byte) (max_total : Z) (select : str -> bool) (w : walk)
  : result ZipImportError walk :=
  match n with
  | O => Ok w
  | S n => w' ← read_entry buf max_total select w; read_entries_loop n buf max_total select w'
  end.

Definition unzip_bounded_select (buf : list byte) (max_total : Z) (select : str -> bool)
  : result ZipImportError (list ZipEntry) :=
  if bool_decide (buf = []) then Err Empty
  else if len buf <? EOCD_SIZE then Err Invalid
  else
  eocd ← find_eocd buf;
  entries ← u16_at buf (eocd + 10);
  if ZIP_MAX_ENTRIES <? entries then Err TooManyEntries
  else
  at_ ← u32_at buf (eocd + 16);
  if (entries =? 0xffff) || (at_ =? ZIP32_MAX) then Err Zip64
  else
  w ← read_entries_loop (Z.to_nat entries) buf max_total select (Walk at_ 0 []);
  Ok (w_files w).

Definition unzip_bounded_with_limit (buf : list byte) (max_total : Z) : result ZipImportError (list ZipEntry) :=
  unzip_bounded_select buf max_total (fun _ => true).

Definition unzip_bounded (buf : list byte) : result ZipImportError (list ZipEntry) :=
  unzip_bounded_with_limit buf ZIP_MAX_UNCOMPRESSED_BYTES.

End reader.
