(* ===== verification/ZipFacts.v ===== *)
(** * Facts on zip archives: names, text and header fields *)

From stdpp Require Import base list numbers strings gmap.
From Stdlib Require Import ZArith Lia Wf_nat.
From S2P Require Import Prelude Text TextFacts Frame Zip.

(** ** Entry names *)

Definition entry_parts (raw : str) : list str := filter (fun p => plain_part p = true) (split slash (normalize_slashes raw)).

(** What an extracted entry's name is made of. *)
Definition safe_name (s : str) : Prop :=
  s <> [] /\ (nul ∉ s) /\ (backslash ∉ s) /\ Forall (fun p => plain_part p = true) (split slash s).

Lemma normalize_clean raw : (nul ∉ normalize_slashes raw) /\ (backslash ∉ normalize_slashes raw).
Proof.
  unfold normalize_slashes, remove_byte. split; rewrite list_elem_of_filter; [naive_solver|].
  intros [_ (c & E & _)%list_elem_of_fmap]. case_bool_decide; [|congruence]. unfold backslash, slash in *. congruence.
Qed.

Lemma normalize_id s : nul ∉ s -> backslash ∉ s -> normalize_slashes s = s.
Proof.
  intros Hn Hb. unfold normalize_slashes, remove_byte, replace_byte.
  rewrite fmap_same.
  - apply filter_all, Forall_forall. intros x Hx ->. done.
  - intros x Hx. rewrite bool_decide_false; [done|]. by intros ->.
Qed.

Lemma entry_parts_clean raw p b : p ∈ entry_parts raw -> b ∈ p -> b <> slash /\ b <> nul /\ b <> backslash.
Proof.
  unfold entry_parts. rewrite list_elem_of_filter. intros [_ Hp] Hb. destruct (split_bytes _ _ _ _ Hp Hb) as [H ?].
  destruct (normalize_clean raw). split_and!; [done|by intros ->..].
Qed.

Lemma plain_nonempty p : plain_part p = true -> p <> [].
Proof. by intros H ->. Qed.

Lemma join_nonempty ps : ps <> [] -> Forall (fun p => plain_part p = true) ps -> join [slash] ps <> [].
Proof.
  intros Hn Hf. destruct Hf as [|p ps Hp _]; [done|]. apply plain_nonempty in Hp.
  destruct p; [done|]. by destruct ps.
Qed.

Lemma entry_parts_plain raw : Forall (fun p => plain_part p = true) (entry_parts raw).
Proof. apply Forall_forall. intros p. unfold entry_parts. rewrite list_elem_of_filter. by intros [? _]. Qed.

Lemma entry_name_cases raw :
  (entry_parts raw = [] /\ zip_entry_name raw = bs "file") \/
  (entry_parts raw <> [] /\ zip_entry_name raw = join [slash] (entry_parts raw) /\
   split slash (zip_entry_name raw) = entry_parts raw).
Proof.
  unfold zip_entry_name. fold (entry_parts raw). destruct (decide (entry_parts raw = [])) as [E|E].
  - left. by rewrite E.
  - right. rewrite bool_decide_false by (apply join_nonempty; [done|apply entry_parts_plain]).
    split_and!; [done|done|]. apply split_join; [done|]. apply Forall_forall. intros p Hp Hs.
    by destruct (entry_parts_clean _ _ _ Hp Hs).
Qed.

Lemma entry_name_safe raw : safe_name (zip_entry_name raw).
Proof.
  destruct (entry_name_cases raw) as [(_ & ->)|(Hn & E & Es)].
  - split_and!; by_decide.
  - unfold safe_name. rewrite Es. pose proof (entry_parts_plain raw) as Hp. split_and!; [| | |done].
    + rewrite E. by apply join_nonempty.
    + rewrite E. intros [H|(p & Hi & H)]%elem_of_join; [done|]. by destruct (entry_parts_clean _ _ _ Hi H) as (_ & ? & _).
    + rewrite E. intros [H|(p & Hi & H)]%elem_of_join; [done|]. by destruct (entry_parts_clean _ _ _ Hi H) as (_ & _ & ?).
Qed.

Lemma safe_name_fixed s : safe_name s -> zip_entry_name s = s.
Proof.
  intros (Hn & Hz & Hb & Hp). unfold zip_entry_name. rewrite normalize_id by done.
  rewrite filter_all, join_split by done. by rewrite bool_decide_false.
Qed.

Lemma safe_name_no_slash_end s : safe_name s -> ends_with slash s = false /\ starts_with slash s = false.
Proof.
  intros (Hn & _ & _ & Hp). split.
  - unfold ends_with. destruct (last s) as [b|] eqn:E; [|done]. apply bool_decide_false. intros ->.
    apply last_Some in E as [l ->]. rewrite split_snoc, Forall_app in Hp. destruct Hp as [_ Hp].
    by inversion Hp.
  - destruct s as [|b s]; [done|]. simpl. apply bool_decide_false. intros ->.
    change (split slash (slash :: s)) with ([] :: split slash s) in Hp. by inversion Hp.
Qed.

Lemma safe_no_traversal s : safe_name s -> has_drive s = false -> assert_no_traversal s = Ok tt.
Proof.
  intros Hs Hd. unfold assert_no_traversal. pose proof (proj2 (safe_name_no_slash_end s Hs)) as Es.
  destruct Hs as (Hn & Hz & Hb & Hp). rewrite normalize_id by done. rewrite Es, Hd. simpl. rewrite bool_decide_false; [done|].
  rewrite Forall_forall in Hp. by intros H%Hp.
Qed.

Lemma entry_name_valid raw : utf8_valid raw = true -> utf8_valid (zip_entry_name raw) = true.
Proof.
  intros Hv. unfold zip_entry_name. case_bool_decide; [done|]. apply join_valid; [done|].
  apply Forall_forall. intros p. rewrite list_elem_of_filter. intros [_ Hp]. revert p Hp. apply Forall_forall.
  apply split_valid; [done|]. apply remove_valid; [done|]. by apply replace_valid.
Qed.

(** * Reading back header fields of zip archives

    A header is a list of little-endian fields; reading at a field's position
    gives its value. *)

(** ** Slices *)

Lemma slice_mid (a b c : list byte) from to :
  from = len a -> to = len a + len b -> slice (a ++ b ++ c) from to = Ok b.
Proof.
  intros -> ->. unfold slice. pose proof (len_nonneg b). rewrite (proj2 (Z.ltb_ge _ _)) by lia.
  rewrite (proj2 (Z.ltb_ge _ _)) by (rewrite !len_app; pose proof (len_nonneg c); lia).
  replace (Z.to_nat (len a + len b - len a)) with (length b) by (unfold len; lia).
  unfold len. by rewrite Nat2Z.id, drop_app_length, take_app_length.
Qed.

Lemma slice_len buf from to b : 0 <= from -> slice buf from to = Ok b -> len b = to - from.
Proof.
  unfold slice. destruct (Z.ltb_spec to from); [done|]. destruct (Z.ltb_spec (len buf) to); [done|].
  intros Hf [= <-]. unfold len in *. rewrite length_take, length_drop. lia.
Qed.

(** ** Fields *)

Definition field : Type := nat * Z.
Definition field_bytes (f : field) : list byte := le_bytes f.1 f.2.
Definition bytes_of (fs : list field) : list byte := concat (field_bytes <$> fs).
Definition width (fs : list field) : Z := total (fun f => Z.of_nat f.1) fs.
Definition fits (f : field) : Prop := 0 <= f.2 < 2 ^ (8 * Z.of_nat f.1).

Lemma le_bytes_length n z : length (le_bytes n z) = n.
Proof. revert z. induction n as [|n IH]; intros z; simpl; [done|]. by rewrite IH. Qed.

Lemma from_le_le_bytes n z : 0 <= z < 2 ^ (8 * Z.of_nat n) -> from_le_bytes (le_bytes n z) = z.
Proof.
  revert z. induction n as [|n IH]; intros z Hz; simpl; [change (2 ^ (8 * Z.of_nat 0)) with 1 in Hz; lia|].
  replace (8 * Z.of_nat (S n)) with (8 + 8 * Z.of_nat n) in Hz by lia. rewrite Z.pow_add_r in Hz by lia.
  rewrite Z.shiftr_div_pow2 by lia. change (2 ^ 8) with 256 in *. rewrite IH.
  - rewrite b2z_z2b. unfold wrap. change (2 ^ 8) with 256. pose proof (Z.div_mod z 256 ltac:(lia)). lia.
  - split; [apply Z.div_pos; lia|]. apply Z.div_lt_upper_bound; lia.
Qed.

Lemma bytes_of_len fs : len (bytes_of fs) = width fs.
Proof.
  induction fs as [|f fs IH]; [done|]. unfold bytes_of, width in *. rewrite fmap_cons. simpl.
  rewrite len_app, IH. unfold len, field_bytes. by rewrite le_bytes_length.
Qed.

Lemma bytes_of_app fs gs : bytes_of (fs ++ gs) = bytes_of fs ++ bytes_of gs.
Proof. unfold bytes_of. by rewrite fmap_app, concat_app. Qed.

Lemma field_at (pre post : list byte) fs i n z at_ :
  fs !! i = Some (n, z) -> fits (n, z) -> at_ = len pre + width (take i fs) ->
  from_le_bytes <$> slice (pre ++ bytes_of fs ++ post) at_ (at_ + Z.of_nat n) = Ok z.
Proof.
  intros Hi Hz ->.
  assert (E : bytes_of fs = bytes_of (take i fs) ++ le_bytes n z ++ bytes_of (drop (S i) fs)).
  { rewrite <- (take_drop_middle fs i (n, z) Hi) at 1. by rewrite bytes_of_app. }
  rewrite E, <- !(app_assoc (bytes_of (take i fs))), (app_assoc pre), <- (app_assoc (le_bytes n z)).
  rewrite slice_mid with (from := len pre + width (take i fs)).
  - unfold fmap, result_fmap. by rewrite from_le_le_bytes.
  - by rewrite len_app, bytes_of_len.
  - rewrite len_app, bytes_of_len. unfold len. by rewrite le_bytes_length.
Qed.

Lemma u16_field pre post fs i z at_ :
  fs !! i = Some (2%nat, z) -> 0 <= z < 65536 -> at_ = len pre + width (take i fs) ->
  u16_at (pre ++ bytes_of fs ++ post) at_ = Ok z.
Proof. intros Hi Hz Ha. apply (field_at pre post fs i 2 z at_ Hi); [|done]. unfold fits. simpl. lia. Qed.

Lemma u32_field pre post fs i z at_ :
  fs !! i = Some (4%nat, z) -> 0 <= z <= ZIP32_MAX -> at_ = len pre + width (take i fs) ->
  u32_at (pre ++ bytes_of fs ++ post) at_ = Ok z.
Proof.
  intros Hi Hz Ha. apply (field_at pre post fs i 4 z at_ Hi); [|done]. unfold fits, ZIP32_MAX in *. simpl. lia.
Qed.

(** ** The headers of the writer *)

Definition f2 (z : Z) : field := (2%nat, z).
Definition f4 (z : Z) : field := (4%nat, z).

Definition local_fields (flags crc size name_len : Z) : list field :=
  [f4 LOCAL_SIG; f2 VERSION; f2 flags; f2 0; f2 0; f2 0; f4 crc; f4 size; f4 size;
   f2 name_len; f2 0].

Definition central_fields (e : CentralEntry) : list field :=
  [f4 CENTRAL_SIG; f2 VERSION; f2 VERSION; f2 (e_flags e); f2 0; f2 0; f2 0; f4 (e_crc e);
   f4 (e_size e); f4 (e_size e); f2 (len (e_name e)); f2 0; f2 0; f2 0; f2 0; f4 0; f4 (e_offset e)].

Definition eocd_fields (count central_len central_start : Z) : list field :=
  [f4 EOCD_SIG; f2 0; f2 0; f2 count; f2 count; f4 central_len; f4 central_start; f2 0].

Lemma local_header_fields flags crc size n : local_header flags crc size n = bytes_of (local_fields flags crc size n).
Proof. unfold local_header, bytes_of. simpl. by rewrite ?app_nil_r. Qed.

Lemma central_record_fields e : central_record e = bytes_of (central_fields e) ++ e_name e.
Proof. unfold central_record, bytes_of. simpl. by rewrite ?app_nil_r. Qed.

Lemma eocd_record_fields count l s : eocd_record count l s = bytes_of (eocd_fields count l s).
Proof. unfold eocd_record, bytes_of. simpl. by rewrite ?app_nil_r. Qed.

(** The extra-field walk needs at most one round per four bytes. *)
Lemma zip64_loop_fuel n m extra : (length extra <= n)%nat -> (length extra <= m)%nat -> zip64_loop n extra = zip64_loop m extra.
Proof.
  revert m extra. induction n as [|n IH]; intros m extra Hn Hm.
  - destruct extra; [|simpl in Hn; lia]. by destruct m.
  - destruct extra as [|b0 [|b1 [|b2 [|b3 rest]]]]; destruct m as [|m]; try done; [simpl in Hm; lia|].
    cbn [zip64_loop]. case_match; [done|]. apply IH; rewrite length_drop; simpl in *; lia.
Qed.
