(* ===== verification/ZipTheorems.v ===== *)
(** * Zip archives: what is written is read back, what is read is bounded *)

From stdpp Require Import base list numbers strings gmap.
From Stdlib Require Import ZArith Lia.
From S2P Require Import Prelude Text TextFacts Frame Zip ZipFacts.

(** ** Writing an archive

    The exporters write entries in one piece or streamed, and then the central
    directory. *)

Inductive zip_op := Whole (n : str) (d : list byte) | Streamed (n : str) (chunks : list (list byte)).

Section zip.
Context {C : Crc} {D : Deflate}.

Fixpoint write_chunks (ds : list (list byte)) (z : ZipStream) : result ZipError (list byte * ZipStream) :=
  match ds with
  | [] => Ok ([], z)
  | d :: ds =>
    match entry_data d z with
    | (Ok _, z) => '(out, z) ← write_chunks ds z; Ok (d ++ out, z)
    | (Err e, _) => Err e
    end
  end.

Definition write_op (op : zip_op) (z : ZipStream) : result ZipError (list byte * ZipStream) :=
  match op with
  | Whole n d => match whole_entry n d z with (Ok out, z) => Ok (out, z) | (Err e, _) => Err e end
  | Streamed n ds =>
    match begin_entry n z with
    | (Err e, _) => Err e
    | (Ok hdr, z) =>
      '(body, z) ← write_chunks ds z;
      match end_entry z with (Ok desc, z) => Ok (hdr ++ body ++ desc, z) | (Err e, _) => Err e end
    end
  end.

Fixpoint write_ops (ops : list zip_op) (z : ZipStream) : result ZipError (list byte * ZipStream) :=
  match ops with
  | [] => Ok ([], z)
  | op :: ops => '(out, z) ← write_op op z; '(rest, z) ← write_ops ops z; Ok (out ++ rest, z)
  end.

Definition archive (ops : list zip_op) : result ZipError (list byte) :=
  '(out, z) ← write_ops ops zip_new; tail ← finish z; Ok (out ++ tail).

(** ** Where the writer puts an entry *)

#[local] Opaque put_u32 local_header.

Definition raw_name (op : zip_op) : str := match op with Whole n _ | Streamed n _ => n end.
Definition op_name (op : zip_op) : str := zip_entry_name (raw_name op).
Definition op_data (op : zip_op) : list byte := match op with Whole _ d => d | Streamed _ ds => concat ds end.
Definition op_local (op : zip_op) : list byte :=
  match op with
  | Whole _ d => local_header FLAG_UTF8 (crc32 d) (len d) (len (op_name op))
  | Streamed _ _ => local_header FLAGS 0 0 (len (op_name op))
  end.

Definition placed (buf : list byte) (op : zip_op) (e : CentralEntry) : Prop :=
  e_name e = op_name op /\ e_size e = len (op_data op) /\ len (op_name op) <= 0xffff /\
  exists pre post, len pre = e_offset e /\ buf = pre ++ op_local op ++ op_name op ++ op_data op ++ post.

Lemma placed_app buf rest op e : placed buf op e -> placed (buf ++ rest) op e.
Proof.
  intros (? & ? & ? & pre & post & Hp & ->). split_and!; [done..|]. exists pre, (post ++ rest).
  split; [done|]. by rewrite <- !app_assoc.
Qed.

Lemma to_u32_Ok v r : to_u32 v = Ok r -> r = v /\ v <= ZIP32_MAX.
Proof. unfold to_u32. destruct (Z.ltb_spec ZIP32_MAX v); [done|]. by intros [= <-]. Qed.

Lemma entry_name_Ok raw z name n :
  entry_name raw z = Ok (name, n) ->
  name = zip_entry_name raw /\ n = len name /\ n <= 0xffff /\ z_open z = None /\ len (z_entries z) < MAX_ENTRIES.
Proof.
  unfold entry_name. destruct (z_open z); [done|]. destruct (Z.leb_spec MAX_ENTRIES (len (z_entries z))); [done|].
  unfold to_u16. destruct (Z.ltb_spec 0xffff (len (zip_entry_name raw))); [done|]. by intros [= <- <-].
Qed.

Lemma write_chunks_Ok ds z o out z' :
  z_open z = Some o -> write_chunks ds z = Ok (out, z') ->
  out = concat ds /\ z_entries z' = z_entries z /\ z_offset z' = z_offset z + len out /\
  exists c, z_open z' = Some (Opened (o_name o) (o_offset o) c (o_size o + len out)).
Proof.
  revert z o out. induction ds as [|d ds IH]; intros z o out Ho; simpl.
  - intros [= <- <-]. rewrite Z.add_0_r. split_and!; [done..|lia|]. exists (o_crc o). rewrite Ho.
    destruct o; simpl. repeat f_equal. unfold len. simpl. lia.
  - unfold entry_data. rewrite Ho. simpl. destruct (to_u32 (o_size o + len d)); [|done].
    destruct (write_chunks ds _) as [[out1 z1]|] eqn:E; [|done]. intros [= <- <-].
    destruct ((fun H => IH _ _ _ H E) eq_refl) as (-> & He & Hoff & c & Hc). simpl in *.
    split_and!; [done|done|rewrite len_app; lia|]. exists c. rewrite Hc, len_app. do 2 f_equal. lia.
Qed.

Lemma write_op_Ok op z out z' :
  write_op op z = Ok (out, z') ->
  z_open z' = None /\ z_offset z' = z_offset z + len out /\ len (z_entries z) < MAX_ENTRIES /\
  exists e, z_entries z' = z_entries z ++ [e] /\
    forall done_, len done_ = z_offset z -> placed (done_ ++ out) op e.
Proof.
  destruct op as [n d|n ds]; simpl.
  - unfold whole_entry. destruct (entry_name n z) as [[name nl]|] eqn:En; [|done].
    apply entry_name_Ok in En as (-> & -> & Hn & Ho & Hc). cbn [mbind result_bind].
    destruct (to_u32 (z_offset z)) as [off|] eqn:E1; [|done]. destruct (to_u32 (len d)) as [size|] eqn:E2; [|done].
    apply to_u32_Ok in E1 as [-> ?], E2 as [-> ?]. cbn [mbind result_bind].
    match goal with |- context [to_u32 ?x] => destruct (to_u32 x); [|done] end. intros [= <- <-]. simpl.
    split_and!; [done|done|done|]. eexists. split; [done|]. intros dn Hd. split_and!; [done..|].
    exists dn, []. rewrite app_nil_r. split; [done|]. unfold op_local, op_name. simpl. done.
  - unfold begin_entry. destruct (entry_name n z) as [[name nl]|] eqn:En; [|done].
    apply entry_name_Ok in En as (-> & -> & Hn & Ho & Hc). cbn [mbind result_bind].
    destruct (to_u32 (z_offset z)) as [off|] eqn:E1; [|done]. cbn [mbind result_bind].
    destruct (write_chunks ds _) as [[body z1]|] eqn:E2; [|done]. cbn [mbind result_bind].
    destruct ((fun H => write_chunks_Ok _ _ _ _ _ H E2) eq_refl) as (-> & He & Hoff & c & Hz1).
    cbn [z_offset z_entries z_open o_name o_offset o_size o_crc] in *.
    unfold end_entry. rewrite Hz1. cbn [o_size o_offset o_crc o_name]. rewrite Z.add_0_l.
    destruct (to_u32 (len (concat ds))) as [size|] eqn:E3; cbn [mbind result_bind]; [|done].
    destruct (to_u32 (z_offset z)) as [o2|] eqn:E4; cbn [mbind result_bind]; [|done]. apply to_u32_Ok in E3 as [-> ?], E4 as [-> ?].
    intros [= <- <-]. cbn [z_offset z_entries z_open]. split_and!; [done|rewrite Hoff, !len_app; lia|done|].
    eexists. split; [by rewrite He|]. intros dn Hd. split_and!; [done..|].
    eexists dn, _. split; [done|]. unfold op_local, op_name. simpl. by rewrite <- !app_assoc.
Qed.

Lemma write_ops_Ok ops z out z' dn ops0 :
  z_open z = None -> len dn = z_offset z -> Forall2 (placed dn) ops0 (z_entries z) -> len (z_entries z) <= MAX_ENTRIES ->
  write_ops ops z = Ok (out, z') ->
  z_open z' = None /\ len (dn ++ out) = z_offset z' /\ Forall2 (placed (dn ++ out)) (ops0 ++ ops) (z_entries z') /\
  len (z_entries z') <= MAX_ENTRIES.
Proof.
  revert z out dn ops0. induction ops as [|op ops IH]; intros z out dn ops0 Ho Hd Hf Hm; simpl.
  - intros [= <- <-]. by rewrite !app_nil_r.
  - destruct (write_op op z) as [[out1 z1]|] eqn:E1; [|done]. cbn [mbind result_bind].
    destruct (write_ops ops z1) as [[rest z2]|] eqn:E2; [|done]. intros [= <- <-].
    destruct (write_op_Ok _ _ _ _ E1) as (Ho1 & Hoff & Hlt & e & He & Hp).
    rewrite app_assoc. replace (ops0 ++ op :: ops) with ((ops0 ++ [op]) ++ ops) by by rewrite <- app_assoc.
    apply (IH z1); [done|rewrite len_app; lia| |rewrite He, len_app; unfold len in *; simpl; lia|done].
    rewrite He. apply Forall2_app; [|constructor; [by apply Hp|constructor]].
    eapply Forall2_impl; [exact Hf|]. intros. by apply placed_app.
Qed.

(** ** Reading an entry back *)

Lemma assert_supported_ok s : 0 <= s < ZIP32_MAX -> assert_supported 0 s s = Ok tt.
Proof. intros. unfold assert_supported. simpl. destruct (Z.eqb_spec s ZIP32_MAX); [lia|done]. Qed.

Lemma no_extra : assert_no_zip64_extra [] = Ok tt.
Proof. done. Qed.

Lemma slice_at (buf a b c : list byte) from to :
  buf = a ++ b ++ c -> from = len a -> to = len a + len b -> slice buf from to = Ok b.
Proof. intros -> -> ->. by apply slice_mid. Qed.

Lemma flags_value : FLAGS = 2056.
Proof. done. Qed.

(** Read field [i] of the header at hand, whose value is [v]. *)
Ltac field_side :=
  solve [reflexivity
        | unfold LOCAL_SIG, CENTRAL_SIG, EOCD_SIG, FLAG_UTF8, ZIP32_MAX in *; rewrite ?flags_value; lia
        | cbn; lia].
Ltac get_sig v := rewrite (u32_field _ _ _ 0 v (len _)) by field_side; cbn [mbind result_bind]; rewrite Z.eqb_refl; cbn [negb].
Ltac get_u16 i k v := rewrite (u16_field _ _ _ i v (len _ + k)) by field_side; cbn [mbind result_bind].
Ltac get_u32 i k v := rewrite (u32_field _ _ _ i v (len _ + k)) by field_side; cbn [mbind result_bind].

Ltac slice_side :=
  rewrite <- ?app_assoc, ?len_app; change (len (@nil byte)) with 0;
  first [reflexivity | unfold LOCAL_SIZE, CENTRAL_SIZE in *; lia].

(** The payload of a placed entry, or the refusal of a streamed one. *)
Lemma local_payload_placed buf op e :
  placed buf op e -> e_size e < ZIP32_MAX ->
  local_payload buf (e_offset e) (op_name op) 0 (e_size e) (e_size e) =
  match op with Whole _ d => Ok d | Streamed _ _ => Err DataDescriptor end.
Proof.
  intros (_ & Hs & Hn & pre & post & Hp & ->) Hb. unfold local_payload. rewrite Hs, <- Hp. rewrite Hs in Hb. clear Hs Hp e.
  pose proof (len_nonneg pre). pose proof (len_nonneg post).
  pose proof (len_nonneg (op_name op)). pose proof (len_nonneg (op_data op)).
  destruct op as [n d|n ds]; unfold op_local, op_data in *; rewrite local_header_fields in *.
  - set (nm := op_name (Whole n d)) in *.
    assert (Hw : len (bytes_of (local_fields FLAG_UTF8 (crc32 d) (len d) (len nm))) = 30) by by rewrite bytes_of_len.
    rewrite (proj2 (Z.ltb_ge _ _)) by (rewrite !len_app; unfold LOCAL_SIZE; lia).
    get_sig LOCAL_SIG. get_u16 2%nat 6 FLAG_UTF8. get_u16 3%nat 8 0. get_u32 7%nat 18 (len d). get_u32 8%nat 22 (len d).
    rewrite assert_supported_ok by lia. cbn [mbind result_bind].
    replace (Z.land FLAG_UTF8 FLAG_DATA_DESCRIPTOR) with 0 by done. cbn [negb Z.eqb andb].
    get_u16 9%nat 26 (len nm). get_u16 10%nat 28 0.
    set (hd := bytes_of _) in *.
    rewrite (slice_at _ (pre ++ hd ++ nm) [] (d ++ post) (len pre + LOCAL_SIZE + len nm)) by slice_side.
    cbn [mbind result_bind]. rewrite no_extra, !Z.eqb_refl. cbn [mbind result_bind negb orb].
    rewrite (slice_at _ (pre ++ hd) nm (d ++ post) (len pre + LOCAL_SIZE)) by slice_side.
    cbn [mbind result_bind]. rewrite bool_decide_true by done. cbn [negb].
    apply (slice_at _ (pre ++ hd ++ nm) d post); slice_side.
  - set (nm := op_name (Streamed n ds)) in *.
    assert (Hw : len (bytes_of (local_fields FLAGS 0 0 (len nm))) = 30) by by rewrite bytes_of_len.
    rewrite (proj2 (Z.ltb_ge _ _)) by (rewrite !len_app; unfold LOCAL_SIZE; lia).
    get_sig LOCAL_SIG. get_u16 2%nat 6 FLAGS. get_u16 3%nat 8 0. get_u32 7%nat 18 0. get_u32 8%nat 22 0.
    by rewrite assert_supported_ok by by_decide.
Qed.

(** What the reader makes of an entry, given the bytes it has taken so far. *)
Definition read_op (max_total : Z) (select : str -> bool) (op : zip_op) (w : walk) : result ZipImportError walk :=
  let next := w_at w + CENTRAL_SIZE + len (op_name op) in
  match op with
  | Streamed _ _ => Err DataDescriptor
  | Whole _ d =>
    if select (op_name op) then
      if max_total - w_total w <? len d then Err TooLarge
      else Ok (Walk next (w_total w + len d) (w_files w ++ [Entry (op_name op) d]))
    else Ok (Walk next (w_total w) (w_files w))
  end.

Definition readable (op : zip_op) : Prop := utf8_valid (raw_name op) = true /\ has_drive (op_name op) = false.

Lemma read_entry_placed pre post op e max_total select w :
  placed (pre ++ central_record e ++ post) op e -> e_offset e <= ZIP32_MAX -> e_size e < ZIP32_MAX ->
  readable op -> w_at w = len pre -> 0 <= w_total w <= max_total ->
  read_entry (pre ++ central_record e ++ post) max_total select w = read_op max_total select op w.
Proof.
  intros Hpl Ho Hb [Hv Hd] Hw Ht. pose proof (local_payload_placed _ _ _ Hpl Hb) as Hlp.
  pose proof Hpl as (En & Es & Hn & p1 & p2 & Ep1 & Ep2).
  assert (Hsz : 0 <= e_size e < ZIP32_MAX) by (rewrite Es in *; pose proof (len_nonneg (op_data op)); lia).
  assert (0 <= e_offset e) by (rewrite <- Ep1; apply len_nonneg). clear Ep1 Ep2 p1 p2 Hpl.
  unfold read_entry. rewrite Hw. pose proof (len_nonneg (op_name op)). pose proof (len_nonneg post).
  assert (Hc : len (bytes_of (central_fields e)) = 46) by by rewrite bytes_of_len.
  revert Hlp. rewrite central_record_fields, <- (app_assoc (bytes_of _)). intros Hlp. rewrite En in Hlp |- *.
  rewrite (proj2 (Z.ltb_ge _ _)) by (rewrite !len_app; unfold CENTRAL_SIZE; lia).
  get_sig CENTRAL_SIG. get_u16 4%nat 10 0. get_u32 8%nat 20 (e_size e). get_u32 9%nat 24 (e_size e).
  rewrite assert_supported_ok by lia. cbn [mbind result_bind].
  assert (Hen : 0 <= len (e_name e) <= 65535) by (rewrite En; lia).
  get_u16 10%nat 28 (len (e_name e)). get_u16 11%nat 30 0. rewrite En.
  set (hd := bytes_of _) in *. set (nm := op_name op) in *.
  rewrite (slice_at _ (pre ++ hd) nm post (len pre + CENTRAL_SIZE)) by slice_side. cbn [mbind result_bind].
  rewrite from_utf8_lossy_valid by by apply entry_name_valid. pose proof (entry_name_safe (raw_name op) : safe_name nm) as Hsafe.
  rewrite safe_no_traversal by done. cbn [mbind result_bind].
  rewrite (slice_at _ (pre ++ hd ++ nm) [] post (len pre + CENTRAL_SIZE + len nm)) by slice_side. cbn [mbind result_bind].
  rewrite no_extra. cbn [mbind result_bind]. subst hd. get_u32 16%nat 42 (e_offset e).
  rewrite Hlp. unfold read_op. destruct op as [n d|n ds]; [|done]. cbn [mbind result_bind].
  rewrite (proj1 (safe_name_no_slash_end nm Hsafe)), (safe_name_fixed nm Hsafe). cbn [negb andb]. fold nm.
  change (op_name (Whole n d)) with nm. rewrite Hw. unfold sat_sub_u64. rewrite Z.max_l by lia.
  assert (Hnext : u16_at (pre ++ bytes_of (central_fields e) ++ nm ++ post) (len pre + 32) = Ok 0) by (get_u16 12%nat 32 0; done).
  destruct (select nm); cbn [mbind result_bind].
  - rewrite Z.eqb_refl. destruct (_ <? len d); [done|]. cbn [mbind result_bind]. rewrite Hnext. cbn [mbind result_bind].
    by rewrite !Z.add_0_r.
  - rewrite Hnext. cbn [mbind result_bind]. by rewrite !Z.add_0_r.
Qed.

(** ** Reading an archive back *)

Fixpoint read_ops (max_total : Z) (select : str -> bool) (ops : list zip_op) (w : walk) : result ZipImportError walk :=
  match ops with
  | [] => Ok w
  | op :: ops => w' ← read_op max_total select op w; read_ops max_total select ops w'
  end.

Lemma read_op_Ok max_total select op w w' :
  read_op max_total select op w = Ok w' -> 0 <= w_total w <= max_total ->
  w_at w' = w_at w + CENTRAL_SIZE + len (op_name op) /\ 0 <= w_total w' <= max_total.
Proof.
  unfold read_op. destruct op as [n d|]; [|done]. destruct (select _); [|by intros [= <-]].
  destruct (Z.ltb_spec (max_total - w_total w) (len d)); [done|]. intros [= <-]. simpl. pose proof (len_nonneg d). lia.
Qed.

Lemma central_record_len op e buf : placed buf op e -> len (central_record e) = CENTRAL_SIZE + len (op_name op).
Proof. intros (En & _). by rewrite central_record_fields, len_app, bytes_of_len, En. Qed.

Lemma read_entries_placed pre post ops es max_total select w :
  Forall2 (placed (pre ++ concat (central_record <$> es) ++ post)) ops es ->
  Forall (fun e => e_offset e <= ZIP32_MAX /\ e_size e < ZIP32_MAX) es -> Forall readable ops ->
  w_at w = len pre -> 0 <= w_total w <= max_total ->
  read_entries_loop (length es) (pre ++ concat (central_record <$> es) ++ post) max_total select w =
  read_ops max_total select ops w.
Proof.
  intros Hf. remember (pre ++ concat (central_record <$> es) ++ post) as buf eqn:Eb. revert pre Eb w.
  induction Hf as [|op e ops es Hp Hf IH]; intros pre Eb w Hes Hr Hw Ht; [done|]. simpl.
  apply Forall_cons in Hes as [[Ho Hs] Hes], Hr as [Hr1 Hr].
  rewrite fmap_cons in Eb. simpl in Eb. rewrite <- app_assoc in Eb.
  assert (read_entry buf max_total select w = read_op max_total select op w) as ->.
  { rewrite Eb in Hp |- *. by apply read_entry_placed. }
  destruct (read_op max_total select op w) as [w'|] eqn:E; [|done]. cbn [mbind result_bind].
  destruct (read_op_Ok _ _ _ _ _ E Ht) as [Hat Ht'].
  rewrite (IH (pre ++ central_record e)); [done|by rewrite <- !app_assoc|done|done| |done].
  rewrite Hat, Hw, len_app, (central_record_len _ _ _ Hp). lia.
Qed.

Lemma archive_Ok ops buf :
  archive ops = Ok buf ->
  exists out es, let dir := concat (central_record <$> es) in
    buf = out ++ dir ++ eocd_record (len es) (len dir) (len out) /\ Forall2 (placed out) ops es /\
    len es <= MAX_ENTRIES /\ len out + len dir <= ZIP32_MAX /\ (ops = [] -> out = []).
Proof.
  unfold archive. destruct (write_ops ops zip_new) as [[out z]|] eqn:E; [|done]. cbn [mbind result_bind].
  destruct (write_ops_Ok ops zip_new out z [] [] eq_refl eq_refl ltac:(constructor) ltac:(by_decide) E) as (Ho & Hl & Hf & Hm).
  simpl in Hl, Hf. unfold finish. rewrite Ho. destruct (to_u32 (z_offset z)) as [s|] eqn:E1; [|done]. cbn [mbind result_bind].
  destruct (to_u32 (len (concat (central_record <$> z_entries z)))) as [l|] eqn:E2; [|done]. cbn [mbind result_bind].
  destruct (to_u32 (z_offset z + l)) eqn:E3; [|done]. cbn [mbind result_bind]. intros [= <-].
  apply to_u32_Ok in E1 as [-> _], E2 as [-> _], E3 as [_ Hb]. exists out, (z_entries z). rewrite Hl. split_and!; [|done..|].
  2: { intros ->. simpl in E. by injection E as <- _. }
  rewrite wrap_small; [done|]. unfold MAX_ENTRIES in Hm. pose proof (len_nonneg (z_entries z)). lia.
Qed.

Lemma eocd_len count l s : len (eocd_record count l s) = EOCD_SIZE.
Proof. by rewrite eocd_record_fields, bytes_of_len. Qed.

Lemma find_eocd_end pre count l s : find_eocd (pre ++ eocd_record count l s) = Ok (len pre).
Proof.
  unfold find_eocd. rewrite len_app, eocd_len. replace (len pre + EOCD_SIZE - EOCD_SIZE) with (len pre) by lia.
  pose proof (len_nonneg pre).
  replace (Z.to_nat _) with (S (Z.to_nat (len pre - Z.max 0 (len pre - MAX_EOCD_COMMENT)))) by (unfold MAX_EOCD_COMMENT; lia).
  cbn [find_sig]. rewrite eocd_record_fields, <- (app_nil_r (bytes_of _)).
  rewrite (u32_field _ _ _ 0 EOCD_SIG (len pre)) by field_side. by rewrite bool_decide_true.
Qed.

Lemma placed_bounds out op e : placed out op e -> 0 <= e_offset e /\ 0 <= e_size e /\ e_offset e + 30 + e_size e <= len out.
Proof.
  intros (_ & Hs & _ & pre & post & <- & ->). rewrite Hs, !len_app. pose proof (len_nonneg pre). pose proof (len_nonneg post).
  pose proof (len_nonneg (op_name op)). pose proof (len_nonneg (op_data op)).
  assert (len (op_local op) = 30) by by (destruct op; unfold op_local; rewrite local_header_fields, bytes_of_len). lia.
Qed.

(** The reader on a written archive. *)
Lemma unzip_archive ops buf max_total select :
  archive ops = Ok buf -> Forall readable ops -> 0 <= max_total ->
  exists at_, unzip_bounded_select buf max_total select =
    if ZIP_MAX_ENTRIES <? len ops then Err TooManyEntries
    else w ← read_ops max_total select ops (Walk at_ 0 []); Ok (w_files w).
Proof.
  intros (out & es & -> & Hf & Hm & Hb & He)%archive_Ok Hr Ht. exists (len out).
  set (dir := concat (central_record <$> es)) in *. pose proof (len_nonneg out). pose proof (len_nonneg dir).
  assert (Hl : len ops = len es) by (unfold len; by rewrite (Forall2_length _ _ _ Hf)).
  assert (Hdir : es <> [] -> 0 < len dir).
  { intros Hn. subst dir. destruct Hf as [|op e ops' es' Hp _]; [done|]. rewrite fmap_cons. simpl.
    rewrite len_app, (central_record_len _ _ _ Hp). unfold CENTRAL_SIZE.
    pose proof (len_nonneg (op_name op)). pose proof (len_nonneg (concat (central_record <$> es'))). lia. }
  unfold unzip_bounded_select. rewrite bool_decide_false.
  2: { intros E%(f_equal len). rewrite !len_app, eocd_len in E. unfold EOCD_SIZE, len in *. simpl in E. lia. }
  rewrite (proj2 (Z.ltb_ge _ _)) by (rewrite !len_app, eocd_len; lia).
  rewrite (app_assoc out dir), find_eocd_end. cbn [mbind result_bind].
  rewrite eocd_record_fields, <- (app_nil_r (bytes_of _)). set (tail := bytes_of (eocd_fields _ _ _)).
  assert (Hn : u16_at ((out ++ dir) ++ tail ++ []) (len (out ++ dir) + 10) = Ok (len es)).
  { subst tail. unfold MAX_ENTRIES in Hm. pose proof (len_nonneg es). get_u16 4%nat 10 (len es). done. }
  assert (Hs : u32_at ((out ++ dir) ++ tail ++ []) (len (out ++ dir) + 16) = Ok (len out)).
  { subst tail. get_u32 6%nat 16 (len out). done. }
  rewrite Hn. cbn [mbind result_bind]. rewrite Hl. destruct (Z.ltb_spec ZIP_MAX_ENTRIES (len es)); [done|].
  rewrite Hs. cbn [mbind result_bind].
  replace ((len es =? 65535) || (len out =? ZIP32_MAX)) with false.
  2: { symmetry. apply orb_false_iff. unfold ZIP_MAX_ENTRIES in *. split; [apply Z.eqb_neq; lia|]. apply Z.eqb_neq.
       destruct es as [|e es]; [|specialize (Hdir ltac:(done)); lia]. inversion Hf. subst.
       by rewrite He. }
  replace (Z.to_nat (len es)) with (length es) by (unfold len; lia).
  rewrite app_nil_r, <- app_assoc. rewrite (read_entries_placed out tail ops es); [done|..|done|done|done].
  - eapply Forall2_impl; [exact Hf|]. intros. by apply placed_app.
  - apply Forall_forall. intros e [i Hi]%list_elem_of_lookup. destruct (Forall2_lookup_r _ _ _ _ _ Hf Hi) as (op & _ & Hp).
    destruct (placed_bounds _ _ _ Hp). lia.
Qed.

(** ** Theorems *)

Definition is_whole (op : zip_op) : bool := match op with Whole _ _ => true | Streamed _ _ => false end.

(** What was written under the selected names. *)
Definition selected (select : str -> bool) (ops : list zip_op) : list ZipEntry :=
  (fun op => Entry (op_name op) (op_data op)) <$> filter (fun op => select (op_name op) = true) ops.

Definition data_size (files : list ZipEntry) : Z := total (fun f => len (zdata f)) files.

Lemma selected_cons select op ops :
  selected select (op :: ops) =
  (if select (op_name op) then [Entry (op_name op) (op_data op)] else []) ++ selected select ops.
Proof. unfold selected. rewrite filter_cons. case_decide as E; [by rewrite E|]. apply not_true_is_false in E. by rewrite E. Qed.

Lemma data_size_nonneg files : 0 <= data_size files.
Proof. apply total_nonneg. intros. apply len_nonneg. Qed.

Lemma read_ops_whole max_total select ops rest w :
  Forall (fun op => is_whole op = true) ops -> w_total w + data_size (selected select ops) <= max_total ->
  exists w', read_ops max_total select (ops ++ rest) w = read_ops max_total select rest w' /\
    w_files w' = w_files w ++ selected select ops.
Proof.
  intros Hw. revert w. induction Hw as [|op ops Hop _ IH]; intros w Ht; [exists w; by rewrite app_nil_r|].
  destruct op as [n d|]; [|done]. rewrite selected_cons in Ht |- *. simpl. unfold read_op.
  pose proof (data_size_nonneg (selected select ops)) as H0. destruct (select (op_name (Whole n d))) eqn:Es.
  - unfold data_size in Ht, H0. rewrite total_app in Ht. simpl in Ht.
    rewrite (proj2 (Z.ltb_ge _ _)) by lia. cbn [mbind result_bind].
    destruct (IH (Walk (w_at w + CENTRAL_SIZE + len (op_name (Whole n d))) (w_total w + len d)
                    (w_files w ++ [Entry (op_name (Whole n d)) d]))) as (w' & E & Ef).
    { simpl. unfold data_size. lia. }
    exists w'. split; [exact E|]. rewrite Ef. simpl. by rewrite <- app_assoc.
  - cbn [mbind result_bind].
    destruct (IH (Walk (w_at w + CENTRAL_SIZE + len (op_name (Whole n d))) (w_total w) (w_files w)) Ht) as (w' & E & Ef).
    exists w'. split; [exact E|exact Ef].
Qed.

(** C31: an archive the exporters wrote is read back exactly: with entries in one
    piece, at most 10 000 of them and data within the budget, the importer
    returns the selected entries in order, under their normalized names and
    with their data.  An archive with a streamed entry is refused for its data
    descriptor, and one with more entries for their number.  (Names are valid
    text that does not begin with a drive letter.) *)
Theorem zip_roundtrip (ops : list zip_op) (buf : list byte) (max_total : Z) (select : str -> bool) :
  archive ops = Ok buf -> Forall readable ops -> 0 <= max_total ->
  (len ops <= ZIP_MAX_ENTRIES -> Forall (fun op => is_whole op = true) ops -> data_size (selected select ops) <= max_total ->
   unzip_bounded_select buf max_total select = Ok (selected select ops)) /\
  (forall ops1 n ds ops2, ops = ops1 ++ Streamed n ds :: ops2 -> len ops <= ZIP_MAX_ENTRIES ->
   Forall (fun op => is_whole op = true) ops1 -> data_size (selected select ops1) <= max_total ->
   unzip_bounded_select buf max_total select = Err DataDescriptor) /\
  (ZIP_MAX_ENTRIES < len ops -> unzip_bounded_select buf max_total select = Err TooManyEntries).
Proof.
  intros Ha Hr Ht. destruct (unzip_archive ops buf max_total select Ha Hr Ht) as [at_ ->]. split_and!.
  - intros Hl Hw Hs. rewrite (proj2 (Z.ltb_ge _ _)) by done.
    destruct (read_ops_whole max_total select ops [] (Walk at_ 0 []) Hw Hs) as (w' & E & Ef).
    rewrite app_nil_r in E. rewrite E. cbn [read_ops mbind result_bind]. by rewrite Ef.
  - intros ops1 n ds ops2 -> Hl Hw Hs. rewrite (proj2 (Z.ltb_ge _ _)) by done.
    destruct (read_ops_whole max_total select ops1 (Streamed n ds :: ops2) (Walk at_ 0 []) Hw Hs) as (w' & E & Ef).
    by rewrite E.
  - intros Hl. by rewrite (proj2 (Z.ltb_lt _ _)).
Qed.

(** The bytes and names the walk has accepted. *)
Definition walk_ok (max_total : Z) (select : str -> bool) (w : walk) : Prop :=
  w_total w = data_size (w_files w) /\ w_total w <= max_total /\
  Forall (fun f => safe_name (zname f) /\ select (zname f) = true) (w_files w).

Lemma inflate_bounded_len payload limit data :
  0 <= limit -> inflate_bounded payload limit = Ok data -> len data <= limit.
Proof.
  intros Hl. unfold inflate_bounded. destruct (inflate payload) as [out ok]. unfold sat_add_u64, len in *.
  destruct (Z.leb_spec (Z.min (limit + 1) u64_max) (Z.of_nat (length out))).
  - destruct (Z.ltb_spec limit (Z.min (limit + 1) u64_max)); [done|]. intros [= <-]. rewrite length_take. lia.
  - destruct ok; [|done]. intros [= <-]. lia.
Qed.

Ltac bind_inv H := repeat (first [apply bind_Ok in H as (? & ? & H) | case_match; [done|]]).

Lemma read_entry_ok buf max_total select w w' :
  read_entry buf max_total select w = Ok w' -> walk_ok max_total select w ->
  walk_ok max_total select w' /\ len (w_files w') <= len (w_files w) + 1.
Proof.
  intros H (Et & Hm & Hf). unfold read_entry in H. bind_inv H. injection H as <-.
  destruct (negb (ends_with slash (from_utf8_lossy _)) && select _) eqn:Es; [|simplify_eq; split; [done|simpl; lia]].
  apply andb_true_iff in Es as [_ Es].
  match goal with E : (_ ≫= _) = Ok ?v |- _ => apply bind_Ok in E as (data & Ed & [= <-]) end.
  unfold walk_ok. simpl. unfold data_size in *. rewrite total_app, len_app. simpl.
  assert (len data <= max_total - w_total w).
  { pose proof (data_size_nonneg (w_files w)). unfold data_size, sat_sub_u64 in *. case_match.
    - case_match; [done|]. bool_to_prop. simplify_eq. lia.
    - apply inflate_bounded_len in Ed; lia. }
  split_and!; [lia|lia| |unfold len; simpl; lia]. apply Forall_app. split; [done|].
  apply Forall_singleton. split; [apply entry_name_safe|done].
Qed.

Lemma read_entries_ok n buf max_total select w w' :
  read_entries_loop n buf max_total select w = Ok w' -> walk_ok max_total select w ->
  walk_ok max_total select w' /\ len (w_files w') <= len (w_files w) + Z.of_nat n.
Proof.
  revert w. induction n as [|n IH]; intros w; cbn [read_entries_loop]; [intros [= <-]; split; [done|lia]|].
  intros (w1 & H1 & H)%bind_Ok Hw. destruct (read_entry_ok _ _ _ _ _ H1 Hw) as [Hw1 Hl].
  destruct (IH w1 H Hw1). split; [done|lia].
Qed.

(** C32: whatever bytes are uploaded as a zip archive, what the importer returns
    is bounded and safe: at most 10 000 files, with no more data in total than
    the budget, under relative paths whose segments are never empty, "." or
    "..", without NUL or backslash. *)
Theorem unzip_safe (buf : list byte) (max_total : Z) (select : str -> bool) (files : list ZipEntry) :
  0 <= max_total -> unzip_bounded_select buf max_total select = Ok files ->
  len files <= ZIP_MAX_ENTRIES /\ data_size files <= max_total /\
  Forall (fun f => safe_name (zname f) /\ select (zname f) = true) files.
Proof.
  intros Hm H. unfold unzip_bounded_select in H. bind_inv H. bool_to_prop.
  injection H as <-.
  match goal with E : read_entries_loop _ _ _ _ _ = Ok _ |- _ => apply read_entries_ok in E as [(Et & Ht & Hf) Hl] end.
  - simpl in Hl. unfold ZIP_MAX_ENTRIES in *. unfold len at 2 in Hl. simpl in Hl. split_and!; [lia|by rewrite <- Et|done].
  - split_and!; [done|done|constructor].
Qed.

End zip.

(** ** A concrete archive *)

(** A checksum and a decoder that refuses every stream; the archives below are
    stored and their checksums are not read. *)
#[local] Instance sum_crc : Crc := {|
  crc := Z; crc_new := 0;
  crc_update c l := wrap 32 (c + total b2z l);
  crc_sum c := c;
|}.
#[local] Instance no_deflate : Deflate := {| inflate _ := ([], false) |}.

Definition w_ops : list zip_op := [Whole (bs "notes\\a.md") (bs "hello"); Whole (bs "./b/../c.txt") []].

Lemma zip_roundtrip_witness :
  exists buf, archive w_ops = Ok buf /\
    unzip_bounded_select buf 5 (fun _ => true) = Ok [Entry (bs "notes/a.md") (bs "hello"); Entry (bs "b/c.txt") []].
Proof.
  eexists. split; [vm_compute; reflexivity|].
  refine (proj1 (zip_roundtrip w_ops _ 5 (fun _ => true) _ _ _) _ _ _).
  - vm_compute. reflexivity.
  - by_decide.
  - done.
  - by_decide.
  - by_decide.
  - by_decide.
Defined.

Lemma unzip_safe_witness : data_size [Entry (bs "notes/a.md") (bs "hello"); Entry (bs "b/c.txt") []] <= 5.
Proof.
  refine (proj1 (proj2 (unzip_safe (match archive w_ops with Ok b => b | Err _ => [] end) 5 (fun _ => true) _ _ _))).
  - done.
  - vm_compute. reflexivity.
Defined.

(** A drive letter is refused only at the very start of the name; behind a
    "." segment it is accepted and becomes the start of the entry's name. *)
Lemma drive_letter_kept :
  match archive [Whole (bs "x") []] with
  | Ok _ => assert_no_traversal (bs "C:/x") = Err Traversal /\ assert_no_traversal (bs "./C:/x") = Ok tt /\
            has_drive (zip_entry_name (bs "./C:/x")) = true
  | Err _ => False
  end.
Proof. vm_compute. done. Qed.

(** An export whose first segment looks like a drive letter is refused on
    import. *)
Lemma drive_title_refused :
  match archive [Whole (bs "A: plan.md") (bs "text")] with
  | Ok buf => unzip_bounded buf = Err Traversal
  | Err _ => False
  end.
Proof. vm_compute. reflexivity. Qed.
