(* ===== verification/Backup.v ===== *)
(** * Backup manifests ([src/src/backup_manifest.rs])

    Offline creation of a manifest for a database dump and a storage archive,
    and the preflight before a restore: file hashes, the fingerprints of the
    two keyrings, the paths inside the storage archive. The key ring parser is
    the one of [src/src/auth/password.rs], the environment rule the one of
    [src/src/identity.rs].

    The files do not change while a command runs. *)

From stdpp Require Import base list numbers strings.
From Stdlib Require Import ZArith Lia.
From S2P Require Import Prelude Text TextFacts Uuid Json.

Definition LABEL : str := bs "fvoci:encryption-key-fingerprint:v1:".
Definition PEPPER_NOTE : str := bs "SHA-256 of the canonical keyring and active id; keys are not stored. Restore refuses a different keyring because existing password hashes could not be verified.".
Definition ENCRYPTION_NOTE : str := bs "Per key id HMAC-SHA256(key, label||id); keys are not stored. Restore needs every key id listed here with the same key (extra keys are fine) and then opens every sealed secret (fvoci-migrate --verify-secrets).".
Definition NO_ENCRYPTION_NOTE : str := bs "ENCRYPTION_KEYS was not set; nothing could be sealed with it. Restore runs fvoci-migrate --verify-secrets regardless.".
Definition SEARCH_REASON : str := bs "Meilisearch is derived. Restore runs fvoci-migrate --ensure-meili-key (scoped key and index settings) and --rebuild-search from PostgreSQL.".

(** ** Outside code *)

Class BackupLib (J : SerdeJson) := {
  (** [Sha256::digest], HMAC-SHA256. *)
  sha256 : list byte -> list byte;
  hmac : list byte -> list byte -> list byte;
  (** [serde_json::to_vec] of [CanonicalRing]: the keys in order, then the
      active identifier. *)
  canonical_ring : list (str * str) -> str -> option (list byte);
  (** [to_writer_pretty]. *)
  pretty : value number -> list byte;
  (** [Number::as_u64] and [Number::from]. *)
  as_u64 : number -> option Z;
  from_u64 : Z -> number;
  (** The iteration order of a [HashMap] with these entries. *)
  hash_order : list (str * str) -> list (str * str);
  (** [NaiveDateTime], its format [%Y-%m-%dT%H:%M:%SZ], and checked addition of
      seconds. *)
  date_time : Type;
  parse_from_str : str -> option date_time;
  format : date_time -> str;
  checked_add_seconds : date_time -> Z -> option date_time;
}.

Class BackupLaws {J : SerdeJson} (B : BackupLib J) : Prop := {
  hmac_length k m : length (hmac k m) = 32%nat;
  as_u64_from z : 0 <= z <= u64_max -> as_u64 (from_u64 z) = Some z;
  hash_order_perm m : hash_order m ≡ₚ m;
}.

(** The file system: what [read] gives until the end of the file. *)
Inductive ReadResult := RBytes (chunk : list byte) | RInterrupted | RError.
Inductive TarKind := TFile | TDir | TOther.
Record TarEntry := { te_kind : TarKind; te_link : bool; te_path : list byte }.

Record Files := {
  (** [symlink_metadata]: whether a regular file, and its length. *)
  metadata : str -> option (bool * Z);
  open_file : str -> option (list ReadResult);
  (** [tar::Archive::entries], raw; [None] inside for an unreadable entry. *)
  tar_entries : str -> option (list (option TarEntry));
}.

Definition Env : Type := str -> option str.

Fixpoint read_all (l : list ReadResult) : option (list byte) :=
  match l with
  | [] => Some []
  | RBytes [] :: _ => Some []
  | RBytes c :: rest => (c ++.) <$> read_all rest
  | RInterrupted :: rest => read_all rest
  | RError :: _ => None
  end.

(** [read_exact]. *)
Fixpoint read_exact_bytes (n : nat) (l : list ReadResult) : option (list byte) :=
  match n, l with
  | O, _ => Some []
  | _, [] => None
  | _, RBytes [] :: _ => None
  | _, RBytes c :: rest => if (n <=? length c)%nat then Some (take n c) else (c ++.) <$> read_exact_bytes (n - length c) rest
  | _, RInterrupted :: rest => read_exact_bytes n rest
  | _, RError :: _ => None
  end.

Section backup.
Context {J : SerdeJson} {B : BackupLib J}.
Abbreviation value := (value number).

(** ** Key rings *)

Record Keyring := { active_id : str; keys : list (str * list byte) }.

(** [KEY_ID_RE]. *)
Definition key_id_char (b : byte) : bool :=
  let z := b2z b in in_range 97 122 z || in_range 65 90 z || in_range 48 57 z || (z =? 95) || (z =? 45).
Definition key_id_ok (s : str) : bool := in_range 1 32 (len s) && forallb key_id_char s.

Definition string_entry (e : str * value) : option (str * str) := s ← as_str e.2; Some (e.1, s).
(** [serde_json::from_str] into a map of strings. *)
Definition from_str_map (raw : str) : option (list (str * str)) :=
  v ← from_slice raw; m ← as_object v; mapM string_entry m.

Fixpoint parse_keys (entries : list (str * str)) : result str (list (str * list byte)) :=
  match entries with
  | [] => Ok []
  | (id, hex) :: rest =>
    if negb (key_id_ok id) then Err (bs "invalid key id")
    else if negb (len hex =? 64) || negb (forallb (fun b => bool_decide (is_Some (hex_val b))) hex) then Err (bs "keys must be 64-char hex")
    else
      key ← ok_or (hex_decode hex) (bs "invalid hex key");
      rest ← parse_keys rest;
      Ok ((id, key) :: rest)
  end.

Definition parse_named (raw active name : str) : result str Keyring :=
  if negb (key_id_ok active) then Err (bs "invalid active key id")
  else
    parsed ← ok_or (from_str_map raw) (bs "invalid " ++ name ++ bs " json");
    if bool_decide (parsed = []) || (32 <? len parsed) then Err (bs "keyring must have 1-32 keys")
    else
      ks ← parse_keys (hash_order parsed);
      if bool_decide (map_get active ks = None) then Err (bs "active key missing from keyring")
      else Ok {| active_id := active; keys := ks |}.

Definition pepper_fingerprint (raw active : str) : result str str :=
  _ ← map_err (fun _ => bs "invalid PASSWORD_PEPPER_KEYS") (parse_named raw active (bs "PASSWORD_PEPPER_KEYS"));
  ks ← ok_or (from_str_map raw) (bs "invalid PASSWORD_PEPPER_KEYS");
  canonical ← ok_or (canonical_ring ks active) (bs "could not canonicalize pepper ring");
  Ok (hex_encode (sha256 canonical)).

Definition set_in (env : Env) (name : str) : option str :=
  v ← env name; if bool_decide (trim v = []) then None else Some v.

(** [identity::encryption_keys_from_env]. *)
Definition encryption_ring (env : Env) : result str (option Keyring) :=
  match set_in env (bs "ENCRYPTION_KEYS"), set_in env (bs "ENCRYPTION_ACTIVE_KEY_ID") with
  | None, None => Ok None
  | Some ks, Some active =>
    ring ← map_err (fun e => bs "invalid ENCRYPTION_KEYS: " ++ e) (parse_named ks active (bs "ENCRYPTION_KEYS"));
    Ok (Some ring)
  | _, _ => Err (bs "ENCRYPTION_KEYS and ENCRYPTION_ACTIVE_KEY_ID must be set together")
  end.

(** Collecting into a [BTreeMap]. *)
Definition btree {A} (l : list (str * A)) : list (str * A) := foldl (fun m e => map_insert e.1 e.2 m) [] l.

Definition fingerprint (id : str) (key : list byte) : list byte := hmac key (LABEL ++ id).

(** [expect] panics; [canonical_ring] of a ring does not fail. *)
Definition encryption_entry (ring : option Keyring) : value :=
  match ring with
  | None => VObject [(bs "configured", VBool false); (bs "note", VString NO_ENCRYPTION_NOTE)]
  | Some ring =>
    let canonical := default [] (canonical_ring (btree (prod_map id hex_encode <$> keys ring)) (active_id ring)) in
    let fingerprints := btree ((fun e => (e.1, VString (hex_encode (fingerprint e.1 e.2)))) <$> keys ring) in
    VObject [(bs "activeKeyId", VString (active_id ring)); (bs "configured", VBool true);
             (bs "fingerprint", VString (hex_encode (sha256 canonical)));
             (bs "keyFingerprints", VObject fingerprints); (bs "note", VString ENCRYPTION_NOTE)]
  end.

Fixpoint check_fingerprints (expected : list (str * value)) (ring : Keyring) : result str unit :=
  match expected with
  | [] => Ok tt
  | (id, v) :: rest =>
    expected_bytes ← ok_or (s ← as_str v; b ← hex_decode s; if len b =? 32 then Some b else None)
      (bs "backup manifest encryptionKeys fingerprint is invalid");
    key ← ok_or (map_get id (keys ring)) (bs "ENCRYPTION_KEYS lacks backed-up key id: " ++ id);
    if bool_decide (fingerprint id key = expected_bytes) then check_fingerprints rest ring
    else Err (bs "ENCRYPTION_KEYS has a different key for id: " ++ id)
  end.

Definition get (k : str) (v : value) : option value := m ← as_object v; map_get k m.

Definition check_encryption (entry : value) (ring : option Keyring) : result str unit :=
  if bool_decide (as_object entry = None) then Err (bs "backup manifest encryptionKeys entry is malformed")
  else
    match get (bs "configured") entry ≫= as_bool with
    | Some false => Ok tt
    | Some true =>
      expected ← ok_or (m ← get (bs "keyFingerprints") entry ≫= as_object; if bool_decide (m = []) then None else Some m)
        (bs "backup manifest encryptionKeys.keyFingerprints is missing");
      ring ← ok_or ring (bs "backed-up install had ENCRYPTION_KEYS; configure the original ring");
      check_fingerprints expected ring
    | None => Err (bs "backup manifest encryptionKeys entry is malformed")
    end.

(** ** Files *)

Record FileEntry := { fe_path : str; fe_size_bytes : Z; fe_sha256 : str }.

Definition file_entry (fs : Files) (path expected_name : str) : result str FileEntry :=
  '(is_file, n) ← ok_or (metadata fs path) (bs "missing " ++ expected_name);
  if negb is_file || (n =? 0) then Err (expected_name ++ bs " is not a nonempty regular file")
  else
    input ← ok_or (open_file fs path) (bs "cannot read " ++ expected_name);
    content ← ok_or (read_all input) (bs "cannot hash " ++ expected_name);
    Ok {| fe_path := expected_name; fe_size_bytes := n; fe_sha256 := hex_encode (sha256 content) |}.

Definition check_file (fs : Files) (expected : FileEntry) (path name : str) : result str unit :=
  actual ← file_entry fs path name;
  if negb (bool_decide (fe_path expected = name)) || negb (fe_size_bytes expected =? fe_size_bytes actual)
     || negb (bool_decide (fe_sha256 expected = fe_sha256 actual))
  then Err (bs "backup integrity check failed for " ++ name) else Ok tt.

Definition check_dump_magic (fs : Files) (dump : str) : result str unit :=
  magic ← ok_or (open_file fs dump ≫= read_exact_bytes 5) (bs "cannot read database.dump");
  if bool_decide (magic = bs "PGDMP") then Ok tt else Err (bs "database.dump is not PostgreSQL custom format").

Definition parse_date (raw : str) : result str date_time :=
  time ← ok_or (parse_from_str raw) (bs "invalid backup createdAt");
  if bool_decide (format time = raw) then Ok time else Err (bs "invalid backup createdAt").

Definition lower_or_digit (b : byte) : bool := in_range 97 122 (b2z b) || in_range 48 57 (b2z b).
Definition valid_project (project : str) : bool :=
  (len project <=? 63) && match project with b :: _ => lower_or_digit b | [] => false end &&
  forallb (fun b => lower_or_digit b || (b2z b =? 95) || (b2z b =? 45)) project.

(** ** The storage archive *)

Definition slash_b : byte := Byte.x2f.
Definition dot : str := bs ".".
Definition dots : str := bs "..".

Definition is_dir (k : TarKind) : bool := match k with TDir => true | _ => false end.
Definition is_file_or_dir (k : TarKind) : bool := match k with TOther => false | _ => true end.

(** [Path::components] on Unix: empty parts and inner dots are skipped. *)
Inductive Component := RootDir | CurDir | ParentDir | Normal (s : str).
Definition component (s : str) : option Component :=
  if bool_decide (s = []) || bool_decide (s = dot) then None
  else if bool_decide (s = dots) then Some ParentDir else Some (Normal s).
Definition components (p : str) : list Component :=
  match p with
  | [] => []
  | b :: _ =>
    let parts := split slash_b p in
    if bool_decide (b = slash_b) then RootDir :: omap component parts
    else match parts with
         | first :: rest => if bool_decide (first = dot) then CurDir :: omap component rest else omap component parts
         | [] => []
         end
  end.
Definition escapes (c : Component) : bool := match c with ParentDir | RootDir => true | _ => false end.

Definition bad_part (p : str) : bool := bool_decide (p = dots) || bool_decide (p = []).

Definition starts (p s : str) : bool := bool_decide (is_Some (strip_prefix p s)).
Definition known_root (clean : str) : bool :=
  starts (bs "objects/") clean || bool_decide (clean = bs "objects") || bool_decide (clean = bs "objects/") ||
  starts (bs "tmp/") clean || bool_decide (clean = bs "tmp") || bool_decide (clean = bs "tmp/").

Definition check_path (kind : TarKind) (raw : str) : result str unit :=
  if bool_decide (raw = []) || match raw with b :: _ => bool_decide (b = slash_b) | [] => false end ||
     bool_decide (Byte.x00 ∈ raw) || bool_decide (Byte.x5c ∈ raw)
  then Err (bs "storage.tar has an unsafe path")
  else if (bool_decide (raw = dot) || bool_decide (raw = bs "./")) && is_dir kind then Ok tt
  else
    let parts := split slash_b raw in
    let remaining := match parts with p :: rest => if bool_decide (p = dot) then rest else parts | [] => [] end in
    if (bool_decide (remaining = []) || existsb bad_part remaining) &&
       negb (is_dir kind && bool_decide (last remaining = Some []) &&
             forallb (fun p => negb (bad_part p)) (take (length remaining - 1) remaining))
    then Err (bs "storage.tar has an unsafe path")
    else
      let clean := default raw (strip_prefix (bs "./") raw) in
      if negb (known_root clean) then Err (bs "storage.tar has an unexpected path")
      else if negb (utf8_valid clean) then Err (bs "storage.tar path is not UTF-8")
      else if existsb escapes (components clean) then Err (bs "storage.tar has an unsafe path")
      else Ok tt.

Fixpoint check_entries (entries : list (option TarEntry)) : result str unit :=
  match entries with
  | [] => Ok tt
  | None :: _ => Err (bs "invalid storage.tar entry")
  | Some e :: rest =>
    if negb (is_file_or_dir (te_kind e)) || te_link e then Err (bs "storage.tar has an unsupported link or entry type")
    else _ ← check_path (te_kind e) (te_path e); check_entries rest
  end.

Definition validate_tar (fs : Files) (path : str) : result str unit :=
  _ ← ok_or (open_file fs path) (bs "cannot read storage.tar");
  entries ← ok_or (tar_entries fs path) (bs "invalid storage.tar");
  _ ← check_entries entries;
  if bool_decide (entries = []) then Err (bs "storage.tar has no entries") else Ok tt.

(** ** Manifests *)

Record Manifest := {
  format_version : Z;
  created_at : str;
  source_project : str;
  schema : str;
  postgres : value;
  password_pepper : value;
  encryption_keys : option value;
  search : value;
  database : FileEntry;
  storage : FileEntry;
}.

(** [Serialize]: what the written text reads back as. *)
Definition file_value (f : FileEntry) : value :=
  VObject [(bs "path", VString (fe_path f)); (bs "sha256", VString (fe_sha256 f)); (bs "sizeBytes", VNumber (from_u64 (fe_size_bytes f)))].
Definition to_value (m : Manifest) : value :=
  VObject [(bs "createdAt", VString (created_at m)); (bs "database", file_value (database m));
           (bs "encryptionKeys", default VNull (encryption_keys m)); (bs "formatVersion", VNumber (from_u64 (format_version m)));
           (bs "passwordPepper", password_pepper m); (bs "postgres", postgres m); (bs "schema", VString (schema m));
           (bs "search", search m); (bs "sourceProject", VString (source_project m)); (bs "storage", file_value (storage m))].

Definition as_number (v : value) : option number := match v with VNumber n => Some n | _ => None end.
Definition value_u64 (v : value) : option Z := n ← as_number v; as_u64 n.

(** [Deserialize] from a value. *)
Definition file_from (v : value) : option FileEntry :=
  p ← get (bs "path") v ≫= as_str; n ← get (bs "sizeBytes") v ≫= value_u64; h ← get (bs "sha256") v ≫= as_str;
  Some {| fe_path := p; fe_size_bytes := n; fe_sha256 := h |}.
Definition not_null (v : value) : option value := if is_null v then None else Some v.
Definition from_value (v : value) : option Manifest :=
  version ← get (bs "formatVersion") v ≫= value_u64;
  if u32_max <? version then None
  else
    created ← get (bs "createdAt") v ≫= as_str; project ← get (bs "sourceProject") v ≫= as_str;
    sch ← get (bs "schema") v ≫= as_str; pg ← get (bs "postgres") v; pepper ← get (bs "passwordPepper") v;
    srch ← get (bs "search") v; db ← get (bs "database") v ≫= file_from; st ← get (bs "storage") v ≫= file_from;
    Some {| format_version := version; created_at := created; source_project := project; schema := sch; postgres := pg;
            password_pepper := pepper; encryption_keys := get (bs "encryptionKeys") v ≫= not_null; search := srch;
            database := db; storage := st |}.

(** What became of the new file. *)
Inductive WriteOutcome := WExists | WUnprotected | WFailed | WWritten.

Definition u32_of (s : str) : option Z := from_str_radix 10 u32_max s.

(** The manifest [create] writes. *)
Definition manifest_of (fs : Files) (env : Env) (project created pg_version dump store : str) : result str Manifest :=
  if negb (valid_project project) then Err (bs "invalid backup source project")
  else
    _ ← parse_date created;
    version ← ok_or (u32_of pg_version) (bs "invalid PostgreSQL version");
    pepper_raw ← ok_or (env (bs "PASSWORD_PEPPER_KEYS")) (bs "PASSWORD_PEPPER_KEYS required");
    pepper_active ← ok_or (env (bs "PASSWORD_PEPPER_ACTIVE_KEY_ID")) (bs "PASSWORD_PEPPER_ACTIVE_KEY_ID required");
    pepper ← pepper_fingerprint pepper_raw pepper_active;
    ring ← encryption_ring env;
    db ← file_entry fs dump (bs "database.dump");
    st ← file_entry fs store (bs "storage.tar");
    _ ← check_dump_magic fs dump;
    _ ← validate_tar fs store;
    Ok {| format_version := 1; created_at := created; source_project := project; schema := bs "fvoci";
          postgres := VObject [(bs "serverVersionNum", VNumber (from_u64 version))];
          password_pepper := VObject [(bs "fingerprint", VString pepper); (bs "note", VString PEPPER_NOTE)];
          encryption_keys := Some (encryption_entry ring);
          search := VObject [(bs "included", VBool false); (bs "reason", VString SEARCH_REASON)];
          database := db; storage := st |}.

(** [create]: the bytes of the new file. *)
Definition create (fs : Files) (env : Env) (outcome : WriteOutcome) (project created pg_version dump store : str) : result str (list byte) :=
  manifest ← manifest_of fs env project created pg_version dump store;
  match outcome with
  | WExists => Err (bs "cannot create manifest")
  | WUnprotected => Err (bs "cannot protect manifest")
  | WFailed => Err (bs "cannot write manifest")
  | WWritten => Ok (pretty (to_value manifest) ++ [Byte.x0a])
  end.

(** The checks of the manifest's own fields. *)
Definition check_manifest (m : Manifest) (target : str) : result str unit :=
  if negb (format_version m =? 1) then Err (bs "unsupported backup format")
  else if negb (bool_decide (schema m = bs "fvoci")) then Err (bs "backup schema is not fvoci")
  else if negb (valid_project (source_project m)) || bool_decide (source_project m = target)
       then Err (bs "restore target must differ from backup source")
  else if match get (bs "serverVersionNum") (postgres m) ≫= value_u64 with Some v => negb (v / 10000 =? 18) | None => true end
       then Err (bs "backup PostgreSQL major version differs from restore image")
  else if negb (bool_decide (get (bs "included") (search m) ≫= as_bool = Some false)) then Err (bs "backup search metadata is invalid")
  else Ok tt.

Definition preflight (fs : Files) (env : Env) (manifest_path dump store target : str) : result str (str * str) :=
  if negb (valid_project target) then Err (bs "invalid restore target project")
  else
    '(is_file, n) ← ok_or (metadata fs manifest_path) (bs "missing manifest");
    if negb is_file || (n =? 0) || (1024 * 1024 <? n) then Err (bs "invalid manifest file")
    else
      input ← ok_or (open_file fs manifest_path) (bs "cannot read manifest");
      v ← ok_or (read_all input ≫= from_slice) (bs "invalid backup manifest");
      m ← ok_or (from_value v) (bs "invalid backup manifest");
      _ ← check_manifest m target;
      created ← parse_date (created_at m);
      _ ← check_file fs (database m) dump (bs "database.dump");
      _ ← check_dump_magic fs dump;
      _ ← check_file fs (storage m) store (bs "storage.tar");
      _ ← validate_tar fs store;
      pepper_raw ← ok_or (env (bs "PASSWORD_PEPPER_KEYS")) (bs "PASSWORD_PEPPER_KEYS required");
      pepper_active ← ok_or (env (bs "PASSWORD_PEPPER_ACTIVE_KEY_ID")) (bs "PASSWORD_PEPPER_ACTIVE_KEY_ID required");
      expected ← ok_or (get (bs "fingerprint") (password_pepper m) ≫= as_str) (bs "backup manifest has no password pepper fingerprint");
      actual ← pepper_fingerprint pepper_raw pepper_active;
      if negb (bool_decide (actual = expected)) then Err (bs "password pepper keyring differs from backed-up install")
      else
        _ ← match get (bs "encryptionKeys") v with
            | Some entry => ring ← encryption_ring env; check_encryption entry ring
            | None => Ok tt
            end;
        snapshot ← ok_or (checked_add_seconds created 1) (bs "invalid backup createdAt");
        since ← ok_or (checked_add_seconds snapshot (- (29 * 86400))) (bs "invalid backup createdAt");
        Ok (format snapshot, format since).
End backup.
