(* ===== verification/BackupTheorems.v ===== *)
(** * Theorems about backups

    [backup_restorable]: what [create] writes, [preflight] accepts.
    [preflight_sound]: what an accepted backup guarantees. [archive_contained]:
    unpacking an accepted archive stays inside the storage directories.
    [rotation_exact]: which key rings may open a backed-up installation. *)

From stdpp Require Import base list numbers strings sets.
From Stdlib Require Import ZArith Lia.
From S2P Require Import Prelude Text TextFacts Uuid Float Json JsonInstance Backup.

(** ** The storage archive *)

(** Where a path leads, from a directory given by its parts. *)
Definition step_into (at_ : list str) (c : Component) : list str :=
  match c with
  | RootDir => []
  | CurDir => at_
  | ParentDir => removelast at_
  | Normal s => at_ ++ [s]
  end.
Definition resolve (base : list str) (p : str) : list str := foldl step_into base (components p).

Definition storage_dir (s : str) : Prop := s = bs "objects" \/ s = bs "tmp".

Lemma starts_spec p s : starts p s = true <-> exists r, s = p ++ r.
Proof.
  unfold starts. rewrite bool_decide_eq_true. split.
  - intros [r E]. exists r. by apply strip_prefix_Some.
  - intros [r ->]. rewrite strip_prefix_app. by eexists.
Qed.

Lemma known_root_split clean :
  known_root clean = true -> exists d rest, storage_dir d /\ split slash_b clean = d :: rest.
Proof.
  unfold known_root, storage_dir. rewrite !orb_true_iff, !bool_decide_eq_true, !starts_spec.
  intros [[[[[[r ->]| ->]| ->]|[r ->]]| ->]| ->]; [..|by eexists _, _; split; [|vm_compute; reflexivity]; auto
    |by eexists _, _; split; [|vm_compute; reflexivity]; auto].
  - exists (bs "objects"), (split slash_b r). split; [by left|]. change (bs "objects/" ++ r) with (bs "objects" ++ slash_b :: r).
    apply split_app. by_decide.
  - eexists _, _; split; [|vm_compute; reflexivity]; auto.
  - eexists _, _; split; [|vm_compute; reflexivity]; auto.
  - exists (bs "tmp"), (split slash_b r). split; [by right|]. change (bs "tmp/" ++ r) with (bs "tmp" ++ slash_b :: r).
    apply split_app. by_decide.
Qed.

Lemma storage_dir_component d : storage_dir d -> component d = Some (Normal d).
Proof. by intros [-> | ->]. Qed.

(** The components of a path with a known root. *)
Lemma known_root_components clean :
  known_root clean = true -> exists d rest, storage_dir d /\ split slash_b clean = d :: rest /\
    components clean = Normal d :: omap component rest.
Proof.
  intros H. destruct (known_root_split clean H) as (d & rest & Hd & E). exists d, rest. split_and!; [done..|].
  unfold components. destruct clean as [|b clean].
  { assert (E' : split slash_b [] = [[]]) by done. rewrite E' in E. injection E as <- <-. by destruct Hd. }
  rewrite bool_decide_false; [rewrite E, bool_decide_false|].
  - simpl. by rewrite storage_dir_component.
  - by destruct Hd as [-> | ->].
  - intros ->. simpl in E. injection E as <- _. by destruct Hd.
Qed.

Lemma resolve_normal base l :
  existsb escapes l = false -> exists ps, foldl step_into base l = base ++ ps.
Proof.
  revert base. induction l as [|c l IH]; intros base; simpl; [by exists []; rewrite app_nil_r|].
  intros [H1 H2]%orb_false_iff. destruct c; simpl in *; try done.
  - by apply IH.
  - destruct (IH (base ++ [s]) H2) as [ps E]. exists (s :: ps). by rewrite E, <- app_assoc.
Qed.

(** A checked path leads into a storage directory, or names the root. *)
Lemma check_path_contained kind raw base :
  check_path kind raw = Ok tt ->
  (exists d rest, storage_dir d /\ resolve base raw = base ++ d :: rest) \/ (kind = TDir /\ resolve base raw = base).
Proof.
  unfold check_path. destruct (_ || _) eqn:G1; [done|].
  destruct (_ && _) eqn:G2.
  { apply andb_true_iff in G2 as [G2 Hk]. intros _. right. split; [by destruct kind|].
    rewrite orb_true_iff, !bool_decide_eq_true in G2. by destruct G2 as [-> | ->]. }
  clear G2. cbv zeta. destruct (_ && _); [done|].
  destruct (known_root _) eqn:Hr; [|done]. simpl negb. cbv iota.
  destruct (utf8_valid _); [|done]. simpl negb. cbv iota.
  destruct (existsb escapes _) eqn:He; [done|]. intros _. left.
  destruct (known_root_components _ Hr) as (d & rest & Hd & Es & Ec).
  assert (Hraw : exists pre, components raw = pre ++ components (default raw (strip_prefix (bs "./") raw)) /\ foldl step_into base pre = base).
  { destruct (strip_prefix (bs "./") raw) as [clean|] eqn:Ep; [change (default raw (Some clean)) with clean in *|by exists []].
    apply strip_prefix_Some in Ep as ->. exists [CurDir]. split; [|done].
    assert (Ed : components (bs "./" ++ clean) = CurDir :: omap component (split slash_b clean)) by done.
    rewrite Ed, Es, Ec. simpl. by rewrite storage_dir_component. }
  destruct Hraw as (pre & Hc & Hp). unfold resolve. rewrite Hc, foldl_app, Hp, Ec. cbn [foldl step_into].
  rewrite Ec in He. simpl in He. destruct (resolve_normal (base ++ [d]) _ He) as [ps E]. exists d, ps. split; [done|].
  by rewrite E, <- app_assoc.
Qed.

Lemma check_entries_contained entries :
  check_entries entries = Ok tt ->
  Forall (fun o => exists e, o = Some e /\ te_kind e <> TOther /\ te_link e = false /\ forall base,
    (exists d rest, storage_dir d /\ resolve base (te_path e) = base ++ d :: rest) \/
    (te_kind e = TDir /\ resolve base (te_path e) = base)) entries.
Proof.
  induction entries as [|[e|] entries IH]; simpl; [constructor| |done].
  destruct (_ || _) eqn:G; [done|]. apply orb_false_iff in G as [Gk Gl]. intros ([] & Hp & Hr)%bind_Ok.
  constructor; [|by apply IH]. exists e. split_and!; [done| |done|].
  - intros E. by rewrite E in Gk.
  - intros base. by apply check_path_contained.
Qed.

(** C25: unpacking an accepted archive stays inside the storage directories. An
    archive that passes has entries, all of them readable, regular files or
    directories and not links; wherever it is unpacked, each entry's path leads
    into [objects] or [tmp] below that place, or is a directory entry for the
    place itself, never above or beside it. *)
Theorem archive_contained fs path :
  validate_tar fs path = Ok tt ->
  exists entries, tar_entries fs path = Some entries /\ entries <> [] /\
    Forall (fun o => exists e, o = Some e /\ te_kind e <> TOther /\ te_link e = false /\ forall base,
      (exists d rest, storage_dir d /\ resolve base (te_path e) = base ++ d :: rest) \/
      (te_kind e = TDir /\ resolve base (te_path e) = base)) entries.
Proof.
  unfold validate_tar. intros (_ & _ & (entries & E%ok_or_inv & ([] & Hc & H)%bind_Ok)%bind_Ok)%bind_Ok.
  exists entries. split; [done|]. case_bool_decide; [done|]. split; [done|]. by apply check_entries_contained.
Qed.

(** ** Key rings *)

Section rings.
Context {J : SerdeJson} {B : BackupLib J} {BL : BackupLaws B}.
Abbreviation value := (value number).

Lemma btree_fold_get {A} (l m : list (str * A)) k :
  map_sorted m -> NoDup l.*1 ->
  map_get k (foldl (fun m e => map_insert e.1 e.2 m) m l) = match map_get k l with Some x => Some x | None => map_get k m end.
Proof.
  revert m. induction l as [|[k' x] l IH]; intros m Hm Hn; simpl; [done|].
  apply NoDup_cons in Hn as [Hk Hn]. rewrite IH; [|by apply map_insert_sorted|done]. simpl.
  case_bool_decide as E.
  - subst k'. assert (map_get k l = None) as ->; [|by apply map_get_insert].
    destruct (map_get k l) as [y|] eqn:Ey; [|done]. exfalso. apply Hk. clear -Ey.
    induction l as [|[k' z] l IH]; simpl in *; [done|]. case_bool_decide; [subst; left|right; auto].
  - destruct (map_get k l); [done|]. by rewrite map_get_insert_ne.
Qed.

Lemma btree_get {A} (l : list (str * A)) k : NoDup l.*1 -> map_get k (btree l) = map_get k l.
Proof. intros Hn. unfold btree. rewrite btree_fold_get by done. by destruct (map_get k l). Qed.

Lemma map_sorted_NoDup {A} (m : list (str * A)) : map_sorted m -> NoDup m.*1.
Proof.
  induction m as [|[k x] m IH]; simpl; [constructor|]. intros [Hf Hs]. apply NoDup_cons. split; [|auto].
  intros ([k' y] & -> & Hi)%list_elem_of_fmap. rewrite Forall_forall in Hf. by apply Hf, str_lt_irrefl in Hi.
Qed.

Lemma elem_map_get {A} (l : list (str * A)) k x : NoDup l.*1 -> ((k, x) ∈ l <-> map_get k l = Some x).
Proof.
  induction l as [|[k' y] l IH]; simpl; intros Hn; [set_solver|]. apply NoDup_cons in Hn as [Hk Hn].
  rewrite elem_of_cons, IH by done. case_bool_decide as E.
  - subst k'. split; [|intros [= ->]; auto]. intros [[= ->]|Hi]; [done|]. exfalso. apply Hk.
    apply IH in Hi; [|done]. by apply (list_elem_of_fmap_2 fst) in Hi.
  - split; [|auto]. intros [[= -> _]|?]; done.
Qed.

Lemma btree_sorted {A} (l : list (str * A)) : map_sorted (btree l).
Proof.
  unfold btree. assert (forall m, map_sorted m -> map_sorted (foldl (fun m e => map_insert e.1 e.2 m) m l)); [|by apply H].
  induction l as [|e l IH]; intros m Hm; simpl; [done|]. by apply IH, map_insert_sorted.
Qed.

Lemma elem_btree {A} (l : list (str * A)) e : NoDup l.*1 -> (e ∈ btree l <-> e ∈ l).
Proof.
  intros Hn. destruct e as [k x]. rewrite !elem_map_get; [by rewrite btree_get|done|]. apply map_sorted_NoDup, btree_sorted.
Qed.

Lemma check_fingerprints_exact (expected : list (str * value)) ring :
  check_fingerprints expected ring = Ok tt <->
  Forall (fun e => exists s b key, e.2 = VString s /\ hex_decode s = Some b /\ len b = 32 /\
    map_get e.1 (keys ring) = Some key /\ fingerprint e.1 key = b) expected.
Proof.
  induction expected as [|[id v] rest IH]; simpl; [split; [constructor|done]|]. rewrite Forall_cons. simpl. split.
  - intros (b & Eb%ok_or_inv & (key & Ek%ok_or_inv & E)%bind_Ok)%bind_Ok.
    case_bool_decide; [|done]. split; [|by apply IH].
    destruct v as [| | |s| |]; try done. simpl in Eb. destruct (hex_decode s) as [b'|] eqn:Ed; [|done]. simpl in Eb.
    destruct (Z.eqb_spec (len b') 32); [|done]. injection Eb as ->. by exists s, b, key.
  - intros [(s & b & key & -> & Ed & El & Ek & Ef) Hr]. simpl. rewrite Ed. simpl. rewrite El. simpl.
    rewrite Ek. simpl. rewrite bool_decide_true by done. by apply IH.
Qed.

(** What a ring at restore must contain of the backed-up ring. *)
Definition covers (backed restored : Keyring) : Prop :=
  forall id key, map_get id (keys backed) = Some key ->
    exists key', map_get id (keys restored) = Some key' /\ fingerprint id key' = fingerprint id key.

Lemma fingerprint_keys_NoDup (ring : Keyring) :
  NoDup (keys ring).*1 -> NoDup (((fun e => (e.1, VString (num := number) (hex_encode (fingerprint e.1 e.2)))) <$> keys ring).*1).
Proof. rewrite <- list_fmap_compose. done. Qed.

(** Key rotation. For the entry that [create] writes of a ring, a ring at
    restore passes exactly when it holds a key with the same fingerprint for
    every backed-up key id; other keys and another active id are free. *)
Theorem rotation_exact (ring ring' : Keyring) :
  NoDup (keys ring).*1 -> keys ring <> [] ->
  (check_encryption (encryption_entry (Some ring)) (Some ring') = Ok tt <-> covers ring ring').
Proof.
  intros Hn Hne. set (prints := btree ((fun e => (e.1, VString (num := number) (hex_encode (fingerprint e.1 e.2)))) <$> keys ring)).
  assert (Hp : forall id v, (id, v) ∈ prints <-> exists key, (id, key) ∈ keys ring /\ v = VString (hex_encode (fingerprint id key))).
  { intros id v. unfold prints. rewrite elem_btree by by apply fingerprint_keys_NoDup. rewrite list_elem_of_fmap. split.
    - intros ([i k] & [= -> ->] & Hi). by exists k.
    - intros (k & Hi & ->). by exists (id, k). }
  assert (Hnil : prints <> []).
  { destruct (keys ring) as [|[id key] rest] eqn:E; [done|]. intros Hx.
    assert (Hi : (id, VString (hex_encode (fingerprint id key))) ∈ prints) by (apply Hp; exists key; split; [left|done]).
    rewrite Hx in Hi. by apply not_elem_of_nil in Hi. }
  assert (Hc : check_encryption (encryption_entry (Some ring)) (Some ring') = check_fingerprints prints ring').
  { unfold check_encryption, encryption_entry. cbv zeta. rewrite bool_decide_false by done.
    change (get (bs "configured") _ ≫= as_bool) with (Some true). cbv iota.
    change (get (bs "keyFingerprints") _ ≫= as_object) with (Some prints). cbn [mbind option_bind].
    by rewrite bool_decide_false by done. }
  rewrite Hc, check_fingerprints_exact, Forall_forall. unfold covers. split.
  - intros H id key Hk. apply elem_map_get in Hk; [|done].
    destruct (H (id, VString (hex_encode (fingerprint id key)))) as (s & b & key' & Es & Ed & _ & Ek & Ef).
    { apply Hp. by exists key. }
    simpl in *. injection Es as <-. rewrite hex_decode_encode in Ed. injection Ed as <-. by exists key'.
  - intros H [id v] (key & Hk & ->)%Hp. apply elem_map_get in Hk; [|done].
    destruct (H id key Hk) as (key' & Ek & Ef). eexists _, (fingerprint id key), key'. split_and!; simpl; [done| | |done|done].
    + apply hex_decode_encode.
    + unfold len, fingerprint. by rewrite hmac_length.
Qed.

(** A parsed ring has distinct key ids and at least one key. *)
Lemma parse_keys_ids entries ks : parse_keys entries = Ok ks -> ks.*1 = entries.*1.
Proof.
  revert ks. induction entries as [|[id hex] rest IH]; intros ks; simpl; [by intros [= <-]|].
  destruct (negb _); [done|]. destruct (_ || _); [done|].
  intros (key & _ & (r & Er & [= <-])%bind_Ok)%bind_Ok. simpl. f_equal. by apply IH.
Qed.

Lemma string_entries_ids (m : list (str * value)) l : mapM string_entry m = Some l -> l.*1 = m.*1.
Proof.
  intros E%mapM_Some. induction E as [|[k v] [k' s] m l H _ IH]; [done|]. rewrite !fmap_cons, IH. f_equal.
  unfold string_entry in H. simpl in H. by destruct (as_str v); simplify_eq/=.
Qed.

Context {JL : SerdeJsonLaws J}.

Lemma parse_named_ring raw active name ring :
  parse_named raw active name = Ok ring -> NoDup (keys ring).*1 /\ keys ring <> [].
Proof.
  unfold parse_named. destruct (negb _); [done|].
  intros (parsed & Ep%ok_or_inv & E)%bind_Ok. destruct (_ || _) eqn:G; [done|].
  apply bind_Ok in E as (ks & Ek%parse_keys_ids & E). case_bool_decide; [done|]. injection E as <-. simpl.
  unfold from_str_map in Ep. destruct (from_slice raw) as [v|] eqn:Ev; [|done]. simpl in Ep.
  apply from_slice_wf in Ev. destruct v as [| | | | |m]; try done. simpl in Ep. apply value_wf_object in Ev as [Hs _].
  assert (Hids : ks.*1 ≡ₚ m.*1).
  { rewrite Ek, <- (string_entries_ids m parsed Ep). apply fmap_Permutation, hash_order_perm. }
  split.
  - rewrite Hids. by apply map_sorted_NoDup.
  - intros ->. done.
Qed.

Definition ring_covers (backed restored : option Keyring) : Prop :=
  match backed, restored with
  | None, _ => True
  | Some r, Some r' => covers r r'
  | Some _, None => False
  end.

Lemma entry_passes env ring ring' :
  encryption_ring env = Ok ring -> ring_covers ring ring' -> check_encryption (encryption_entry ring) ring' = Ok tt.
Proof.
  intros E Hc. destruct ring as [r|]; [|done]. destruct ring' as [r'|]; [|done].
  unfold encryption_ring in E. destruct (set_in env _) as [ks|]; [|by destruct (set_in env _)].
  destruct (set_in env _) as [active|]; [|done]. apply bind_Ok in E as (r0 & E & [= ->]).
  destruct (parse_named _ _ _) as [r1|] eqn:Er; [|done]. injection E as ->. apply parse_named_ring in Er as [Hn Hne].
  by apply rotation_exact.
Qed.

(** The manifest read back. *)
Lemma file_from_value f : 0 <= fe_size_bytes f <= u64_max -> file_from (file_value f) = Some f.
Proof.
  intros Hf. unfold file_from. change (get (bs "path") (file_value f) ≫= as_str) with (Some (fe_path f)).
  change (get (bs "sizeBytes") (file_value f) ≫= value_u64) with (as_u64 (from_u64 (fe_size_bytes f))).
  change (get (bs "sha256") (file_value f) ≫= as_str) with (Some (fe_sha256 f)).
  rewrite as_u64_from by done. simpl. by destruct f.
Qed.

Lemma from_to_value m entry :
  encryption_keys m = Some entry -> is_null entry = false -> 0 <= format_version m <= u32_max ->
  0 <= fe_size_bytes (database m) <= u64_max -> 0 <= fe_size_bytes (storage m) <= u64_max ->
  from_value (to_value m) = Some m.
Proof.
  intros He Hn Hv Hd Hs. unfold from_value.
  change (get (bs "formatVersion") (to_value m) ≫= value_u64) with (as_u64 (from_u64 (format_version m))).
  rewrite as_u64_from by (unfold u32_max, u64_max in *; lia). cbn [mbind option_bind].
  rewrite (proj2 (Z.ltb_ge _ _)) by lia.
  change (get (bs "database") (to_value m) ≫= file_from) with (file_from (file_value (database m))).
  change (get (bs "storage") (to_value m) ≫= file_from) with (file_from (file_value (storage m))).
  rewrite !file_from_value by done.
  change (get (bs "encryptionKeys") (to_value m) ≫= not_null) with (not_null (default VNull (encryption_keys m))).
  rewrite He. cbn [default from_option id]. unfold not_null. rewrite Hn. rewrite <- He. by destruct m.
Qed.

Lemma file_entry_size fs path name f :
  (forall p b n, metadata fs p = Some (b, n) -> 0 <= n <= u64_max) -> file_entry fs path name = Ok f ->
  0 <= fe_size_bytes f <= u64_max /\ fe_path f = name.
Proof.
  intros Hsz. unfold file_entry. intros ([b n] & Em%ok_or_inv & E)%bind_Ok. destruct (_ || _); [done|].
  apply bind_Ok in E as (? & _ & (? & _ & [= <-])%bind_Ok). split; [by eapply Hsz|done].
Qed.

(** Two paths that name the same file, in the two file systems. *)
Definition same_file (fs fs' : Files) (p p' : str) : Prop :=
  metadata fs' p' = metadata fs p /\ open_file fs' p' = open_file fs p /\ tar_entries fs' p' = tar_entries fs p.

Lemma file_entry_same fs fs' p p' name : same_file fs fs' p p' -> file_entry fs' p' name = file_entry fs p name.
Proof. intros (E1 & E2 & _). unfold file_entry. by rewrite E1, E2. Qed.
Lemma dump_magic_same fs fs' p p' : same_file fs fs' p p' -> check_dump_magic fs' p' = check_dump_magic fs p.
Proof. intros (_ & E2 & _). unfold check_dump_magic. by rewrite E2. Qed.
Lemma validate_tar_same fs fs' p p' : same_file fs fs' p p' -> validate_tar fs' p' = validate_tar fs p.
Proof. intros (_ & E2 & E3). unfold validate_tar. by rewrite E2, E3. Qed.

Lemma check_file_same fs fs' p p' name f :
  same_file fs fs' p p' -> file_entry fs p name = Ok f -> fe_path f = name -> check_file fs' f p' name = Ok tt.
Proof.
  intros Hs E En. unfold check_file. rewrite (file_entry_same fs fs' p p' name Hs), E. cbn [mbind result_bind].
  by rewrite !bool_decide_true, Z.eqb_refl by done.
Qed.

(** What [manifest_of] has checked and recorded. *)
Lemma manifest_of_inv fs env project created pg dump store m :
  manifest_of fs env project created pg dump store = Ok m ->
  valid_project project = true /\ (exists d, parse_date created = Ok d) /\
  exists version raw active pepper ring db st,
    u32_of pg = Some version /\ env (bs "PASSWORD_PEPPER_KEYS") = Some raw /\ env (bs "PASSWORD_PEPPER_ACTIVE_KEY_ID") = Some active /\
    pepper_fingerprint raw active = Ok pepper /\ encryption_ring env = Ok ring /\
    file_entry fs dump (bs "database.dump") = Ok db /\ file_entry fs store (bs "storage.tar") = Ok st /\
    check_dump_magic fs dump = Ok tt /\ validate_tar fs store = Ok tt /\
    m = {| format_version := 1; created_at := created; source_project := project; schema := bs "fvoci";
           postgres := VObject [(bs "serverVersionNum", VNumber (from_u64 version))];
           password_pepper := VObject [(bs "fingerprint", VString pepper); (bs "note", VString PEPPER_NOTE)];
           encryption_keys := Some (encryption_entry ring);
           search := VObject [(bs "included", VBool false); (bs "reason", VString SEARCH_REASON)];
           database := db; storage := st |}.
Proof.
  unfold manifest_of. destruct (valid_project project); [|done]. simpl negb. cbv iota.
  intros (d & Ed & (version & Ev%ok_or_inv & (raw & Er%ok_or_inv & (active & Ea%ok_or_inv & (pepper & Ep & (ring & Eg &
    (db & Edb & (st & Est & ([] & Em & ([] & Et & [= <-])%bind_Ok)%bind_Ok)%bind_Ok)%bind_Ok)%bind_Ok)%bind_Ok)%bind_Ok)%bind_Ok)%bind_Ok)%bind_Ok.
  split; [done|]. split; [by exists d|]. by exists version, raw, active, pepper, ring, db, st.
Qed.

Lemma radix_loop_range max s : forall acc v, 0 <= acc <= max -> radix_loop 10 max acc s = Some v -> 0 <= v <= max.
Proof.
  induction s as [|b s IH]; intros acc v Ha; simpl; [by intros [= <-]|].
  destruct (to_digit 10 b) as [d|] eqn:Ed; [|done]. destruct (Z.ltb_spec max (acc * 10 + d)); [done|]. apply IH.
  unfold to_digit, in_range in Ed. pose proof (b2z_range b).
  repeat match type of Ed with context [if ?c then _ else _] => destruct c eqn:?; bool_to_prop end; simplify_eq; lia.
Qed.
Lemma u32_of_range s v : u32_of s = Some v -> 0 <= v <= u32_max.
Proof.
  unfold u32_of, from_str_radix. destruct s as [|b s]; [done|]. case_bool_decide; [destruct s; [done|]|];
    apply radix_loop_range; by vm_compute.
Qed.

(** C24: what [create] writes can be restored. Let [create] have written a
    manifest, of a server of the supported major version, and let the dump and
    the archive be unchanged, under whatever paths. Then the preflight of
    another project accepts them, given the same password pepper ring and an
    encryption ring that covers the backed-up one. Assumed of the outside: the
    written text reads back as the value it was printed from, file sizes are
    64-bit, and the two dates around the backup exist. *)
Theorem backup_restorable fs env project created pg dump store bytes fs' env' manifest_path dump' store' target n reads ring ring' :
  create fs env WWritten project created pg dump store = Ok bytes ->
  (forall m, manifest_of fs env project created pg dump store = Ok m ->
     from_slice (pretty (to_value m) ++ [Byte.x0a]) = Some (to_value m)) ->
  (forall v, u32_of pg = Some v -> v / 10000 = 18) ->
  (forall p b k, metadata fs p = Some (b, k) -> 0 <= k <= u64_max) ->
  (forall d, parse_date created = Ok d -> exists snapshot since,
     checked_add_seconds d 1 = Some snapshot /\ checked_add_seconds snapshot (- (29 * 86400)) = Some since) ->
  same_file fs fs' dump dump' -> same_file fs fs' store store' ->
  metadata fs' manifest_path = Some (true, n) -> 0 < n <= 1024 * 1024 ->
  open_file fs' manifest_path = Some reads -> read_all reads = Some bytes ->
  valid_project target = true -> target <> project ->
  env' (bs "PASSWORD_PEPPER_KEYS") = env (bs "PASSWORD_PEPPER_KEYS") ->
  env' (bs "PASSWORD_PEPPER_ACTIVE_KEY_ID") = env (bs "PASSWORD_PEPPER_ACTIVE_KEY_ID") ->
  encryption_ring env = Ok ring -> encryption_ring env' = Ok ring' -> ring_covers ring ring' ->
  is_ok (preflight fs' env' manifest_path dump' store' target) = true.
Proof.
  intros Hc Hp Hv Hsz Hd Hf1 Hf2 Hm Hn Ho Hr Ht Hne He1 He2 Hg Hg' Hcov.
  unfold create in Hc. apply bind_Ok in Hc as (m & Em & [= <-]). specialize (Hp m Em).
  destruct (manifest_of_inv _ _ _ _ _ _ _ _ Em) as (Hproj & (d & Ed) & version & raw & active & pepper & ring0 & db & st &
    Ev & Er & Ea & Epp & Eg & Edb & Est & Emg & Etar & ->).
  rewrite Hg in Eg. injection Eg as <-. destruct (Hd d Ed) as (snapshot & since & Es1 & Es2).
  destruct (file_entry_size _ _ _ _ Hsz Edb) as [Hs1 Hn1]. destruct (file_entry_size _ _ _ _ Hsz Est) as [Hs2 Hn2].
  pose proof (u32_of_range _ _ Ev) as Hvr.
  set (m := {| format_version := 1 |}) in *.
  unfold preflight. rewrite Ht, Hm. cbn [negb ok_or mbind result_bind orb].
  rewrite (proj2 (Z.eqb_neq n 0)), (proj2 (Z.ltb_ge (1024 * 1024) n)) by lia. cbn [orb].
  rewrite Ho. cbn [ok_or mbind result_bind]. rewrite Hr. cbn [mbind option_bind]. rewrite Hp. cbn [ok_or mbind result_bind].
  rewrite (from_to_value m (encryption_entry ring)); [|done|by destruct ring|unfold u32_max; simpl; lia|done|done].
  cbn [ok_or mbind result_bind].
  assert (Hcm : check_manifest m target = Ok tt).
  { unfold check_manifest. change (format_version m =? 1) with true. rewrite (bool_decide_true (schema m = _)) by done. cbn [negb].
    change (source_project m) with project. rewrite Hproj, (bool_decide_false (project = target)) by done. cbn [negb orb].
    change (get (bs "serverVersionNum") (postgres m) ≫= value_u64) with (as_u64 (from_u64 version)).
    rewrite as_u64_from by (unfold u32_max, u64_max in *; lia). rewrite (Hv _ Ev). done. }
  rewrite Hcm. cbn [mbind result_bind]. change (created_at m) with created. rewrite Ed. cbn [mbind result_bind].
  change (database m) with db. change (storage m) with st.
  rewrite (check_file_same fs fs' dump dump' _ db), (dump_magic_same fs fs' dump dump'), Emg by done. cbn [mbind result_bind].
  rewrite (check_file_same fs fs' store store' _ st), (validate_tar_same fs fs' store store'), Etar by done. cbn [mbind result_bind].
  rewrite He1, Er, He2, Ea. cbn [ok_or mbind result_bind].
  change (get (bs "fingerprint") (password_pepper m) ≫= as_str) with (Some pepper). cbn [ok_or mbind result_bind].
  rewrite Epp. cbn [mbind result_bind]. rewrite bool_decide_true by done. cbn [negb].
  change (get (bs "encryptionKeys") (to_value m)) with (Some (encryption_entry ring)). cbv iota.
  rewrite Hg'. cbn [mbind result_bind]. rewrite (entry_passes env ring ring') by done. cbn [mbind result_bind].
  rewrite Es1. cbn [ok_or mbind result_bind]. rewrite Es2. done.
Qed.

(** What an accepted backup guarantees. *)
Theorem preflight_sound fs env manifest_path dump store target r :
  preflight fs env manifest_path dump store target = Ok r ->
  exists v m d c, from_value v = Some m /\ check_manifest m target = Ok tt /\ source_project m <> target /\
    (open_file fs dump ≫= read_all = Some d) /\ fe_sha256 (database m) = hex_encode (sha256 d) /\
    (open_file fs store ≫= read_all = Some c) /\ fe_sha256 (storage m) = hex_encode (sha256 c) /\
    check_dump_magic fs dump = Ok tt /\ validate_tar fs store = Ok tt /\
    (forall entry, get (bs "encryptionKeys") v = Some entry -> exists ring, encryption_ring env = Ok ring /\ check_encryption entry ring = Ok tt).
Proof.
  assert (Hfile : forall f p name, check_file fs f p name = Ok tt ->
    exists d, (open_file fs p ≫= read_all = Some d) /\ fe_sha256 f = hex_encode (sha256 d)).
  { intros f p name. unfold check_file, file_entry. intros (a & E & H)%bind_Ok. destruct (_ || _) eqn:G; [done|]. clear H.
    apply orb_false_iff in G as [_ G]. apply negb_false_iff, bool_decide_eq_true in G.
    apply bind_Ok in E as ([b n] & _ & E). destruct (_ || _); [done|].
    apply bind_Ok in E as (input & Eo%ok_or_inv & (content & Ec%ok_or_inv & [= <-])%bind_Ok).
    exists content. rewrite Eo. by split. }
  unfold preflight. destruct (valid_project target); [|done]. simpl negb. cbv iota.
  intros ([b n] & _ & E)%bind_Ok. destruct (_ || _); [done|].
  apply bind_Ok in E as (input & _ & (v & _ & (m & Em%ok_or_inv & ([] & Hc & (created & _ & ([] & Hd & ([] & Hg &
    ([] & Hs & ([] & Ht & (raw & _ & (active & _ & (expected & _ & (actual & _ & E)%bind_Ok)%bind_Ok)%bind_Ok)%bind_Ok)%bind_Ok)%bind_Ok)%bind_Ok)%bind_Ok)%bind_Ok)%bind_Ok)%bind_Ok)%bind_Ok).
  destruct (negb _); [done|]. apply bind_Ok in E as ([] & Hk & _).
  destruct (Hfile _ _ _ Hd) as (d & Hd1 & Hd2). destruct (Hfile _ _ _ Hs) as (c & Hc1 & Hc2).
  exists v, m, d, c. split_and!; try done.
  - unfold check_manifest in Hc. repeat (destruct (negb _); [done|]). destruct (_ || _) eqn:G; [done|].
    apply orb_false_iff in G as [_ G]. by apply bool_decide_eq_false in G.
  - intros entry Ee. rewrite Ee in Hk. apply bind_Ok in Hk as (ring & Hr & Hk). by exists ring.
Qed.
End rings.

(** ** A backup *)

(** A reader that accepts one trailing byte, as a text file has. *)
#[local] Instance line_json : SerdeJson := {|
  number := @number toy_json;
  from_slice s := match @from_slice toy_json s with Some v => Some v | None => @from_slice toy_json (removelast s) end;
  to_vec := @to_vec toy_json;
|}.
#[local] Instance line_json_laws : SerdeJsonLaws line_json.
Proof.
  split.
  - intros s v. cbn [from_slice line_json]. destruct (@from_slice toy_json s) as [w|] eqn:E.
    + intros [= ->]. by apply (@from_slice_wf toy_json _) in E.
    + apply (@from_slice_wf toy_json _).
  - intros v Hw. destruct (@to_vec_from toy_json _ v Hw) as (s & E & Hu & Hf). exists s. split_and!; [done..|].
    cbn [from_slice line_json]. by rewrite Hf.
  - reflexivity.
Qed.

Definition z_number (z : Z) : f64 := match z with Zpos p => SpecFloat.S754_finite false p 0 | _ => SpecFloat.S754_zero false end.
Definition number_z (x : f64) : option Z :=
  match x with SpecFloat.S754_finite false p 0 => Some (Zpos p) | SpecFloat.S754_zero false => Some 0 | _ => None end.

#[local] Instance toy_backup : BackupLib line_json := {|
  sha256 b := take 32 (b ++ replicate 32 Byte.x00);
  hmac k m := take 32 (k ++ m ++ replicate 32 Byte.x00);
  canonical_ring ks active := Some ((ks ≫= fun e : str * str => e.1 ++ e.2) ++ active);
  pretty (v : value (@number line_json)) := default [] (@to_vec line_json v);
  as_u64 := number_z;
  from_u64 := z_number;
  hash_order m := reverse m;
  date_time := str;
  parse_from_str s := Some s;
  format s := s;
  checked_add_seconds s _ := Some s;
|}.
#[local] Instance toy_backup_laws : BackupLaws toy_backup.
Proof.
  split.
  - intros k m. change (length (take 32 (k ++ m ++ replicate 32 Byte.x00)) = 32%nat). rewrite length_take, !length_app, length_replicate. lia.
  - by intros [|p|p] Hz; [..|lia].
  - intros m. apply reverse_Permutation.
Qed.

Definition hex_key (c : byte) : str := replicate 64 c.
Definition ring_text (ks : list (str * str)) : str := default [] (to_vec (VObject ((fun e => (e.1, VString e.2)) <$> ks))).

(** The installation, and the restored one after a key was added. *)
Definition sample_env (ks : list (str * str)) (active : str) : Env := fun name =>
  if bool_decide (name = bs "PASSWORD_PEPPER_KEYS") then Some (ring_text [(bs "p1", hex_key Byte.x61)])
  else if bool_decide (name = bs "PASSWORD_PEPPER_ACTIVE_KEY_ID") then Some (bs "p1")
  else if bool_decide (name = bs "ENCRYPTION_KEYS") then Some (ring_text ks)
  else if bool_decide (name = bs "ENCRYPTION_ACTIVE_KEY_ID") then Some active else None.
Definition env_before : Env := sample_env [(bs "k1", hex_key Byte.x31)] (bs "k1").
Definition env_after : Env := sample_env [(bs "k1", hex_key Byte.x31); (bs "k2", hex_key Byte.x32)] (bs "k2").

Definition sample_entries : list (option TarEntry) :=
  [Some {| te_kind := TDir; te_link := false; te_path := bs "./" |};
   Some {| te_kind := TDir; te_link := false; te_path := bs "./objects/" |};
   Some {| te_kind := TFile; te_link := false; te_path := bs "./objects/ab/cd" |}].

Definition sample_files (manifest : list byte) : Files := {|
  metadata p := if bool_decide (p = bs "m") then Some (true, 900) else Some (true, 8);
  open_file p :=
    if bool_decide (p = bs "m") then Some [RBytes manifest]
    else if bool_decide (p = bs "d") then Some [RInterrupted; RBytes (bs "PGD"); RBytes (bs "MP1.0")] else Some [RBytes (bs "archive.")];
  tar_entries p := Some sample_entries;
|}.

Definition sample_manifest : list byte :=
  match create (sample_files []) env_before WWritten (bs "src") (bs "2026-10-03T00:00:00Z") (bs "180006") (bs "d") (bs "s") with
  | Ok b => b
  | Err _ => []
  end.

Lemma archive_contained_witness :
  resolve [bs "srv"] (bs "./objects/ab/cd") = [bs "srv"; bs "objects"; bs "ab"; bs "cd"] /\
  exists entries, tar_entries (sample_files []) (bs "s") = Some entries /\ entries <> [].
Proof.
  split; [by_decide|].
  destruct (archive_contained (sample_files []) (bs "s")) as (entries & E & Hn & _); [by_decide|].
  exists entries. split; assumption.
Defined.

Definition ring_of (env : Env) : option Keyring := match encryption_ring env with Ok r => r | Err _ => None end.

Lemma sample_covers : ring_covers (ring_of env_before) (ring_of env_after).
Proof.
  assert (Hb : ring_of env_before = Some {| active_id := bs "k1"; keys := [(bs "k1", replicate 32 Byte.x11)] |}) by (vm_compute; reflexivity).
  assert (Ha : ring_of env_after = Some {| active_id := bs "k2"; keys := [(bs "k2", replicate 32 (Byte.x22)); (bs "k1", replicate 32 Byte.x11)] |})
    by (vm_compute; reflexivity).
  rewrite Hb, Ha. intros id key. cbn [keys map_get]. case_bool_decide as E; [|discriminate]. subst id. intros [= <-].
  exists (replicate 32 Byte.x11). split; vm_compute; reflexivity.
Qed.

(** Every manifest that was made reads back. *)
Lemma sample_reads_back m :
  manifest_of (sample_files []) env_before (bs "src") (bs "2026-10-03T00:00:00Z") (bs "180006") (bs "d") (bs "s") = Ok m ->
  from_slice (pretty (to_value m) ++ [Byte.x0a]) = Some (to_value m).
Proof.
  intros E.
  assert (H : match manifest_of (sample_files []) env_before (bs "src") (bs "2026-10-03T00:00:00Z") (bs "180006") (bs "d") (bs "s") with
    | Ok m => from_slice (pretty (to_value m) ++ [Byte.x0a]) = Some (to_value m)
    | Err _ => True
    end) by (vm_compute; reflexivity).
  by rewrite E in H.
Qed.

Lemma backup_restorable_witness :
  is_ok (preflight (sample_files sample_manifest) env_after (bs "m") (bs "d") (bs "s") (bs "dst")) = true.
Proof.
  apply (backup_restorable (sample_files []) env_before (bs "src") (bs "2026-10-03T00:00:00Z") (bs "180006") (bs "d") (bs "s")
    sample_manifest (sample_files sample_manifest) env_after (bs "m") (bs "d") (bs "s") (bs "dst") 900 [RBytes sample_manifest]
    (ring_of env_before) (ring_of env_after)).
  - vm_compute; reflexivity.
  - exact sample_reads_back.
  - intros v E. vm_compute in E. injection E as <-. reflexivity.
  - intros p b k E. unfold sample_files in E. cbn [metadata] in E. destruct (bool_decide _) in E; injection E as _ <-; split; vm_compute; discriminate.
  - intros d _. exists d, d. split; reflexivity.
  - split; [|split]; vm_compute; reflexivity.
  - split; [|split]; vm_compute; reflexivity.
  - vm_compute; reflexivity.
  - split; [reflexivity|vm_compute; discriminate].
  - vm_compute; reflexivity.
  - vm_compute; reflexivity.
  - vm_compute; reflexivity.
  - vm_compute; discriminate.
  - vm_compute; reflexivity.
  - vm_compute; reflexivity.
  - vm_compute; reflexivity.
  - vm_compute; reflexivity.
  - exact sample_covers.
Defined.
