(* ===== verification/NativeHistory.v ===== *)
(** * Retained native history ([src/src/native_history.rs])

    What a native archive keeps of one document or task, and what an importer
    checks before it believes it: the digests that bind a capture, the shape of
    the retained tail and its receipts, the report of the engine child, the
    policy that refuses history outside the selected objects, and the replay of
    every revision in child processes. *)

From stdpp Require Import base list numbers strings sets.
From Stdlib Require Import ZArith Lia.
From S2P Require Import Prelude Text Uuid Json Frame Zip ZipFacts Float EngineLimits.

Definition MAX_BYTES : Z := 64 * 1024 * 1024.

Inductive ArchiveError :=
| ALimit
| AInvalid (detail : str)
| AUnsupported (detail : str)
| AWorker
| ACancelled.

(** ** What the server logs of a refusal *)

Definition LOG_REASONS : list str := bs <$> [
  "attachment must be stored and not infected";
  "base64";
  "baseline collection item reconciliation";
  "baseline collection reconciliation";
  "body schema or budget";
  "body schema or size";
  "capture tail association";
  "child graph result";
  "child input";
  "child output";
  "collection people";
  "collection views";
  "collections";
  "comments";
  "confirmation hash";
  "container, entry or hash";
  "cutoff";
  "dependencies";
  "derived body disagreement";
  "document parent cycle";
  "document schema version";
  "document tags";
  "duplicate native reports";
  "entry allowlist";
  "external issue links";
  "file open";
  "file read";
  "file size";
  "format version or required models";
  "graph affiliation or identity";
  "graph report budget";
  "labels";
  "milestone or recurrence";
  "milestones";
  "missing creation activity";
  "missing entry";
  "missing file";
  "missing native state for captured body";
  "missing or extra native reports";
  "missing or rebound native report";
  "missing staged key";
  "multiple authors or grants";
  "native dependencies or inventory load";
  "native encoding";
  "native history continuity";
  "native inventory capture association";
  "native projection";
  "native record schema";
  "native report schema or size";
  "native unavailable interval";
  "native/body disagreement";
  "non-baseline task activity";
  "personal input commands";
  "private single-author project required";
  "record";
  "record schema";
  "record serialization";
  "record timestamp";
  "recurrence";
  "reference id";
  "reference outside selected closure";
  "retained application link requires scoped destination mapping";
  "retained changed-kind uncertainty requires explicit confirmation";
  "retained native unavailable intervals require explicit captured confirmation";
  "retained typed dependency outside selected closure";
  "retained typed reference identifier";
  "revision id";
  "revision native load";
  "revision schema";
  "revision snapshot";
  "revision/native disagreement";
  "stars";
  "storage readback hash";
  "storage write";
  "tail";
  "tampered native report semantics";
  "target";
  "task parent cycle";
  "task schema version";
  "task time";
  "time entries";
  "truncated file";
  "view query";
  "view references";
  "views"]%string.

Definition known (detail : str) : option str := find (fun reason => bool_decide (reason = detail)) LOG_REASONS.
Definition log_reason (error : ArchiveError) : str :=
  match error with
  | ALimit => bs "limit"
  | AWorker => bs "worker"
  | ACancelled => bs "cancelled"
  | AInvalid detail => default (bs "invalid:unclassified") (known detail)
  | AUnsupported detail => default (bs "unsupported:unclassified") (known detail)
  end.

Section history.
Context {U : UuidLib} {J : SerdeJson}.
Abbreviation value := (value number).

(** [sha2::Sha256::digest] and base64, third-party. *)
Context (sha256 : list byte -> list byte) (b64_decode : str -> option (list byte)).

Definition decode_b64 (s : str) : result ArchiveError (list byte) :=
  if MAX_BYTES / 3 * 4 + 4 <? len s then Err ALimit
  else match b64_decode s with Some b => Ok b | None => Err (AInvalid (bs "base64")) end.

(** ** Captured targets *)

Record NativeTargetInput := Target {
  t_kind : str;
  t_id : uuid;
  t_encoding : Z;                                 (** [i16] *)
  t_cutoff : Z;                                   (** [i64] *)
  t_tail_seq : Z;
  t_snapshot : list byte;
  t_tail : list (Z * uuid * list byte);
  t_body : value;
  t_revisions : list (uuid * Z * list byte * value);
}.

(** (op_id, seq, payload_len, payload_sha256, actor). *)
Definition Receipt : Type := uuid * Z * Z * list byte * uuid.

Record RetainedRevisionMeta := Meta {
  m_reason : str;
  m_created_by : option uuid;
  m_created_at : str;
  m_text : str;
  m_restored_from_id : option uuid;
  m_restore_correlation_id : option uuid;
  m_restore_base_tail_seq : option Z;
  m_restore_committed_tail_seq : option Z;
}.

(** ** Digests *)

(** [Uuid::as_bytes], big-endian. *)
Definition uuid_bytes (u : uuid) : list byte := reverse (le_bytes 16 (as_u128 u)).
(** [to_le_bytes] of a signed integer of [n] bytes. *)
Definition int_bytes (n : nat) (z : Z) : list byte := le_bytes n (wrap (8 * Z.of_nat n) z).

(** [field]: the length in eight bytes, then the bytes. *)
Definition field (b : list byte) : list byte := le_bytes 8 (len b) ++ b.
Definition fields (bs : list (list byte)) : list byte := bs ≫= field.

Definition tail_fields (t : Z * uuid * list byte) : list (list byte) := [int_bytes 8 t.1.1; uuid_bytes t.1.2; t.2].

Definition binding_fields (workspace actor : uuid) (captured_at : str) (t : NativeTargetInput) : list (list byte) :=
  [bs "fvoci-native-archive-inventory-v1"; uuid_bytes workspace; uuid_bytes actor; captured_at; t_kind t;
   uuid_bytes (t_id t); int_bytes 2 (t_encoding t); int_bytes 8 (t_cutoff t); int_bytes 8 (t_tail_seq t); t_snapshot t] ++
  (t_tail t ≫= tail_fields) ++
  (t_revisions t ≫= fun r => [uuid_bytes r.1.1.1; int_bytes 2 r.1.1.2; r.1.2]).

Definition target_binding (workspace actor : uuid) (captured_at : str) (t : NativeTargetInput) : str :=
  hex_encode (sha256 (fields (binding_fields workspace actor captured_at t))).

Definition json (v : value) : list byte := default [] (to_vec v).
Definition count {A} (l : list A) : list byte := le_bytes 8 (Z.of_nat (length l)).
Definition optional (v : option (list byte)) : list byte :=
  match v with Some b => Byte.x01 :: b | None => [Byte.x00] end.

Definition receipt_fields (r : Receipt) : list (list byte) :=
  let '(op, seq, n, sha, actor) := r in [uuid_bytes op; int_bytes 8 seq; int_bytes 8 n; sha; uuid_bytes actor].
Definition revision_fields (r : uuid * Z * list byte * value) : list (list byte) :=
  let '(id, encoding, bytes, content) := r in [uuid_bytes id; int_bytes 2 encoding; bytes; json content].
Definition meta_fields (m : RetainedRevisionMeta) : list (list byte) :=
  [m_reason m; match m_created_by m with Some id => uuid_bytes id | None => [] end; m_created_at m; m_text m;
   optional (uuid_bytes <$> m_restored_from_id m); optional (uuid_bytes <$> m_restore_correlation_id m);
   optional (int_bytes 8 <$> m_restore_base_tail_seq m); optional (int_bytes 8 <$> m_restore_committed_tail_seq m)].

Definition content_fields (t : NativeTargetInput) (receipts : list Receipt) (metas : list RetainedRevisionMeta) : list (list byte) :=
  [bs "fvoci-native-history-content-v2"; t_kind t; uuid_bytes (t_id t); json (t_body t); int_bytes 2 (t_encoding t);
   int_bytes 8 (t_cutoff t); int_bytes 8 (t_tail_seq t); t_snapshot t; count (t_tail t)] ++ (t_tail t ≫= tail_fields) ++
  [count receipts] ++ (receipts ≫= receipt_fields) ++
  [count (t_revisions t)] ++ (t_revisions t ≫= revision_fields) ++
  [count metas] ++ (metas ≫= meta_fields).

Definition target_content_digest (t : NativeTargetInput) (receipts : list Receipt) (metas : list RetainedRevisionMeta) : str :=
  hex_encode (sha256 (fields (content_fields t receipts metas))).

(** ** The canonical shape *)

Definition invalid {A} : result ArchiveError A := Err (AInvalid (bs "native history continuity")).

(** The loop over the receipts; [ops] is the [BTreeSet] of identifiers so far. *)
Fixpoint check_receipts (tail_seq : Z) (ops : list uuid) (receipts : list Receipt) : result ArchiveError unit :=
  match receipts with
  | [] => Ok tt
  | (op, seq, n, sha, _) :: rest =>
    if bool_decide (op ∈ ops) || (seq <? 1) || (tail_seq <? seq) || negb (in_range 1 (8 * 1024 * 1024) n) || negb (len sha =? 32)
    then invalid else check_receipts tail_seq (op :: ops) rest
  end.

Definition receipt_matches (op : uuid) (seq : Z) (bytes : list byte) (r : Receipt) : bool :=
  let '(r_op, r_seq, n, sha, _) := r in
  bool_decide (r_op = op) && (r_seq =? seq) && (n =? len bytes) && bool_decide (sha = sha256 bytes).

Fixpoint check_tail (receipts : list Receipt) (seq : Z) (tail : list (Z * uuid * list byte)) : result ArchiveError Z :=
  match tail with
  | [] => Ok seq
  | (row_seq, op, bytes) :: rest =>
    if i64_max <? seq + 1 then invalid                          (* [checked_add] *)
    else
      let seq := seq + 1 in
      if negb (row_seq =? seq) || bool_decide (bytes = []) || negb (existsb (receipt_matches op seq bytes) receipts)
      then invalid else check_tail receipts seq rest
  end.

Definition check_canonical_history (cutoff tail_seq : Z) (tail : list (Z * uuid * list byte)) (receipts : list Receipt) :
    result ArchiveError unit :=
  if (cutoff <? 0) || (tail_seq <? cutoff) then invalid
  else
    _ ← check_receipts tail_seq [] receipts;
    seq ← check_tail receipts cutoff tail;
    if negb (seq =? tail_seq) then invalid else Ok tt.

(** ** The engine's report *)

Record NativeId := { ni_client : Z; ni_clock : Z }.              (** [u64], [u32] *)
Inductive ReferenceKind := RkDocument | RkTask | RkAttachment | RkLinkHref.
Inductive ReferenceCertainty := FixedKind | Potential.
Record RetainedReference := {
  rr_owner : NativeId;
  rr_declaration : NativeId;
  rr_kind : ReferenceKind;
  rr_certainty : ReferenceCertainty;
  rr_value : str;
}.
Inductive IncompleteReason :=
| UnknownInputStructure | NormalizedInputStructure | StructuralMismatch | InputContentLoss | UnavailableIntervalLoss
| UnavailableMetadata | Pending | Skip | UnknownRoot | UnknownType
| UnavailableOwner | Ancestry | UnknownSchemaSlot | UnavailableClassifier | UnsupportedReferenceKind.
Record InventoryDiagnostic := { id_reason : IncompleteReason; id_id : option NativeId }.
Inductive UnavailableKind := UkGc | UkDeleted.
Record UnavailableRange := { ur_id : NativeId; ur_len : Z; ur_kind : UnavailableKind }.
Record InventoryWork := { iw_steps : Z; iw_inspected_bytes : Z; iw_owned_bytes : Z; iw_blocks : Z }.

Record NativeArchiveInventory := {
  ni_binding : str;
  ni_schema_version : Z;
  ni_complete : bool;
  ni_references : list RetainedReference;
  ni_unavailable : list UnavailableRange;
  ni_diagnostics : list InventoryDiagnostic;
  ni_work : InventoryWork;
}.

(** The counting writer of [report_wire_bytes]: [chunks] is what
    [serde_json::to_writer] writes of the report. *)
Fixpoint counted (written max : Z) (chunks : list (list byte)) : option Z :=
  match chunks with
  | [] => Some written
  | c :: rest =>
    let total := written + len c in
    if (u64_max <? total) || (max <? total) then None else counted total max rest
  end.
Definition report_wire_fits (to_writer : NativeArchiveInventory -> list (list byte)) (report : NativeArchiveInventory) (max : Z) : bool :=
  bool_decide (is_Some (counted 0 max (to_writer report))).

(** [checked_add] of the [u32] clock. *)
Definition range_ok (r : UnavailableRange) : bool := negb (ur_len r =? 0) && (ni_clock (ur_id r) + ur_len r <=? u32_max).

Definition check_report_bounds (to_writer : NativeArchiveInventory -> list (list byte)) (report : NativeArchiveInventory)
    (binding : str) (limits : Limits) : result ArchiveError unit :=
  if negb (ni_schema_version report =? 1) || negb (bool_decide (ni_binding report = binding))
  then Err (AInvalid (bs "native inventory capture association"))
  else if negb (report_wire_fits to_writer report (max_project_json_bytes limits)) || (max_project_nodes limits <? iw_steps (ni_work report))
       || (max_project_nodes limits <? iw_blocks (ni_work report)) || (max_load_bytes limits <? iw_owned_bytes (ni_work report))
       || (sat_mul_u64 (max_load_bytes limits) 4 <? iw_inspected_bytes (ni_work report))
  then Err ALimit
  else if forallb range_ok (ni_unavailable report) then Ok tt
  else Err (AInvalid (bs "native unavailable interval")).

Inductive RetainedHistoryBlocker :=
| BIncomplete | BUnavailable | BPotential | BApplicationLink | BReferenceIdentifier | BOutsideClosure.

Definition reason (b : RetainedHistoryBlocker) : str :=
  match b with
  | BIncomplete => bs "retained native identity/coverage incomplete"
  | BUnavailable => bs "retained native unavailable intervals require explicit captured confirmation"
  | BPotential => bs "retained changed-kind uncertainty requires explicit confirmation"
  | BApplicationLink => bs "retained application link requires scoped destination mapping"
  | BReferenceIdentifier => bs "retained typed reference identifier"
  | BOutsideClosure => bs "retained typed dependency outside selected closure"
  end.

(** [str::contains]. *)
Fixpoint occurs (sub s : str) : bool :=
  bool_decide (sub `prefix_of` s) || match s with [] => false | _ :: t => occurs sub t end.

Definition is_link (k : ReferenceKind) : bool := match k with RkLinkHref => true | _ => false end.

Fixpoint reference_blocker (present : ReferenceKind -> uuid -> bool) (refs : list RetainedReference) : option RetainedHistoryBlocker :=
  match refs with
  | [] => None
  | r :: rest =>
    match rr_certainty r with
    | Potential => Some BPotential
    | FixedKind =>
      if is_link (rr_kind r) then
        if occurs (bs "/api/v1/") (rr_value r) then Some BApplicationLink else reference_blocker present rest
      else
        match try_parse (rr_value r) with
        | None => Some BReferenceIdentifier
        | Some id => if present (rr_kind r) id then reference_blocker present rest else Some BOutsideClosure
        end
    end
  end.

Definition retained_closure_blocker (report : NativeArchiveInventory) (present : ReferenceKind -> uuid -> bool) :
    option RetainedHistoryBlocker :=
  if negb (ni_complete report) || negb (bool_decide (length (ni_diagnostics report) = 0%nat)) then Some BIncomplete
  else if negb (bool_decide (length (ni_unavailable report) = 0%nat)) then Some BUnavailable
  else reference_blocker present (ni_references report).

(** ** The isolated children *)

(** [==] of [serde_json::Value]. *)
Context (value_eq : value -> value -> bool).

Definition same_body (projected stored : value) : bool :=
  value_eq projected stored ||
  (value_eq projected (VObject [(bs "content", VArray []); (bs "type", VString (bs "doc"))]) &&
   value_eq stored (VObject [(bs "content", VArray [VObject [(bs "type", VString (bs "paragraph"))]]); (bs "type", VString (bs "doc"))])).

(** The requests sent, and what is read of an answer. *)
Inductive Request :=
| RLoad (snapshot : option (list byte)) (tail : list (list byte)) (encoding : Z)
| RArchiveLoad (snapshot : option (list byte)) (tail : list (list byte)) (encoding : Z) (capture_binding : str)
| RApply (update : list byte) (encoding : Z)
| RProject (encoding : Z)
| RArchiveRestore (snap : list byte) (encoding : Z).

Inductive EngineStatus :=
| SOk (applied pending skip_gc : bool) (update_b64 : option str) (content_json : option value)
      (inventory : option NativeArchiveInventory)
| SMalformed (detail : str)
| SUnsupported
| SResourceLimit
| SWorkerFailure.

(** The world: whether the [k]-th child starts; what it answers to the last of
    the requests sent to it; whether the token is cancelled at the [k]-th
    look. *)
Context (spawns : nat -> bool) (call : nat -> list Request -> EngineStatus) (is_cancelled : nat -> bool).

Definition projection (k : nat) (sent : list Request) : result ArchiveError value :=
  match call k (sent ++ [RProject 1]) with
  | SOk _ false _ _ (Some v) _ => Ok v
  | _ => Err (AInvalid (bs "native projection"))
  end.

Definition applied (s : EngineStatus) : bool := match s with SOk true false _ _ _ _ => true | _ => false end.

(** One turn of the revision loop, in the [k]-th child. *)
Definition check_revision (k : nat) (load : Request) (r : uuid * Z * list byte * value) : result ArchiveError unit :=
  let '(_, _, snapshot, content_json) := r in
  if is_cancelled k then Err ACancelled
  else if negb (spawns k) then Err AWorker
  else if negb (applied (call k [load])) then Err (AInvalid (bs "revision native load"))
  else
    update ←
      match call k [load; RArchiveRestore snapshot 1] with
      | SOk _ false _ (Some bytes) _ _ => decode_b64 bytes
      | SMalformed detail => Err (AInvalid detail)
      | _ => Err (AInvalid (bs "revision snapshot"))
      end;
    let sent := [load; RArchiveRestore snapshot 1; RApply update 1] in
    if negb (applied (call k sent)) then Err (AInvalid (bs "revision/native disagreement"))
    else
      projected ← projection k sent;
      if value_eq projected content_json then Ok tt else Err (AInvalid (bs "revision/native disagreement")).

Fixpoint check_revisions (k : nat) (load : Request) (revisions : list (uuid * Z * list byte * value)) : result ArchiveError unit :=
  match revisions with
  | [] => Ok tt
  | r :: rest => _ ← check_revision k load r; check_revisions (S k) load rest
  end.

Definition inspect_native_target (target : NativeTargetInput) (binding : str)
    (accept : NativeArchiveInventory -> result ArchiveError unit) : result ArchiveError NativeArchiveInventory :=
  if negb (t_encoding target =? 1) || existsb (fun r => negb (r.1.1.2 =? 1)) (t_revisions target)
  then Err (AUnsupported (bs "native encoding"))
  else if is_cancelled 0 then Err ACancelled
  else
    let tail := snd <$> t_tail target in
    let archive_load := RArchiveLoad (Some (t_snapshot target)) tail 1 binding in
    if negb (spawns 0) then Err AWorker
    else
      report ←
        match call 0 [archive_load] with
        | SOk true false true _ _ (Some report) => _ ← accept report; Ok report
        | SResourceLimit => Err ALimit
        | _ => Err (AInvalid (bs "native dependencies or inventory load"))
        end;
      projected ← projection 0 [archive_load];
      if negb (same_body projected (t_body target)) then Err (AInvalid (bs "native/body disagreement"))
      else
        _ ← check_revisions 1 (RLoad (Some (t_snapshot target)) tail 1) (t_revisions target);
        Ok report.

End history.
