(* ===== verification/NativeHistoryTheorems.v ===== *)
(** * Theorems about retained native history

    [content_digest_binds] and [binding_binds]: equal digests are equal
    contents or a collision of the hash. [canonical_history_exact],
    [closure_blocker_exact] and [inspect_exact] give exactly the histories,
    reports and targets that are accepted. *)

From stdpp Require Import base list numbers strings sets.
From Stdlib Require Import ZArith Lia.
From S2P Require Import Prelude Text Uuid Json JsonInstance Frame Zip ZipFacts Float EngineLimits NativeHistory.

(** ** Length frames *)

Definition addressable (fs : list (list byte)) : Prop := Forall (fun b => len b < 2 ^ 64) fs.

Lemma le_bytes_inj n a b :
  0 <= a < 2 ^ (8 * Z.of_nat n) -> 0 <= b < 2 ^ (8 * Z.of_nat n) -> le_bytes n a = le_bytes n b -> a = b.
Proof. intros Ha Hb E. by rewrite <- (from_le_le_bytes n a), E, from_le_le_bytes. Qed.

Lemma field_app_inj b b' rest rest' :
  len b < 2 ^ 64 -> len b' < 2 ^ 64 ->
  NativeHistory.field b ++ rest = NativeHistory.field b' ++ rest' -> b = b' /\ rest = rest'.
Proof.
  intros Hb Hb'. unfold NativeHistory.field. rewrite <- !app_assoc. intros E.
  apply app_inj_1 in E as [E1 E2]; [|by rewrite !le_bytes_length].
  apply le_bytes_inj in E1; [|pose proof (len_nonneg b); change (8 * Z.of_nat 8) with 64; lia
                             |pose proof (len_nonneg b'); change (8 * Z.of_nat 8) with 64; lia].
  apply app_inj_1 in E2 as [-> ->]; [done|]. unfold len in E1. lia.
Qed.

Lemma field_not_nil b : NativeHistory.field b <> [].
Proof. done. Qed.

Lemma fields_inj fs fs' :
  addressable fs -> addressable fs' -> NativeHistory.fields fs = NativeHistory.fields fs' -> fs = fs'.
Proof.
  intros H. revert fs'. induction H as [|b fs Hb _ IH]; intros fs' H'; destruct H' as [|b' fs' Hb' H']; [done..|].
  change (NativeHistory.fields (b :: fs)) with (NativeHistory.field b ++ NativeHistory.fields fs).
  change (NativeHistory.fields (b' :: fs')) with (NativeHistory.field b' ++ NativeHistory.fields fs').
  intros E. apply field_app_inj in E as [-> E]; [|done..]. f_equal. by apply IH.
Qed.

(** Items of [k] fields each, as many of them on both sides. *)
Lemma bind_app_inj {A} (P : A -> Prop) (f : A -> list (list byte)) k :
  (forall x, length (f x) = k) -> (forall x y, P x -> P y -> f x = f y -> x = y) ->
  forall l l' r r', Forall P l -> Forall P l' -> length l = length l' ->
  (l ≫= f) ++ r = (l' ≫= f) ++ r' -> l = l' /\ r = r'.
Proof.
  intros Hk Hinj l. induction l as [|x l IH]; intros [|y l'] r r' Hl Hl' Hn; try done.
  apply Forall_cons in Hl as [Hx Hl]. apply Forall_cons in Hl' as [Hy Hl'].
  rewrite !bind_cons, <- !app_assoc. intros E.
  apply app_inj_1 in E as [E1 E2]; [|by rewrite !Hk].
  apply Hinj in E1 as ->; [|done..].
  apply IH in E2 as [-> ->]; [done..|]. simpl in Hn. lia.
Qed.

Lemma int_bytes_inj n a b :
  (0 < n)%nat ->
  - 2 ^ (8 * Z.of_nat n - 1) <= a < 2 ^ (8 * Z.of_nat n - 1) ->
  - 2 ^ (8 * Z.of_nat n - 1) <= b < 2 ^ (8 * Z.of_nat n - 1) -> int_bytes n a = int_bytes n b -> a = b.
Proof.
  intros Hn Ha Hb E. unfold int_bytes, wrap in E.
  assert (Hp : 0 < 2 ^ (8 * Z.of_nat n)) by (apply Z.pow_pos_nonneg; lia).
  assert (H2 : 2 ^ (8 * Z.of_nat n) = 2 * 2 ^ (8 * Z.of_nat n - 1)).
  { rewrite <- Z.pow_succ_r by lia. f_equal. lia. }
  apply le_bytes_inj in E; [|by apply Z.mod_pos_bound..].
  pose proof (Z.div_mod a (2 ^ (8 * Z.of_nat n))). pose proof (Z.div_mod b (2 ^ (8 * Z.of_nat n))).
  set (m := 2 ^ (8 * Z.of_nat n)) in *. set (h := 2 ^ (8 * Z.of_nat n - 1)) in *.
  assert (a / m = b / m); [|lia]. nia.
Qed.

Definition i16 (z : Z) : Prop := - 2 ^ 15 <= z < 2 ^ 15.
Definition i64 (z : Z) : Prop := - 2 ^ 63 <= z < 2 ^ 63.

Lemma int_bytes_length n z : length (int_bytes n z) = n.
Proof. apply le_bytes_length. Qed.
Lemma i16_inj a b : i16 a -> i16 b -> int_bytes 2 a = int_bytes 2 b -> a = b.
Proof. intros. by apply (int_bytes_inj 2); [lia|..]. Qed.
Lemma i64_inj a b : i64 a -> i64 b -> int_bytes 8 a = int_bytes 8 b -> a = b.
Proof. intros. by apply (int_bytes_inj 8); [lia|..]. Qed.

Section inj.
Context {U : UuidLib} {UL : UuidLaws U} {J : SerdeJson} {JL : SerdeJsonLaws J}.
Context (sha256 : list byte -> list byte).
Abbreviation value := (value number).

Lemma uuid_bytes_length u : length (uuid_bytes u) = 16%nat.
Proof. unfold uuid_bytes. by rewrite length_reverse, le_bytes_length. Qed.
Lemma uuid_bytes_inj u v : uuid_bytes u = uuid_bytes v -> u = v.
Proof.
  intros E. apply as_u128_inj. apply (inj reverse) in E. by apply le_bytes_inj in E; [|apply as_u128_range..].
Qed.
Lemma json_inj v v' : value_wf v -> value_wf v' -> json v = json v' -> v = v'.
Proof.
  intros (s & E & _ & P)%to_vec_from (s' & E' & _ & P')%to_vec_from. unfold json. rewrite E, E'. simpl. congruence.
Qed.
Lemma count_inj {A B} (l : list A) (l' : list B) : len l < 2 ^ 64 -> len l' < 2 ^ 64 -> count l = count l' -> length l = length l'.
Proof.
  intros H H' E. unfold count in E. apply le_bytes_inj in E; unfold len in *; change (8 * Z.of_nat 8) with 64; lia.
Qed.
Lemma optional_inj {A} (f : A -> list byte) (o o' : option A) :
  (forall x y, o = Some x -> o' = Some y -> f x = f y -> x = y) -> optional (f <$> o) = optional (f <$> o') -> o = o'.
Proof. destruct o, o'; simpl; intros Hf E; try done. injection E as E. f_equal. by apply Hf. Qed.

(** Component-wise equalities of two lists of fields, without computing them. *)
Ltac split_fields E :=
  let H := fresh E in
  repeat (apply (inj2 cons) in E as [H E]; let H' := fresh "E" in rename H into H'); clear E.

(** ** The ranges of the Rust types *)

Definition tail_wf (t : Z * uuid * list byte) : Prop := i64 t.1.1.
Definition receipt_wf (r : Receipt) : Prop := i64 r.1.1.1.2 /\ i64 r.1.1.2.
Definition revision_wf (r : uuid * Z * list byte * value) : Prop := i16 r.1.1.2 /\ value_wf r.2.
Definition meta_wf (m : RetainedRevisionMeta) : Prop :=
  from_option i64 True (m_restore_base_tail_seq m) /\ from_option i64 True (m_restore_committed_tail_seq m).

Record target_wf (t : NativeTargetInput) : Prop := {
  tw_encoding : i16 (t_encoding t);
  tw_cutoff : i64 (t_cutoff t);
  tw_tail_seq : i64 (t_tail_seq t);
  tw_body : value_wf (t_body t);
  tw_tail : Forall tail_wf (t_tail t);
  tw_revisions : Forall revision_wf (t_revisions t);
  tw_len : len (t_tail t) < 2 ^ 64 /\ len (t_revisions t) < 2 ^ 64;
}.

(** Integers and identifiers determined by their bytes. *)
Ltac unbytes :=
  repeat match goal with
  | E : uuid_bytes _ = uuid_bytes _ |- _ => apply uuid_bytes_inj in E
  | E : int_bytes 8 _ = int_bytes 8 _ |- _ => apply i64_inj in E; [|done..]
  | E : int_bytes 2 _ = int_bytes 2 _ |- _ => apply i16_inj in E; [|done..]
  | E : json _ = json _ |- _ => apply json_inj in E; [|done..]
  end; subst.

Lemma tail_fields_inj x y : tail_wf x -> tail_wf y -> tail_fields x = tail_fields y -> x = y.
Proof.
  destruct x as [[s o] b], y as [[s' o'] b']. unfold tail_wf, tail_fields. simpl. intros H H' E. split_fields E. by unbytes.
Qed.
Lemma receipt_fields_inj x y : receipt_wf x -> receipt_wf y -> receipt_fields x = receipt_fields y -> x = y.
Proof.
  destruct x as [[[[o s] n] h] a], y as [[[[o' s'] n'] h'] a']. unfold receipt_wf, receipt_fields. simpl.
  intros [H1 H2] [H1' H2'] E. split_fields E. by unbytes.
Qed.
Lemma revision_fields_inj x y : revision_wf x -> revision_wf y -> revision_fields x = revision_fields y -> x = y.
Proof.
  destruct x as [[[o s] b] v], y as [[[o' s'] b'] v']. unfold revision_wf, revision_fields. simpl.
  intros [H1 H2] [H1' H2'] E. split_fields E. by unbytes.
Qed.
Lemma created_by_inj (o o' : option uuid) :
  match o with Some id => uuid_bytes id | None => [] end = match o' with Some id => uuid_bytes id | None => [] end -> o = o'.
Proof.
  destruct o as [u|], o' as [u'|]; intros E; [by apply uuid_bytes_inj in E as ->|..|done];
    apply (f_equal length) in E; rewrite uuid_bytes_length in E; done.
Qed.
Lemma optional_uuid_inj (o o' : option uuid) : optional (uuid_bytes <$> o) = optional (uuid_bytes <$> o') -> o = o'.
Proof. apply optional_inj. intros x y _ _. apply uuid_bytes_inj. Qed.
Lemma optional_i64_inj o o' :
  from_option i64 True o -> from_option i64 True o' -> optional (int_bytes 8 <$> o) = optional (int_bytes 8 <$> o') -> o = o'.
Proof. intros H H'. apply optional_inj. intros x y -> ->. by apply i64_inj. Qed.

Lemma meta_fields_inj x y : meta_wf x -> meta_wf y -> meta_fields x = meta_fields y -> x = y.
Proof.
  destruct x as [r c a t f k b d], y as [r' c' a' t' f' k' b' d']. unfold meta_wf, meta_fields. cbn [m_reason m_created_by m_created_at m_text m_restored_from_id
    m_restore_correlation_id m_restore_base_tail_seq m_restore_committed_tail_seq].
  intros [H1 H2] [H1' H2'] E. split_fields E.
  repeat match goal with
  | E : optional (uuid_bytes <$> _) = _ |- _ => apply optional_uuid_inj in E
  | E : optional (int_bytes 8 <$> _) = _ |- _ => apply optional_i64_inj in E; [|done..]
  | E : match _ with Some _ => _ | None => _ end = _ |- _ => apply created_by_inj in E
  end. by subst.
Qed.

(** The digested bytes determine everything that is digested. *)
Lemma content_fields_inj t t' receipts receipts' metas metas' :
  target_wf t -> target_wf t' -> Forall receipt_wf receipts -> Forall receipt_wf receipts' ->
  Forall meta_wf metas -> Forall meta_wf metas' ->
  len receipts < 2 ^ 64 -> len receipts' < 2 ^ 64 -> len metas < 2 ^ 64 -> len metas' < 2 ^ 64 ->
  content_fields t receipts metas = content_fields t' receipts' metas' -> t = t' /\ receipts = receipts' /\ metas = metas'.
Proof.
  intros [We Wc Wt Wb Wtl Wr [Wl1 Wl2]] [We' Wc' Wt' Wb' Wtl' Wr' [Wl1' Wl2']] Hr Hr' Hm Hm' Hlr Hlr' Hlm Hlm' E.
  unfold content_fields in E. destruct t as [k i e c s p tl b r], t' as [k' i' e' c' s' p' tl' b' r']. cbn [t_kind t_id t_encoding t_cutoff t_tail_seq t_snapshot t_tail t_body t_revisions] in *.
  cbn [app] in E. repeat apply (inj2 cons) in E as [? E].
  unbytes.
  repeat match goal with
  | E : count _ = count _ |- _ => apply count_inj in E; [|done..]
  end.
  apply (bind_app_inj tail_wf _ 3) in E as [-> E]; [|done|apply tail_fields_inj|done..].
  apply (inj2 cons) in E as [Ec E]. apply count_inj in Ec; [|done..].
  apply (bind_app_inj receipt_wf _ 5) in E as [-> E]; [|by intros [[[[]]]]|apply receipt_fields_inj|done..].
  apply (inj2 cons) in E as [Ec2 E]. apply count_inj in Ec2; [|done..].
  apply (bind_app_inj revision_wf _ 4) in E as [-> E]; [|by intros [[[]]]|apply revision_fields_inj|done..].
  apply (inj2 cons) in E as [Ec3 E]. apply count_inj in Ec3; [|done..].
  rewrite <- (app_nil_r (metas ≫= _)), <- (app_nil_r (metas' ≫= _)) in E.
  apply (bind_app_inj meta_wf _ 8) in E as [-> E]; [|done|apply meta_fields_inj|done..].
  done.
Qed.
(** The bytes of a binding have no counts, but a retained update opens with
    eight bytes and a revision with sixteen. *)
Definition revision_head (r : uuid * Z * list byte * value) : list (list byte) := [uuid_bytes r.1.1.1; int_bytes 2 r.1.1.2; r.1.2].

Lemma revision_heads_inj (l l' : list (uuid * Z * list byte * value)) :
  Forall (fun r => i16 r.1.1.2) l -> Forall (fun r => i16 r.1.1.2) l' ->
  (l ≫= revision_head) = (l' ≫= revision_head) -> fst <$> l = fst <$> l'.
Proof.
  intros H. revert l'. induction H as [|x l Hx _ IH]; intros l' H'; destruct H' as [|y l' Hy H']; [done..|].
  rewrite !bind_cons. unfold revision_head at 1 3. cbn [app]. intros E. repeat apply (inj2 cons) in E as [? E].
  rewrite !fmap_cons, (IH l' H' E). f_equal. destruct x as [[[]]], y as [[[]]]. simpl in *. by unbytes.
Qed.

Lemma binding_tail_inj tail tail' (l l' : list (uuid * Z * list byte * value)) :
  Forall tail_wf tail -> Forall tail_wf tail' ->
  (tail ≫= tail_fields) ++ (l ≫= revision_head) = (tail' ≫= tail_fields) ++ (l' ≫= revision_head) ->
  tail = tail' /\ (l ≫= revision_head) = (l' ≫= revision_head).
Proof.
  assert (Hhead : forall t tail r (l : list (uuid * Z * list byte * value)),
    ((t :: tail) ≫= tail_fields) ++ r <> (l ≫= revision_head)).
  { intros t ta r [|x k]; [done|]. rewrite !bind_cons. unfold tail_fields at 1, revision_head at 1. cbn [app]. intros E.
    apply (inj2 cons) in E as [E _]. apply (f_equal length) in E. by rewrite int_bytes_length, uuid_bytes_length in E. }
  intros H. revert tail'. induction H as [|x tail Hx _ IH]; intros tail' H'; destruct H' as [|y tail' Hy H']; [done|..].
  - intros E. symmetry in E. by apply Hhead in E.
  - intros E. by apply Hhead in E.
  - rewrite !bind_cons, <- !app_assoc. intros E. apply app_inj_1 in E as [E1 E2]; [|done].
    apply tail_fields_inj in E1 as ->; [|done..]. apply IH in E2 as [-> E2]; done.
Qed.

(** C23: the content digest binds the whole retained content. When two contents
    have one digest, and the hash does not collide on their two framed inputs,
    then stored body, state, cut, retained tail, receipts, revisions and their
    metadata are all the same: the length frames, counts and presence marks
    leave no two contents with the same input. *)
Theorem content_digest_binds t t' receipts receipts' metas metas' :
  target_wf t -> target_wf t' -> Forall receipt_wf receipts -> Forall receipt_wf receipts' ->
  Forall meta_wf metas -> Forall meta_wf metas' ->
  len receipts < 2 ^ 64 -> len receipts' < 2 ^ 64 -> len metas < 2 ^ 64 -> len metas' < 2 ^ 64 ->
  addressable (content_fields t receipts metas) -> addressable (content_fields t' receipts' metas') ->
  (let input := NativeHistory.fields (content_fields t receipts metas) in
   let input' := NativeHistory.fields (content_fields t' receipts' metas') in
   sha256 input = sha256 input' -> input = input') ->
  target_content_digest sha256 t receipts metas = target_content_digest sha256 t' receipts' metas' ->
  t = t' /\ receipts = receipts' /\ metas = metas'.
Proof.
  intros W W' Hr Hr' Hm Hm' ???? A A' Hc E%hex_encode_inj%Hc%fields_inj; [|done..].
  by apply content_fields_inj in E.
Qed.

(** The capture binding binds workspace, actor, read time, target, cut, state,
    tail and the identifier, encoding and bytes of every revision, although it
    writes no counts. *)
Theorem binding_binds w w' a a' at_ at_' t t' :
  target_wf t -> target_wf t' ->
  addressable (binding_fields w a at_ t) -> addressable (binding_fields w' a' at_' t') ->
  (let input := NativeHistory.fields (binding_fields w a at_ t) in
   let input' := NativeHistory.fields (binding_fields w' a' at_' t') in
   sha256 input = sha256 input' -> input = input') ->
  target_binding sha256 w a at_ t = target_binding sha256 w' a' at_' t' ->
  w = w' /\ a = a' /\ at_ = at_' /\
  (t_kind t, t_id t, t_encoding t, t_cutoff t, t_tail_seq t, t_snapshot t, t_tail t, fst <$> t_revisions t) =
  (t_kind t', t_id t', t_encoding t', t_cutoff t', t_tail_seq t', t_snapshot t', t_tail t', fst <$> t_revisions t').
Proof.
  intros [We Wc Wt _ Wtl Wr _] [We' Wc' Wt' _ Wtl' Wr' _] A A' Hc E%hex_encode_inj%Hc%fields_inj; [|done..].
  unfold binding_fields in E. cbn [app] in E. repeat apply (inj2 cons) in E as [? E].
  apply binding_tail_inj in E as [Et Er]; [|done..].
  apply revision_heads_inj in Er; [|by eapply Forall_impl; [eassumption|intros ? []]..].
  destruct t, t'. simpl in *. unbytes. by rewrite Er.
Qed.
End inj.

(** ** The canonical shape *)

Section canonical.
Context {U : UuidLib} (sha256 : list byte -> list byte).

(** A receipt the loop accepts. *)
Definition receipt_ok (tail_seq : Z) (r : Receipt) : Prop :=
  let '(_, seq, n, sha, _) := r in 1 <= seq <= tail_seq /\ 1 <= n <= 8 * 1024 * 1024 /\ len sha = 32.
Definition receipt_op (r : Receipt) : uuid := r.1.1.1.1.

Lemma check_receipts_exact tail_seq ops receipts :
  check_receipts tail_seq ops receipts = Ok tt <->
  NoDup (receipt_op <$> receipts) /\ (forall r, r ∈ receipts -> receipt_op r ∉ ops) /\ Forall (receipt_ok tail_seq) receipts.
Proof.
  revert ops. induction receipts as [|[[[[op seq] n] sha] a] rest IH]; intros ops; simpl.
  - split; [|done]. intros _. split_and!; [constructor|set_solver|done].
  - rewrite NoDup_cons, Forall_cons. unfold receipt_ok at 1, in_range, receipt_op at 1.
    simpl. destruct (_ || _) eqn:G.
    + split; [done|]. intros ([Hn Hnd] & Hf & (H1 & H2 & H3) & Hr). exfalso.
      rewrite bool_decide_false in G by (apply (Hf (op, seq, n, sha, a)); left).
      bool_to_prop. lia.
    + bool_to_prop. rewrite IH. split.
      * intros (Hnd & Hf & Hr). split_and!; try done; try lia.
        -- intros (r & E & Hi)%list_elem_of_fmap. apply (Hf r Hi). rewrite E. left.
        -- intros r [->|Hi]%elem_of_cons; [done|]. intros Hx. apply (Hf r Hi). by right.
      * intros ([Hn Hnd] & Hf & _ & Hr). split_and!; try done.
        intros r Hi [E|Hx]%elem_of_cons; [|by apply (Hf r); [right|]].
        apply Hn. rewrite <- E. by apply list_elem_of_fmap_2.
Qed.

Lemma receipt_matches_spec op seq bytes (receipts : list Receipt) :
  existsb (receipt_matches sha256 op seq bytes) receipts = true <->
  exists actor, (op, seq, len bytes, sha256 bytes, actor) ∈ receipts.
Proof.
  rewrite existsb_exists. split.
  - intros ([[[[op' s'] n'] h'] a] & Hi & Hm). unfold receipt_matches in Hm. bool_to_prop. subst.
    exists a. by apply list_elem_of_In.
  - intros (a & Hi). eexists. split; [by apply list_elem_of_In|]. unfold receipt_matches.
    by rewrite !bool_decide_true, !Z.eqb_refl.
Qed.

(** The retained updates from [seq] on. *)
Definition tail_backed (receipts : list Receipt) (seq : Z) (tail : list (Z * uuid * list byte)) : Prop :=
  forall i row_seq op bytes, tail !! i = Some (row_seq, op, bytes) ->
    row_seq = seq + 1 + Z.of_nat i /\ bytes <> [] /\ exists actor, (op, row_seq, len bytes, sha256 bytes, actor) ∈ receipts.

Lemma tail_backed_cons receipts seq row_seq op bytes tail :
  tail_backed receipts seq ((row_seq, op, bytes) :: tail) <->
  (row_seq = seq + 1 /\ bytes <> [] /\ exists actor, (op, row_seq, len bytes, sha256 bytes, actor) ∈ receipts) /\
  tail_backed receipts (seq + 1) tail.
Proof.
  unfold tail_backed. split.
  - intros H. split.
    + destruct (H 0%nat _ _ _ eq_refl) as (-> & ?). split; [lia|done].
    + intros i r o b Hi. destruct (H (S i) _ _ _ Hi) as (-> & ?). split; [lia|done].
  - intros [H0 H] [|i] r o b Hi; simpl in Hi.
    + injection Hi as <- <- <-. destruct H0 as (-> & ?). split; [lia|done].
    + destruct (H i _ _ _ Hi) as (-> & ?). split; [lia|done].
Qed.

Lemma check_tail_exact receipts seq tail final :
  final <= i64_max ->
  (check_tail sha256 receipts seq tail = Ok final <-> final = seq + len tail /\ (seq + len tail <= i64_max) /\ tail_backed receipts seq tail).
Proof.
  intros Hf. revert seq. induction tail as [|[[row_seq op] bytes] tail IH]; intros seq; simpl.
  - unfold len; simpl. split; [intros [= ->]|intros (-> & _)]; [|f_equal; lia].
    split_and!; [lia..|]. intros i ???. by rewrite lookup_nil.
  - rewrite len_cons, tail_backed_cons. destruct (Z.ltb_spec i64_max (seq + 1)) as [Ho|Ho].
    { split; [done|]. pose proof (len_nonneg tail). lia. }
    destruct (_ || _) eqn:G.
    + split; [done|]. intros (_ & _ & (-> & Hb & Hx) & _). exfalso.
      apply receipt_matches_spec in Hx. rewrite bool_decide_false, Hx, Z.eqb_refl in G by done. done.
    + bool_to_prop. subst row_seq. rewrite IH. rewrite <- receipt_matches_spec. rewrite !Z.add_assoc.
      intuition (try lia; try done).
Qed.

(** The accepted histories: a cut before the tail, receipts with distinct
    operations, positions up to the tail and a plausible payload, and a tail
    that follows the cut without a gap up to [tail_seq], every update of it
    backed by the receipt of its operation, position, length and hash. *)
Theorem canonical_history_exact cutoff tail_seq tail receipts :
  tail_seq <= i64_max ->
  (check_canonical_history sha256 cutoff tail_seq tail receipts = Ok tt <->
   0 <= cutoff <= tail_seq /\ NoDup (receipt_op <$> receipts) /\ Forall (receipt_ok tail_seq) receipts /\
   tail_seq = cutoff + len tail /\ tail_backed receipts cutoff tail).
Proof.
  intros Hm. unfold check_canonical_history. destruct (_ || _) eqn:G.
  { split; [done|]. bool_to_prop. lia. }
  bool_to_prop. pose proof (check_receipts_exact tail_seq [] receipts) as Hr.
  pose proof (check_tail_exact receipts cutoff tail tail_seq Hm) as Ht.
  destruct (check_receipts tail_seq [] receipts) as [[]|e] eqn:Er; cbn [mbind result_bind].
  2: { split; [done|]. intros (_ & Hn & Hf & _). assert (Err e = Ok tt); [|done]. apply Hr. split_and!; [done|set_solver|done]. }
  destruct (proj1 Hr eq_refl) as (Hn & _ & Hf).
  destruct (check_tail sha256 receipts cutoff tail) as [q|e] eqn:Et; cbn [mbind result_bind].
  2: { split; [done|]. intros (_ & _ & _ & E & Hb). assert (Err e = Ok tail_seq); [|done]. apply Ht. split_and!; [done|lia|done]. }
  destruct (Z.eqb_spec q tail_seq) as [->|Hq]; simpl.
  - destruct (proj1 Ht eq_refl) as (E & _ & Hb). split; [|done]. intros _. split_and!; done || lia.
  - split; [done|]. intros (_ & _ & _ & E & Hb). exfalso. apply Hq. assert (@Ok ArchiveError Z q = Ok tail_seq) as [= ->]; [|done].
    apply Ht. split_and!; [done|lia|done].
Qed.

(** No operation is retained twice. *)
Lemma canonical_ops_distinct receipts cutoff tail :
  NoDup (receipt_op <$> receipts) -> tail_backed receipts cutoff tail -> NoDup ((fun r => r.1.2) <$> tail).
Proof.
  intros Hn Hb. apply NoDup_alt. intros i j op Hi Hj.
  rewrite list_lookup_fmap in Hi, Hj.
  destruct (tail !! i) as [[[s o] b]|] eqn:Ei; [|done]. destruct (tail !! j) as [[[s' o'] b']|] eqn:Ej; [|done].
  simpl in Hi, Hj. injection Hi as ->. injection Hj as ->.
  destruct (Hb i _ _ _ Ei) as (Es & _ & a & Ha). destruct (Hb j _ _ _ Ej) as (Es' & _ & a' & Ha').
  apply list_elem_of_lookup in Ha as [k Hk]. apply list_elem_of_lookup in Ha' as [k' Hk'].
  assert (k = k') as <-.
  { apply (NoDup_lookup _ _ _ op Hn); rewrite list_lookup_fmap; [exact (f_equal (fmap receipt_op) Hk)|exact (f_equal (fmap receipt_op) Hk')]. }
  rewrite Hk in Hk'. injection Hk' as E _ _ _. lia.
Qed.

End canonical.

(** ** The closure policy *)

Section closure.
Context {U : UuidLib}.

Lemma occurs_spec sub s : occurs sub s = true <-> exists a b, s = a ++ sub ++ b.
Proof.
  induction s as [|c s IH]; simpl; rewrite ?orb_false_r, ?orb_true_iff, bool_decide_eq_true.
  - split.
    + intros [b E]. by exists [], b.
    + intros (a & b & E). destruct a; [by exists b|done].
  - rewrite IH. split.
    + intros [[b E]|(a & b & ->)]; [by exists [], b|by exists (c :: a), b].
    + intros ([|x a] & b & E); [left; by exists b|right]. injection E as _ ->. by exists a, b.
Qed.

(** A retained reference the closure can carry. *)
Definition carried (present : ReferenceKind -> uuid -> bool) (r : RetainedReference) : Prop :=
  rr_certainty r = FixedKind /\
  match rr_kind r with
  | RkLinkHref => ~ exists a b, rr_value r = a ++ bs "/api/v1/" ++ b
  | k => exists id, try_parse (rr_value r) = Some id /\ present k id = true
  end.

Lemma reference_blocker_exact present refs : reference_blocker present refs = None <-> Forall (carried present) refs.
Proof.
  induction refs as [|r rest IH]; [done|]. rewrite Forall_cons, <- IH. unfold carried. cbn [reference_blocker].
  destruct (rr_certainty r); [|intuition congruence].
  assert (Hid : match try_parse (rr_value r) with
     | None => Some BReferenceIdentifier
     | Some id => if present (rr_kind r) id then reference_blocker present rest else Some BOutsideClosure
     end = None <-> (exists id, try_parse (rr_value r) = Some id /\ present (rr_kind r) id = true) /\ reference_blocker present rest = None).
  { destruct (try_parse (rr_value r)) as [id|]; [|split; [done|by intros [(? & ? & ?) _]]].
    split.
    - intros E. destruct (present (rr_kind r) id) eqn:Ep; [|done]. by split; [exists id|].
    - intros [(id' & [= <-] & ->) ?]. done. }
  destruct (rr_kind r); cbn [is_link]; try (rewrite Hid; tauto).
  rewrite <- occurs_spec. destruct (occurs _ _); intuition done.
Qed.

(** The first reference that is not carried decides the reason. *)
Lemma reference_blocker_first present refs b :
  reference_blocker present refs = Some b ->
  exists pre r post, refs = pre ++ r :: post /\ Forall (carried present) pre /\ ~ carried present r /\
    reference_blocker present [r] = Some b.
Proof.
  induction refs as [|r rest IH]; [done|]. intros E.
  destruct (reference_blocker present [r]) as [b'|] eqn:E1.
  - exists [], r, rest. split_and!; try done.
    + intros Hc. assert (reference_blocker present [r] = None); [|congruence]. by apply reference_blocker_exact, Forall_singleton.
    + revert E E1. simpl. repeat case_match; congruence.
  - assert (E2 : reference_blocker present rest = Some b).
    { revert E E1. simpl. repeat case_match; congruence. }
    apply reference_blocker_exact in E1. apply Forall_cons in E1 as [E1 _].
    destruct (IH E2) as (pre & r' & post & -> & Hp & Hr & Hb). exists (r :: pre), r', post. split_and!; [done|by constructor|done..].
Qed.

(** The closure policy fails closed. Retained history passes exactly when
    the engine's inventory is complete, without diagnostics or unavailable
    intervals, and every retained reference is certain and either a link that
    does not point at this application's API or an identifier that parses and
    names an object of its kind inside the closure. *)
Theorem closure_blocker_exact report present :
  retained_closure_blocker report present = None <->
  ni_complete report = true /\ ni_diagnostics report = [] /\ ni_unavailable report = [] /\
  Forall (carried present) (ni_references report).
Proof.
  unfold retained_closure_blocker. rewrite <- reference_blocker_exact.
  destruct (ni_complete report), (ni_diagnostics report), (ni_unavailable report); simpl; intuition congruence.
Qed.

(** What is logged of a refusal is one of the listed reasons or a category,
    never a text of the archive. *)
Theorem log_reason_bounded e :
  log_reason e ∈ LOG_REASONS ++ [bs "limit"; bs "worker"; bs "cancelled"; bs "invalid:unclassified"; bs "unsupported:unclassified"].
Proof.
  assert (Hk : forall d c, c ∈ [bs "invalid:unclassified"; bs "unsupported:unclassified"] ->
    default c (known d) ∈ LOG_REASONS ++ [bs "limit"; bs "worker"; bs "cancelled"; bs "invalid:unclassified"; bs "unsupported:unclassified"]).
  { intros d c Hc. rewrite elem_of_app. unfold known. destruct (find _ _) as [r|] eqn:E; simpl.
    - left. apply find_some in E as [E _]. by apply list_elem_of_In.
    - right. set_solver. }
  destruct e; try (apply Hk; set_solver); rewrite elem_of_app; right; set_solver.
Qed.

(** Every blocker but the first is logged by its own reason. *)
Lemma blocker_reason_logged b :
  log_reason (AUnsupported (reason b)) = match b with BIncomplete => bs "unsupported:unclassified" | _ => reason b end.
Proof. by destruct b; vm_compute. Qed.

(** An accepted report fits the limits, whatever chunks it is written in. *)
Lemma counted_exact written max chunks n :
  0 <= written <= max -> max <= u64_max ->
  (counted written max chunks = Some n <-> n = written + len (concat chunks) /\ n <= max).
Proof.
  intros Hw Hm. revert written Hw. induction chunks as [|c chunks IH]; intros written Hw; simpl.
  - unfold len; simpl. split; [intros [= ->]|intros [-> _]; f_equal]; lia.
  - rewrite len_app. pose proof (len_nonneg c). pose proof (len_nonneg (concat chunks)). destruct (_ || _) eqn:G; bool_to_prop.
    + split; [done|]. lia.
    + rewrite IH by lia. rewrite Z.add_assoc. done.
Qed.

Theorem report_bounds_exact to_writer report binding limits :
  0 <= max_project_json_bytes limits <= u64_max ->
  (check_report_bounds to_writer report binding limits = Ok tt <->
   ni_schema_version report = 1 /\ ni_binding report = binding /\
   len (concat (to_writer report)) <= max_project_json_bytes limits /\
   iw_steps (ni_work report) <= max_project_nodes limits /\ iw_blocks (ni_work report) <= max_project_nodes limits /\
   iw_owned_bytes (ni_work report) <= max_load_bytes limits /\
   iw_inspected_bytes (ni_work report) <= sat_mul_u64 (max_load_bytes limits) 4 /\
   Forall (fun r => ur_len r <> 0 /\ ni_clock (ur_id r) + ur_len r <= u32_max) (ni_unavailable report)).
Proof.
  intros Hl. unfold check_report_bounds.
  assert (Hw : report_wire_fits to_writer report (max_project_json_bytes limits) = true <->
    len (concat (to_writer report)) <= max_project_json_bytes limits).
  { unfold report_wire_fits. rewrite bool_decide_eq_true. split.
    - intros [n E]. apply counted_exact in E; lia.
    - intros E. exists (len (concat (to_writer report))). apply counted_exact; lia. }
  assert (Hr : forallb range_ok (ni_unavailable report) = true <->
    Forall (fun r => ur_len r <> 0 /\ ni_clock (ur_id r) + ur_len r <= u32_max) (ni_unavailable report)).
  { rewrite forallb_forall, Forall_forall. split; intros H r Hi; specialize (H r); rewrite <- list_elem_of_In in *;
      specialize (H Hi); unfold range_ok in *; bool_to_prop; lia. }
  rewrite <- Hw, <- Hr. destruct (_ || _) eqn:G1; [split; [done|]; intros (E1 & E2 & _); by rewrite E1, bool_decide_true in G1|].
  bool_to_prop. destruct (report_wire_fits _ _ _) eqn:Ew; simpl; [|intuition done].
  destruct (_ || _) eqn:G2; [split; [done|]; bool_to_prop; lia|]. bool_to_prop.
  destruct (forallb _ _); [|intuition done]. split; [|done]. intros _. split_and!; done || lia.
Qed.
End closure.

(** ** The replay *)

Section replay.
Context {U : UuidLib} {J : SerdeJson}.
Abbreviation value := (value number).
Context (b64_decode : str -> option (list byte)) (value_eq : value -> value -> bool).
Context (spawns : nat -> bool) (call : nat -> list Request -> EngineStatus) (is_cancelled : nat -> bool).

Definition projects (k : nat) (sent : list Request) (v : value) : Prop :=
  exists a g u i, call k (sent ++ [RProject 1]) = SOk a false g u (Some v) i.
Definition did_apply (k : nat) (sent : list Request) : Prop := exists g u c i, call k sent = SOk true false g u c i.

(** What the [k]-th child does with one revision. *)
Definition replays (k : nat) (load : Request) (r : uuid * Z * list byte * value) : Prop :=
  let '(_, _, snapshot, content_json) := r in
  exists a g bytes c i update projected,
    is_cancelled k = false /\ spawns k = true /\ did_apply k [load] /\
    call k [load; RArchiveRestore snapshot 1] = SOk a false g (Some bytes) c i /\
    len bytes <= MAX_BYTES / 3 * 4 + 4 /\ b64_decode bytes = Some update /\
    did_apply k [load; RArchiveRestore snapshot 1; RApply update 1] /\
    projects k [load; RArchiveRestore snapshot 1; RApply update 1] projected /\ value_eq projected content_json = true.

Lemma applied_spec k sent : applied (call k sent) = true <-> did_apply k sent.
Proof.
  unfold did_apply. destruct (call k sent) as [[] [] g u c i|?| | |]; simpl; split; try done; try (intros (? & ? & ? & ? & E); discriminate E).
  intros _. by eexists _, _, _, _.
Qed.
Lemma projection_spec k sent v : projection call k sent = Ok v <-> projects k sent v.
Proof.
  unfold projection, projects. destruct (call k _) as [a [] g u [w|] i|?| | |]; split; try done;
    try (intros (? & ? & ? & ? & E); discriminate E).
  - intros [= ->]. by eexists _, _, _, _.
  - intros (? & ? & ? & ? & E). injection E as -> -> -> -> ->. done.
Qed.
Lemma decode_spec s b : decode_b64 b64_decode s = Ok b <-> len s <= MAX_BYTES / 3 * 4 + 4 /\ b64_decode s = Some b.
Proof.
  unfold decode_b64. destruct (Z.ltb_spec (MAX_BYTES / 3 * 4 + 4) (len s)); [split; [done|lia]|].
  destruct (b64_decode s); split; [intros [= ->]|intros [_ [= ->]]|..]; try done. by intros [_ ?].
Qed.

Lemma check_revision_exact k load r :
  check_revision b64_decode value_eq spawns call is_cancelled k load r = Ok tt <-> replays k load r.
Proof.
  destruct r as [[[id enc] snapshot] content]. unfold replays. cbn [check_revision]. split.
  - unfold check_revision. destruct (is_cancelled k); [done|]. destruct (spawns k); [|done]. simpl negb. cbv iota.
    destruct (applied (call k [load])) eqn:El; [|done]. apply applied_spec in El. simpl negb. cbv iota. intros E.
    apply bind_Ok in E as (update & Eu & E).
    destruct (call k [load; RArchiveRestore snapshot 1]) as [a [] g [bytes|] c i|?| | |] eqn:Er; try done.
    apply decode_spec in Eu as [Hl Hd].
    destruct (applied (call k [load; RArchiveRestore snapshot 1; RApply update 1])) eqn:Ea; [|done]. apply applied_spec in Ea.
    simpl negb in E. cbv iota zeta in E. apply bind_Ok in E as (projected & Ep%projection_spec & E).
    destruct (value_eq projected content) eqn:Ev; [|done].
    by exists a, g, bytes, c, i, update, projected.
  - intros (a & g & bytes & c & i & update & projected & Hc & Hs & Hl & Hr & Hn & Hd & Ha & Hp & Hv).
    unfold check_revision. apply applied_spec in Hl, Ha. apply projection_spec in Hp.
    rewrite Hc, Hs, Hl, Hr. simpl negb. cbv iota. rewrite (proj2 (decode_spec bytes update)) by done.
    cbn [mbind result_bind]. rewrite Ha. cbn [negb]. rewrite Hp. cbn [mbind result_bind]. by rewrite Hv.
Qed.

Lemma check_revisions_exact k load revisions :
  check_revisions b64_decode value_eq spawns call is_cancelled k load revisions = Ok tt <->
  forall i r, revisions !! i = Some r -> replays (k + i) load r.
Proof.
  revert k. induction revisions as [|r rest IH]; intros k; simpl.
  - split; [|done]. intros _ i r. by rewrite lookup_nil.
  - split.
    + intros ([] & E1%check_revision_exact & E2)%bind_Ok [|i] r' Hi; simpl in Hi.
      * injection Hi as <-. by rewrite Nat.add_0_r.
      * rewrite <- Nat.add_succ_comm. by apply (proj1 (IH (S k)) E2).
    + intros H. rewrite (proj2 (check_revision_exact k load r)); cbn [mbind result_bind].
      * apply IH. intros i r' Hi. rewrite Nat.add_succ_comm. by apply (H (S i)).
      * rewrite <- (Nat.add_0_r k). by apply (H 0%nat).
Qed.

(** What an inspected target is worth, and that nothing else is refused. The
    inspection returns a report exactly when the target and all its revisions
    have the one supported encoding; the first child loaded the captured state
    and tail under the capture's binding with nothing pending and answered this
    report; the caller accepted it; that child projects the stored body (or
    the product's empty pair); and for each revision, in a child of its own
    loaded with the same state and tail, the restored snapshot applied and
    projected exactly the stored content, with no cancellation between. *)
Theorem inspect_exact target binding accept report :
  inspect_native_target b64_decode value_eq spawns call is_cancelled target binding accept = Ok report <->
  t_encoding target = 1 /\ Forall (fun r => r.1.1.2 = 1) (t_revisions target) /\
  is_cancelled 0 = false /\ spawns 0 = true /\
  (let load := RArchiveLoad (Some (t_snapshot target)) (snd <$> t_tail target) 1 binding in
   (exists u c, call 0 [load] = SOk true false true u c (Some report)) /\ accept report = Ok tt /\
   exists projected, projects 0 [load] projected /\ same_body value_eq projected (t_body target) = true) /\
  (forall i r, t_revisions target !! i = Some r ->
     replays (S i) (RLoad (Some (t_snapshot target)) (snd <$> t_tail target) 1) r).
Proof.
  assert (Henc : negb (t_encoding target =? 1) || existsb (fun r => negb (r.1.1.2 =? 1)) (t_revisions target) = false <->
    t_encoding target = 1 /\ Forall (fun r => r.1.1.2 = 1) (t_revisions target)).
  { rewrite orb_false_iff, negb_false_iff, Z.eqb_eq, <- not_true_iff_false, existsb_exists, Forall_forall. split.
    - intros [H1 H2]. split; [done|]. intros r Hr. destruct (Z.eqb_spec r.1.1.2 1); [done|]. exfalso. apply H2.
      exists r. rewrite <- list_elem_of_In. split; [done|]. by apply negb_true_iff, Z.eqb_neq.
    - intros [H1 H2]. split; [done|]. intros (r & Hr & E). rewrite <- list_elem_of_In in Hr. by rewrite (H2 r Hr) in E. }
  pose proof (check_revisions_exact 1 (RLoad (Some (t_snapshot target)) (snd <$> t_tail target) 1) (t_revisions target)) as Hrev.
  unfold inspect_native_target. split.
  - destruct (_ || _) eqn:G; [done|]. destruct (proj1 Henc eq_refl) as [G1 G2].
    destruct (is_cancelled 0) eqn:Ec; [done|]. destruct (spawns 0) eqn:Es; [|done]. simpl negb. cbv iota zeta. intros E.
    apply bind_Ok in E as (rep & El & E).
    destruct (call 0 [_]) as [[] [] [] u c [rep'|]|?| | |] eqn:Ecall; try done.
    apply bind_Ok in El as ([] & Eacc & [= ->]).
    apply bind_Ok in E as (projected & Ep%projection_spec & E).
    destruct (same_body value_eq projected (t_body target)) eqn:Eb; [|done]. simpl negb in E. cbv iota in E.
    apply bind_Ok in E as ([] & Er & [= ->]).
    do 4 (split; [done|]). split; [|by apply Hrev]. split; [by exists u, c|]. split; [done|by exists projected].
  - intros (G1 & G2 & Hc & Hs & ((u & c & Hl) & Ha & projected & Hp%projection_spec & Hb) & Hr).
    rewrite (proj2 Henc) by done. rewrite Hc, Hs. simpl negb. cbv iota zeta. rewrite Hl, Ha. cbn [mbind result_bind].
    rewrite Hp. cbn [mbind result_bind]. rewrite Hb. simpl negb. cbv iota. rewrite (proj2 Hrev) by done. done.
Qed.
End replay.

(** ** A captured document *)

Definition uid (z : Z) (p : bool_decide (0 <= z < 2 ^ 128) = true) : uuid := Uuid128 z p.
Definition op_a : uuid := uid 1 eq_refl.
Definition op_b : uuid := uid 2 eq_refl.
Definition op_old : uuid := uid 9 eq_refl.
Definition sample_actor : uuid := uid 7 eq_refl.

(** A stand-in for the hash: the first 32 bytes, padded. *)
Definition toy_hash (b : list byte) : list byte := take 32 (b ++ replicate 32 Byte.x00).

Definition sample_tail : list (Z * uuid * list byte) := [(3, op_a, bs "ab"); (4, op_b, bs "c")].
Definition receipt_of (op : uuid) (seq : Z) (b : list byte) : Receipt := (op, seq, len b, toy_hash b, sample_actor).
Definition sample_receipts : list Receipt := [receipt_of op_old 1 (bs "z"); receipt_of op_a 3 (bs "ab"); receipt_of op_b 4 (bs "c")].

Lemma canonical_history_exact_witness :
  check_canonical_history toy_hash 2 4 sample_tail sample_receipts = Ok tt /\
  tail_backed toy_hash sample_receipts 2 sample_tail /\
  check_canonical_history toy_hash 1 4 sample_tail sample_receipts <> Ok tt.
Proof.
  assert (E : check_canonical_history toy_hash 2 4 sample_tail sample_receipts = Ok tt) by (vm_compute; reflexivity).
  split; [exact E|]. split.
  - destruct (canonical_history_exact toy_hash 2 4 sample_tail sample_receipts) as [H _]; [vm_compute; discriminate|].
    exact (proj2 (proj2 (proj2 (proj2 (H E))))).
  - destruct (canonical_history_exact toy_hash 1 4 sample_tail sample_receipts) as [H _]; [vm_compute; discriminate|].
    intros E'. destruct (H E') as (_ & _ & _ & Hl & _). vm_compute in Hl. discriminate.
Defined.

Definition sample_body : value number := VObject [(bs "content", VArray []); (bs "type", VString (bs "doc"))].
Definition sample_target (body : value number) : NativeTargetInput :=
  Target (bs "document") op_b 1 2 4 [] sample_tail body [(op_old, 1, [], sample_body)].
Definition sample_meta : RetainedRevisionMeta :=
  Meta (bs "session") None (bs "2026-10-03T00:00:00.000001Z") [] None (Some op_a) None (Some 0).

Lemma sample_wf : target_wf (sample_target sample_body).
Proof.
  split.
  1-3: unfold i16, i64; simpl; lia.
  - apply value_wfb_iff. vm_compute. reflexivity.
  - repeat constructor; unfold tail_wf, i64; simpl; lia.
  - apply Forall_singleton. split; [unfold i16; simpl; lia|]. apply value_wfb_iff. vm_compute. reflexivity.
  - split; vm_compute; reflexivity.
Qed.

Lemma sample_receipts_wf : Forall receipt_wf sample_receipts.
Proof. unfold sample_receipts. repeat (apply Forall_cons_2; [split; (split; [vm_compute; discriminate|reflexivity])|]). apply Forall_nil_2. Qed.
Lemma sample_meta_wf : Forall meta_wf [sample_meta].
Proof. apply Forall_singleton. split; [exact I|]. split; [vm_compute; discriminate|reflexivity]. Qed.

(** The body read back from its stored text gives the same digest, hence is the
    same body. *)
Lemma content_digest_binds_witness :
  from_slice (json sample_body) = Some sample_body /\
  sample_target sample_body = sample_target (default VNull (from_slice (json sample_body))).
Proof.
  assert (E : from_slice (json sample_body) = Some sample_body) by (vm_compute; reflexivity).
  split; [exact E|].
  refine (proj1 (content_digest_binds (fun b => b) (sample_target sample_body)
    (sample_target (default VNull (from_slice (json sample_body)))) sample_receipts sample_receipts [sample_meta] [sample_meta]
    sample_wf _ _ _ _ _ _ _ _ _ _ _ _ _)).
  - rewrite E. exact sample_wf.
  - exact sample_receipts_wf.
  - exact sample_receipts_wf.
  - exact sample_meta_wf.
  - exact sample_meta_wf.
  - vm_compute; reflexivity.
  - vm_compute; reflexivity.
  - vm_compute; reflexivity.
  - vm_compute; reflexivity.
  - repeat (constructor; [vm_compute; reflexivity|]). constructor.
  - repeat (constructor; [vm_compute; reflexivity|]). constructor.
  - cbv zeta. intros _. vm_compute. reflexivity.
  - vm_compute. reflexivity.
Defined.
