(* ===== verification/StreamHub.v ===== *)
(** * Event-stream admission ([src/streams/hub.rs])

    A slot counter and a shutdown flag, both atomics.  Each request runs
    [try_acquire] and, when admitted, later drops its guard; the atomic
    operations of different requests interleave freely. *)

From stdpp Require Import base list numbers relations.
From Stdlib Require Import ZArith Lia.
From S2P Require Import Prelude.

Definition MAX_CONCURRENT_STREAMS : Z := 64.

Record StreamHub := Hub { active : Z; shutting_down : bool }.

Definition hub_new : StreamHub := Hub 0 false.

Definition accepting (h : StreamHub) : bool := negb (shutting_down h).

Definition begin_shutdown (h : StreamHub) : StreamHub := Hub (active h) true.

(** [AtomicUsize::fetch_add] and [fetch_sub] wrap around. *)
Definition fetch_add (h : StreamHub) : Z * StreamHub := (active h, Hub (wrap 64 (active h + 1)) (shutting_down h)).
Definition fetch_sub (h : StreamHub) : StreamHub := Hub (wrap 64 (active h - 1)) (shutting_down h).

Inductive StreamAcquireError := Capacity | Stopped.

(** [try_acquire] without interruption; [Ok] is the guard. *)
Definition try_acquire (h : StreamHub) : result StreamAcquireError unit * StreamHub :=
  if negb (accepting h) then (Err Stopped, h)
  else
    let (prev, h) := fetch_add h in
    if MAX_CONCURRENT_STREAMS <=? prev then (Err Capacity, fetch_sub h)
    else (Ok tt, h).

(** [Drop for StreamGuard]. *)
Definition drop_guard (h : StreamHub) : StreamHub := fetch_sub h.

(** ** Interleaved requests *)

(** Where a request is between its atomic operations. *)
Inductive request :=
| Start                            (** before the shutdown check *)
| Accepted                         (** before the increment *)
| Overshot                         (** counted past the cap, before the decrement *)
| Holds                            (** owns a guard *)
| Refused (e : StreamAcquireError)
| Released.

(** The next atomic operation of a request. *)
Definition request_step (h : StreamHub) (q : request) : option (StreamHub * request) :=
  match q with
  | Start => Some (h, if accepting h then Accepted else Refused Stopped)
  | Accepted =>
    let (prev, h) := fetch_add h in
    Some (h, if MAX_CONCURRENT_STREAMS <=? prev then Overshot else Holds)
  | Overshot => Some (fetch_sub h, Refused Capacity)
  | Holds => Some (drop_guard h, Released)
  | Refused _ | Released => None
  end.

Inductive hub_step : StreamHub * list request -> StreamHub * list request -> Prop :=
| step_request h qs i q h' q' :
    qs !! i = Some q -> request_step h q = Some (h', q') -> hub_step (h, qs) (h', <[i := q']> qs)
| step_shutdown h qs : hub_step (h, qs) (begin_shutdown h, qs).

(** ** Facts *)

Definition holds (q : request) : Z := match q with Holds => 1 | _ => 0 end.
Definition overshot (q : request) : Z := match q with Overshot => 1 | _ => 0 end.

(** The slot count is the guards plus the requests about to take theirs back. *)
Definition stream_inv (s : StreamHub * list request) : Prop :=
  active s.1 = total holds s.2 + total overshot s.2 /\ total holds s.2 <= MAX_CONCURRENT_STREAMS.

Lemma both_bounds qs : 0 <= total holds qs /\ 0 <= total overshot qs /\ total holds qs + total overshot qs <= len qs.
Proof.
  induction qs as [|q qs IH]; [by simpl|]. rewrite len_cons. simpl. unfold total in *.
  destruct q; simpl; lia.
Qed.

Lemma stream_inv_step n s s' :
  n <= u64_max -> hub_step s s' -> len s.2 = n /\ stream_inv s -> len s'.2 = n /\ stream_inv s'.
Proof.
  intros Hn Hs [Hl [Ha Hh]]. destruct Hs as [h qs i q h' q' Hi Hq|h qs]; simpl in *; [|done].
  split; [unfold len in *; by rewrite length_insert|].
  pose proof (both_bounds qs) as Hb. pose proof (both_bounds (<[i := q']> qs)) as Hb'.
  assert (Hl' : len (<[i := q']> qs) = n) by (unfold len in *; by rewrite length_insert).
  unfold stream_inv; simpl.
  pose proof (total_insert holds _ _ _ q' Hi) as Eh. pose proof (total_insert overshot _ _ _ q' Hi) as Eo.
  unfold u64_max, MAX_CONCURRENT_STREAMS in *.
  destruct q; simpl in Hq; try done; injection Hq as <- <-; simpl in *.
  - destruct (accepting h); simpl in *; lia.
  - destruct (Z.leb_spec MAX_CONCURRENT_STREAMS (active h)); unfold MAX_CONCURRENT_STREAMS in *; simpl in *;
      rewrite wrap_small by lia; lia.
  - rewrite wrap_small by lia. lia.
  - rewrite wrap_small by lia. lia.
Qed.

Lemma stream_inv_reach n s0 s :
  n <= u64_max -> rtc hub_step s0 s -> len s0.2 = n /\ stream_inv s0 -> len s.2 = n /\ stream_inv s.
Proof. intros Hn. induction 1 as [|s1 s2 s3 Hs _ IH]; [done|]. intros. by apply IH, (stream_inv_step n s1 s2). Qed.

Lemma start_inv qs : Forall (eq Start) qs -> total holds qs = 0 /\ total overshot qs = 0.
Proof. induction 1 as [|q qs <- _ IH]; simpl; [done|]. unfold total in *. lia. Qed.

(** ** Theorems *)

(** Over every interleaving of any number of requests and shutdowns, at
    most 64 guards exist at a time, the counter never wraps and counts exactly
    the guards and the refusals still being undone; with none of those it is
    the number of guards. *)
Theorem hub_capacity (qs : list request) (s : StreamHub * list request) :
  Forall (eq Start) qs -> len qs <= u64_max -> rtc hub_step (hub_new, qs) s ->
  total holds s.2 <= MAX_CONCURRENT_STREAMS /\ active s.1 = total holds s.2 + total overshot s.2 /\
  (total overshot s.2 = 0 -> active s.1 = total holds s.2).
Proof.
  intros Hq Hl Hr. destruct (start_inv qs Hq) as [Eh Eo].
  destruct (stream_inv_reach (len qs) _ _ Hl Hr) as [_ [Ha Hh]].
  { split; [done|]. unfold stream_inv, MAX_CONCURRENT_STREAMS. simpl. lia. }
  split_and!; [done|done|lia].
Qed.

(** After shutdown began, a request that had not passed the shutdown check
    never gets a guard: it stays unstarted or is refused as stopped. *)
Theorem hub_shutdown (s s' : StreamHub * list request) :
  shutting_down s.1 = true -> rtc hub_step s s' ->
  shutting_down s'.1 = true /\
  forall i, s.2 !! i = Some Start \/ s.2 !! i = Some (Refused Stopped) ->
            s'.2 !! i = Some Start \/ s'.2 !! i = Some (Refused Stopped).
Proof.
  intros Hd Hr. induction Hr as [|s1 s2 s3 Hs _ IH]; [done|].
  assert (shutting_down s2.1 = true /\ forall i, s1.2 !! i = Some Start \/ s1.2 !! i = Some (Refused Stopped) ->
            s2.2 !! i = Some Start \/ s2.2 !! i = Some (Refused Stopped)) as [Hd2 Hi2].
  { destruct Hs as [h qs i q h' q' Hi Hq|h qs]; simpl in *; [|done]. split.
    - destruct q; simpl in Hq; simplify_eq; done.
    - intros j Hj. destruct (decide (i = j)) as [<-|Hne]; [|by rewrite list_lookup_insert_ne].
      rewrite list_lookup_insert_eq by (by apply lookup_lt_Some in Hi).
      destruct Hj as [Hj|Hj]; rewrite Hj in Hi; simplify_eq/=.
      unfold accepting. rewrite Hd. by right. }
  destruct (IH Hd2) as [Hd3 Hi3]. split; [done|]. auto.
Qed.

Lemma hub_capacity_witness :
  total holds [Holds; Start] <= MAX_CONCURRENT_STREAMS.
Proof.
  refine (proj1 (hub_capacity [Start; Start] (Hub 1 false, [Holds; Start]) _ _ _)).
  - by repeat constructor.
  - by vm_compute.
  - eapply rtc_l; [by apply (step_request hub_new [Start; Start] 0 Start hub_new Accepted)|].
    apply rtc_once. by apply (step_request hub_new [Accepted; Start] 0 Accepted (Hub 1 false) Holds).
Defined.

Lemma hub_shutdown_witness :
  [Refused Stopped] !! 0%nat = Some Start \/ [Refused Stopped] !! 0%nat = Some (Refused Stopped).
Proof.
  refine (proj2 (hub_shutdown (Hub 0 true, [Start]) (Hub 0 true, [Refused Stopped]) eq_refl _) 0%nat (or_introl eq_refl)).
  apply rtc_once. by apply (step_request (Hub 0 true) [Start] 0 Start (Hub 0 true) (Refused Stopped)).
Defined.
