(* ===== verification/RateLimit.v ===== *)
(** * Rate limiting ([src/http/rate_limit.rs])

    Sliding-window counters per key with a bounded key table.  The table is
    behind one lock and reads the clock under it, so calls are sequential and
    their times never go back.  Times and durations are nanoseconds.

    A [HashMap] iterates in an arbitrary order; [HashOrder] is the order of
    one call, an argument of every operation that iterates. *)

From stdpp Require Import base list numbers strings gmap sorting.
From Stdlib Require Import ZArith Lia.
From S2P Require Import Prelude Text.

Definition SECOND : Z := 1000000000.
Definition WINDOW : Z := 5 * 60 * SECOND.
Definition MAX_KEYS : Z := 10000.

Record Counter := Ctr { window : Z; hits : list Z }.

Record Counters := Ctrs { map : gmap str Counter; namespaces : gmap str Z }.

Definition counters_default : Counters := Ctrs ∅ ∅.

(** [Instant::duration_since] saturates at zero. *)
Definition duration_since (now t : Z) : Z := Z.max 0 (now - t).

Definition namespace (key : str) : str :=
  match split_once Byte.x3a key with Some (ns, _) => ns | None => key end.

Definition forget_key (namespaces : gmap str Z) (key : str) : gmap str Z :=
  let ns := namespace key in
  match namespaces !! ns with
  | Some size =>
    let size := wrap 64 (size - 1) in
    if size =? 0 then delete ns namespaces else <[ns := size]> namespaces
  | None => namespaces
  end.

(** The iteration orders of one call. *)
Record HashOrder := {
  iter_map : gmap str Counter -> list (str * Counter);
  iter_namespaces : gmap str Z -> list (str * Z);
}.

Class HashOrderOk (o : HashOrder) : Prop := {
  iter_map_perm m : iter_map o m ≡ₚ map_to_list m;
  iter_namespaces_perm m : iter_namespaces o m ≡ₚ map_to_list m;
}.

(** The closure of [retain] on one entry. *)
Definition retain_entry (now : Z) (c : Counters) (e : str * Counter) : Counters :=
  let (key, counter) := e in
  let kept := filter (fun t => duration_since now t < window counter) (hits counter) in
  if len kept =? 0
  then Ctrs (delete key (map c)) (forget_key (namespaces c) key)
  else Ctrs (<[key := Ctr (window counter) kept]> (map c)) (namespaces c).

Definition evict_stale (o : HashOrder) (now : Z) (c : Counters) : Counters :=
  foldl (retain_entry now) c (iter_map o (map c)).

(** The search for a victim; it stops at a counter with at most one hit. *)
Fixpoint find_victim (largest : str) (l : list (str * Counter)) (victim : option (str * Z)) : option (str * Z) :=
  match l with
  | [] => victim
  | (key, counter) :: t =>
    if negb (bool_decide (namespace key = largest)) then find_victim largest t victim
    else
      let n := len (hits counter) in
      if match victim with None => true | Some (_, fewest) => n <? fewest end
      then if n <=? 1 then Some (key, n) else find_victim largest t (Some (key, n))
      else find_victim largest t victim
  end.

Definition evict_from_largest_namespace (o : HashOrder) (c : Counters) : Counters :=
  match max_by_key (fun e => e.2) (iter_namespaces o (namespaces c)) with
  | None => c
  | Some (largest, _) =>
    match find_victim largest (iter_map o (map c)) None with
    | None => c
    | Some (key, _) => Ctrs (delete key (map c)) (forget_key (namespaces c) key)
    end
  end.

(** [slice::partition_point], on a slice where the predicate holds on a
    prefix and nowhere after it. *)
Fixpoint partition_point (p : Z -> bool) (l : list Z) : nat :=
  match l with
  | [] => 0%nat
  | x :: t => if p x then S (partition_point p t) else 0%nat
  end.

Definition table_size (c : Counters) : Z := Z.of_nat (size (map c)).

(** Making room before a new key, the first statement of [allow_at]. *)
Definition make_space (o : HashOrder) (key : str) (now : Z) (c : Counters) : Counters :=
  if negb (bool_decide (is_Some (map c !! key))) && (MAX_KEYS <=? table_size c) then
    let c := evict_stale o now c in
    if MAX_KEYS <=? table_size c then evict_from_largest_namespace o c else c
  else c.

Definition allow_at (o : HashOrder) (key : str) (limit window now : Z) (c : Counters)
    : result Z unit * Counters :=
  let c := make_space o key now c in
  let (counter, namespaces) :=
    match map c !! key with
    | Some counter => (counter, namespaces c)
    | None =>
      (Ctr window [],
       match namespaces c !! namespace key with
       | Some size => <[namespace key := wrap 64 (size + 1)]> (namespaces c)
       | None => <[namespace key := 1]> (namespaces c)
       end)
    end in
  let kept := Z.max (RateLimit.window counter) window in
  let hits := filter (fun t => duration_since now t < kept) (hits counter) in
  let first := partition_point (fun t => window <=? duration_since now t) hits in
  let counted := drop first hits in
  if limit <=? len counted then
    let retry_after :=
      match head counted with
      | Some oldest =>
        let remaining := Z.max 0 (window - duration_since now oldest) in
        wrap 32 (Z.max (remaining / SECOND) 1)
      | None => 1
      end in
    (Err retry_after, Ctrs (<[key := Ctr kept hits]> (map c)) namespaces)
  else (Ok tt, Ctrs (<[key := Ctr kept (hits ++ [now])]> (map c)) namespaces).

(** * Facts and theorems about rate limiting *)

(** ** Namespace counts *)

(** How many keys of the table a namespace holds. *)
Definition ns_count (m : gmap str Counter) (ns : str) : nat :=
  size (filter (fun e : str * Counter => namespace e.1 = ns) m).

(** The counts the table keeps are the actual ones, without zero entries. *)
Definition in_step (c : Counters) : Prop :=
  forall ns, namespaces c !! ns = match ns_count (map c) ns with O => None | S n => Some (Z.of_nat (S n)) end.

Lemma ns_count_insert m k v ns :
  m !! k = None ->
  ns_count (<[k := v]> m) ns = ((if bool_decide (namespace k = ns) then 1 else 0) + ns_count m ns)%nat.
Proof.
  intros Hk. unfold ns_count. case_bool_decide as Hn.
  - rewrite map_filter_insert_True by done.
    rewrite map_size_insert_None; [done|]. apply map_lookup_filter_None. by left.
  - rewrite map_filter_insert_False by done. by rewrite delete_id.
Qed.

Lemma ns_count_delete m k v ns :
  m !! k = Some v ->
  ns_count m ns = ((if bool_decide (namespace k = ns) then 1 else 0) + ns_count (delete k m) ns)%nat.
Proof.
  intros Hk. rewrite <- (ns_count_insert (delete k m) k v ns) by apply lookup_delete_eq.
  by rewrite insert_delete_id.
Qed.

Lemma ns_count_update m k v v' ns : m !! k = Some v -> ns_count (<[k := v']> m) ns = ns_count m ns.
Proof.
  intros Hk. rewrite (ns_count_delete m k v ns Hk).
  rewrite <- (insert_delete_eq m k v'). by rewrite ns_count_insert by apply lookup_delete_eq.
Qed.

Lemma ns_count_le m ns : (ns_count m ns <= size m)%nat.
Proof. apply map_subseteq_size, map_filter_subseteq. Qed.

Lemma table_positive c k ct : map c !! k = Some ct -> 0 < table_size c.
Proof.
  intros Hk. unfold table_size. rewrite <- (insert_delete_id (map c) k ct Hk).
  rewrite map_size_insert_None by apply lookup_delete_eq. lia.
Qed.

(** Forgetting a removed key keeps the counts in step. *)
Lemma in_step_forget c k v :
  in_step c -> map c !! k = Some v -> table_size c <= u64_max ->
  in_step (Ctrs (delete k (map c)) (forget_key (namespaces c) k)).
Proof.
  intros Hs Hk Hle ns. simpl. pose proof (ns_count_delete _ _ _ ns Hk) as Hd.
  pose proof (ns_count_delete _ _ _ (namespace k) Hk) as Hd'. rewrite bool_decide_true in Hd' by done.
  pose proof (ns_count_le (map c) (namespace k)). unfold table_size in Hle.
  unfold forget_key. pose proof (Hs (namespace k)) as Hk'. rewrite Hd' in Hk'. simpl in Hk'. rewrite Hk'.
  rewrite wrap_small by (unfold u64_max in *; lia).
  case_bool_decide as Hn.
  - subst ns. destruct (Z.eqb_spec (Z.of_nat (S (ns_count (delete k (map c)) (namespace k))) - 1) 0) as [E|E].
    + rewrite lookup_delete_eq. destruct (ns_count (delete k _) _); [done|lia].
    + rewrite lookup_insert_eq. destruct (ns_count (delete k _) _); [lia|]. f_equal. lia.
  - simpl in Hd. rewrite <- Hd. destruct (_ =? 0); [by rewrite lookup_delete_ne|by rewrite lookup_insert_ne].
Qed.

Lemma in_step_update c k v v' :
  in_step c -> map c !! k = Some v -> in_step (Ctrs (<[k := v']> (map c)) (namespaces c)).
Proof. intros Hs Hk ns. simpl. rewrite (ns_count_update _ _ v) by done. apply Hs. Qed.

(** Counting a new key. *)
Definition count_key (namespaces : gmap str Z) (key : str) : gmap str Z :=
  match namespaces !! namespace key with
  | Some size => <[namespace key := wrap 64 (size + 1)]> namespaces
  | None => <[namespace key := 1]> namespaces
  end.

Lemma in_step_insert c k v :
  in_step c -> map c !! k = None -> table_size c < u64_max ->
  in_step (Ctrs (<[k := v]> (map c)) (count_key (namespaces c) k)).
Proof.
  intros Hs Hk Hle ns. simpl. rewrite ns_count_insert by done. unfold count_key, table_size in *.
  pose proof (ns_count_le (map c) (namespace k)). rewrite (Hs (namespace k)).
  case_bool_decide as Hn; simpl.
  - subst ns. destruct (ns_count (map c) (namespace k)) as [|n]; rewrite lookup_insert_eq; [done|].
    rewrite wrap_small by (unfold u64_max in *; lia). f_equal. lia.
  - rewrite <- (Hs ns). destruct (ns_count (map c) (namespace k)); by rewrite lookup_insert_ne.
Qed.

(** ** Pruning *)

(** A counter without the hits its own window no longer counts. *)
Definition pruned (now : Z) (ct : Counter) : option Counter :=
  let kept := filter (fun t => duration_since now t < window ct) (hits ct) in
  if len kept =? 0 then None else Some (Ctr (window ct) kept).

Lemma retain_fold now l : forall c,
  NoDup l.*1 -> (forall k ct, (k, ct) ∈ l -> map c !! k = Some ct) -> in_step c -> table_size c <= u64_max ->
  let c' := foldl (retain_entry now) c l in
  in_step c' /\ forall k, map c' !! k = if bool_decide (k ∈ l.*1) then map c !! k ≫= pruned now else map c !! k.
Proof.
  induction l as [|[k ct] l IH]; intros c Hd Hin Hs Hz; cbn [foldl]; [done|].
  rewrite fmap_cons in Hd. apply NoDup_cons in Hd as [Hk Hd]. simpl in Hk.
  assert (Hkc : map c !! k = Some ct) by (apply Hin; by left).
  set (c1 := retain_entry now c (k, ct)).
  assert (Hc1 : map c1 !! k = pruned now ct /\ (forall k', k' <> k -> map c1 !! k' = map c !! k') /\
                in_step c1 /\ table_size c1 <= u64_max).
  { subst c1. unfold retain_entry, pruned. destruct (_ =? 0); simpl.
    - rewrite lookup_delete_eq. split_and!; [done|intros; by rewrite lookup_delete_ne|by eapply in_step_forget|].
      unfold table_size in *. simpl. rewrite map_size_delete_Some by eauto. lia.
    - rewrite lookup_insert_eq. split_and!; [done|intros; by rewrite lookup_insert_ne|by eapply in_step_update|].
      unfold table_size in *. simpl. by rewrite map_size_insert_Some. }
  destruct Hc1 as (E1 & E2 & Hs1 & Hz1). destruct (IH c1 Hd) as [Hs' Hl']; try done.
  { intros k' ct' Hk'. rewrite E2; [apply Hin; by right|]. intros ->. apply Hk. by apply (list_elem_of_fmap_2 fst _ (k, ct')). }
  split; [done|]. intros k'. rewrite Hl'. rewrite fmap_cons. simpl.
  destruct (decide (k' = k)) as [->|Hne].
  - rewrite bool_decide_false by done. rewrite bool_decide_true by (by left). by rewrite E1, Hkc.
  - rewrite E2 by done. destruct (decide (k' ∈ l.*1)).
    + by rewrite !bool_decide_true by (done || by right).
    + rewrite !bool_decide_false; [done| |done]. intros [?|?]%elem_of_cons; done.
Qed.

Section order.
Context (o : HashOrder) `{!HashOrderOk o}.

Lemma elem_of_iter_map m k ct : (k, ct) ∈ iter_map o m <-> m !! k = Some ct.
Proof. rewrite iter_map_perm. apply elem_of_map_to_list. Qed.

Lemma evict_stale_spec now c :
  in_step c -> table_size c <= u64_max ->
  in_step (evict_stale o now c) /\ map (evict_stale o now c) = omap (pruned now) (map c).
Proof.
  intros Hs Hz. destruct (retain_fold now (iter_map o (map c)) c) as [Hs' Hl]; try done.
  - rewrite iter_map_perm. apply NoDup_fst_map_to_list.
  - intros k ct. by rewrite elem_of_iter_map.
  - split; [done|]. apply map_eq. intros k. unfold evict_stale. rewrite Hl, lookup_omap.
    case_bool_decide as Hk; [done|]. destruct (map c !! k) as [ct|] eqn:E; [|done].
    exfalso. apply Hk. apply (list_elem_of_fmap_2 fst _ (k, ct)). by apply elem_of_iter_map.
Qed.

Lemma evict_stale_size now c :
  in_step c -> table_size c <= u64_max -> table_size (evict_stale o now c) <= table_size c.
Proof.
  intros Hs Hz. unfold table_size. destruct (evict_stale_spec now c Hs Hz) as [_ ->].
  rewrite <- !size_dom. apply Nat2Z.inj_le, subseteq_size, dom_omap_subseteq.
Qed.

(** ** The victim *)

Lemma find_victim_spec ns l : forall v0,
  match find_victim ns l v0 with
  | None => v0 = None /\ forall k ct, (k, ct) ∈ l -> namespace k <> ns
  | Some (k, n) =>
    (v0 = Some (k, n) \/ exists ct, (k, ct) ∈ l /\ namespace k = ns /\ n = len (hits ct)) /\
    (forall k' n', v0 = Some (k', n') -> n <= n') /\
    (forall k' ct', (k', ct') ∈ l -> namespace k' = ns -> n <= Z.max 1 (len (hits ct')))
  end.
Proof.
  induction l as [|[k ct] l IH]; intros v0; cbn [find_victim].
  - destruct v0 as [[k n]|]; [|split; [done|intros ?? []%elem_of_nil]].
    split_and!; [by left|intros ?? [= <- <-]; lia|intros ?? []%elem_of_nil].
  - case_bool_decide as Hn; simpl negb; cbv iota.
    2: { specialize (IH v0). destruct (find_victim ns l v0) as [[k' n']|].
         - destruct IH as (Hv & Hle & Hall). split_and!; [|done|].
           + destruct Hv as [|(ct' & ? & ?)]; [by left|]. right. exists ct'. split; [by right|done].
           + intros k2 ct2 [[= <- <-]|Hin]%elem_of_cons; [done|]. by apply Hall.
         - destruct IH as [-> Hall]. split; [done|]. intros k2 ct2 [[= <- <-]|Hin]%elem_of_cons; [done|by eapply Hall]. }
    cbv zeta. destruct (match v0 with None => true | Some (_, f) => len (hits ct) <? f end) eqn:Ev.
    + assert (Hv0 : forall k' n', v0 = Some (k', n') -> len (hits ct) <= n')
        by (intros k' n' ->; bool_to_prop; lia).
      destruct (Z.leb_spec (len (hits ct)) 1).
      * split_and!; [|done|intros; lia]. right. exists ct. split; [by left|done].
      * specialize (IH (Some (k, len (hits ct)))).
        destruct (find_victim ns l (Some (k, len (hits ct)))) as [[k' n']|]; [|by destruct IH].
        destruct IH as (Hv & Hle & Hall). specialize (Hle _ _ eq_refl).
        split_and!.
        -- right. destruct Hv as [[= <- <-]|(ct' & ? & ?)]; [exists ct; split; [by left|done]|].
           exists ct'. split; [by right|done].
        -- intros k2 n2 E. specialize (Hv0 _ _ E). lia.
        -- intros k2 ct2 [[= <- <-]|Hin]%elem_of_cons Hk2; [lia|by eapply Hall].
    + destruct v0 as [[k0 n0]|]; [|done]. bool_to_prop. specialize (IH (Some (k0, n0))).
      destruct (find_victim ns l (Some (k0, n0))) as [[k' n']|]; [|by destruct IH].
      destruct IH as (Hv & Hle & Hall). specialize (Hle _ _ eq_refl). split_and!.
      * destruct Hv as [|(ct' & ? & ?)]; [by left|]. right. exists ct'. split; [by right|done].
      * by intros ?? [= <- <-].
      * intros k2 ct2 [[= <- <-]|Hin]%elem_of_cons Hk2; [lia|by eapply Hall].
Qed.

(** The key that makes room: of a largest namespace, with the fewest hits in
    it unless it has at most one. *)
Definition is_victim (c : Counters) (k : str) : Prop :=
  exists ct, map c !! k = Some ct /\
    (forall ns, (ns_count (map c) ns <= ns_count (map c) (namespace k))%nat) /\
    (forall k' ct', map c !! k' = Some ct' -> namespace k' = namespace k -> len (hits ct) <= Z.max 1 (len (hits ct'))).

Lemma count_zero m ns k ct : m !! k = Some ct -> namespace k = ns -> ns_count m ns <> 0%nat.
Proof. intros Hk Hn. rewrite (ns_count_delete m k ct ns Hk), bool_decide_true by done. lia. Qed.

Lemma namespace_elem c ns n : in_step c -> (ns, n) ∈ iter_namespaces o (namespaces c) -> n = Z.of_nat (ns_count (map c) ns) /\ ns_count (map c) ns <> 0%nat.
Proof.
  intros Hs. rewrite iter_namespaces_perm, elem_of_map_to_list, Hs.
  destruct (ns_count (map c) ns); [done|]. by intros [= <-].
Qed.

Lemma evict_largest_spec c :
  in_step c -> 0 < table_size c -> exists k, is_victim c k /\
    evict_from_largest_namespace o c = Ctrs (delete k (map c)) (forget_key (namespaces c) k).
Proof.
  intros Hs Hz. unfold evict_from_largest_namespace.
  destruct (map_choose (map c)) as (k0 & ct0 & Hk0).
  { intros E. unfold table_size in Hz. rewrite E, map_size_empty in Hz. lia. }
  destruct (max_by_key _ _) as [[largest n]|] eqn:Em.
  2: { apply max_by_key_None in Em. pose proof (count_zero _ _ _ _ Hk0 eq_refl) as Hc.
       specialize (Hs (namespace k0)). destruct (ns_count (map c) (namespace k0)) as [|j]; [done|].
       apply elem_of_map_to_list in Hs. rewrite <- iter_namespaces_perm, Em in Hs. by apply elem_of_nil in Hs. }
  apply max_by_key_Some in Em as [Hin Hmax]. apply (namespace_elem c) in Hin as [-> Hnz]; [|done].
  pose proof (find_victim_spec largest (iter_map o (map c)) None) as Hf.
  destruct (find_victim largest _ None) as [[k nh]|].
  - destruct Hf as ([?|(ct & Hct & Hns & ->)] & _ & Hmin); [done|]. apply elem_of_iter_map in Hct.
    exists k. split; [|done]. exists ct. rewrite Hns. split_and!; [done| |].
    + intros ns. destruct (ns_count (map c) ns) as [|j] eqn:E; [lia|].
      assert (Hns' : namespaces c !! ns = Some (Z.of_nat (S j))) by (by rewrite Hs, E).
      apply elem_of_map_to_list in Hns'. rewrite <- iter_namespaces_perm in Hns'.
      apply Hmax in Hns'. simpl in Hns'. lia.
    + intros k' ct' Hk' Hn'. eapply Hmin; [by apply elem_of_iter_map|done].
  - destruct Hf as [_ Hall]. exfalso. apply Hnz. unfold ns_count. apply map_size_empty_iff, map_empty.
    intros k. apply map_lookup_filter_None. right. intros ct Hk. eapply Hall. by apply elem_of_iter_map.
Qed.

(** ** Making space *)

(** What happens to the table before a new key is counted. *)
Inductive spaced (now : Z) (c : Counters) : Counters -> Prop :=
| spaced_none : spaced now c c
| spaced_stale c' : map c' = omap (pruned now) (map c) -> spaced now c c'
| spaced_victim c1 k c' :
    table_size c = MAX_KEYS -> table_size c1 = MAX_KEYS ->
    map c1 = omap (pruned now) (map c) -> is_victim c1 k -> map c' = delete k (map c1) -> spaced now c c'.

Lemma make_space_spec key now c :
  in_step c -> table_size c <= MAX_KEYS ->
  spaced now c (make_space o key now c) /\ in_step (make_space o key now c) /\
  table_size (make_space o key now c) <= MAX_KEYS /\
  (map c !! key = None -> map (make_space o key now c) !! key = None /\ table_size (make_space o key now c) < MAX_KEYS) /\
  (is_Some (map c !! key) -> make_space o key now c = c).
Proof.
  intros Hs Hz. assert (Hu : MAX_KEYS < u64_max) by done. unfold make_space.
  case_bool_decide as Hk; simpl.
  { split_and!; [constructor|done|done|by intros E; rewrite E in Hk; destruct Hk|done]. }
  assert (Hn : map c !! key = None) by (by apply eq_None_not_Some).
  destruct (Z.leb_spec MAX_KEYS (table_size c)) as [Hfull|Hroom].
  2: { split_and!; try done. constructor. }
  destruct (evict_stale_spec now c Hs ltac:(lia)) as [Hs1 Hm1].
  pose proof (evict_stale_size now c Hs ltac:(lia)) as Hz1.
  assert (Hn1 : map (evict_stale o now c) !! key = None) by (by rewrite Hm1, lookup_omap, Hn).
  destruct (Z.leb_spec MAX_KEYS (table_size (evict_stale o now c))) as [Hf|Hr].
  2: { split_and!; try done; [by constructor 2|lia]. }
  destruct (evict_largest_spec (evict_stale o now c) Hs1) as (k & Hv & ->); [unfold MAX_KEYS in *; lia|].
  pose proof Hv as (ct & Hct & _). pose proof (map_size_delete_Some k (map (evict_stale o now c)) ltac:(eauto)) as Hd.
  assert (table_size (Ctrs (delete k (map (evict_stale o now c))) (forget_key (namespaces (evict_stale o now c)) k)) < MAX_KEYS).
  { unfold table_size in *. simpl in *. rewrite Hd. unfold MAX_KEYS in *. lia. }
  split_and!; [by apply (spaced_victim _ _ (evict_stale o now c) k); [lia|lia|..]| |lia| |intros E; by apply Hk in E].
  - eapply in_step_forget; [done|done|lia].
  - intros _. simpl. split; [|done]. apply lookup_delete_None. by right.
Qed.

End order.
