(* ===== verification/RateLimitTheorems.v ===== *)
(** * Theorems about rate limiting *)

From stdpp Require Import base list numbers strings gmap sorting.
From Stdlib Require Import ZArith Lia.
From S2P Require Import Prelude Text RateLimit.

(** A counter's hits are in time order and in the past. *)
Definition counter_ok (now : Z) (ct : Counter) : Prop :=
  StronglySorted Z.le (hits ct) /\ Forall (fun t => t <= now) (hits ct).

Definition table_ok (now : Z) (c : Counters) : Prop :=
  table_size c <= MAX_KEYS /\ in_step c /\ map_Forall (fun _ ct => counter_ok now ct) (map c).

(** The hits of a key that fall in a window ending now. *)
Definition recent (now window : Z) (l : list Z) : list Z := filter (fun t => duration_since now t < window) l.

Definition key_hits (c : Counters) (key : str) : list Z := default [] (hits <$> map c !! key).

Lemma key_hits_insert key ct m ns : key_hits (Ctrs (<[key := ct]> m) ns) key = hits ct.
Proof. unfold key_hits. simpl. by rewrite lookup_insert_eq. Qed.

Lemma StronglySorted_filter {A} (R : relation A) (P : A -> Prop) `{!forall x, Decision (P x)} l :
  StronglySorted R l -> StronglySorted R (filter P l).
Proof.
  induction 1 as [|x l _ IH Hx]; [constructor|]. rewrite filter_cons. case_decide; [|done].
  constructor; [done|]. rewrite Forall_forall in *. intros y [_ Hy]%list_elem_of_filter. auto.
Qed.

Lemma counter_ok_filter now now' w l :
  StronglySorted Z.le l -> Forall (fun t => t <= now) l -> now <= now' ->
  StronglySorted Z.le (recent now' w l) /\ Forall (fun t => t <= now') (recent now' w l).
Proof.
  intros Hs Hf Hn. split; [by apply StronglySorted_filter|].
  rewrite Forall_forall in *. intros t [_ Ht]%list_elem_of_filter. specialize (Hf t Ht). lia.
Qed.

(** On hits in time order the partition point cuts off what the window no
    longer counts. *)
Lemma partition_recent now w l :
  StronglySorted Z.le l -> drop (partition_point (fun t => w <=? duration_since now t) l) l = recent now w l.
Proof.
  unfold recent. induction 1 as [|x l Hs IH Hx]; [done|]. cbn [partition_point]. rewrite filter_cons.
  destruct (Z.leb_spec w (duration_since now x)) as [Hw|Hw].
  - rewrite decide_False by lia. exact IH.
  - rewrite decide_True by lia. rewrite drop_0. f_equal. symmetry. apply filter_all.
    eapply Forall_mono; [|exact Hx]. unfold duration_since in *. simpl. lia.
Qed.

Lemma recent_recent now w w' l : w <= w' -> recent now w (recent now w' l) = recent now w l.
Proof.
  intros Hw. unfold recent. rewrite list_filter_filter. apply list_filter_iff. intros t. lia.
Qed.

(** The entries of other keys after a call are those after making space. *)
Lemma allow_at_other o key k limit w now c :
  k <> key -> map (allow_at o key limit w now c).2 !! k = map (make_space o key now c) !! k.
Proof.
  intros Hne. unfold allow_at. cbv zeta. destruct (map (make_space o key now c) !! key); destruct (limit <=? _);
    simpl; by rewrite lookup_insert_ne.
Qed.

(** [allow_at] with the table lookups named. *)
Lemma allow_at_eq o key limit w now c :
  let c1 := make_space o key now c in
  let old := default (Ctr w []) (map c1 !! key) in
  let ns := match map c1 !! key with Some _ => namespaces c1 | None => count_key (namespaces c1) key end in
  let kept := Z.max (window old) w in
  StronglySorted Z.le (hits old) ->
  let live := recent now kept (hits old) in
  let counted := recent now w (hits old) in
  allow_at o key limit w now c =
  if limit <=? len counted then
    (Err (match head counted with
          | Some oldest => wrap 32 (Z.max (Z.max 0 (w - duration_since now oldest) / SECOND) 1)
          | None => 1 end),
     Ctrs (<[key := Ctr kept live]> (map c1)) ns)
  else (Ok tt, Ctrs (<[key := Ctr kept (live ++ [now])]> (map c1)) ns).
Proof.
  intros c1 old ns kept Hs live counted.
  assert (Ecount : drop (partition_point (fun t => w <=? duration_since now t) live) live = counted).
  { subst live counted. rewrite partition_recent by (by apply StronglySorted_filter). apply recent_recent. lia. }
  subst old ns live kept. unfold allow_at. fold c1. cbv zeta.
  destruct (map c1 !! key) as [ct|] eqn:E; cbn [from_option id] in *; unfold recent in *; by rewrite Ecount.
Qed.

Section step.
Context (o : HashOrder) `{!HashOrderOk o}.

Lemma spaced_counters now t c c' :
  spaced now c c' -> map_Forall (fun _ ct => counter_ok t ct) (map c) -> t <= now ->
  map_Forall (fun _ ct => counter_ok now ct) (map c').
Proof.
  intros Hsp Hc Ht.
  assert (Hp : forall m, m = omap (pruned now) (map c) -> map_Forall (fun _ ct => counter_ok now ct) m).
  { intros m -> k ct. rewrite lookup_omap. intros (ct0 & Hk & Hp)%bind_Some. destruct (Hc _ _ Hk) as [Hs Hf].
    unfold pruned in Hp. case_hyp Hp; [done|]. injection Hp as <-. by apply (counter_ok_filter t). }
  destruct Hsp as [|c' Hm|c1 k c' _ _ Hm _ Hd]; [|by apply Hp|].
  - intros k ct Hk. destruct (Hc _ _ Hk) as [Hs Hf]. split; [done|]. eapply Forall_mono; [|exact Hf]. simpl. lia.
  - rewrite Hd. apply map_Forall_delete. by apply Hp.
Qed.

(** The counter a call starts from. *)
Lemma old_ok key w now t c :
  table_ok t c -> t <= now -> counter_ok now (default (Ctr w []) (map (make_space o key now c) !! key)) /\
  hits (default (Ctr w []) (map (make_space o key now c) !! key)) = key_hits c key /\
  window (default (Ctr w []) (map (make_space o key now c) !! key)) = default w (window <$> map c !! key).
Proof.
  intros (Hz & Hs & Hc) Ht. destruct (make_space_spec o key now c Hs Hz) as (Hsp & _ & _ & Hnone & Hsome).
  pose proof (spaced_counters _ _ _ _ Hsp Hc Ht) as Hc'. unfold key_hits.
  destruct (map c !! key) as [ct|] eqn:E.
  - rewrite Hsome in * by eauto. rewrite E. simpl. split; [by apply (Hc' key)|done].
  - destruct (Hnone eq_refl) as [-> _]. simpl. split; [split; constructor|done].
Qed.

End step.

Lemma table_ok_allow o key limit w now t c :
  HashOrderOk o -> table_ok t c -> t <= now -> table_ok now (allow_at o key limit w now c).2.
Proof.
  intros Ho Hok Ht. destruct (old_ok o key w now t c Hok Ht) as ((Hso & Hfo) & _).
  destruct Hok as (Hz & Hs & Hc). destruct (make_space_spec o key now c Hs Hz) as (Hsp & Hs1 & Hz1 & Hnone & Hsome).
  pose proof (spaced_counters _ _ _ _ Hsp Hc Ht) as Hc1.
  rewrite allow_at_eq by done. cbv zeta. set (c1 := make_space o key now c) in *.
  set (old := default (Ctr w []) (map c1 !! key)) in *.
  destruct (counter_ok_filter now now (Z.max (window old) w) (hits old) Hso Hfo ltac:(lia)) as [Hsl Hfl].
  assert (Hgen : forall ct, counter_ok now ct ->
    table_ok now (Ctrs (<[key := ct]> (map c1))
      match map c1 !! key with Some _ => namespaces c1 | None => count_key (namespaces c1) key end)).
  { intros ct Hct. split_and!.
    - unfold table_size in *. simpl. destruct (map c !! key) as [ct0|] eqn:E.
      + assert (map c1 !! key = Some ct0) by (subst c1; by rewrite Hsome by eauto).
        by rewrite map_size_insert_Some.
      + destruct (Hnone eq_refl) as [Hn Hlt]. rewrite map_size_insert_None by done. lia.
    - destruct (map c1 !! key) as [ct0|] eqn:E; [by eapply in_step_update|].
      apply in_step_insert; [done|done|]. unfold u64_max, MAX_KEYS in *. lia.
    - simpl. by apply map_Forall_insert_2. }
  destruct (limit <=? _); simpl; apply Hgen; [by split|]. split; simpl.
  - apply StronglySorted_app_2; [|done|by repeat constructor]. intros x y Hx ->%list_elem_of_singleton.
    rewrite Forall_forall in Hfl. by apply Hfl.
  - apply Forall_app. split; [done|by repeat constructor].
Qed.

(** The table stays sound across calls, whatever the iteration order: at
    most 10,000 keys, the namespace sizes equal to the actual number of keys
    (no empty namespaces), every counter's hits in time order. *)
Theorem rate_table_invariant (o : HashOrder) (key : str) (limit w now t : Z) (c : Counters) :
  HashOrderOk o -> table_ok t c -> t <= now -> table_ok now (allow_at o key limit w now c).2.
Proof. apply table_ok_allow. Qed.

(** C22: a call is admitted exactly when fewer than [limit] admitted hits of its
    key lie within its window; then the hit is recorded and the window holds
    at most [limit].  A refused call records nothing and asks for a wait of at
    least a second and at most the window.  Hits are kept for the longest
    window any caller used on the key. *)
Theorem rate_limit_exact (o : HashOrder) (key : str) (limit w now t : Z) (c : Counters) :
  HashOrderOk o -> table_ok t c -> t <= now -> SECOND <= w < 2 ^ 32 * SECOND ->
  let n := len (recent now w (key_hits c key)) in
  let live := recent now (Z.max (default w (window <$> map c !! key)) w) (key_hits c key) in
  let (res, c') := allow_at o key limit w now c in
  if bool_decide (n < limit)
  then res = Ok tt /\ key_hits c' key = live ++ [now] /\ len (recent now w (key_hits c' key)) = n + 1
  else (exists s, res = Err s /\ 1 <= s <= w / SECOND) /\ key_hits c' key = live /\
       len (recent now w (key_hits c' key)) = n.
Proof.
  intros Ho Hok Ht Hw. destruct (old_ok o key w now t c Hok Ht) as ((Hso & _) & Hh & Hwin).
  rewrite allow_at_eq by done. cbv zeta. rewrite Hh, Hwin.
  set (live := recent now (Z.max _ w) _). assert (Hlive : recent now w live = recent now w (key_hits c key)).
  { apply recent_recent. lia. }
  case_bool_decide as Hn.
  - rewrite (proj2 (Z.leb_gt _ _)) by done. rewrite !key_hits_insert. cbn [hits].
    split_and!; [done..|]. unfold recent at 1. rewrite filter_app, len_app. fold (recent now w live). rewrite Hlive.
    f_equal. rewrite filter_cons, decide_True; [done|]. unfold duration_since, SECOND in *. lia.
  - rewrite (proj2 (Z.leb_le _ _)) by lia. rewrite !key_hits_insert. cbn [hits].
    split_and!; [|done|by rewrite Hlive]. eexists. split; [done|].
    unfold SECOND in *. destruct (head _) as [x|].
    + assert (Hm : 0 <= Z.max 0 (w - duration_since now x) / 1000000000 <= w / 1000000000).
      { split; [apply Z.div_pos; lia|apply Z.div_le_mono; [lia|]]. unfold duration_since. lia. }
      assert (w / 1000000000 < 2 ^ 32) by (apply Z.div_lt_upper_bound; lia).
      assert (1 <= w / 1000000000) by (apply Z.div_le_lower_bound; lia).
      rewrite wrap_small by lia. lia.
    + assert (1 <= w / 1000000000) by (apply Z.div_le_lower_bound; lia). lia.
Qed.

(** A call never adds to another key, and takes from it only what no longer
    counts, with one exception: when the table is full of live counters, one
    key loses its counter, and that key belongs to a namespace that holds the
    most keys and has, but for single-hit counters, the fewest hits there. *)
Theorem rate_limit_frame (o : HashOrder) (key k : str) (limit w now t : Z) (c : Counters) :
  HashOrderOk o -> table_ok t c -> t <= now -> k <> key ->
  let c' := (allow_at o key limit w now c).2 in
  map c' !! k = map c !! k \/ map c' !! k = map c !! k ≫= pruned now \/
  (map c' !! k = None /\ table_size c = MAX_KEYS /\
   exists c1, map c1 = omap (pruned now) (map c) /\ table_size c1 = MAX_KEYS /\ is_victim c1 k).
Proof.
  intros Ho (Hz & Hs & Hc) Ht Hne. cbv zeta. rewrite allow_at_other by done.
  destruct (make_space_spec o key now c Hs Hz) as (Hsp & _).
  destruct Hsp as [|c' Hm|c1 v c' Hfc Hf Hm Hv Hd]; [by left|right; left; by rewrite Hm, lookup_omap|].
  rewrite Hd. destruct (decide (k = v)) as [->|Hkv].
  - right. right. rewrite lookup_delete_eq. split_and!; [done|done|]. by exists c1.
  - right. left. by rewrite lookup_delete_ne, Hm, lookup_omap by done.
Qed.

(** ** Witnesses *)

Definition any_order : HashOrder := {| iter_map := map_to_list; iter_namespaces := map_to_list |}.

#[export] Instance any_order_ok : HashOrderOk any_order.
Proof. by split. Qed.

Lemma table_ok_default : table_ok 0 counters_default.
Proof.
  split_and!; [done| |apply map_Forall_empty]. intros ns. simpl. unfold ns_count.
  by rewrite map_filter_empty, map_size_empty.
Qed.

Definition w_key : str := bs "login:192.0.2.1".
Definition w_table : Counters := (allow_at any_order w_key 1 WINDOW 0 counters_default).2.

Lemma rate_table_invariant_witness : table_ok 0 w_table.
Proof. exact (rate_table_invariant any_order w_key 1 WINDOW 0 0 counters_default _ table_ok_default ltac:(lia)). Defined.

Lemma rate_limit_exact_witness :
  (exists s, (allow_at any_order w_key 1 WINDOW 5 w_table).1 = Err s /\ 1 <= s <= 300) /\
  table_size w_table = 1.
Proof.
  assert (Hok : table_ok 0 w_table).
  { apply (table_ok_allow any_order w_key 1 WINDOW 0 0 counters_default _ table_ok_default). lia. }
  pose proof (rate_limit_exact any_order w_key 1 WINDOW 5 0 w_table _ Hok ltac:(lia) ltac:(vm_compute; split; [discriminate|reflexivity])) as Hx.
  split; [|vm_compute; reflexivity]. cbv zeta in Hx.
  destruct (allow_at any_order w_key 1 WINDOW 5 w_table) as [res c'] eqn:E.
  rewrite bool_decide_false in Hx by (vm_compute; discriminate).
  destruct Hx as [Hx _]. exact Hx.
Defined.

Lemma rate_limit_frame_witness :
  let c' := (allow_at any_order (bs "share-ip:1") 60 WINDOW 5 w_table).2 in
  map c' !! w_key = map w_table !! w_key \/ map c' !! w_key = map w_table !! w_key ≫= pruned 5 \/
  (map c' !! w_key = None /\ table_size w_table = MAX_KEYS /\
   exists c1, map c1 = omap (pruned 5) (map w_table) /\ table_size c1 = MAX_KEYS /\ is_victim c1 w_key).
Proof.
  refine (rate_limit_frame any_order (bs "share-ip:1") w_key 60 WINDOW 5 0 w_table _ _ _ _); [|lia|by_decide].
  apply (table_ok_allow any_order w_key 1 WINDOW 0 0 counters_default _ table_ok_default). lia.
Defined.
