(* ===== verification/Chrono.v ===== *)
(** * Calendar dates ([chrono::NaiveDate])

    The server leaves calendar arithmetic to the third-party [chrono] crate.
    [Chrono] names the operations the components use and [ChronoLaws] what
    they rely on, as the crate documents it.  [civil] is an instance of both:
    the proleptic Gregorian calendar computed from a day number. *)

From stdpp Require Import base list numbers strings gmap.
From Stdlib Require Import ZArith Lia.
From S2P Require Import Prelude Text.

Class Chrono := {
  naive_date : Type;
  naive_date_eq_dec :: EqDecision naive_date;
  (** [(date - 1970-01-01).num_days()]; [Ord] is the order of this number. *)
  num_days : naive_date -> Z;
  (** [1970-01-01 + Duration::days(n)], [None] beyond the crate's range. *)
  from_num_days : Z -> option naive_date;
  from_ymd_opt : Z -> Z -> Z -> option naive_date;
  (** [Datelike]: year, month and day. *)
  ymd : naive_date -> Z * Z * Z;
  (** [NaiveDate::parse_from_str] and [format] with [%Y-%m-%d]. *)
  parse_ymd : str -> option naive_date;
  format_ymd : naive_date -> str;
  succ_opt : naive_date -> option naive_date;
  (** [weekday().num_days_from_sunday()]. *)
  weekday : naive_date -> Z;
}.

(** ** Decimal fields *)

Definition dec_digit (d : Z) : byte := z2b (48 + d).

(** The [n] low decimal digits, as [format!] with width [n] prints them. *)
Fixpoint dec_digits (n : nat) (z : Z) : str :=
  match n with
  | O => []
  | S n' => dec_digits n' (z / 10) ++ [dec_digit (z mod 10)]
  end.

Definition is_ascii_digit (b : byte) : bool := in_range 48 57 (b2z b).

Definition dec_value (s : str) : Z := foldl (fun acc b => acc * 10 + (b2z b - 48)) 0 s.

(** [YYYY-MM-DD]. *)
Definition iso (y m d : Z) : str :=
  dec_digits 4 y ++ bs "-" ++ dec_digits 2 m ++ bs "-" ++ dec_digits 2 d.

(** The chronological order is the lexicographic order of year, month, day. *)
Definition lex_lt (a b : Z * Z * Z) : Prop :=
  a.1.1 < b.1.1 \/ a.1.1 = b.1.1 /\ (a.1.2 < b.1.2 \/ a.1.2 = b.1.2 /\ a.2 < b.2).

Class ChronoLaws (C : Chrono) : Prop := {
  num_days_inj (a b : naive_date) : num_days a = num_days b -> a = b;
  (** The range covers every 32-bit year the server can name by far. *)
  from_num_days_spec n : -10000000 <= n <= 10000000 -> exists d, from_num_days n = Some d /\ num_days d = n;
  from_ymd_ymd y m d a : from_ymd_opt y m d = Some a <-> ymd a = (y, m, d);
  ymd_order (a b : naive_date) : lex_lt (ymd a) (ymd b) -> num_days a < num_days b;
  ymd_range (a : naive_date) y m d : ymd a = (y, m, d) -> 1 <= m <= 12 /\ 1 <= d <= 31;
  (** Every month has a first day, and 28 to 31 days. *)
  month_first y m : 0 <= y <= 10000 -> 1 <= m <= 12 -> is_Some (from_ymd_opt y m 1);
  month_length y m a b : 0 <= y <= 9999 -> 1 <= m <= 12 -> from_ymd_opt y m 1 = Some a ->
    from_ymd_opt (y + m / 12) (m mod 12 + 1) 1 = Some b -> 28 <= num_days b - num_days a <= 31;
  epoch_day : exists e, from_ymd_opt 1970 1 1 = Some e /\ num_days e = 0;
  year_zero : exists a, from_ymd_opt 0 1 1 = Some a /\ num_days a = -719528;
  year_last : exists a, from_ymd_opt 9999 12 31 = Some a /\ num_days a = 2932896;
  (** A four-digit year, two-digit month and day parse to the date they name. *)
  parse_digits ys ms ds : length ys = 4%nat -> length ms = 2%nat -> length ds = 2%nat ->
    Forall (fun b => is_ascii_digit b = true) (ys ++ ms ++ ds) ->
    parse_ymd (ys ++ bs "-" ++ ms ++ bs "-" ++ ds) = from_ymd_opt (dec_value ys) (dec_value ms) (dec_value ds);
  format_iso (a : naive_date) y m d : ymd a = (y, m, d) -> 0 <= y <= 9999 -> format_ymd a = iso y m d;
  (** Years beyond 9999 are printed with a sign. *)
  format_long (a : naive_date) y m d : ymd a = (y, m, d) -> 9999 < y -> length (format_ymd a) <> 10%nat;
  succ_spec (a : naive_date) : num_days a < 10000000 -> exists b, succ_opt a = Some b /\ num_days b = num_days a + 1;
  weekday_spec (a : naive_date) : weekday a = (num_days a + 4) mod 7;
}.

(** ** Decimal facts *)

Lemma dec_digits_length n z : length (dec_digits n z) = n.
Proof. revert z. induction n as [|n IH]; intros z; simpl; [done|]. rewrite length_app, IH. simpl. lia. Qed.

Lemma dec_digits_ascii n z : Forall (fun b => is_ascii_digit b = true) (dec_digits n z).
Proof.
  revert z. induction n as [|n IH]; intros z; simpl; [constructor|]. apply Forall_app. split; [done|].
  repeat constructor. unfold is_ascii_digit, dec_digit. pose proof (Z.mod_pos_bound z 10 ltac:(lia)).
  rewrite b2z_z2b_small by lia. unfold in_range. apply andb_true_iff. rewrite !Z.leb_le. lia.
Qed.

Lemma dec_value_digits n z : 0 <= z < 10 ^ Z.of_nat n -> dec_value (dec_digits n z) = z.
Proof.
  revert z. induction n as [|n IH]; intros z Hz; simpl; [simpl in Hz; unfold dec_value; simpl; lia|].
  rewrite Nat2Z.inj_succ, Z.pow_succ_r in Hz by lia.
  pose proof (Z.mod_pos_bound z 10 ltac:(lia)). pose proof (Z.div_mod z 10 ltac:(lia)).
  unfold dec_value. rewrite foldl_app. fold (dec_value (dec_digits n (z / 10))).
  rewrite IH by (split; [apply Z.div_pos; lia|apply Z.div_lt_upper_bound; lia]).
  simpl. unfold dec_digit. rewrite b2z_z2b_small by lia. lia.
Qed.

Lemma digits_dec_value s n : length s = n -> Forall (fun b => is_ascii_digit b = true) s -> dec_digits n (dec_value s) = s.
Proof.
  intros <-. induction s as [|b s IH] using rev_ind; intros Hf; [done|].
  apply Forall_app in Hf as [Hs Hb]. inversion Hb as [|?? Hb' _]; subst. specialize (IH Hs).
  rewrite length_app, Nat.add_comm. cbn [length Nat.add dec_digits]. unfold dec_value in *. rewrite foldl_app. cbn [foldl].
  set (v := foldl _ 0 s) in *. unfold is_ascii_digit, in_range in Hb'. bool_to_prop.
  rewrite (Z.div_add_l v 10) , (Z.add_comm (v * 10)), Z.mod_add, Z.mod_small, Z.div_small, Z.add_0_r by lia.
  rewrite IH. f_equal. unfold dec_digit. f_equal. replace (48 + (b2z b - 48)) with (b2z b) by lia. apply z2b_b2z.
Qed.

Section laws.
Context `{ChronoLaws}.

(** Printed dates parse back. *)
Lemma parse_iso y m d : 0 <= y <= 9999 -> 0 <= m <= 99 -> 0 <= d <= 99 -> parse_ymd (iso y m d) = from_ymd_opt y m d.
Proof.
  intros Hy Hm Hd. unfold iso. rewrite parse_digits by
    (rewrite ?dec_digits_length; try done; rewrite !Forall_app; split_and!; apply dec_digits_ascii).
  by rewrite !dec_value_digits by lia.
Qed.

Lemma parse_format (a : naive_date) y m d : ymd a = (y, m, d) -> 0 <= y <= 9999 -> parse_ymd (format_ymd a) = Some a.
Proof.
  intros Ha Hy. destruct (ymd_range a y m d Ha) as [Hm Hd]. rewrite (format_iso a y m d) by done.
  rewrite parse_iso by lia. by apply from_ymd_ymd.
Qed.

(** The dates with a four-digit year, by day number. *)
Lemma four_digit_year (a : naive_date) y m d :
  ymd a = (y, m, d) -> -719528 <= num_days a <= 2932896 <-> 0 <= y <= 9999.
Proof.
  intros Ha. destruct year_zero as (z & Hz & Ez), year_last as (l & Hl & El).
  apply from_ymd_ymd in Hz, Hl. destruct (ymd_range a y m d Ha) as [Hm Hd].
  pose proof (ymd_order a z) as O1. pose proof (ymd_order z a) as O2.
  pose proof (ymd_order a l) as O3. pose proof (ymd_order l a) as O4.
  rewrite Ha, Hz in O1, O2. rewrite Ha, Hl in O3, O4. unfold lex_lt in *; simpl in *.
  assert (Heq1 : (y, m, d) = (0, 1, 1) -> num_days a = -719528).
  { intros E. rewrite <- Ez. f_equal. rewrite E in Ha. apply from_ymd_ymd in Ha, Hz. congruence. }
  assert (Heq2 : (y, m, d) = (9999, 12, 31) -> num_days a = 2932896).
  { intros E. rewrite <- El. f_equal. rewrite E in Ha. apply from_ymd_ymd in Ha, Hl. congruence. }
  split.
  - intros Hn. destruct (Z.lt_ge_cases y 0); [lia|]. destruct (Z.lt_ge_cases 9999 y); lia.
  - intros Hy. split.
    + destruct (decide ((y, m, d) = (0, 1, 1))) as [E|E]; [rewrite Heq1; [lia|done]|].
      assert (y = 0 /\ m = 1 /\ d = 1 -> False) by (intros (-> & -> & ->); done). lia.
    + destruct (decide ((y, m, d) = (9999, 12, 31))) as [E|E]; [rewrite Heq2; [lia|done]|].
      assert (y = 9999 /\ m = 12 /\ d = 31 -> False) by (intros (-> & -> & ->); done). lia.
Qed.

End laws.
