(* ===== verification/ChronoInstance.v ===== *)
(** * The proleptic Gregorian calendar

    An instance of [Chrono] over day numbers that satisfies [ChronoLaws]; the
    theorems that assume the laws are applied to it in their witnesses. *)

From stdpp Require Import base list numbers strings gmap.
From Stdlib Require Import ZArith Lia.
From S2P Require Import Prelude Text Chrono.

Definition is_leap (y : Z) : bool := ((y mod 4 =? 0) && negb (y mod 100 =? 0)) || (y mod 400 =? 0).

(** Days from 0000-01-01 to the first day of a year. *)
Definition before_year (y : Z) : Z := 365 * y + (y + 3) / 4 - (y + 99) / 100 + (y + 399) / 400.

(** Days from the first of January to the first day of a month. *)
Definition before_month (leap : bool) (m : Z) : Z :=
  let l := if leap then 1 else 0 in
  match m with
  | 1 => 0 | 2 => 31 | 3 => 59 + l | 4 => 90 + l | 5 => 120 + l | 6 => 151 + l | 7 => 181 + l
  | 8 => 212 + l | 9 => 243 + l | 10 => 273 + l | 11 => 304 + l | 12 => 334 + l | _ => 365 + l
  end.

Definition civil_days (y m d : Z) : Z := before_year y + before_month (is_leap y) m + (d - 1) - 719528.

Definition valid_ymd (y m d : Z) : bool :=
  (1 <=? m) && (m <=? 12) && (1 <=? d) && (before_month (is_leap y) m + d <=? before_month (is_leap y) (m + 1)).

(** The year that contains a day, from an estimate off by at most one. *)
Definition year_of (n : Z) : Z :=
  let y := n * 400 / 146097 in
  if n <? before_year y then y - 1 else if before_year (y + 1) <=? n then y + 1 else y.

Definition month_of (leap : bool) (doy : Z) : Z :=
  if doy <? before_month leap 2 then 1 else if doy <? before_month leap 3 then 2
  else if doy <? before_month leap 4 then 3 else if doy <? before_month leap 5 then 4
  else if doy <? before_month leap 6 then 5 else if doy <? before_month leap 7 then 6
  else if doy <? before_month leap 8 then 7 else if doy <? before_month leap 9 then 8
  else if doy <? before_month leap 10 then 9 else if doy <? before_month leap 11 then 10
  else if doy <? before_month leap 12 then 11 else 12.

Definition civil_ymd (a : Z) : Z * Z * Z :=
  let n := a + 719528 in
  let y := year_of n in
  let doy := n - before_year y in
  let m := month_of (is_leap y) doy in
  (y, m, doy - before_month (is_leap y) m + 1).

Definition civil_from_ymd (y m d : Z) : option Z := if valid_ymd y m d then Some (civil_days y m d) else None.

Definition civil_format (a : Z) : str :=
  let '(y, m, d) := civil_ymd a in if 9999 <? y then bs "+" ++ iso y m d else iso y m d.

Definition civil_parse (s : str) : option Z :=
  civil_from_ymd (dec_value (take 4 s)) (dec_value (take 2 (drop 5 s))) (dec_value (take 2 (drop 8 s))).

#[export] Instance civil : Chrono := {|
  naive_date := Z;
  num_days a := a;
  from_num_days n := Some n;
  from_ymd_opt := civil_from_ymd;
  ymd := civil_ymd;
  parse_ymd := civil_parse;
  format_ymd := civil_format;
  succ_opt a := Some (a + 1);
  weekday a := (a + 4) mod 7;
|}.

(** ** Years *)

Lemma before_year_succ y : before_year (y + 1) = before_year y + if is_leap y then 366 else 365.
Proof.
  unfold before_year, is_leap.
  destruct (Z.eqb_spec (y mod 4) 0), (Z.eqb_spec (y mod 100) 0), (Z.eqb_spec (y mod 400) 0); simpl;
    Z.to_euclidean_division_equations; lia.
Qed.

Lemma before_year_mono y z : y <= z -> before_year y <= before_year z.
Proof. intros. unfold before_year. Z.to_euclidean_division_equations. lia. Qed.

Lemma year_of_spec n : before_year (year_of n) <= n < before_year (year_of n + 1).
Proof.
  unfold year_of. set (y := n * 400 / 146097).
  destruct (Z.ltb_spec n (before_year y)).
  - replace (y - 1 + 1) with y by lia. split; [|done]. subst y. unfold before_year.
    Z.to_euclidean_division_equations. lia.
  - destruct (Z.leb_spec (before_year (y + 1)) n); [|lia]. split; [done|]. subst y. unfold before_year.
    Z.to_euclidean_division_equations. lia.
Qed.

Lemma year_of_unique n y : before_year y <= n < before_year (y + 1) -> year_of n = y.
Proof.
  intros Hy. pose proof (year_of_spec n) as Hs.
  destruct (Z.lt_trichotomy (year_of n) y) as [Hl|[->|Hg]]; [|done|].
  - pose proof (before_year_mono (year_of n + 1) y ltac:(lia)). lia.
  - pose proof (before_year_mono (y + 1) (year_of n) ltac:(lia)). lia.
Qed.

(** ** Months *)

Lemma month_cases m : 1 <= m <= 12 ->
  m = 1 \/ m = 2 \/ m = 3 \/ m = 4 \/ m = 5 \/ m = 6 \/ m = 7 \/ m = 8 \/ m = 9 \/ m = 10 \/ m = 11 \/ m = 12.
Proof. lia. Qed.

Ltac months H := destruct (month_cases _ H) as [->|[->|[->|[->|[->|[->|[->|[->|[->|[->|[->| ->]]]]]]]]]]].

Lemma month_of_spec l doy : 0 <= doy < before_month l 13 ->
  1 <= month_of l doy <= 12 /\ before_month l (month_of l doy) <= doy < before_month l (month_of l doy + 1).
Proof.
  intros Hd. unfold month_of. destruct l; simpl in *; repeat (case_match; bool_to_prop; simpl; try lia).
Qed.

Lemma month_of_unique l doy m :
  1 <= m <= 12 -> before_month l m <= doy < before_month l (m + 1) -> month_of l doy = m.
Proof.
  intros Hm Hd. unfold month_of. months Hm; destruct l; simpl in *;
    repeat (case_match; bool_to_prop; simpl; try lia).
Qed.

Lemma before_month_mono l m m' : 1 <= m -> m < m' -> m' <= 12 -> before_month l (m + 1) <= before_month l m'.
Proof.
  intros. assert (Hm : 1 <= m <= 12) by lia. assert (Hm' : 1 <= m' <= 12) by lia.
  months Hm; months Hm'; destruct l; simpl; lia.
Qed.

Lemma before_month_bounds l m : 1 <= m <= 12 ->
  0 <= before_month l m /\ 28 <= before_month l (m + 1) - before_month l m <= 31 /\
  before_month l (m + 1) <= before_month l 13 /\ before_month l 13 = if l then 366 else 365.
Proof. intros Hm. months Hm; destruct l; simpl; lia. Qed.

(** ** Dates *)

(** The fields of a day and where they put it. *)
Lemma civil_ymd_spec a y m d :
  civil_ymd a = (y, m, d) <-> valid_ymd y m d = true /\ a = civil_days y m d.
Proof.
  unfold valid_ymd. rewrite !andb_true_iff, !Z.leb_le. split.
  - unfold civil_ymd. intros [= <- <- <-]. set (n := a + 719528). pose proof (year_of_spec n) as Hy.
    rewrite before_year_succ in Hy. set (y := year_of n) in *. set (l := is_leap y) in *.
    assert (Hd : 0 <= n - before_year y < before_month l 13) by (destruct l; simpl; lia).
    destruct (month_of_spec l _ Hd) as [Hm Hb]. unfold civil_days. fold l. lia.
  - intros [[[[Hm1 Hm2] Hd1] Hd2] ->]. assert (Hm : 1 <= m <= 12) by lia.
    destruct (before_month_bounds (is_leap y) m Hm) as (Hb & _ & Hle & H13).
    unfold civil_ymd, civil_days.
    replace (before_year y + before_month (is_leap y) m + (d - 1) - 719528 + 719528)
      with (before_year y + (before_month (is_leap y) m + (d - 1))) by lia.
    rewrite (year_of_unique _ y) by (rewrite before_year_succ; destruct (is_leap y); lia).
    replace (before_year y + (before_month (is_leap y) m + (d - 1)) - before_year y)
      with (before_month (is_leap y) m + (d - 1)) by lia.
    rewrite (month_of_unique _ _ m) by lia. repeat f_equal. lia.
Qed.

Lemma civil_from_ymd_spec y m d a : civil_from_ymd y m d = Some a <-> civil_ymd a = (y, m, d).
Proof.
  rewrite civil_ymd_spec. unfold civil_from_ymd. destruct (valid_ymd y m d); split.
  - by intros [= <-].
  - by intros [_ ->].
  - done.
  - by intros [].
Qed.

Lemma valid_first y m : 1 <= m <= 12 -> valid_ymd y m 1 = true.
Proof.
  intros Hm. destruct (before_month_bounds (is_leap y) m Hm) as (_ & Hb & _).
  unfold valid_ymd. rewrite !andb_true_iff, !Z.leb_le. lia.
Qed.

Lemma civil_order a b : lex_lt (civil_ymd a) (civil_ymd b) -> a < b.
Proof.
  destruct (civil_ymd a) as [[y m] d] eqn:Ea, (civil_ymd b) as [[y' m'] d'] eqn:Eb.
  apply civil_ymd_spec in Ea as [Va ->], Eb as [Vb ->]. unfold valid_ymd in *.
  rewrite !andb_true_iff, !Z.leb_le in *. destruct Va as [[[? ?] ?] ?], Vb as [[[? ?] ?] ?].
  destruct (before_month_bounds (is_leap y) m ltac:(lia)) as (? & ? & ? & H13).
  destruct (before_month_bounds (is_leap y') m' ltac:(lia)) as (? & ? & ? & ?).
  unfold lex_lt, civil_days; simpl. intros [Hy|[<- [Hm|[<- Hd]]]]; [|pose proof (before_month_mono (is_leap y) m m'); lia|lia].
  pose proof (before_year_mono (y + 1) y' ltac:(lia)). pose proof (before_year_succ y). lia.
Qed.

(** The next month starts 28 to 31 days later. *)
Lemma civil_next_month y m :
  1 <= m <= 12 -> 28 <= civil_days (y + m / 12) (m mod 12 + 1) 1 - civil_days y m 1 <= 31.
Proof.
  intros Hm. unfold civil_days. destruct (before_month_bounds (is_leap y) m Hm) as (Hb & Hl & _ & H13).
  destruct (decide (m = 12)) as [->|Hne].
  - change (12 / 12) with 1. change (12 mod 12 + 1) with 1. rewrite before_year_succ.
    change (before_month (is_leap (y + 1)) 1) with 0. destruct (is_leap y); simpl; lia.
  - rewrite Z.div_small, Z.mod_small, (Z.add_0_r y) by lia. lia.
Qed.

#[export] Instance civil_laws : ChronoLaws civil.
Proof.
  split.
  - done.
  - intros n _. by exists n.
  - apply civil_from_ymd_spec.
  - apply civil_order.
  - intros a y m d E. change (civil_ymd a = (y, m, d)) in E. apply civil_ymd_spec in E as [V _]. unfold valid_ymd in V.
    rewrite !andb_true_iff, !Z.leb_le in V. destruct V as [[[? ?] ?] ?].
    destruct (before_month_bounds (is_leap y) m ltac:(lia)) as (? & ? & ? & ?). lia.
  - intros y m _ Hm. change (is_Some (civil_from_ymd y m 1)). unfold civil_from_ymd. rewrite valid_first by done. by eexists.
  - intros y m a b _ Hm Ha Hb. change (civil_from_ymd y m 1 = Some a) in Ha.
    change (civil_from_ymd (y + m / 12) (m mod 12 + 1) 1 = Some b) in Hb. unfold civil_from_ymd in *.
    rewrite valid_first in Ha by done.
    assert (1 <= m mod 12 + 1 <= 12) by (pose proof (Z.mod_pos_bound m 12 ltac:(lia)); lia).
    rewrite valid_first in Hb by done. injection Ha as <-. injection Hb as <-. by apply civil_next_month.
  - by exists 0.
  - by exists (-719528).
  - by exists 2932896.
  - intros ys ms ds Hy Hm Hd Hf. change (civil_parse (ys ++ bs "-" ++ ms ++ bs "-" ++ ds) =
      civil_from_ymd (dec_value ys) (dec_value ms) (dec_value ds)).
    destruct ys as [|a [|b [|c [|e [|]]]]]; try done. destruct ms as [|f [|g [|]]]; try done.
    destruct ds as [|h [|i [|]]]; try done.
  - intros a y m d E Hy. change (civil_ymd a = (y, m, d)) in E. change (civil_format a = iso y m d). unfold civil_format.
    by rewrite E, (proj2 (Z.ltb_ge _ _)) by lia.
  - intros a y m d E Hy. change (civil_ymd a = (y, m, d)) in E. change (length (civil_format a) <> 10%nat).
    unfold civil_format. rewrite E, (proj2 (Z.ltb_lt _ _)) by lia. unfold iso. rewrite !length_app, !dec_digits_length.
    vm_compute. discriminate.
  - intros a _. by exists (a + 1).
  - done.
Qed.
