(* ===== verification/Ics.v ===== *)
(** * Calendar feeds ([src/ics.rs])

    Tasks as an iCalendar document: escaped text, folded lines, dates, and the
    offset of a time zone read from its TZif file. *)

From stdpp Require Import base list numbers strings gmap.
From Stdlib Require Import ZArith Lia.
From S2P Require Import Prelude Text TextFacts Chrono Cursor.

(** ** Computations that may panic

    [Stuck] is a panic of an index or a slice, or a loop that does not end
    within its fuel. *)

Inductive run (A : Type) : Type := Ret (a : A) | Stuck.
Arguments Ret {A} a.
Arguments Stuck {A}.

#[export] Instance run_bind : MBind run := fun A B f m => match m with Ret a => f a | Stuck => Stuck end.

(** [bytes[i]] and [bytes[from..to]]. *)
Definition index (l : list byte) (i : Z) : run byte :=
  match l !! Z.to_nat i with Some b => if i <? 0 then Stuck else Ret b | None => Stuck end.
Definition range (l : list byte) (from to : Z) : run (list byte) :=
  if (from <? 0) || (to <? from) || (len l <? to) then Stuck
  else Ret (take (Z.to_nat (to - from)) (drop (Z.to_nat from) l)).

(** [u32], [i32] and [i64::from_be_bytes]. *)
Definition from_be_bytes (l : list byte) : Z := foldl (fun acc b => acc * 256 + b2z b) 0 l.
Definition signed (w z : Z) : Z := if 2 ^ (w - 1) <=? z then z - 2 ^ w else z.

(** ** Libraries and the environment *)

Class IcsLib := {
  ics_chrono :: Chrono;
  instant : Type;
  (** [DateTime::date_naive] and [timestamp]. *)
  date_naive : instant -> naive_date;
  timestamp : instant -> Z;
  (** [(at + seconds).format("%Y%m%dT%H%M%S")], [NaiveDate::format("%Y%m%d")]
      and [to_rfc3339_opts(Millis, true)]. *)
  wall_stamp : instant -> Z -> str;
  date_stamp : naive_date -> str;
  rfc3339_millis : instant -> str;
  (** SHA-256 in hexadecimal ([auth::token::hash_token]). *)
  hash_token : str -> str;
  (** The file of a zone under [/usr/share/zoneinfo]. *)
  read_zone : str -> option (list byte);
}.

(** ** Escaping *)

(** [str::replace] of an ASCII character by a string. *)
Definition replace_char (c : byte) (r : str) (s : str) : str := concat ((fun b => if bool_decide (b = c) then r else [b]) <$> s).

Definition CR : byte := Byte.x0d.
Definition LF : byte := Byte.x0a.
Definition BACKSLASH : byte := Byte.x5c.
Definition SEMICOLON : byte := Byte.x3b.
Definition COMMA : byte := Byte.x2c.
Definition SPACE : byte := Byte.x20.
Definition LOWER_N : byte := Byte.x6e.
Definition QUOTE : byte := Byte.x22.
Definition AMP : byte := Byte.x26.
Definition LT : byte := Byte.x3c.
Definition GT : byte := Byte.x3e.

Definition ics_escape (value : str) : str :=
  replace_char LF [BACKSLASH; LOWER_N]
    (replace_char CR []
      (replace_char COMMA [BACKSLASH; COMMA]
        (replace_char SEMICOLON [BACKSLASH; SEMICOLON]
          (replace_char BACKSLASH [BACKSLASH; BACKSLASH] value)))).

Definition xml_escape (value : str) : str :=
  replace_char QUOTE (bs "&quot;")
    (replace_char GT (bs "&gt;")
      (replace_char LT (bs "&lt;")
        (replace_char AMP (bs "&amp;") value))).

(** ** CalDAV responses *)

(** A raw string literal; the tilde stands for the double quote. *)
Definition raw (s : string) : str := replace_char Byte.x7e [QUOTE] (bs s).

Definition caldav_multistatus (href ics etag : str) : str :=
  raw "<?xml version=~1.0~ encoding=~utf-8~?>
<D:multistatus xmlns:D=~DAV:~ xmlns:C=~urn:ietf:params:xml:ns:caldav~>
  <D:response>
    <D:href>" ++ xml_escape href ++ raw "</D:href>
    <D:propstat>
      <D:prop>
        <D:resourcetype><D:collection/><C:calendar/></D:resourcetype>
        <D:displayname>FVOCI</D:displayname>
        <D:getetag>" ++ xml_escape etag ++ raw "</D:getetag>
        <D:getcontenttype>text/calendar; charset=utf-8</D:getcontenttype>
        <C:supported-calendar-component-set><C:comp name=~VEVENT~/></C:supported-calendar-component-set>
        <C:calendar-data>" ++ xml_escape ics ++ raw "</C:calendar-data>
      </D:prop>
      <D:status>HTTP/1.1 200 OK</D:status>
    </D:propstat>
  </D:response>
</D:multistatus>
".

Definition caldav_not_found (href : str) : str :=
  raw "<?xml version=~1.0~ encoding=~utf-8~?>
<D:error xmlns:D=~DAV:~>
  <D:href>" ++ xml_escape href ++ raw "</D:href>
  <D:responsedescription>not found</D:responsedescription>
</D:error>
".

(** ** Folding *)

Definition FOLD_OCTETS : nat := 75.
Definition CRLF : str := [CR; LF].

(** [while end > offset && !line.is_char_boundary(end) { end -= 1 }] with
    [end = offset + k]. *)
Fixpoint back_off (line : str) (offset k : nat) : nat :=
  match k with
  | O => offset
  | S k' => if is_char_boundary line (offset + k) then (offset + k)%nat else back_off line offset k'
  end.

(** [while end < len && !line.is_char_boundary(end) { end += 1 }]. *)
Fixpoint go_on (n : nat) (line : str) (end_ : nat) : nat :=
  match n with
  | O => end_
  | S n => if (end_ <? length line)%nat && negb (is_char_boundary line end_) then go_on n line (S end_) else end_
  end.

Fixpoint fold_loop (fuel : nat) (line : str) (offset : nat) (first : bool) (out : str) : run str :=
  if (offset <? length line)%nat then
    match fuel with
    | O => Stuck
    | S fuel =>
      let budget := if first then FOLD_OCTETS else (FOLD_OCTETS - 1)%nat in
      let end_ := back_off line offset (Nat.min (offset + budget) (length line) - offset) in
      let end_ := if (end_ =? offset)%nat
                  then let e := Nat.min (offset + 1) (length line) in go_on (length line - e) line e
                  else end_ in
      match str_get line offset end_ with
      | Some piece => fold_loop fuel line end_ false (out ++ (if first then [] else CRLF ++ [SPACE]) ++ piece)
      | None => Stuck
      end
    end
  else Ret out.

Definition fold_ics_line (line : str) : run str :=
  if (length line <=? FOLD_OCTETS)%nat then Ret line else fold_loop (length line) line 0 true [].

(** ** Time zones *)

(** [str::contains]. *)
Fixpoint contains (pat s : str) : bool :=
  match strip_prefix pat s with
  | Some _ => true
  | None => match s with [] => false | _ :: t => contains pat t end
  end.

Definition zone_char (b : byte) : bool :=
  in_range 48 57 (b2z b) || in_range 65 90 (b2z b) || in_range 97 122 (b2z b) ||
  bool_decide (b = Byte.x5f) || bool_decide (b = Byte.x2b) || bool_decide (b = Byte.x2d).

Definition iana_name_ok (name : str) : bool :=
  if bool_decide (name = []) || (64 <? len name) || starts_with Byte.x2f name || contains (bs "..") name then false
  else
    let parts := split Byte.x2f name in
    (len parts <=? 4) && forallb (fun p => negb (bool_decide (p = [])) && forallb zone_char p) parts && (1 <=? len parts).

Definition u32_be_at (bytes : list byte) (at_ : Z) : option Z :=
  if len bytes <? at_ + 4 then None else Some (from_be_bytes (take 4 (drop (Z.to_nat at_) bytes))).

Record TzifCounts := Counts { isutcnt : Z; isstdcnt : Z; leapcnt : Z; timecnt : Z; typecnt : Z; charcnt : Z }.

Definition tzif_counts (bytes : list byte) (at_ : Z) : option TzifCounts :=
  if len bytes <? at_ + 24 then None
  else
    a ← u32_be_at bytes at_; b ← u32_be_at bytes (at_ + 4); c ← u32_be_at bytes (at_ + 8);
    d ← u32_be_at bytes (at_ + 12); e ← u32_be_at bytes (at_ + 16); f ← u32_be_at bytes (at_ + 20);
    Some (Counts a b c d e f).

(** The loop over the transitions from [i] on, [n] of them left. *)
Fixpoint transition_loop (n : nat) (bytes : list byte) (times_at types_at time_size unix i chosen : Z) : run Z :=
  match n with
  | O => Ret chosen
  | S n =>
    let start := times_at + i * time_size in
    raw ← range bytes start (start + time_size);
    if signed (8 * time_size) (from_be_bytes raw) <=? unix then
      ty ← index bytes (types_at + i);
      transition_loop n bytes times_at types_at time_size unix (i + 1) (b2z ty)
    else Ret chosen
  end.

(** The size of a time and the position of the counts; [None] is the [return
    None] of a malformed file. *)
Definition tzif_layout (bytes : list byte) : run (option (Z * Z)) :=
  version ← index bytes 4;
  if 0x32 <=? b2z version then
    match tzif_counts bytes 20 with
    | None => Ret None
    | Some f =>
      let skip := 44 + timecnt f * 5 + typecnt f * 6 + charcnt f + leapcnt f * 8 + isutcnt f + isstdcnt f in
      if len bytes <? skip + 44 then Ret None
      else
        magic ← range bytes skip (skip + 4);
        if negb (bool_decide (magic = bs "TZif")) then Ret None else Ret (Some (8, skip + 20))
    end
  else Ret (Some (4, 20)).

Definition parse_tzif_offset (bytes : list byte) (unix : Z) : run (option Z) :=
  if len bytes <? 44 then Ret None
  else
  magic ← range bytes 0 4;
  if negb (bool_decide (magic = bs "TZif")) then Ret None
  else
  layout ← tzif_layout bytes;
  match layout with
  | None => Ret None
  | Some (time_size, header_at) =>
    match tzif_counts bytes header_at with
    | None => Ret None
    | Some c =>
      let times_at := header_at + 24 in
      let types_at := times_at + timecnt c * time_size in
      let infos_at := types_at + timecnt c in
      if len bytes <? infos_at + typecnt c * 6 then Ret None
      else
      chosen ← transition_loop (Z.to_nat (timecnt c)) bytes times_at types_at time_size unix 0 0;
      if typecnt c <=? chosen then Ret None
      else
      let info := infos_at + chosen * 6 in
      raw ← range bytes info (info + 4);
      Ret (Some (signed 32 (from_be_bytes raw)))
    end
  end.

(** ** Rendering *)

Section ics.
Context {L : IcsLib}.

Record IcsTask := Task {
  id : str;
  title : str;
  start_date : option naive_date;
  due_date : option naive_date;
  due_at : option instant;
  updated_at : instant;
}.

Definition next_iso_date (d : naive_date) : naive_date := default d (succ_opt d).

Definition event_date (t : IcsTask) : option naive_date :=
  match start_date t with
  | Some start => Some start
  | None => match due_date t with Some due => Some due | None => date_naive <$> due_at t end
  end.

Definition event_end (t : IcsTask) (start : naive_date) : naive_date :=
  match due_date t with
  | Some due => next_iso_date due
  | None =>
    match start_date t, due_at t with
    | Some _, Some at_ => next_iso_date (date_naive at_)
    | _, _ => next_iso_date start
    end
  end.

Definition zoneinfo_offset_seconds (time_zone : str) (unix : Z) : run (option Z) :=
  if negb (iana_name_ok time_zone) then Ret None
  else match read_zone time_zone with None => Ret None | Some bytes => parse_tzif_offset bytes unix end.

Definition local_wall_stamp (at_ : instant) (time_zone : str) : run (option str) :=
  offset ← zoneinfo_offset_seconds time_zone (timestamp at_);
  Ret (match offset with Some o => Some (wall_stamp at_ o) | None => None end).

Definition stamp_in_zone (at_ : instant) (time_zone : str) : run str :=
  stamp ← local_wall_stamp at_ time_zone;
  Ret (match stamp with Some stamp => stamp | None => wall_stamp at_ 0 end).

Definition header_lines : list str :=
  [bs "BEGIN:VCALENDAR"; bs "VERSION:2.0"; bs "PRODID:-//FVOCI//ICS//KO"; bs "CALSCALE:GREGORIAN"; bs "METHOD:PUBLISH"].

(** The lines pushed for one task. *)
Definition event_lines (tzid stamp : str) (t : IcsTask) : list str :=
  match event_date t with
  | None => []
  | Some start =>
    [bs "BEGIN:VEVENT"; bs "UID:" ++ id t ++ bs "@fvoci"; bs "DTSTAMP;TZID=" ++ tzid ++ bs ":" ++ stamp;
     bs "DTSTART;VALUE=DATE:" ++ date_stamp start; bs "DTEND;VALUE=DATE:" ++ date_stamp (event_end t start);
     bs "SUMMARY:" ++ ics_escape (title t); bs "END:VEVENT"]
  end.

Definition all_lines (tasks : list IcsTask) (tzid stamp : str) : list str :=
  header_lines ++ concat (event_lines tzid stamp <$> tasks) ++ [bs "END:VCALENDAR"].

Fixpoint push_lines (lines : list str) (body : str) : run str :=
  match lines with
  | [] => Ret body
  | line :: lines => folded ← fold_ics_line line; push_lines lines (body ++ folded ++ CRLF)
  end.

Definition render_ics (tasks : list IcsTask) (time_zone : str) (now : instant) : run str :=
  stamp ← stamp_in_zone now time_zone;
  push_lines (all_lines tasks (ics_escape time_zone) stamp) [].

Definition ics_etag (token_updated_at : instant) (tasks : list IcsTask) : str :=
  let material := rfc3339_millis token_updated_at ++ bs "|" ++
    join (bs ",") ((fun t => id t ++ bs ":" ++ rfc3339_millis (updated_at t)) <$> tasks) in
  [QUOTE] ++ hash_token material ++ [QUOTE].

End ics.
