(* ===== verification/IcsTheorems.v ===== *)
(** * Calendar feeds: a reader gets the tasks back, and nothing panics *)

From stdpp Require Import base list numbers strings gmap.
From Stdlib Require Import ZArith Lia.
From S2P Require Import Prelude Text TextFacts Chrono ChronoInstance Cursor Ics.

(** ** Escaping *)

Definition escape_byte (b : byte) : str :=
  if bool_decide (b = BACKSLASH) then [BACKSLASH; BACKSLASH]
  else if bool_decide (b = SEMICOLON) then [BACKSLASH; SEMICOLON]
  else if bool_decide (b = COMMA) then [BACKSLASH; COMMA]
  else if bool_decide (b = CR) then []
  else if bool_decide (b = LF) then [BACKSLASH; LOWER_N]
  else [b].

(** What a calendar reader does with an escaped text (RFC 5545, 3.3.11). *)
Fixpoint ics_unescape (s : str) : str :=
  match s with
  | [] => []
  | b :: t =>
    match t with
    | c :: t' => if bool_decide (b = BACKSLASH) then (if bool_decide (c = LOWER_N) then LF else c) :: ics_unescape t'
                 else b :: ics_unescape t
    | [] => [b]
    end
  end.

Lemma replace_char_app c r s t : replace_char c r (s ++ t) = replace_char c r s ++ replace_char c r t.
Proof. unfold replace_char. by rewrite fmap_app, concat_app. Qed.

Lemma ics_escape_app s t : ics_escape (s ++ t) = ics_escape s ++ ics_escape t.
Proof. unfold ics_escape. by rewrite !replace_char_app. Qed.

Lemma ics_escape_byte b : ics_escape [b] = escape_byte b.
Proof.
  unfold ics_escape, escape_byte, replace_char. simpl.
  destruct (decide (b = BACKSLASH)) as [->|H1]; [done|]. rewrite (bool_decide_false _ H1). simpl.
  destruct (decide (b = SEMICOLON)) as [->|H2]; [done|]. rewrite (bool_decide_false _ H2). simpl.
  destruct (decide (b = COMMA)) as [->|H3]; [done|]. rewrite (bool_decide_false _ H3). simpl.
  destruct (decide (b = CR)) as [->|H4]; [done|]. rewrite (bool_decide_false _ H4). simpl.
  destruct (decide (b = LF)) as [->|H5]; [done|]. by rewrite (bool_decide_false _ H5).
Qed.

Lemma ics_escape_cons b s : ics_escape (b :: s) = escape_byte b ++ ics_escape s.
Proof. change (b :: s) with ([b] ++ s). by rewrite ics_escape_app, ics_escape_byte. Qed.

Lemma escape_byte_spec b :
  (CR ∉ escape_byte b) /\ (LF ∉ escape_byte b) /\
  forall t, ics_unescape (escape_byte b ++ t) = (if bool_decide (b = CR) then [] else [b]) ++ ics_unescape t.
Proof.
  unfold escape_byte.
  destruct (decide (b = BACKSLASH)) as [->|H1]; [by split_and!; [by_decide..|]|]. rewrite (bool_decide_false _ H1).
  destruct (decide (b = SEMICOLON)) as [->|H2]; [by split_and!; [by_decide..|]|]. rewrite (bool_decide_false _ H2).
  destruct (decide (b = COMMA)) as [->|H3]; [by split_and!; [by_decide..|]|]. rewrite (bool_decide_false _ H3).
  destruct (decide (b = CR)) as [->|H4]; [by split_and!; [by_decide..|]|]. rewrite (bool_decide_false _ H4).
  destruct (decide (b = LF)) as [->|H5]; [by split_and!; [by_decide..|]|]. rewrite (bool_decide_false _ H5).
  rewrite !list_elem_of_singleton. split_and!; [done..|]. intros t. simpl. destruct t; [done|].
  by rewrite (bool_decide_false _ H1).
Qed.

Lemma escape_roundtrip s : ics_unescape (ics_escape s) = remove_byte CR s.
Proof.
  induction s as [|b s IH]; [done|]. rewrite ics_escape_cons.
  destruct (escape_byte_spec b) as (_ & _ & ->). rewrite IH. unfold remove_byte. rewrite filter_cons.
  case_bool_decide; case_decide; try done; subst; done.
Qed.

Lemma escape_clean s : (CR ∉ ics_escape s) /\ (LF ∉ ics_escape s).
Proof.
  induction s as [|b s [IH1 IH2]]; [split; by_decide|]. rewrite ics_escape_cons, !elem_of_app.
  destruct (escape_byte_spec b) as (H1 & H2 & _). naive_solver.
Qed.

Lemma replace_char_valid c r s : b2z c < 128 -> utf8_valid r = true -> utf8_valid s = true -> utf8_valid (replace_char c r s) = true.
Proof.
  intros Hc Hr. revert s. apply (valid_ind (fun s => utf8_valid (replace_char c r s) = true)); [done|].
  intros k s Hk _ IH. rewrite replace_char_app. apply utf8_valid_app; [|done]. destruct (decide (c ∈ k)) as [Hi|Hi].
  - rewrite (char_no_ascii k c Hk Hc Hi). unfold replace_char. simpl. rewrite bool_decide_true, app_nil_r by done. done.
  - replace (replace_char c r k) with k; [by destruct Hk|]. unfold replace_char. clear Hk.
    induction k as [|b k IHk]; [done|]. rewrite fmap_cons. simpl. rewrite bool_decide_false by set_solver. simpl.
    f_equal. apply IHk. set_solver.
Qed.

Lemma escape_valid s : utf8_valid s = true -> utf8_valid (ics_escape s) = true.
Proof. intros. unfold ics_escape. by repeat (apply replace_char_valid; [done|by_decide|]). Qed.

(** ** Folding *)

Lemma back_off_spec line offset k k0 :
  (1 <= k0 <= k)%nat -> is_char_boundary line (offset + k0) = true ->
  exists k', back_off line offset k = (offset + k')%nat /\ (1 <= k' <= k)%nat /\ is_char_boundary line (offset + k') = true.
Proof.
  intros Hk Hb. induction k as [|k IH]; [lia|]. cbn [back_off].
  destruct (is_char_boundary line (offset + S k)) eqn:E; [exists (S k); split_and!; [done|lia|lia|done]|].
  destruct (decide (k0 = S k)) as [->|Hn]; [congruence|]. destruct IH as (k' & -> & Hk' & Hb'); [lia|].
  exists k'. split_and!; [done|lia|lia|done].
Qed.

(** The pieces after the first, each behind a line break and a space. *)
Definition folded_tail (ps : list str) : str := concat ((fun p => CRLF ++ [SPACE] ++ p) <$> ps).

Definition piece_ok (max : nat) (p : str) : Prop := p <> [] /\ utf8_valid p = true /\ (length p <= max)%nat.

Lemma fold_step line offset budget :
  utf8_valid line = true -> is_char_boundary line offset = true -> (offset < length line)%nat -> (4 <= budget)%nat ->
  let end_ := back_off line offset (Nat.min (offset + budget) (length line) - offset) in
  exists piece, (end_ =? offset)%nat = false /\ str_get line offset end_ = Some piece /\ piece_ok budget piece /\
    is_char_boundary line end_ = true /\ (offset < end_ <= length line)%nat /\ drop offset line = piece ++ drop end_ line.
Proof.
  intros Hv Ho Hl Hb. destruct (boundary_next line offset Hv Ho Hl) as (k0 & Hk0 & Hle & Hb0).
  destruct (back_off_spec line offset (Nat.min (offset + budget) (length line) - offset) k0 ltac:(lia) Hb0) as (k & -> & Hk & Hbk).
  simpl. destruct (boundary_split line offset Hv Ho) as [_ Hd]. exists (take k (drop offset line)).
  assert (Hlen : length (take k (drop offset line)) = k) by (rewrite length_take, length_drop; lia).
  split_and!; [apply Nat.eqb_neq; lia| | |done|lia|lia|].
  - unfold str_get. rewrite Ho, Hbk, (proj2 (Nat.leb_le _ _)) by lia. simpl. do 2 f_equal. lia.
  - split; [intros E; rewrite E in Hlen; simpl in Hlen; lia|].
    split; [|lia]. destruct (boundary_split line (offset + k) Hv Hbk) as [Ht _].
    destruct (boundary_split (take (offset + k) line) offset Ht) as [_ H].
    + revert Ho. unfold is_char_boundary. rewrite lookup_take_lt by lia. destruct (line !! offset) eqn:E; [done|].
      apply lookup_ge_None in E. lia.
    + rewrite skipn_firstn_comm in H. by replace (offset + k - offset)%nat with k in H by lia.
  - rewrite <- drop_drop. by rewrite take_drop.
Qed.

Lemma fold_loop_tail fuel line offset out :
  utf8_valid line = true -> is_char_boundary line offset = true -> (offset <= length line)%nat -> (length line - offset <= fuel)%nat ->
  exists ps, fold_loop fuel line offset false out = Ret (out ++ folded_tail ps) /\
    drop offset line = concat ps /\ Forall (piece_ok (FOLD_OCTETS - 1)) ps.
Proof.
  intros Hv. revert offset out. induction fuel as [|fuel IH]; intros offset out Hb Hl Hf.
  - exists []. cbn [fold_loop]. rewrite (proj2 (Nat.ltb_ge _ _)) by lia. rewrite drop_ge, app_nil_r by lia. done.
  - cbn [fold_loop]. destruct (Nat.ltb_spec offset (length line)) as [H|H].
    + destruct (fold_step line offset (FOLD_OCTETS - 1) Hv Hb H ltac:(unfold FOLD_OCTETS; lia)) as (p & E1 & E2 & Hp & Hb' & Hl' & Ed).
      rewrite E1, E2. destruct (IH _ (out ++ (CRLF ++ [SPACE]) ++ p) Hb' ltac:(lia) ltac:(lia)) as (ps & -> & Ed' & Hps).
      exists (p :: ps). unfold folded_tail. rewrite fmap_cons. simpl. split_and!; [by rewrite <- app_assoc|by rewrite Ed, Ed'|by constructor].
    + exists []. rewrite drop_ge, app_nil_r by lia. done.
Qed.

(** A folded line is the line cut into valid pieces that fit. *)
Lemma fold_pieces line :
  utf8_valid line = true -> line <> [] ->
  exists p ps, fold_ics_line line = Ret (p ++ folded_tail ps) /\ line = p ++ concat ps /\
    piece_ok FOLD_OCTETS p /\ Forall (piece_ok (FOLD_OCTETS - 1)) ps.
Proof.
  intros Hv Hn. unfold fold_ics_line. destruct (Nat.leb_spec (length line) FOLD_OCTETS) as [H|H].
  - exists line, []. by rewrite !app_nil_r.
  - assert (Hl : (0 < length line)%nat) by (unfold FOLD_OCTETS in H; lia).
    destruct (fold_step line 0 FOLD_OCTETS Hv eq_refl Hl ltac:(unfold FOLD_OCTETS; lia)) as (p & E1 & E2 & Hp & Hb' & Hl' & Ed).
    destruct (length line) as [|n] eqn:En; [lia|]. cbn [fold_loop]. rewrite En, (proj2 (Nat.ltb_lt _ _)) by lia.
    rewrite E1, E2.
    destruct (fold_loop_tail n line _ ([] ++ [] ++ p) Hv Hb' ltac:(lia) ltac:(lia)) as (ps & -> & Ed' & Hps).
    exists p, ps. rewrite <- Ed'. by rewrite drop_0 in Ed.
Qed.

(** ** What a calendar reader sees *)

(** The physical lines. *)
Fixpoint split_crlf (s : str) : list str :=
  match s with
  | [] => [[]]
  | b :: t =>
    let rest := match split_crlf t with p :: ps => (b :: p) :: ps | [] => [[b]] end in
    match t with
    | c :: t' => if bool_decide (b = CR) && bool_decide (c = LF) then [] :: split_crlf t' else rest
    | [] => rest
    end
  end.

(** A physical line that begins with a space continues the one before. *)
Fixpoint unfold_from (cur : str) (ls : list str) : list str :=
  match ls with
  | [] => [cur]
  | l :: ls =>
    match l with
    | b :: r => if bool_decide (b = SPACE) then unfold_from (cur ++ r) ls else cur :: unfold_from l ls
    | [] => cur :: unfold_from l ls
    end
  end.

Definition ics_lines (body : str) : list str :=
  match split_crlf body with l :: ls => unfold_from l ls | [] => [] end.

Lemma split_crlf_app l r : CR ∉ l -> split_crlf (l ++ CRLF ++ r) = l :: split_crlf r.
Proof.
  induction l as [|b l IH]; intros Hn; [done|]. cbn [split_crlf app]. rewrite IH by set_solver.
  destruct l as [|c l]; simpl; rewrite (bool_decide_false (b = CR)) by set_solver; done.
Qed.

(** The physical lines of a folded line. *)
Definition physical (p : str) (ps : list str) : list str := p :: ((fun q => SPACE :: q) <$> ps).

Lemma folded_tail_cons q ps : folded_tail (q :: ps) = CRLF ++ (SPACE :: q) ++ folded_tail ps.
Proof. done. Qed.

Lemma physical_bytes p ps : concat ((fun l => l ++ CRLF) <$> physical p ps) = p ++ folded_tail ps ++ CRLF.
Proof.
  revert p. induction ps as [|q ps IH]; intros p; [unfold physical; simpl; by rewrite app_nil_r|].
  change (physical p (q :: ps)) with (p :: physical (SPACE :: q) ps). rewrite fmap_cons. cbn [concat].
  rewrite IH, folded_tail_cons. by rewrite <- !app_assoc.
Qed.

Lemma split_lines ls : Forall (fun l => CR ∉ l) ls -> split_crlf (concat ((fun l => l ++ CRLF) <$> ls)) = ls ++ [[]].
Proof.
  induction 1 as [|l ls Hl _ IH]; [done|]. rewrite fmap_cons. cbn [concat].
  by rewrite <- app_assoc, split_crlf_app, IH.
Qed.

(** A logical line: valid text without line breaks that does not begin with a
    space. *)
Definition line_ok (l : str) : Prop :=
  utf8_valid l = true /\ (CR ∉ l) /\ (LF ∉ l) /\ exists b t, l = b :: t /\ b <> SPACE.

Lemma unfold_physical cur ps ls : unfold_from cur (((fun q => SPACE :: q) <$> ps) ++ ls) = unfold_from (cur ++ concat ps) ls.
Proof. revert cur. induction ps as [|p ps IH]; intros cur; simpl; [by rewrite app_nil_r|]. by rewrite IH, <- app_assoc. Qed.

Lemma push_lines_spec lines body :
  Forall line_ok lines ->
  exists phys, push_lines lines body = Ret (body ++ concat ((fun l => l ++ CRLF) <$> phys)) /\
    Forall (fun l => (CR ∉ l) /\ (LF ∉ l) /\ (length l <= FOLD_OCTETS)%nat) phys /\
    (forall l ls, phys = l :: ls -> exists b t, l = b :: t /\ b <> SPACE) /\
    forall cur, unfold_from cur (phys ++ [[]]) = cur :: lines ++ [[]].
Proof.
  intros Hl. revert body. induction Hl as [|l lines (Hv & Hc & Hf & b & t & -> & Hb) _ IH]; intros body.
  - exists []. simpl. by rewrite app_nil_r.
  - destruct (fold_pieces (b :: t) Hv ltac:(done)) as (p & ps & E & El & Hp & Hps). cbn [push_lines]. rewrite E. cbn [mbind run_bind].
    destruct (IH (body ++ (p ++ folded_tail ps) ++ CRLF)) as (phys & -> & Hphys & _ & Hu). exists (physical p ps ++ phys).
    assert (Hsub : forall c, c ∉ b :: t -> (c ∉ p) /\ forall q, q ∈ ps -> c ∉ q).
    { intros c Hn. rewrite El in Hn. split; [set_solver|]. intros q Hq Hi. apply Hn, elem_of_app. right.
      apply list_elem_of_In, in_concat. exists q. by rewrite <- !list_elem_of_In. }
    destruct (Hsub CR Hc) as [Hpc Hpsc], (Hsub LF Hf) as [Hpf Hpsf].
    split_and!.
    + f_equal. by rewrite fmap_app, concat_app, physical_bytes, <- !app_assoc.
    + apply Forall_app. split; [|done]. constructor; [by destruct Hp as (_ & _ & ?)|]. apply Forall_fmap, Forall_forall.
      intros q Hq. rewrite Forall_forall in Hps. destruct (Hps q Hq) as (_ & _ & Hlen). simpl.
      split_and!; [apply not_elem_of_cons; split; [done|auto]..|]. unfold FOLD_OCTETS in *. lia.
    + intros l ls [= <- <-]. destruct p as [|b' p]; [by destruct Hp as [? _]|]. simpl in El. injection El as -> _. eauto.
    + intros cur. unfold physical. destruct p as [|b' p]; [by destruct Hp as [? _]|].
      simpl in El. injection El as -> El. cbn [app unfold_from]. rewrite (bool_decide_false _ Hb).
      rewrite <- app_assoc, unfold_physical, Hu. simpl. by rewrite El.
Qed.

(** ** Time-zone files *)

Lemma from_be_nonneg l : 0 <= from_be_bytes l.
Proof.
  unfold from_be_bytes. assert (H : forall acc, 0 <= acc -> 0 <= foldl (fun acc b => acc * 256 + b2z b) acc l); [|by apply H].
  induction l as [|b l IH]; intros acc Ha; [done|]. simpl. apply IH. pose proof (b2z_range b). lia.
Qed.

Lemma from_be_bound l : from_be_bytes l < 256 ^ len l.
Proof.
  unfold from_be_bytes.
  assert (H : forall acc n, 0 <= n -> acc < 256 ^ n -> foldl (fun acc b => acc * 256 + b2z b) acc l < 256 ^ (n + len l)).
  { induction l as [|b l IH]; intros acc n Hn Ha; simpl; [unfold len; simpl; by rewrite Z.add_0_r|].
    rewrite len_cons, Z.add_assoc. apply IH; [lia|]. rewrite Z.pow_add_r by lia. pose proof (b2z_range b). lia. }
  by apply (H 0 0).
Qed.

Lemma range_ret l from to : 0 <= from <= to -> to <= len l -> exists r, range l from to = Ret r /\ len r = to - from.
Proof.
  intros Hf Ht. unfold range. rewrite (proj2 (Z.ltb_ge from 0)), (proj2 (Z.ltb_ge to from)), (proj2 (Z.ltb_ge (len l) to)) by lia.
  simpl. eexists. split; [done|]. unfold len in *. rewrite length_take, length_drop. lia.
Qed.

Lemma index_ret l i : 0 <= i < len l -> exists b, index l i = Ret b.
Proof.
  intros Hi. unfold index. destruct (lookup_lt_is_Some_2 l (Z.to_nat i)) as [b ->]; [unfold len in Hi; lia|].
  rewrite (proj2 (Z.ltb_ge _ _)) by lia. by eexists.
Qed.

Lemma u32_be_at_nonneg bytes at_ z : u32_be_at bytes at_ = Some z -> 0 <= z.
Proof. unfold u32_be_at. case_match; [done|]. intros [= <-]. apply from_be_nonneg. Qed.

Lemma tzif_counts_nonneg bytes at_ c :
  tzif_counts bytes at_ = Some c ->
  0 <= isutcnt c /\ 0 <= isstdcnt c /\ 0 <= leapcnt c /\ 0 <= timecnt c /\ 0 <= typecnt c /\ 0 <= charcnt c.
Proof.
  unfold tzif_counts. case_match; [done|].
  repeat match goal with |- context [u32_be_at ?b ?a] => destruct (u32_be_at b a) eqn:?; simpl; [|done] end.
  intros [= <-]. simpl. split_and!; by eapply u32_be_at_nonneg.
Qed.

Lemma transition_ret n bytes times_at types_at ts unix i chosen :
  0 <= times_at -> 0 <= ts -> 0 <= i -> 0 <= chosen -> times_at + (i + Z.of_nat n) * ts <= len bytes ->
  0 <= types_at -> types_at + i + Z.of_nat n <= len bytes ->
  exists r, transition_loop n bytes times_at types_at ts unix i chosen = Ret r /\ 0 <= r.
Proof.
  intros Ht Hs. revert i chosen. induction n as [|n IH]; intros i chosen Hi Hc Hl Hp Hy; [by exists chosen|].
  cbn [transition_loop].
  destruct (range_ret bytes (times_at + i * ts) (times_at + i * ts + ts)) as (r & -> & _); [nia|nia|]. cbn [mbind run_bind].
  case_match; [|by exists chosen]. destruct (index_ret bytes (types_at + i)) as [b ->]; [lia|]. cbn [mbind run_bind].
  apply IH; [lia|pose proof (b2z_range b); lia|nia|lia|lia].
Qed.

Lemma tzif_layout_ret bytes :
  44 <= len bytes -> exists r, tzif_layout bytes = Ret r /\ forall ts h, r = Some (ts, h) -> 0 <= ts /\ 0 <= h.
Proof.
  intros Hl. unfold tzif_layout. destruct (index_ret bytes 4) as [v ->]; [lia|]. cbn [mbind run_bind].
  case_match; [|by eexists; split; [done|]; intros ? ? [= <- <-]].
  destruct (tzif_counts bytes 20) as [c|] eqn:E; [|by eexists]. apply tzif_counts_nonneg in E.
  case_match; [by eexists|]. bool_to_prop.
  match goal with |- context [range bytes ?a ?b] => destruct (range_ret bytes a b) as (m & -> & _); [lia|lia|] end.
  cbn [mbind run_bind]. case_match; [by eexists|]. eexists. split; [done|]. intros ? ? [= <- <-]. lia.
Qed.

Lemma signed_range z : 0 <= z < 2 ^ 32 -> - 2 ^ 31 <= signed 32 z < 2 ^ 31.
Proof. intros. unfold signed. change (2 ^ (32 - 1)) with (2 ^ 31). case_match; bool_to_prop; lia. Qed.

Lemma tzif_ret bytes unix :
  exists r, parse_tzif_offset bytes unix = Ret r /\ forall o, r = Some o -> - 2 ^ 31 <= o < 2 ^ 31.
Proof.
  unfold parse_tzif_offset. destruct (Z.ltb_spec (len bytes) 44) as [H|H]; [by eexists|].
  destruct (range_ret bytes 0 4) as (m & -> & _); [lia|lia|]. cbn [mbind run_bind]. case_match; [by eexists|].
  destruct (tzif_layout_ret bytes H) as (r & -> & Hr). cbn [mbind run_bind].
  destruct r as [[ts h]|]; [|by eexists]. destruct (Hr ts h eq_refl) as [Hts Hh].
  destruct (tzif_counts bytes h) as [c|] eqn:E; [|by eexists]. apply tzif_counts_nonneg in E as (_ & _ & _ & Ht & Hy & _).
  case_match eqn:El; [by eexists|]. bool_to_prop.
  destruct (transition_ret (Z.to_nat (timecnt c)) bytes (h + 24) (h + 24 + timecnt c * ts) ts unix 0 0) as (ch & -> & Hch);
    [lia|lia|lia|lia|rewrite Z2Nat.id by lia; nia|nia|rewrite Z2Nat.id by lia; nia|].
  cbn [mbind run_bind]. case_match; [by eexists|]. bool_to_prop.
  destruct (range_ret bytes (h + 24 + timecnt c * ts + timecnt c + ch * 6) (h + 24 + timecnt c * ts + timecnt c + ch * 6 + 4))
    as (raw & -> & Hraw); [nia|nia|]. cbn [mbind run_bind]. eexists. split; [done|]. intros o [= <-]. apply signed_range.
  split; [apply from_be_nonneg|]. pose proof (from_be_bound raw) as Hb. rewrite Hraw in Hb.
  replace (_ - _) with 4 in Hb by lia. by change (256 ^ 4) with (2 ^ 32) in Hb.
Qed.

(** ** Theorems *)

(** Reading a time-zone file never panics, whatever its bytes are: every
    index and slice the reader takes is within the file.  An offset it returns
    is a 32-bit number. *)
Theorem tzif_total (bytes : list byte) (unix : Z) :
  exists r, parse_tzif_offset bytes unix = Ret r /\ forall o, r = Some o -> - 2 ^ 31 <= o < 2 ^ 31.
Proof. apply tzif_ret. Qed.

(** Folding a line ends for every line of valid text, and cuts it only
    between characters: the result is the line in physical lines of at most 75
    octets that, joined again without the added breaks, are the line. *)
Theorem fold_terminates (line : str) :
  utf8_valid line = true -> line <> [] ->
  exists p ps, fold_ics_line line = Ret (p ++ folded_tail ps) /\ p ++ concat ps = line /\
    Forall (fun l => utf8_valid l = true /\ (length l <= FOLD_OCTETS)%nat) (physical p ps).
Proof.
  intros Hv Hn. destruct (fold_pieces line Hv Hn) as (p & ps & E & El & (_ & Hp & Hlp) & Hps).
  exists p, ps. split_and!; [done|done|]. constructor; [done|]. apply Forall_fmap. eapply Forall_mono; [|exact Hps].
  intros q (_ & Hq & Hl). simpl. split; [|unfold FOLD_OCTETS in *; lia].
  change (SPACE :: q) with ([SPACE] ++ q). by apply utf8_valid_app.
Qed.

Section feed.
Context {L : IcsLib}.

(** Formatted stamps are printable ASCII. *)
Class IcsLaws : Prop := {
  wall_stamp_ascii at_ o : Forall (fun b => 33 <= b2z b <= 126) (wall_stamp at_ o);
  date_stamp_ascii d : Forall (fun b => 33 <= b2z b <= 126) (date_stamp d);
}.

Context {Laws : IcsLaws}.

Definition text_ok (s : str) : Prop := utf8_valid s = true /\ (CR ∉ s) /\ (LF ∉ s).

(** What the server puts into a feed: a title is any text; identifiers have no
    line breaks. *)
Definition task_ok (t : IcsTask) : Prop := utf8_valid (title t) = true /\ text_ok (id t).

Lemma text_ok_app s t : text_ok s -> text_ok t -> text_ok (s ++ t).
Proof. intros (? & ? & ?) (? & ? & ?). split_and!; [by apply utf8_valid_app|set_solver..]. Qed.

Lemma printable_ok s : Forall (fun b => 33 <= b2z b <= 126) s -> text_ok s.
Proof.
  intros H. split_and!.
  - apply utf8_valid_ascii. eapply Forall_mono; [|exact H]. simpl. lia.
  - rewrite Forall_forall in H. intros Hi%H. vm_compute in Hi. by destruct Hi.
  - rewrite Forall_forall in H. intros Hi%H. vm_compute in Hi. by destruct Hi.
Qed.

Lemma escape_ok s : utf8_valid s = true -> text_ok (ics_escape s).
Proof. intros. destruct (escape_clean s). split_and!; [by apply escape_valid|done..]. Qed.

Lemma text_line b s t : text_ok (b :: s) -> b <> SPACE -> text_ok t -> line_ok ((b :: s) ++ t).
Proof. intros Hb Hs Ht. destruct (text_ok_app _ _ Hb Ht) as (? & ? & ?). split_and!; [done..|]. by exists b, (s ++ t). Qed.

Lemma keyword_line (k : string) t : bool_decide (text_ok (bs k)) = true -> negb (starts_with SPACE (bs k)) && negb (bool_decide (bs k = [])) = true ->
  text_ok t -> line_ok (bs k ++ t).
Proof.
  intros Hk%bool_decide_eq_true [Hs Hn]%andb_true_iff Ht. destruct (bs k) as [|b s]; [done|].
  apply text_line; [done| |done]. by intros ->.
Qed.

Lemma text_ok_nil : text_ok [].
Proof. split_and!; by_decide. Qed.

Lemma stamp_ok now tz : exists stamp, stamp_in_zone now tz = Ret stamp /\ text_ok stamp.
Proof.
  unfold stamp_in_zone, local_wall_stamp, zoneinfo_offset_seconds.
  assert (H : exists o, (if negb (iana_name_ok tz) then Ret None
    else match read_zone tz with Some bytes => parse_tzif_offset bytes (timestamp now) | None => Ret None end) = Ret o).
  { case_match; [by eexists|]. case_match; [|by eexists]. destruct (tzif_ret l (timestamp now)) as (r & -> & _). by eexists. }
  destruct H as [o ->]. cbn [mbind run_bind]. destruct o as [o|]; eexists; (split; [done|]); apply printable_ok, wall_stamp_ascii.
Qed.

Lemma line_of_text b s : text_ok (b :: s) -> b <> SPACE -> line_ok (b :: s).
Proof. intros (? & ? & ?) ?. split_and!; [done..|]. by exists b, s. Qed.

Ltac keyword := apply keyword_line; [by_decide|vm_compute; reflexivity|].

Lemma event_lines_ok tz stamp t : utf8_valid tz = true -> text_ok stamp -> task_ok t -> Forall line_ok (event_lines (ics_escape tz) stamp t).
Proof.
  intros Htz Hs [Ht Hid]. unfold event_lines. destruct (event_date t) as [d|]; [|constructor].
  assert (Hp : forall k, bool_decide (text_ok (bs k)) = true -> text_ok (bs k)) by (intros k; apply bool_decide_eq_true).
  repeat apply Forall_cons_2; [..|constructor].
  - apply line_of_text; [split_and!; by_decide|done].
  - keyword. apply text_ok_app; [done|split_and!; by_decide].
  - keyword. apply text_ok_app; [by apply escape_ok|]. apply text_ok_app; [split_and!; by_decide|done].
  - keyword. apply printable_ok, date_stamp_ascii.
  - keyword. apply printable_ok, date_stamp_ascii.
  - keyword. by apply escape_ok.
  - apply line_of_text; [split_and!; by_decide|done].
Qed.

Lemma all_lines_ok tasks tz stamp :
  utf8_valid tz = true -> text_ok stamp -> Forall task_ok tasks -> Forall line_ok (all_lines tasks (ics_escape tz) stamp).
Proof.
  intros Htz Hs Ht. unfold all_lines. apply Forall_app. split.
  - unfold header_lines. repeat apply Forall_cons_2; [..|constructor]; apply line_of_text; (done || split_and!; by_decide).
  - apply Forall_app. split; [|repeat constructor; apply line_of_text; (done || split_and!; by_decide)].
    induction Ht as [|t tasks Ht1 _ IH]; [constructor|]. rewrite fmap_cons. simpl. apply Forall_app.
    split; [by apply event_lines_ok|done].
Qed.


End feed.

(** ** A concrete feed *)

#[local] Instance civil_ics : IcsLib := {|
  ics_chrono := civil;
  instant := Z;
  date_naive t := t / 86400;
  timestamp t := t;
  wall_stamp t o :=
    let s := t + o in let '(y, m, d) := civil_ymd (s / 86400) in
    dec_digits 4 y ++ dec_digits 2 m ++ dec_digits 2 d ++ bs "T" ++ dec_digits 6 (s mod 86400);
  date_stamp a := let '(y, m, d) := civil_ymd a in dec_digits 4 y ++ dec_digits 2 m ++ dec_digits 2 d;
  rfc3339_millis t := dec_digits 10 t;
  hash_token s := s;
  read_zone _ := None;
|}.

Lemma digits_printable n z : Forall (fun b => 33 <= b2z b <= 126) (dec_digits n z).
Proof.
  eapply Forall_mono; [|apply dec_digits_ascii]. intros b Hb%in_range_spec. simpl. lia.
Qed.

#[local] Instance civil_ics_laws : IcsLaws.
Proof.
  split.
  - intros t o. unfold wall_stamp, civil_ics. destruct (civil_ymd ((t + o) / 86400)) as [[y m] d].
    rewrite !Forall_app. split_and!; try apply digits_printable. apply Forall_singleton. by_decide.
  - intros a. unfold date_stamp, civil_ics. destruct (civil_ymd a) as [[y m] d].
    rewrite !Forall_app. split_and!; apply digits_printable.
Qed.

Definition w_task : IcsTask := Task (bs "1") (bs "a;b") None (Some 0) None 0.


Lemma fold_terminates_witness : exists p ps, fold_ics_line (bs "SUMMARY:x") = Ret (p ++ folded_tail ps).
Proof.
  destruct (fold_terminates (bs "SUMMARY:x") eq_refl ltac:(done)) as (p & ps & E & _). by exists p, ps.
Defined.

Lemma tzif_total_witness : exists r, parse_tzif_offset (bs "TZif") 0 = Ret r.
Proof. destruct (tzif_total (bs "TZif") 0) as (r & E & _). by exists r. Defined.
