(* ===== verification/Net.v ===== *)
(** * IP addresses ([std::net])

    [Ipv4Addr] and [Ipv6Addr] as numbers, with [Display] and [FromStr] of the
    standard library. *)

From stdpp Require Import base list numbers strings gmap.
From Stdlib Require Import ZArith Lia.
From S2P Require Import Prelude Text TextFacts Chrono.

Inductive IpAddr := V4 (n : Z) | V6 (n : Z).

#[export] Instance IpAddr_eq_dec : EqDecision IpAddr.
Proof. solve_decision. Defined.
#[export] Instance IpAddr_countable : Countable IpAddr.
Proof.
  refine (inj_countable' (fun ip => match ip with V4 n => (true, n) | V6 n => (false, n) end)
    (fun '(b, n) => if b : bool then V4 n else V6 n) _). by intros [].
Defined.

Definition is_ipv4 (ip : IpAddr) : bool := match ip with V4 _ => true | V6 _ => false end.
Definition is_unspecified (ip : IpAddr) : bool := match ip with V4 n | V6 n => n =? 0 end.

(** ** Display *)

(** The decimal or lower-case hexadecimal digits of a number, without leading
    zeros. *)
Definition digit_byte (d : Z) : byte := z2b (if d <? 10 then 48 + d else 87 + d).

Fixpoint radix_digits (fuel : nat) (radix z : Z) (acc : str) : str :=
  match fuel with
  | O => acc
  | S n => let acc := digit_byte (z mod radix) :: acc in if z <? radix then acc else radix_digits n radix (z / radix) acc
  end.

Definition show_dec (z : Z) : str := radix_digits 40 10 z [].
Definition show_hex (z : Z) : str := radix_digits 40 16 z [].

Definition octets (n : Z) : list Z := [Z.land (Z.shiftr n 24) 255; Z.land (Z.shiftr n 16) 255; Z.land (Z.shiftr n 8) 255; Z.land n 255].

Definition show_ipv4 (n : Z) : str := join (bs ".") (show_dec <$> octets n).

(** The eight 16-bit segments. *)
Definition segments (n : Z) : list Z := (fun i => Z.land (Z.shiftr n (16 * (7 - Z.of_nat i))) 65535) <$> seq 0 8.

(** The first of the longest runs of zero segments: start and length. *)
Fixpoint zero_run (segs : list Z) (i : nat) (cur best : nat * nat) : nat * nat :=
  match segs with
  | [] => best
  | s :: segs =>
    if s =? 0 then
      let cur := if (cur.2 =? 0)%nat then (i, 1%nat) else (cur.1, S cur.2) in
      zero_run segs (S i) cur (if (best.2 <? cur.2)%nat then cur else best)
    else zero_run segs (S i) (0%nat, 0%nat) best
  end.

Definition show_segments (segs : list Z) : str := join (bs ":") (show_hex <$> segs).

Definition show_ipv6 (n : Z) : str :=
  if Z.shiftr n 32 =? 0xffff then bs "::ffff:" ++ show_ipv4 (Z.land n 0xffffffff)
  else
    let segs := segments n in
    let '(start, count) := zero_run segs 0 (0%nat, 0%nat) (0%nat, 0%nat) in
    if (1 <? count)%nat then show_segments (take start segs) ++ bs "::" ++ show_segments (drop (start + count) segs)
    else show_segments segs.

(** ** FromStr *)

(** [read_number]: at most [max_digits] digits of a number up to [max]; a
    leading zero is refused unless allowed. *)
Fixpoint read_digits (radix max : Z) (max_digits : nat) (n : nat) (acc : Z) (s : str) : option (Z * nat * str) :=
  match s with
  | b :: t =>
    match to_digit radix b with
    | Some d =>
      match max_digits with
      | O => None
      | S m => if max <? acc * radix + d then None else read_digits radix max m (S n) (acc * radix + d) t
      end
    | None => Some (acc, n, s)
    end
  | [] => Some (acc, n, s)
  end.

Definition read_number (radix max : Z) (max_digits : nat) (allow_zero_prefix : bool) (s : str) : option (Z * str) :=
  '(v, n, rest) ← read_digits radix max max_digits 0 0 s;
  if (n =? 0)%nat then None
  else if negb allow_zero_prefix && starts_with Byte.x30 s && (1 <? n)%nat then None
  else Some (v, rest).

(** [read_given_char]. *)
Definition read_char (c : byte) (s : str) : option str :=
  match s with b :: t => if bool_decide (b = c) then Some t else None | [] => None end.

Definition DOT : byte := Byte.x2e.
Definition COLON : byte := Byte.x3a.

Definition read_octet (s : str) : option (Z * str) := read_number 10 255 3 false s.

Definition read_ipv4_addr (s : str) : option (Z * str) :=
  '(a, s) ← read_octet s; s ← read_char DOT s; '(b, s) ← read_octet s; s ← read_char DOT s;
  '(c, s) ← read_octet s; s ← read_char DOT s; '(d, s) ← read_octet s;
  Some (Z.shiftl a 24 + Z.shiftl b 16 + Z.shiftl c 8 + d, s).

(** [read_separator(':', i, f)]: the separator before every group but the
    first. *)
Definition read_separator {A} (i : nat) (f : str -> option (A * str)) (s : str) : option (A * str) :=
  if (i =? 0)%nat then f s else s ← read_char COLON s; f s.

(** [read_groups] for the groups from [i] on, [k] of [limit] left: the groups
    read, whether they end in an IPv4 address, and the rest. *)
Fixpoint read_groups (k i limit : nat) (s : str) : list Z * bool * str :=
  match k with
  | O => ([], false, s)
  | S k =>
    match (if (i <? limit - 1)%nat then read_separator i read_ipv4_addr s else None) with
    | Some (v4, s) => ([Z.shiftr v4 16; Z.land v4 65535], true, s)
    | None =>
      match read_separator i (read_number 16 65535 4 true) s with
      | Some (g, s) => let '(gs, v4, s) := read_groups k (S i) limit s in (g :: gs, v4, s)
      | None => ([], false, s)
      end
    end
  end.

Definition from_segments (segs : list Z) : Z := foldl (fun acc g => acc * 65536 + g) 0 segs.

Definition read_ipv6_addr (s : str) : option (Z * str) :=
  let '(head, head_ipv4, s) := read_groups 8 0 8 s in
  if (length head =? 8)%nat then Some (from_segments head, s)
  else if head_ipv4 then None
  else
    s ← read_char COLON s; s ← read_char COLON s;
    let limit := (8 - (length head + 1))%nat in
    let '(tail, _, s) := read_groups limit 0 limit s in
    Some (from_segments (head ++ replicate (8 - length head - length tail) 0 ++ tail), s).

(** [str::parse::<IpAddr>]. *)
Definition parse_ip (s : str) : option IpAddr :=
  match
    match read_ipv4_addr s with
    | Some (n, rest) => Some (V4 n, rest)
    | None => '(n, rest) ← read_ipv6_addr s; Some (V6 n, rest)
    end
  with
  | Some (ip, []) => Some ip
  | _ => None
  end.

(** Tried on known forms. *)
Example show_examples :
  show_ipv4 0x7f000001 = bs "127.0.0.1" /\ show_ipv6 1 = bs "::1" /\ show_ipv6 0 = bs "::" /\
  show_ipv6 0x20010db8000000000000000000000001 = bs "2001:db8::1" /\
  show_ipv6 0xffff7f000001 = bs "::ffff:127.0.0.1".
Proof. vm_compute. done. Qed.

Example parse_examples :
  parse_ip (bs "127.0.0.1") = Some (V4 0x7f000001) /\ parse_ip (bs "127.0.0.01") = None /\ parse_ip (bs "::") = Some (V6 0) /\
  parse_ip (bs "2001:db8::1") = Some (V6 0x20010db8000000000000000000000001) /\ parse_ip (bs "1:2:3:4:5:6:7::") = Some (V6 0x10002000300040005000600070000) /\
  parse_ip (bs "::ffff:10.0.0.1") = Some (V6 0xffff0a000001) /\ parse_ip (bs "1::2::3") = None /\ parse_ip (bs "256.0.0.1") = None.
Proof. vm_compute. done. Qed.
