(* ===== verification/Outbound.v ===== *)
(** * Requests to user-supplied URLs ([src/integrations/outbound.rs])

    A URL is checked, its host resolved once, every answer checked, and the
    connection goes to a checked address.  Webhooks refuse redirects.

    The URL parser is the [url] crate: a parameter.  The network (resolver,
    servers, timeouts) is an adversary: any answers at all.  The connections
    that are opened are recorded. *)

From stdpp Require Import base list numbers strings gmap.
From Stdlib Require Import ZArith Lia.
From S2P Require Import Prelude Text TextFacts Net.

Definition URL_MAX : Z := 2048.
Definition RESPONSE_READ_CAP : Z := 256 * 1024.

Inductive OutboundRejected := RUrl | RAddress | RResolve | RRedirect.
Inductive OutboundError := Rejected (r : OutboundRejected) | Transport (what : string).

#[export] Instance OutboundRejected_eq_dec : EqDecision OutboundRejected.
Proof. solve_decision. Defined.

(** [url::Host]. *)
Inductive Host := Domain (name : str) | HIpv4 (n : Z) | HIpv6 (n : Z).

(** [url::Url]. *)
Class UrlLib := {
  url : Type;
  url_parse : str -> option url;
  as_string : url -> str;
  scheme : url -> str;
  username : url -> str;
  password : url -> option str;
  host : url -> option Host;
  port : url -> option Z;
  port_or_known_default : url -> option Z;
  url_join : url -> str -> option url;
  host_str : url -> option str;
  path : url -> str;
  query_pairs : url -> list (str * str);
}.

(** ** Policy *)

Record OutboundPolicy := Policy { hosts : gset (list byte); addrs : gset IpAddr }.

Definition policy_default : OutboundPolicy := Policy ∅ ∅.

(** [str::to_ascii_lowercase]. *)
Definition lower (b : byte) : byte := if in_range 65 90 (b2z b) then z2b (b2z b + 32) else b.
Definition to_ascii_lowercase (s : str) : str := lower <$> s.

Definition canonical_ip_host (ip : IpAddr) : str :=
  match ip with V4 n => show_ipv4 n | V6 n => bs "[" ++ show_ipv6 n ++ bs "]" end.

Definition host_char (b : byte) : bool :=
  in_range 48 57 (b2z b) || in_range 65 90 (b2z b) || in_range 97 122 (b2z b) ||
  bool_decide (b = Byte.x2d) || bool_decide (b = Byte.x2e).

(** [strip_prefix('[').and_then(strip_suffix(']')).unwrap_or(entry)]. *)
Definition bare_host (entry : str) : str :=
  match entry with
  | b :: t => if bool_decide (b = Byte.x5b) && ends_with Byte.x5d t then removelast t else entry
  | [] => entry
  end.

(** One entry of the list; [None] is the configuration error. *)
Definition allow_entry (p : OutboundPolicy) (entry : str) : option OutboundPolicy :=
  let bare := bare_host entry in
  match parse_ip bare with
  | Some ip =>
    if is_unspecified ip then None
    else Some (Policy ({[canonical_ip_host ip]} ∪ hosts p) ({[ip]} ∪ addrs p))
  | None =>
    if forallb host_char bare && negb (bool_decide (bare = []))
    then Some (Policy ({[to_ascii_lowercase bare]} ∪ hosts p) (addrs p)) else None
  end.

Definition parse_allow_list (raw : str) : option OutboundPolicy :=
  foldl (fun r e => r ≫= fun p => allow_entry p e) (Some policy_default)
    (filter (fun e => e <> []) (trim <$> split Byte.x2c raw)).

Definition host_allowed (p : OutboundPolicy) (h : str) : bool := bool_decide (h ∈ hosts p).
Definition addr_allowed (p : OutboundPolicy) (ip : IpAddr) : bool := bool_decide (ip ∈ addrs p).

(** ** Addresses *)

Definition is_private_ipv4 (n : Z) : bool :=
  match octets n with
  | [a; b; c; _] =>
    (a =? 0) || (a =? 10) || (a =? 127)
    || ((a =? 169) && (b =? 254))
    || ((a =? 172) && in_range 16 31 b)
    || ((a =? 192) && (b =? 168))
    || ((a =? 100) && in_range 64 127 b)
    || ((a =? 198) && ((b =? 18) || (b =? 19)))
    || ((a =? 192) && (b =? 0) && ((c =? 0) || (c =? 2)))
    || ((a =? 192) && (b =? 88) && (c =? 99))
    || ((a =? 198) && (b =? 51) && (c =? 100))
    || ((a =? 203) && (b =? 0) && (c =? 113))
    || (224 <=? a)
  | _ => false
  end.

Definition is_private_ipv6 (n : Z) : bool :=
  let prefix bits := Z.shiftr n (128 - bits) in
  (prefix 96 =? 0)
  || (prefix 10 =? 0x3fa)
  || (prefix 7 =? 0x7e)
  || (prefix 10 =? 0x3fb)
  || (prefix 8 =? 0xff)
  || (prefix 16 =? 0x2002)
  || (prefix 96 =? Z.lor (Z.shiftl 0x64 80) (Z.shiftl 0xff9b 64))
  || (prefix 48 =? 0x0064ff9b0001)
  || (prefix 96 =? 0xffff)
  || (prefix 96 =? 0xffff0000)
  || (prefix 32 =? 0x20010000)
  || (prefix 32 =? 0x20010db8).

Definition is_private_ip (ip : IpAddr) : bool :=
  match ip with V4 n => is_private_ipv4 n | V6 n => is_private_ipv6 n end.

Definition check_addr (ip : IpAddr) (p : OutboundPolicy) : result OutboundRejected unit :=
  if is_private_ip ip && negb (addr_allowed p ip) then Err RAddress else Ok tt.

(** ** Host names *)

(** [str::ends_with] and [trim_end_matches]. *)
Definition ends_with_str (suffix s : str) : bool :=
  match strip_prefix (reverse suffix) (reverse s) with Some _ => true | None => false end.
Definition trim_end_matches (c : byte) (s : str) : str := reverse (trim_start_matches c (reverse s)).

Definition host_name_blocked (h : str) : bool :=
  let h := trim_end_matches DOT h in
  bool_decide (h = bs "localhost")
  || ends_with_str (bs ".localhost") h
  || ends_with_str (bs ".local") h
  || ends_with_str (bs ".internal") h
  || ends_with_str (bs ".arpa") h
  || bool_decide (h = bs "metadata.google.internal")
  || bool_decide (h = bs "metadata.amazonaws.com").

Section outbound.
Context {L : UrlLib}.

Definition http_scheme (u : url) : bool := bool_decide (scheme u = bs "http") || bool_decide (scheme u = bs "https").

Definition host_key (h : Host) : str :=
  match h with
  | Domain name => to_ascii_lowercase name
  | HIpv4 n => show_ipv4 n
  | HIpv6 n => bs "[" ++ show_ipv6 n ++ bs "]"
  end.

Definition port_ok (o : option Z) : bool :=
  match o with None => true | Some n => (n =? 80) || (n =? 443) end.

Definition parse_target_url (raw : str) (p : OutboundPolicy) : result OutboundRejected url :=
  let trimmed := trim raw in
  if bool_decide (trimmed = []) || (URL_MAX <? len trimmed) then Err RUrl
  else
  u ← ok_or (url_parse trimmed) RUrl;
  if negb (http_scheme u) then Err RUrl
  else if negb (bool_decide (username u = [])) || bool_decide (is_Some (password u)) then Err RUrl
  else
  h ← ok_or (host u) RUrl;
  let listed := host_allowed p (host_key h) in
  if negb listed && negb (port_ok (port u)) then Err RUrl
  else
  _ ← match h with
      | Domain name => if negb listed && host_name_blocked (to_ascii_lowercase name) then Err RUrl else Ok tt
      | HIpv4 n => map_err (fun _ => RUrl) (check_addr (V4 n) p)
      | HIpv6 n => map_err (fun _ => RUrl) (check_addr (V6 n) p)
      end;
  Ok u.

(** ** Connecting *)

(** A connection that was opened: to this address and port, for this URL. *)
Record conn := Conn { c_url : url; c_addr : IpAddr; c_port : Z }.

Record PinnedGet := Got { status : Z; location : option str; body : list byte }.

(** What the network does at each point, by the number of the request: the
    resolver's answer, whether resolving or the request runs into its timeout,
    and the server's answer (or a transport error). *)
Record net := Net {
  n_lookup : nat -> str -> option (list IpAddr);
  n_resolve_timeout : nat -> bool;
  n_get_timeout : nat -> bool;
  n_answer : nat -> conn -> result string (Z * option str * list (result string (list byte)));
}.

(** The check of every answer, and then the first IPv4 or the first. *)
Fixpoint check_all (ips : list IpAddr) (p : OutboundPolicy) : result OutboundRejected unit :=
  match ips with
  | [] => Ok tt
  | ip :: ips => _ ← check_addr ip p; check_all ips p
  end.

Definition find_ipv4 (ips : list IpAddr) : option IpAddr := head (filter (fun ip => is_ipv4 ip = true) ips).

Definition pin (w : net) (i : nat) (u : url) (p : OutboundPolicy) : result OutboundRejected (IpAddr * Z) :=
  po ← ok_or (port_or_known_default u) RUrl;
  h ← ok_or (host u) RUrl;
  ip ← match h with
       | HIpv4 n => Ok (V4 n)
       | HIpv6 n => Ok (V6 n)
       | Domain name =>
         answers ← ok_or (n_lookup w i name) RResolve;
         match answers with
         | [] => Err RResolve
         | first :: _ => _ ← check_all answers p; Ok (default first (find_ipv4 answers))
         end
       end;
  _ ← check_addr ip p;
  Ok (ip, po).

(** [read_capped_body]: chunks up to the cap. *)
Fixpoint read_capped_body (chunks : list (result string (list byte))) (body : list byte) : result string (list byte) :=
  match chunks with
  | [] => Ok body
  | Err e :: _ => Err e
  | Ok chunk :: chunks =>
    let take_ := Z.max 0 (RESPONSE_READ_CAP - len body) in
    if take_ =? 0 then Ok body
    else if take_ <? len chunk then Ok (body ++ take (Z.to_nat take_) chunk)
    else read_capped_body chunks (body ++ chunk)
  end.

Definition is_redirect (s : Z) : bool := (s =? 301) || (s =? 302) || (s =? 303) || (s =? 307) || (s =? 308).

(** Resolving under its timeout, then one request; the connections opened, and
    the answer. *)
Definition checked_request (w : net) (i : nat) (raw : str) (p : OutboundPolicy)
  : list conn * result OutboundError (Z * option str * list (result string (list byte))) :=
  match parse_target_url raw p with
  | Err e => ([], Err (Rejected e))
  | Ok u =>
    if n_resolve_timeout w i then ([], Err (Transport "resolve timeout"))
    else
    match pin w i u p with
    | Err e => ([], Err (Rejected e))
    | Ok (ip, po) => let c := Conn u ip po in ([c], map_err Transport (n_answer w i c))
    end
  end.

(** [Outbound::post]. *)
Definition post (w : net) (raw : str) (p : OutboundPolicy) : list conn * result OutboundError Z :=
  match checked_request w 0 raw p with
  | (cs, Err e) => (cs, Err e)
  | (cs, Ok (st, _, chunks)) =>
    if is_redirect st then (cs, Err (Rejected RRedirect))
    else (cs, match read_capped_body chunks [] with Ok _ => Ok st | Err e => Err (Transport e) end)
  end.

(** [Outbound::get]. *)
Definition get (w : net) (i : nat) (raw : str) (p : OutboundPolicy) : list conn * result OutboundError PinnedGet :=
  match checked_request w i raw p with
  | (cs, Err e) => (cs, Err e)
  | (cs, Ok (st, loc, chunks)) =>
    if n_get_timeout w i then (cs, Err (Transport "get timeout"))
    else (cs, match read_capped_body chunks [] with Ok b => Ok (Got st loc b) | Err e => Err (Transport e) end)
  end.

End outbound.
