(* ===== verification/Unfurl.v ===== *)
(** * Link previews ([src/integrations/unfurl.rs])

    A page (or the GitHub API for an issue or pull request) is fetched with the
    strict default policy, following at most three redirects, each of which is
    checked like the first URL; the preview is made from the answer.

    The HTML tokenizer ([html5gum]) and the numbers of [serde_json] are
    parameters, like the URL parser. *)

From stdpp Require Import base list numbers strings gmap.
From Stdlib Require Import ZArith Lia.
From S2P Require Import Prelude Text TextFacts Chrono Json Net Outbound.

Definition UNFURL_MAX_REDIRECTS : nat := 3.
Definition TITLE_MAX : nat := 500.
Definition DESC_MAX : nat := 2000.
Definition IMAGE_MAX : nat := 2048.
Definition STATE_MAX : nat := 32.

Inductive UnfurlKind := GithubIssue | GithubPull | Og.

Record UnfurlResult := Unfurl {
  u_kind : UnfurlKind; u_url : str; title : option str; description : option str; image_url : option str;
  state : option str; number : option Z; owner : option str; repo : option str; html : option str }.

Definition empty (k : UnfurlKind) (u : str) : UnfurlResult := Unfurl k u None None None None None None None None.

(** [Result::or_else] and [Option::or], on what is there or not. *)
Definition or_else {A} (a b : option A) : option A := match a with Some _ => a | None => b end.

(** [chars().take(n)] collected: the bytes of the first [n] characters. *)
Fixpoint take_chars (n : nat) (s : str) : str :=
  match s with
  | [] => []
  | b :: s => if is_cont b then b :: take_chars n s else match n with O => [] | S n => b :: take_chars n s end
  end.

Definition clip (value : option str) (max : nat) : option str :=
  v ← value;
  let trimmed := trim v in
  if bool_decide (trimmed = []) then None
  else if (length (chars trimmed) <=? max)%nat then Some trimmed else Some (take_chars max trimmed).

Definition security_reject (e : OutboundRejected) : bool :=
  match e with RUrl | RAddress | RRedirect => true | RResolve => false end.

Definition http_ok (s : Z) : bool := (200 <=? s) && (s <? 300).

Definition eq_ignore_ascii_case (s t : str) : bool := bool_decide (to_ascii_lowercase s = to_ascii_lowercase t).

(** ** Meta tags *)

(** A token: a start tag with its name and attributes, or anything else. *)
Inductive Token := StartTag (name : list byte) (attributes : list (list byte * list byte)) | OtherToken.

Definition attr (attributes : list (list byte * list byte)) (name : list byte) : option (list byte) :=
  snd <$> head (filter (fun kv => kv.1 = name) attributes).

Definition attr_eq_ignore_ascii attributes (name want : list byte) : bool :=
  match attr attributes name with Some got => eq_ignore_ascii_case got want | None => false end.

Definition is_og_meta attributes (property : str) : bool :=
  attr_eq_ignore_ascii attributes (bs "property") property || attr_eq_ignore_ascii attributes (bs "name") property.

Definition content_string attributes : option str :=
  raw ← attr attributes (bs "content");
  text ← from_utf8 raw;
  if bool_decide (trim text = []) then None else Some (trim text).

(** ** GitHub references *)

(** The rest of [s] after the prefix [p], letters in either case. *)
Fixpoint strip_prefix_ci (p s : str) : option str :=
  match p, s with
  | [], _ => Some s
  | a :: p, b :: s => if bool_decide (lower a = lower b) then strip_prefix_ci p s else None
  | _ :: _, [] => None
  end.

Definition optional_ci (p s : str) : str := default s (strip_prefix_ci p s).

(** [([^/]+)/]. *)
Definition segment (s : str) : option (str * str) :=
  '(a, rest) ← split_once Byte.x2f s;
  if bool_decide (a = []) then None else Some (a, rest).

Fixpoint span_digits (s : str) : str * str :=
  match s with
  | b :: t => if is_ascii_digit b then let '(d, r) := span_digits t in (b :: d, r) else ([], s)
  | [] => ([], [])
  end.

Definition ref_end (s : str) : bool :=
  match s with [] => true | b :: _ => bool_decide (b ∈ [Byte.x2f; Byte.x3f; Byte.x23]) end.

Definition i64_max : Z := 2 ^ 63 - 1.

(** [GITHUB_REF_RE] on the text of a parsed URL, which is ASCII. *)
Definition parse_github_ref (u : str) : option (UnfurlKind * str * str * Z) :=
  s ← strip_prefix_ci (bs "http") u;
  s ← strip_prefix_ci (bs "://") (optional_ci (bs "s") s);
  s ← strip_prefix_ci (bs "github.com/") (optional_ci (bs "www.") s);
  '(o, s) ← segment s;
  '(r, s) ← segment s;
  '(k, s) ← match strip_prefix_ci (bs "issues/") s with
            | Some s => Some (GithubIssue, s)
            | None => s ← strip_prefix_ci (bs "pull/") s; Some (GithubPull, s)
            end;
  let '(digits, rest) := span_digits s in
  if bool_decide (digits = []) || negb (ref_end rest) then None
  else n ← from_str_radix 10 i64_max digits; Some (k, o, r, n).

(** [format!("https://api.github.com/repos/{owner}/{repo}/{api_path}/{number}")]. *)
Definition github_api_url (k : UnfurlKind) (o r : str) (n : Z) : str :=
  bs "https://api.github.com/repos/" ++ o ++ bs "/" ++ r ++ bs "/" ++
  (match k with GithubPull => bs "pulls" | _ => bs "issues" end) ++ bs "/" ++ show_dec n.

(** ** Embeds *)

Definition hex_upper (d : Z) : byte := z2b (if d <? 10 then 48 + d else 55 + d).

Definition unreserved (b : byte) : bool :=
  in_range 65 90 (b2z b) || in_range 97 122 (b2z b) || in_range 48 57 (b2z b) ||
  bool_decide (b ∈ [Byte.x2d; Byte.x5f; Byte.x2e; Byte.x7e]).

Definition urlencoding_plus (value : str) : str :=
  value ≫= fun b => if unreserved b then [b] else [Byte.x25; hex_upper (Z.shiftr (b2z b) 4); hex_upper (Z.land (b2z b) 15)].

Definition id_char (b : byte) : bool :=
  in_range 65 90 (b2z b) || in_range 97 122 (b2z b) || in_range 48 57 (b2z b) || bool_decide (b ∈ [Byte.x2d; Byte.x5f]).

Section unfurl.
Context {L : UrlLib} {J : SerdeJson}.
Context (tokenize : str -> list Token) (as_i64 as_u64 : Json.number -> option Z).

Definition is_http_url (value : str) : bool :=
  match url_parse value with Some u => http_scheme u | None => false end.

Definition validate_unfurl_query (raw : str) : result OutboundRejected unit :=
  let trimmed := trim raw in
  if bool_decide (trimmed = []) || (URL_MAX <? len trimmed) || negb (is_http_url trimmed) then Err RUrl else Ok tt.

Definition og_image (attributes : list (list byte * list byte)) (page_url : str) : option str :=
  raw ← content_string attributes;
  resolved ← or_else (url_parse raw) (base ← url_parse page_url; url_join base raw);
  if http_scheme resolved then clip (Some (as_string resolved)) IMAGE_MAX else None.

Definition og_state : Type := option str * option str * option str.

Definition og_tag (page_url : str) (attributes : list (list byte * list byte)) (st : og_state) : og_state :=
  let '(t, d, i) := st in
  if bool_decide (t = None) && is_og_meta attributes (bs "og:title") then (clip (content_string attributes) TITLE_MAX, d, i)
  else if bool_decide (d = None) && is_og_meta attributes (bs "og:description") then (t, clip (content_string attributes) DESC_MAX, i)
  else if bool_decide (i = None) && is_og_meta attributes (bs "og:image") then (t, d, og_image attributes page_url)
  else st.

Definition og_complete (st : og_state) : bool :=
  let '(t, d, i) := st in bool_decide (is_Some t) && bool_decide (is_Some d) && bool_decide (is_Some i).

Fixpoint og_loop (page_url : str) (tokens : list Token) (st : og_state) : og_state :=
  match tokens with
  | [] => st
  | OtherToken :: tokens => og_loop page_url tokens st
  | StartTag name attributes :: tokens =>
    if negb (bool_decide (name = bs "meta")) then og_loop page_url tokens st
    else
    let st := og_tag page_url attributes st in
    if og_complete st then st else og_loop page_url tokens st
  end.

Definition parse_og (page : str) (page_url : str) : og_state := og_loop page_url (tokenize page) (None, None, None).

(** ** Fetching *)

(** The hops of [get_follow] from the one with [hops] redirects still allowed;
    [i] counts the requests. *)
Fixpoint follow (w : net) (hops i : nat) (current : url) (p : OutboundPolicy)
  : list conn * result OutboundError (url * PinnedGet) :=
  let '(cs, r) := get w i (as_string current) p in
  match r with
  | Err e => (cs, Err e)
  | Ok response =>
    if negb (is_redirect (status response)) then (cs, Ok (current, response))
    else
    match hops with
    | O => (cs, Err (Rejected RRedirect))
    | S hops =>
      match
        loc ← ok_or (location response) RUrl;
        joined ← ok_or (or_else (url_join current loc) (url_parse loc)) RUrl;
        parse_target_url (as_string joined) p
      with
      | Err e => (cs, Err (Rejected e))
      | Ok next => let '(cs', r) := follow w hops (S i) next p in (cs ++ cs', r)
      end
    end
  end.

Definition get_follow (w : net) (i : nat) (start : url) (p : OutboundPolicy) := follow w UNFURL_MAX_REDIRECTS i start p.

Definition unfurl_og (w : net) (i : nat) (page : url) (p : OutboundPolicy) : list conn * result OutboundRejected UnfurlResult :=
  let none := empty Og (as_string page) in
  let '(cs, r) := get_follow w i page p in
  (cs, match r with
       | Err (Rejected e) => if security_reject e then Err e else Ok none
       | Err _ => Ok none
       | Ok (final, response) =>
         if negb (http_ok (status response)) then Ok none
         else
         let '(t, d, i) := parse_og (from_utf8_lossy (body response)) (as_string final) in
         Ok (Unfurl Og (as_string page) t d i None None None None None)
       end).

Definition json_object (raw : list byte) : option (list (str * value Json.number)) := from_slice raw ≫= as_object.
Definition json_string (obj : list (str * value Json.number)) (key : str) : option str := map_get key obj ≫= as_str.

(** [n as i64]. *)
Definition as_signed (n : Z) : Z := (n + 2 ^ 63) mod 2 ^ 64 - 2 ^ 63.

Definition json_number (obj : list (str * value Json.number)) (key : str) : option Z :=
  v ← map_get key obj;
  match v with
  | VNumber n => or_else (as_i64 n) (as_signed <$> as_u64 n)
  | _ => None
  end.

Definition from_api (page : url) (k : UnfurlKind) (o r : str) (n : Z) (obj : list (str * value Json.number)) : UnfurlResult :=
  Unfurl k (default (as_string page) (clip (json_string obj (bs "html_url")) IMAGE_MAX))
    (clip (json_string obj (bs "title")) TITLE_MAX) (clip (json_string obj (bs "body")) DESC_MAX) None
    (clip (json_string obj (bs "state")) STATE_MAX)
    (or_else (json_number obj (bs "number")) (Some n)) (Some o) (Some r) None.

Definition unfurl_github (w : net) (page : url) (k : UnfurlKind) (o r : str) (n : Z) (p : OutboundPolicy)
  : list conn * result OutboundRejected UnfurlResult :=
  match url_parse (github_api_url k o r n) with
  | None => ([], Err RUrl)
  | Some api =>
    let '(cs, answer) := get_follow w 0 api p in
    let fallback (_ : unit) :=
      let '(cs', og) := unfurl_og w (S UNFURL_MAX_REDIRECTS) page p in
      (cs ++ cs', og ← og; Ok (Unfurl k (as_string page) (title og) (description og) (image_url og) None (Some n) (Some o) (Some r) None)) in
    match answer with
    | Err (Rejected e) => if security_reject e then (cs, Err e) else fallback tt
    | Err _ => fallback tt
    | Ok (_, response) =>
      if negb (http_ok (status response)) then fallback tt
      else match json_object (body response) with Some obj => (cs, Ok (from_api page k o r n obj)) | None => fallback tt end
    end
  end.

Definition fetch_unfurl (w : net) (raw : str) (p : OutboundPolicy) : list conn * result OutboundRejected UnfurlResult :=
  match parse_target_url raw p with
  | Err e => ([], Err e)
  | Ok page =>
    match parse_github_ref (as_string page) with
    | Some (k, o, r, n) => unfurl_github w page k o r n p
    | None => unfurl_og w 0 page p
    end
  end.

(** ** Embeds *)

Definition youtube_id (u : url) : option str :=
  h ← host_str u;
  let h := to_ascii_lowercase h in
  let id :=
    if bool_decide (h = bs "youtu.be") then default [] (head (split Byte.x2f (trim_start_matches Byte.x2f (path u))))
    else if bool_decide (h = bs "youtube.com") || bool_decide (h = bs "www.youtube.com")
    then default [] (snd <$> head (filter (fun kv => kv.1 = bs "v") (query_pairs u)))
    else [] in
  if (6 <=? length id)%nat && forallb id_char id then Some id else None.

Definition vimeo_id (u : url) : option str :=
  h ← host_str u;
  let h := to_ascii_lowercase h in
  if negb (bool_decide (h = bs "vimeo.com")) && negb (bool_decide (h = bs "player.vimeo.com")) then None
  else
  let id := default [] (last (filter (fun p => p <> []) (split Byte.x2f (path u)))) in
  if forallb is_ascii_digit id && negb (bool_decide (id = [])) then Some id else None.

Definition embed_src (u : url) (h : str) : str :=
  let src := match youtube_id u with Some id => bs "https://www.youtube.com/embed/" ++ id | None => [] end in
  let src := match vimeo_id u with Some id => bs "https://player.vimeo.com/video/" ++ id | None => src end in
  if bool_decide (h = bs "figma.com") || bool_decide (h = bs "www.figma.com")
  then bs "https://www.figma.com/embed?embed_host=fvoci&url=" ++ urlencoding_plus (as_string u) else src.

(** A double quote. *)
Definition DQ : str := [Byte.x22].

Definition iframe (src : str) : str :=
  bs "<iframe src=" ++ DQ ++ src ++ DQ ++ bs " sandbox=" ++ DQ ++ bs "allow-scripts allow-same-origin" ++ DQ ++
  bs " loading=" ++ DQ ++ bs "lazy" ++ DQ ++ bs " referrerpolicy=" ++ DQ ++ bs "no-referrer" ++ DQ ++ bs "></iframe>".

Definition oembed_iframe (raw : str) (allowed_hosts : list str) : option str :=
  u ← url_parse raw;
  if negb (http_scheme u) then None
  else
  h ← host_str u;
  let h := to_ascii_lowercase h in
  if negb (existsb (fun allowed => eq_ignore_ascii_case allowed h) allowed_hosts) then None
  else
  let src := embed_src u h in
  if bool_decide (src = []) then None else Some (iframe src).

End unfurl.
