(* ===== verification/OutboundTheorems.v ===== *)
(** * What requests to user-supplied URLs can reach

    Whatever the resolver and the servers answer, a connection goes only to an
    address that was checked, for a URL that was checked. *)

From stdpp Require Import base list numbers strings gmap.
From Stdlib Require Import ZArith Lia.
From S2P Require Import Prelude Text TextFacts Net Outbound Unfurl.
From S2P Require Import Chrono Json JsonInstance.

(** ** Private ranges as CIDR blocks *)

(** The blocks as base address and prefix length. *)
Definition ipv4_blocks : list (Z * Z) := [
  (0x00000000, 8); (0x0a000000, 8); (0x64400000, 10); (0x7f000000, 8); (0xa9fe0000, 16); (0xac100000, 12);
  (0xc0000000, 24); (0xc0000200, 24); (0xc0586300, 24); (0xc0a80000, 16); (0xc6120000, 15); (0xc6336400, 24);
  (0xcb007100, 24); (0xe0000000, 3)].

Definition ipv6_blocks : list (Z * Z) := [
  (0, 96); (0xffff00000000, 96); (0xffff000000000000, 96); (0x64ff9b * 2 ^ 96, 96);
  (0x64ff9b0001 * 2 ^ 80, 48); (0x20010000 * 2 ^ 96, 32); (0x20010db8 * 2 ^ 96, 32); (0x2002 * 2 ^ 112, 16);
  (0xfc00 * 2 ^ 112, 7); (0xfe80 * 2 ^ 112, 10); (0xfec0 * 2 ^ 112, 10); (0xff00 * 2 ^ 112, 8)].

Definition in_block (width n : Z) (block : Z * Z) : Prop := block.1 <= n < block.1 + 2 ^ (width - block.2).

(** The octets are the four base-256 digits. *)
Lemma octets_sum n : 0 <= n < 2 ^ 32 -> exists a b c d,
  octets n = [a; b; c; d] /\ n = a * 2 ^ 24 + b * 2 ^ 16 + c * 2 ^ 8 + d /\
  0 <= a < 256 /\ 0 <= b < 256 /\ 0 <= c < 256 /\ 0 <= d < 256.
Proof.
  intros H. unfold octets. change 255 with (Z.ones 8). rewrite !Z.land_ones, !Z.shiftr_div_pow2 by lia.
  eexists _, _, _, _. split; [reflexivity|].
  pose proof (Z.div_mod n (2 ^ 8)). pose proof (Z.div_mod (n / 2 ^ 8) (2 ^ 8)). pose proof (Z.div_mod (n / 2 ^ 16) (2 ^ 8)).
  rewrite (Z.div_div n (2 ^ 8) (2 ^ 8)) in * by lia. rewrite (Z.div_div n (2 ^ 16) (2 ^ 8)) in * by lia.
  replace (2 ^ 8 * 2 ^ 8) with (2 ^ 16) in * by reflexivity. replace (2 ^ 16 * 2 ^ 8) with (2 ^ 24) in * by reflexivity.
  assert (n / 2 ^ 24 < 2 ^ 8) by (apply Z.div_lt_upper_bound; lia).
  assert (0 <= n / 2 ^ 24) by (apply Z.div_pos; lia).
  rewrite (Z.mod_small (n / 2 ^ 24)) by lia.
  pose proof (Z.mod_pos_bound n (2 ^ 8)). pose proof (Z.mod_pos_bound (n / 2 ^ 8) (2 ^ 8)).
  pose proof (Z.mod_pos_bound (n / 2 ^ 16) (2 ^ 8)). lia.
Qed.

(** Powers of two of literals as numbers. *)
Ltac eval_pow :=
  repeat match goal with |- context [2 ^ ?k] => let v := eval vm_compute in (2 ^ k) in change (2 ^ k) with v end.

(** A disjunction one of whose disjuncts is arithmetic. *)
Ltac some_disjunct :=
  lazymatch goal with
  | |- _ \/ _ => first [left; some_disjunct | right; some_disjunct]
  | |- _ => solve [lia]
  end.
Ltac each_disjunct G := lazymatch type of G with _ \/ _ => destruct G as [G|G]; each_disjunct G | _ => idtac end.

Lemma is_private_ipv4_blocks n : 0 <= n < 2 ^ 32 ->
  is_private_ipv4 n = true <-> Exists (in_block 32 n) ipv4_blocks.
Proof.
  intros H. destruct (octets_sum n H) as (a & b & c & d & E & -> & Ha & Hb & Hc & Hd). clear H.
  unfold is_private_ipv4, ipv4_blocks, in_block, in_range. rewrite E, !Exists_cons, Exists_nil. clear E. cbn [fst snd].
  rewrite !orb_true_iff, !andb_true_iff, ?orb_true_iff, !Z.leb_le, !Z.eqb_eq.
  eval_pow.
  split; intros G; each_disjunct G; try some_disjunct. destruct G as [G [Hc2|Hc2]]; some_disjunct.
Qed.

(** A prefix test is membership in its block. *)
Lemma prefix_block n k v : 0 <= k <= 128 -> (Z.shiftr n (128 - k) =? v) = true <-> in_block 128 n (v * 2 ^ (128 - k), k).
Proof.
  intros Hk. rewrite Z.eqb_eq, Z.shiftr_div_pow2 by lia. unfold in_block. cbn [fst snd].
  assert (0 < 2 ^ (128 - k)) by (apply Z.pow_pos_nonneg; lia).
  pose proof (Z.div_mod n (2 ^ (128 - k))). pose proof (Z.mod_pos_bound n (2 ^ (128 - k))). split; [nia|].
  intros ?. symmetry. apply (Z.div_unique _ _ _ (n - v * 2 ^ (128 - k))); lia.
Qed.

Lemma is_private_ipv6_blocks n : is_private_ipv6 n = true <-> Exists (in_block 128 n) ipv6_blocks.
Proof.
  unfold is_private_ipv6, ipv6_blocks. rewrite !orb_true_iff, !Exists_cons, Exists_nil.
  rewrite !prefix_block by lia.
  repeat match goal with |- context [in_block 128 n (?a, ?k)] =>
    lazymatch a with Zpos _ => fail | 0 => fail | _ => let v := eval vm_compute in a in change a with v end end.
  generalize (in_block 128 n). intros P. tauto.
Qed.

(** The IPv6 forms that carry an IPv4 address: compatible, mapped, translated,
    NAT64, and the address after the 6to4 prefix. *)
Definition embeds_ipv4 (n m : Z) : Prop :=
  Exists (fun base => n = base + m)
    [0; 0xffff * 2 ^ 32; 0xffff0000 * 2 ^ 32; Z.lor (Z.shiftl 0x64 80) (Z.shiftl 0xff9b 64) * 2 ^ 32]
  \/ exists low, 0 <= low < 2 ^ 80 /\ n = 0x2002 * 2 ^ 112 + m * 2 ^ 80 + low.

(** The address filter is exactly the published blocks: an IPv4 address is
    refused just when it lies in one of the fourteen special-purpose blocks, an
    IPv6 address just when it lies in one of twelve, and every IPv6 form that
    carries an IPv4 address is among those. *)
Theorem private_ranges_exact :
  (forall n, 0 <= n < 2 ^ 32 -> is_private_ip (V4 n) = true <-> Exists (in_block 32 n) ipv4_blocks) /\
  (forall n, is_private_ip (V6 n) = true <-> Exists (in_block 128 n) ipv6_blocks) /\
  (forall n m, 0 <= m < 2 ^ 32 -> embeds_ipv4 n m -> is_private_ip (V6 n) = true).
Proof.
  split; [apply is_private_ipv4_blocks|]. split; [apply is_private_ipv6_blocks|].
  intros n m Hm He. apply is_private_ipv6_blocks.
  unfold embeds_ipv4 in He. rewrite !Exists_cons, Exists_nil in He.
  unfold ipv6_blocks, in_block. rewrite !Exists_cons, Exists_nil. cbn [fst snd].
  replace (Z.lor (Z.shiftl 0x64 80) (Z.shiftl 0xff9b 64)) with (0x64ff9b * 2 ^ 64) in He by (vm_compute; reflexivity).
  destruct He as [He|(low & Hl & ->)]; [each_disjunct He; subst|]; eval_pow; some_disjunct.
Qed.

Lemma private_ranges_exact_witness :
  is_private_ip (V4 0xac1fffff) = true /\ is_private_ip (V4 0xac200000) = false /\ is_private_ip (V6 0xffff08080808) = true.
Proof.
  pose proof private_ranges_exact as (H4 & _ & H6). split_and!.
  - apply H4; [lia|]. by_decide.
  - destruct (is_private_ip (V4 0xac200000)) eqn:E; [|done]. apply H4 in E; [|lia]. exfalso. revert E. by_decide.
  - apply (H6 _ 0x08080808); [lia|]. left. by_decide.
Defined.

(** ** Checked URLs and addresses *)

Section checks.
Context {L : UrlLib}.

(** What the policy asks of an address, and of a URL with this host. *)
Definition addr_ok (p : OutboundPolicy) (ip : IpAddr) : Prop := is_private_ip ip = false \/ ip ∈ addrs p.

Definition host_ok (p : OutboundPolicy) (u : url) (h : Host) : Prop :=
  (host_key h ∈ hosts p \/ port_ok (port u) = true) /\
  match h with
  | Domain name => host_key h ∈ hosts p \/ host_name_blocked (host_key h) = false
  | HIpv4 n => addr_ok p (V4 n)
  | HIpv6 n => addr_ok p (V6 n)
  end.

Definition url_ok (p : OutboundPolicy) (u : url) : Prop :=
  http_scheme u = true /\ username u = [] /\ password u = None /\ exists h, host u = Some h /\ host_ok p u h.

Lemma check_addr_ok ip p : check_addr ip p = Ok tt <-> addr_ok p ip.
Proof.
  unfold check_addr, addr_ok, addr_allowed. case_bool_decide; destruct (is_private_ip ip); cbn; naive_solver.
Qed.

Lemma check_addr_err ip p e : check_addr ip p = Err e -> ~ addr_ok p ip.
Proof. intros H G%check_addr_ok. congruence. Qed.

Lemma check_all_ok ips p : check_all ips p = Ok tt <-> Forall (addr_ok p) ips.
Proof.
  induction ips as [|ip ips IH]; cbn; [by split; auto|]. rewrite Forall_cons, <- check_addr_ok.
  destruct (check_addr ip p) as [[]|e]; cbn; naive_solver.
Qed.

Lemma ok_or_Ok {A E} (o : option A) (e : E) a : ok_or o e = Ok a <-> o = Some a.
Proof. destruct o; cbn; naive_solver. Qed.

Local Ltac refuted := split; [done|intros (_ & _ & [= <-] & Hs' & Hu' & Hp' & h' & Hh' & Ho'); congruence].
Local Ltac settled := first [split; [intros [= <-]; auto|by intros [_ <-]] | split; [done|intros [[[] ?] _]; first [contradiction|congruence]]
  | split; [done|intros [[_ []] _]; first [contradiction|congruence]] | split; [done|intros [[_ ?] _]; contradiction]].

(** A URL is accepted just when it is short enough, parses, and passes. *)
Lemma parse_target_ok raw p u : parse_target_url raw p = Ok u <->
  trim raw <> [] /\ len (trim raw) <= URL_MAX /\ url_parse (trim raw) = Some u /\ url_ok p u.
Proof.
  unfold parse_target_url, url_ok. case_bool_decide; cbn [orb]; [by split; [|intros []]|].
  destruct (Z.ltb_spec URL_MAX (len (trim raw))); [split; [done|intros (? & ? & _); lia]|].
  destruct (url_parse (trim raw)) as [v|]; cbn; [|by split; [|intros (? & ? & ? & _)]].
  destruct (http_scheme v) eqn:Hs; cbn; [|refuted].
  case_bool_decide as Hu; cbn; [|refuted]. destruct (password v) eqn:Hp; cbn; [refuted|].
  destruct (host v) as [h|] eqn:Hh; cbn; [|refuted].
  transitivity (host_ok p v h /\ v = u); [|split; [intros [? <-]; eauto 10|]].
  2: { intros (_ & _ & [= <-] & _ & _ & _ & h' & Hh' & ?). by simplify_eq. }
  unfold host_ok, host_allowed.
  case_bool_decide as Hl; [|destruct (port_ok (port v)) eqn:Ho]; cbn; [| |settled];
    (destruct h as [name|n|n]; cbn;
      [|destruct (check_addr (V4 n) p) as [[]|e] eqn:Ec|destruct (check_addr (V6 n) p) as [[]|e] eqn:Ec]; cbn;
      try (apply check_addr_ok in Ec); try (apply check_addr_err in Ec); try settled).
  destruct (host_name_blocked (to_ascii_lowercase name)) eqn:Eb; settled.
Qed.

(** ** Connections *)

(** The address is the URL's literal, or one of the answers of the single
    lookup, all of which passed. *)
Definition pinned (w : net) (i : nat) (p : OutboundPolicy) (u : url) (ip : IpAddr) : Prop :=
  match host u with
  | Some (Domain name) => exists answers, n_lookup w i name = Some answers /\ ip ∈ answers /\ Forall (addr_ok p) answers
  | Some (HIpv4 n) => ip = V4 n
  | Some (HIpv6 n) => ip = V6 n
  | None => False
  end.

Lemma find_ipv4_elem ips first : first ∈ ips -> default first (find_ipv4 ips) ∈ ips.
Proof.
  intros Hf. unfold find_ipv4. destruct (filter _ ips) as [|ip l] eqn:E; [done|]. cbn.
  assert (H : ip ∈ filter (fun ip => is_ipv4 ip = true) ips) by (rewrite E; left). by apply list_elem_of_filter in H as [_ H].
Qed.

Lemma pin_ok w i u p ip po : pin w i u p = Ok (ip, po) ->
  port_or_known_default u = Some po /\ addr_ok p ip /\ pinned w i p u ip.
Proof.
  unfold pin, pinned. destruct (port_or_known_default u) as [po'|]; cbn; [|done].
  destruct (host u) as [[name|n|n]|]; cbn; [| | |done].
  - destruct (n_lookup w i name) as [[|first answers]|]; cbn -[check_all]; [done| |done].
    destruct (check_all _ _) as [[]|] eqn:Ea; [|done]. cbn -[find_ipv4].
    destruct (check_addr _ _) as [[]|] eqn:Ec; [|done]. intros [= <- <-]. apply check_addr_ok in Ec. apply check_all_ok in Ea.
    split_and!; [done|done|]. eexists. split_and!; [done| |done]. apply find_ipv4_elem. left.
  - destruct (check_addr _ _) as [[]|] eqn:Ec; cbn; [|done]. intros [= <- <-]. by apply check_addr_ok in Ec.
  - destruct (check_addr _ _) as [[]|] eqn:Ec; cbn; [|done]. intros [= <- <-]. by apply check_addr_ok in Ec.
Qed.

(** A connection for the text [raw] that the policy allows. *)
Definition good_conn (w : net) (i : nat) (p : OutboundPolicy) (raw : str) (c : conn) : Prop :=
  url_parse (trim raw) = Some (c_url c) /\ url_ok p (c_url c) /\ port_or_known_default (c_url c) = Some (c_port c) /\
  addr_ok p (c_addr c) /\ pinned w i p (c_url c) (c_addr c).

Lemma checked_request_good w i raw p :
  ((checked_request w i raw p).1 = [] /\ exists e, (checked_request w i raw p).2 = Err e) \/
  exists c, (checked_request w i raw p).1 = [c] /\ good_conn w i p raw c.
Proof.
  unfold checked_request. destruct (parse_target_url raw p) as [u|e] eqn:Eu; [|by eauto].
  apply parse_target_ok in Eu as (_ & _ & Eu & Hu). destruct (n_resolve_timeout w i); [by eauto|].
  destruct (pin w i u p) as [[ip po]|e] eqn:Ep; [|by eauto]. apply pin_ok in Ep as (? & ? & ?).
  right. eexists. split; [done|]. by split_and!.
Qed.

Lemma get_good w i raw p :
  ((get w i raw p).1 = [] /\ exists e, (get w i raw p).2 = Err e) \/
  exists c, (get w i raw p).1 = [c] /\ good_conn w i p raw c.
Proof.
  unfold get. destruct (checked_request_good w i raw p) as [[H1 [e H2]]|[c [H1 Hc]]];
    destruct (checked_request w i raw p) as [cs [[[st loc] chunks]|e']]; cbn in *; try done; [by eauto|..].
  - subst cs. right. exists c. by destruct (n_get_timeout w i).
  - subst cs. right. by exists c.
Qed.

(** *** The body *)

Lemma read_capped_exact chunks b : len b <= RESPONSE_READ_CAP ->
  read_capped_body (Ok <$> chunks) b = Ok (take (Z.to_nat RESPONSE_READ_CAP) (b ++ concat chunks)).
Proof.
  revert b. induction chunks as [|c chunks IH]; intros b Hb; cbn [fmap list_fmap read_capped_body concat].
  - rewrite app_nil_r, take_ge; [done|]. unfold len in *. lia.
  - set (k := Z.max 0 (RESPONSE_READ_CAP - len b)). assert (Hk : k = RESPONSE_READ_CAP - len b) by lia.
    destruct (Z.eqb_spec k 0) as [E|E].
    + rewrite take_app_le, take_ge by (unfold len in *; lia). done.
    + destruct (Z.ltb_spec k (len c)) as [H|H].
      * rewrite take_app, (take_ge b) by (unfold len in *; lia). do 2 f_equal.
        rewrite take_app_le by (unfold len in *; lia). f_equal. unfold len in *. lia.
      * rewrite IH by (unfold len in *; rewrite length_app; lia). by rewrite <- app_assoc.
Qed.

Lemma read_capped_bound chunks b r : len b <= RESPONSE_READ_CAP -> read_capped_body chunks b = Ok r -> len r <= RESPONSE_READ_CAP.
Proof.
  revert b. induction chunks as [|[c|e] chunks IH]; intros b Hb; cbn [read_capped_body]; [by intros [= <-]| |done].
  set (k := Z.max 0 (RESPONSE_READ_CAP - len b)). assert (Hk : k = RESPONSE_READ_CAP - len b) by lia.
  destruct (Z.eqb_spec k 0) as [E|E]; [by intros [= <-]|]. destruct (Z.ltb_spec k (len c)) as [H|H].
  - intros [= <-]. unfold len in *. rewrite length_app, length_take. lia.
  - apply IH. unfold len in *. rewrite length_app. lia.
Qed.

(** *** Hops *)

(** What the default policy allows, whatever the text it came from. *)
Definition strict_conn (c : conn) : Prop :=
  http_scheme (c_url c) = true /\ username (c_url c) = [] /\ password (c_url c) = None /\
  port_ok (port (c_url c)) = true /\ is_private_ip (c_addr c) = false /\
  forall name, host (c_url c) = Some (Domain name) -> host_name_blocked (to_ascii_lowercase name) = false.

Lemma good_strict w i raw c : good_conn w i policy_default raw c -> strict_conn c.
Proof.
  intros (_ & (Hs & Hu & Hp & h & Hh & [Hk Hn]) & _ & [Ha|Ha] & _); [|set_solver].
  split_and!; try done; [by destruct Hk as [Hk|]; [set_solver|]|].
  intros name E. rewrite Hh in E. injection E as ->. by destruct Hn as [Hn|]; [set_solver|].
Qed.

Lemma get_strict w i raw : Forall strict_conn (get w i raw policy_default).1 /\ (length (get w i raw policy_default).1 <= 1)%nat.
Proof.
  destruct (get_good w i raw policy_default) as [[-> _]|[c [-> Hc]]]; cbn; [by split; [constructor|lia]|].
  split; [by repeat constructor; eapply good_strict|lia].
Qed.

Lemma follow_strict w hops i current :
  Forall strict_conn (follow w hops i current policy_default).1 /\ (length (follow w hops i current policy_default).1 <= S hops)%nat.
Proof.
  revert i current. induction hops as [|hops IH]; intros i current; cbn [follow];
    destruct (get_strict w i (as_string current)) as [Hg Hl]; destruct (get w i (as_string current) policy_default) as [cs [r|e]]; cbn [fst] in *;
    (split; [|]); repeat case_match; cbn [fst] in *; simplify_eq; try done; try lia.
  - destruct (IH (S i) a) as [Hf _]. by rewrite H1 in Hf; apply Forall_app.
  - destruct (IH (S i) a) as [_ Hf]. rewrite H1 in Hf. cbn in Hf. rewrite length_app. lia.
Qed.

End checks.

Section posting.
Context {L : UrlLib}.

(** C34: a webhook request opens at most one connection, whatever the resolver and
    the receiver answer.  It goes to the parsed text of the URL over http or
    https, without credentials, on a default port and to an unblocked name
    unless the operator listed the host, and to an address that is the URL's
    literal or one of the answers of the one lookup, every one of which is
    public or listed.  A redirect is never followed nor reported as success. *)
Theorem post_safe (w : net) (raw : str) (p : OutboundPolicy) :
  ((post w raw p).1 = [] \/ exists c, (post w raw p).1 = [c] /\ good_conn w 0 p raw c) /\
  (forall st, (post w raw p).2 = Ok st -> (post w raw p).1 <> [] /\ is_redirect st = false).
Proof.
  unfold post. destruct (checked_request_good w 0 raw p) as [[H1 [e H2]]|[c [H1 Hc]]];
    destruct (checked_request w 0 raw p) as [cs [[[st loc] chunks]|e']]; cbn in *; subst; try done.
  - by split; [left|].
  - destruct (is_redirect st) eqn:Er; cbn; (split; [by eauto|]); [done|].
    intros st'. destruct (read_capped_body chunks []); [by intros [= <-]|done].
  - by split; [eauto|].
Qed.

(** A public receiver is reached: when the text parses to an allowed URL, the
    lookup answers only allowed addresses, nothing times out and the receiver
    answers, one connection is opened, to the first IPv4 answer or else the
    first, and the receiver's status is the result unless it is a redirect. *)
Theorem post_delivers (w : net) (raw : str) (p : OutboundPolicy) (u : url) (name : str) first answers po st loc chunks :
  trim raw <> [] -> len (trim raw) <= URL_MAX -> url_parse (trim raw) = Some u -> url_ok p u ->
  host u = Some (Domain name) -> port_or_known_default u = Some po -> n_resolve_timeout w 0 = false ->
  n_lookup w 0 name = Some (first :: answers) -> Forall (addr_ok p) (first :: answers) ->
  let c := Conn u (default first (find_ipv4 (first :: answers))) po in
  n_answer w 0 c = Ok (st, loc, Ok <$> chunks) ->
  post w raw p = ([c], if is_redirect st then Err (Rejected RRedirect) else Ok st).
Proof.
  intros H1 H2 H3 H4 Hh Hp Ht Hl Ha c Hc. unfold post, checked_request.
  replace (parse_target_url raw p) with (Ok u : result OutboundRejected url) by (symmetry; by apply parse_target_ok).
  rewrite Ht. unfold pin. rewrite Hp, Hh. cbn [ok_or mbind result_bind]. rewrite Hl. cbn [ok_or mbind result_bind].
  replace (check_all (first :: answers) p) with (Ok tt : result OutboundRejected unit) by (symmetry; by apply check_all_ok).
  cbn [mbind result_bind].
  replace (check_addr (default first (find_ipv4 (first :: answers))) p) with (Ok tt : result OutboundRejected unit).
  2: { symmetry. apply check_addr_ok. rewrite Forall_forall in Ha. apply Ha. apply find_ipv4_elem. left. }
  cbn [mbind result_bind]. fold c. rewrite Hc. cbn [map_err]. destruct (is_redirect st); [done|].
  by rewrite read_capped_exact by (unfold RESPONSE_READ_CAP, len; cbn; lia).
Qed.

End posting.

(** ** Previews *)

Section previews.
Context {L : UrlLib} {J : SerdeJson}.
Context (tokenize : str -> list Token) (as_i64 as_u64 : Json.number -> option Z).

Lemma unfurl_og_strict w i page :
  Forall strict_conn (unfurl_og tokenize w i page policy_default).1 /\ (length (unfurl_og tokenize w i page policy_default).1 <= 4)%nat.
Proof.
  unfold unfurl_og, get_follow. destruct (follow_strict w UNFURL_MAX_REDIRECTS i page) as [Hf Hl].
  by destruct (follow w UNFURL_MAX_REDIRECTS i page policy_default).
Qed.

Lemma github_strict w page k o r n :
  let x := unfurl_github tokenize as_i64 as_u64 w page k o r n policy_default in
  Forall strict_conn x.1 /\ (length x.1 <= 8)%nat.
Proof.
  cbn zeta. unfold unfurl_github. destruct (url_parse _) as [api|]; [|by split; [constructor|cbn; lia]].
  unfold get_follow. destruct (follow_strict w UNFURL_MAX_REDIRECTS 0 api) as [Hf Hl].
  destruct (follow w UNFURL_MAX_REDIRECTS 0 api policy_default) as [cs answer]. cbn [fst] in Hf, Hl.
  destruct (unfurl_og_strict w (S UNFURL_MAX_REDIRECTS) page) as [Hg Hk].
  destruct (unfurl_og tokenize w (S UNFURL_MAX_REDIRECTS) page policy_default) as [cs' og]. cbn [fst] in Hg, Hk.
  unfold UNFURL_MAX_REDIRECTS in Hl.
  assert (Ha : Forall strict_conn (cs ++ cs') /\ (length (cs ++ cs') <= 8)%nat) by (rewrite Forall_app, length_app; split; [done|lia]).
  assert (Hc : Forall strict_conn cs /\ (length cs <= 8)%nat) by (split; [done|lia]).
  by repeat case_match.
Qed.


(** *** Embeds *)

(** The characters a URL that was put into an attribute may have. *)
Definition src_char (b : byte) : bool := id_char b || bool_decide (b ∈ bs ".~%:/?=&").

Lemma urlencoding_src s : forallb src_char (urlencoding_plus s) = true.
Proof.
  induction s as [|b s IH]; [done|]. unfold urlencoding_plus in *. cbn [mbind list_bind]. rewrite forallb_app, IH, andb_true_r.
  by destruct b.
Qed.

Lemma youtube_src u id : youtube_id u = Some id -> forallb src_char id = true.
Proof.
  unfold youtube_id. destruct (host_str u) as [h|]; cbn -[Nat.leb]; [|done]. match goal with |- context [forallb id_char ?x] => generalize x end.
  intros x. destruct (6 <=? length x)%nat; [|done]. cbn [andb]. destruct (forallb id_char x) eqn:E; [|done]. intros [= <-].
  apply forallb_forall. intros b Hb. unfold src_char. rewrite forallb_forall in E. by rewrite E.
Qed.

Lemma vimeo_src u id : vimeo_id u = Some id -> forallb src_char id = true.
Proof.
  unfold vimeo_id. destruct (host_str u) as [h|]; cbn; [|done]. destruct (negb _ && negb _); [done|].
  match goal with |- context [forallb is_ascii_digit ?x] => generalize x end. intros x.
  destruct (forallb is_ascii_digit x) eqn:E; [|done]. cbn. case_bool_decide; [done|]. intros [= <-].
  apply forallb_forall. intros b Hb. rewrite forallb_forall in E. specialize (E b Hb). unfold src_char, id_char.
  unfold is_ascii_digit in E. by rewrite E, orb_true_r.
Qed.

(** The sites an embed may show. *)
Definition embed_sites : list str :=
  [bs "https://www.youtube.com/embed/"; bs "https://player.vimeo.com/video/"; bs "https://www.figma.com/embed?embed_host=fvoci&url="].

Lemma embed_src_safe u h : embed_src u h <> [] -> exists site rest, site ∈ embed_sites /\ embed_src u h = site ++ rest /\ forallb src_char (site ++ rest) = true.
Proof.
  unfold embed_src, embed_sites. intros H. destruct (bool_decide _ || bool_decide _).
  { eexists _, _. split_and!; [do 2 right; left|done|]. by rewrite forallb_app, urlencoding_src. }
  destruct (vimeo_id u) as [id|] eqn:Ev.
  { eexists _, _. split_and!; [right; left|done|]. by rewrite forallb_app, (vimeo_src u id Ev). }
  destruct (youtube_id u) as [id|] eqn:Ey; [|done].
  eexists _, _. split_and!; [left|done|]. by rewrite forallb_app, (youtube_src u id Ey).
Qed.


End previews.

(** ** A concrete URL parser *)

(** Enough of a parser to reach a server: [http://host/path]. *)
#[local] Instance simple_urls : UrlLib := {|
  url := str * str;
  url_parse s := rest ← strip_prefix (bs "http://") s; split_once Byte.x2f rest;
  as_string u := bs "http://" ++ u.1 ++ bs "/" ++ u.2;
  scheme _ := bs "http";
  username _ := [];
  password _ := None;
  host u := match parse_ip u.1 with Some (V4 n) => Some (HIpv4 n) | Some (V6 n) => Some (HIpv6 n) | None => Some (Domain u.1) end;
  port _ := None;
  port_or_known_default _ := Some 80;
  url_join u s := Some (u.1, s);
  host_str u := Some u.1;
  path u := bs "/" ++ u.2;
  query_pairs _ := [];
|}.

(** A name with a public and a private answer at different times, and a server
    that answers 204. *)
Definition sample_net : net := Net
  (fun i _ => Some (if (i =? 0)%nat then [V6 (0x20010db9 * 2 ^ 96); V4 0x5db8d822] else [V4 0x7f000001]))
  (fun _ => false) (fun _ => false) (fun _ _ => Ok (204, None, [])).

Lemma post_delivers_witness :
  post sample_net (bs "http://example.com/hook") policy_default
  = ([Conn (bs "example.com", bs "hook") (V4 0x5db8d822) 80], Ok 204).
Proof.
  apply (post_delivers sample_net (bs "http://example.com/hook") policy_default (bs "example.com", bs "hook") (bs "example.com")
    (V6 (0x20010db9 * 2 ^ 96)) [V4 0x5db8d822] 80 204 None []); try reflexivity; [done|by vm_compute| |].
  - split_and!; [done..|]. eexists. split; [reflexivity|]. split; right; reflexivity.
  - repeat constructor; left; reflexivity.
Defined.

(** A private literal is refused before any connection. *)
Example literal_refused : post sample_net (bs "http://127.0.0.1/x") policy_default = ([], Err (Rejected RUrl)).
Proof. reflexivity. Qed.
