(* ===== verification/Dependency.v ===== *)
(** * Task dependencies ([src/tasks/dependency.rs])

    The inequality a finish-to-start, start-to-start or finish-to-finish
    dependency imposes on two tasks' dates, with a lag in working days. *)

From stdpp Require Import base list numbers strings gmap.
From Stdlib Require Import ZArith Lia.
From S2P Require Import Prelude Text Chrono ChronoInstance.

Inductive DependencyType := Fs | Ss | Ff.

Definition DependencyType_as_str (t : DependencyType) : str :=
  match t with Fs => bs "FS" | Ss => bs "SS" | Ff => bs "FF" end.

Definition DependencyType_parse (value : str) : option DependencyType :=
  if bool_decide (value = bs "FS") then Some Fs
  else if bool_decide (value = bs "SS") then Some Ss
  else if bool_decide (value = bs "FF") then Some Ff
  else None.

Section dependency.
Context `{Chrono}.

Record ScheduleEnds := Ends { start_date : option naive_date; due_date : option naive_date }.

(** [due_at] enters through its UTC date. *)
Definition finish_date (due_date due_at_date : option naive_date) : option naive_date :=
  match due_date with Some d => Some d | None => due_at_date end.

Definition schedule_ends (start_date due_date due_at_date : option naive_date) : ScheduleEnds :=
  Ends start_date (finish_date due_date due_at_date).

Definition is_some {A} (o : option A) : bool := match o with Some _ => true | None => false end.

Definition required_dates_present (t : DependencyType) (blocker blocked : ScheduleEnds) : bool :=
  match t with
  | Fs => is_some (due_date blocker) && is_some (start_date blocked)
  | Ss => is_some (start_date blocker) && is_some (start_date blocked)
  | Ff => is_some (due_date blocker) && is_some (due_date blocked)
  end.

(** [for _ in 0..days]; a negative count does nothing. *)
Fixpoint succ_times (n : nat) (cur : naive_date) : naive_date :=
  match n with
  | O => cur
  | S n => succ_times n (default cur (succ_opt cur))
  end.

Definition add_calendar_days (date : naive_date) (days : Z) : naive_date := succ_times (Z.to_nat days) date.

(** A [HashSet] is used for membership only: its predicate. *)
Definition dep_is_working_day (date : naive_date) (holidays : naive_date -> bool) : bool :=
  negb ((weekday date =? 6) || (weekday date =? 0)) && negb (holidays date).

(** The [while] loop, with the loop's own guard: [guard] counts the turns and
    the loop returns when it passes 800, so 801 turns are enough fuel. *)
Fixpoint working_loop (fuel : nat) (remaining guard : Z) (cur : naive_date) (holidays : naive_date -> bool) : naive_date :=
  match fuel with
  | O => cur
  | S f =>
    if 0 <? remaining then
      let cur := add_calendar_days cur 1 in
      let remaining := if dep_is_working_day cur holidays then remaining - 1 else remaining in
      let guard := guard + 1 in
      if 800 <? guard then cur else working_loop f remaining guard cur holidays
    else cur
  end.

Definition add_working_days (date : naive_date) (days : Z) (holidays : naive_date -> bool) : naive_date :=
  if days =? 0 then date else working_loop 801 days 0 date holidays.

Definition date_lt (a b : naive_date) : bool := num_days a <? num_days b.

Definition violates_inequality (t : DependencyType) (lag_days : Z) (blocker blocked : ScheduleEnds)
    (holidays : naive_date -> bool) : bool :=
  match t with
  | Fs =>
    match due_date blocker, start_date blocked with
    | Some due, Some start => date_lt start (add_working_days due lag_days holidays)
    | _, _ => false
    end
  | Ss =>
    match start_date blocker, start_date blocked with
    | Some a, Some b => date_lt b (add_working_days a lag_days holidays)
    | _, _ => false
    end
  | Ff =>
    match due_date blocker, due_date blocked with
    | Some due_a, Some due_b => date_lt due_b (add_working_days due_a lag_days holidays)
    | _, _ => false
    end
  end.

End dependency.

(** ** Facts *)

Section facts.
Context `{ChronoLaws}.
Context (holidays : naive_date -> bool).

(** The working days among the [n] days after [d]. *)
Fixpoint working_after (n : nat) (d : naive_date) : Z :=
  match n with
  | O => 0
  | S n =>
    let d' := add_calendar_days d 1 in
    (if dep_is_working_day d' holidays then 1 else 0) + working_after n d'
  end.

Lemma add_one d : num_days d < 10000000 -> num_days (add_calendar_days d 1) = num_days d + 1.
Proof. intros Hd. unfold add_calendar_days. simpl. by destruct (succ_spec d Hd) as (b & -> & Hb). Qed.

(** The [n]th day after [d]. *)
Fixpoint nth_after (n : nat) (d : naive_date) : naive_date :=
  match n with O => d | S n => nth_after n (add_calendar_days d 1) end.

Lemma nth_after_days n : forall d, num_days d + Z.of_nat n <= 10000000 -> num_days (nth_after n d) = num_days d + Z.of_nat n.
Proof.
  induction n as [|n IH]; intros d Hd; cbn [nth_after]; [lia|]. rewrite IH; rewrite add_one by lia; lia.
Qed.

Lemma working_after_S n : forall d,
  working_after (S n) d = working_after n d + if dep_is_working_day (nth_after (S n) d) holidays then 1 else 0.
Proof.
  induction n as [|n IH]; intros d; [simpl; lia|].
  change (working_after (S (S n)) d) with ((if dep_is_working_day (add_calendar_days d 1) holidays then 1 else 0)
    + working_after (S n) (add_calendar_days d 1)).
  rewrite IH. simpl. lia.
Qed.

(** The loop stops at the first day by which [remaining] working days have
    passed, or after its last turn. *)
Lemma working_loop_spec f : forall remaining g d, 0 < remaining -> g + Z.of_nat f = 801 -> 0 <= g -> (0 < f)%nat ->
  exists n, (0 < n <= f)%nat /\ working_loop f remaining g d holidays = nth_after n d /\
    (forall k, (k < n)%nat -> working_after k d < remaining) /\
    (working_after n d = remaining \/ n = f /\ working_after n d <= remaining).
Proof.
  induction f as [|f IH]; intros rem g d Hr Hg Hg0 Hf; [lia|]. cbn [working_loop].
  rewrite (proj2 (Z.ltb_lt _ _)) by done. cbv zeta. set (d' := add_calendar_days d 1).
  set (rem' := if dep_is_working_day d' holidays then rem - 1 else rem).
  assert (Hw : forall n, working_after (S n) d = rem - rem' + working_after n d').
  { intros n. cbn [working_after]. fold d'. subst rem'. destruct (dep_is_working_day d' holidays); lia. }
  assert (Hrem : rem' = rem \/ rem' = rem - 1) by (subst rem'; destruct (dep_is_working_day d' holidays); lia).
  assert (Hone : forall k, (k < 1)%nat -> working_after k d < rem) by (intros k Hk; replace k with O by lia; simpl; lia).
  destruct (Z.ltb_spec 800 (g + 1)).
  { assert (f = 0%nat) as -> by lia. exists 1%nat. split_and!; [lia|lia|done|done|].
    right. split; [done|]. rewrite Hw. simpl. lia. }
  destruct (Z.lt_ge_cases 0 rem') as [Hpos|Hz].
  - destruct (IH rem' (g + 1) d' Hpos ltac:(lia) ltac:(lia) ltac:(lia)) as (n & Hn & He & Hlt & Hend).
    exists (S n). split_and!; [lia|lia|done|..].
    + intros [|k] Hk; [simpl; lia|]. rewrite Hw. specialize (Hlt k ltac:(lia)). lia.
    + rewrite Hw. destruct Hend as [E|[-> E]]; [left; lia|right; split; [done|lia]].
  - exists 1%nat. split_and!; [lia|lia| |done|left; rewrite Hw; simpl; lia].
    destruct f; cbn [working_loop nth_after]; [done|]. by rewrite (proj2 (Z.ltb_ge _ _)) by done.
Qed.

(** ** Theorems *)

(** Enough working days follow [d] within the loop's 801 days. *)
Definition lag_fits (d : naive_date) (days : Z) : Prop := days <= working_after 801 d.

Lemma working_after_mono n m d : (n <= m)%nat -> working_after n d <= working_after m d.
Proof.
  intros Hn. induction Hn as [|m Hm IH]; [lia|]. rewrite working_after_S.
  destruct (dep_is_working_day _ _); lia.
Qed.

(** Adding working days.  Within the 801 days the loop looks at, the result
    is the first day by which exactly the requested number of working days
    have passed, so it is itself a working day; a lag that needs more days is
    cut off at the 801st day after the start. *)
Theorem add_working_days_exact (d : naive_date) (days : Z) :
  0 < days -> num_days d + 801 <= 10000000 ->
  (lag_fits d days ->
     exists n, num_days (add_working_days d days holidays) = num_days d + Z.of_nat n /\
       working_after n d = days /\ (forall k, (k < n)%nat -> working_after k d < days) /\
       dep_is_working_day (add_working_days d days holidays) holidays = true) /\
  (working_after 801 d < days -> num_days (add_working_days d days holidays) = num_days d + 801).
Proof.
  intros Hd Hr. unfold add_working_days. rewrite (proj2 (Z.eqb_neq _ _)) by lia.
  destruct (working_loop_spec 801 days 0 d Hd ltac:(lia) ltac:(lia) ltac:(lia)) as (n & Hn & -> & Hlt & Hend).
  rewrite nth_after_days by lia. split.
  - intros Hfit. exists n. assert (E : working_after n d = days).
    { destruct Hend as [E|[-> E]]; [done|]. unfold lag_fits in Hfit. lia. }
    split_and!; [done|done|done|]. destruct n as [|n]; [lia|]. specialize (Hlt n ltac:(lia)).
    rewrite working_after_S in E. destruct (dep_is_working_day (nth_after (S n) d) holidays); [done|lia].
  - intros Hshort. pose proof (working_after_mono n 801 d ltac:(lia)).
    destruct Hend as [E|[-> E]]; [lia|]. done.
Qed.

(** The two dates a dependency compares: the blocker's and the blocked task's. *)
Definition compared (t : DependencyType) (blocker blocked : ScheduleEnds) : option (naive_date * naive_date) :=
  match (match t with Ss => start_date blocker | _ => due_date blocker end),
        (match t with Ff => due_date blocked | _ => start_date blocked end) with
  | Some a, Some b => Some (a, b)
  | _, _ => None
  end.

Lemma violates_compared t lag blocker blocked :
  violates_inequality t lag blocker blocked holidays =
  match compared t blocker blocked with
  | Some (a, b) => num_days b <? num_days (add_working_days a lag holidays)
  | None => false
  end.
Proof. destruct t, blocker as [[?|] [?|]], blocked as [[?|] [?|]]; done. Qed.

(** What a dependency means.  It is contradicted only when both dates it
    compares are present, and then exactly when the blocked task's date comes
    before the blocker's or fewer working days than the lag lie between them,
    for every lag the loop can reach. *)
Theorem violates_exact (t : DependencyType) (lag : Z) (blocker blocked : ScheduleEnds) (a b : naive_date) :
  compared t blocker blocked = Some (a, b) -> 0 <= lag -> lag_fits a lag -> num_days a + 801 <= 10000000 ->
  violates_inequality t lag blocker blocked holidays = true <->
  num_days b < num_days a \/ working_after (Z.to_nat (num_days b - num_days a)) a < lag.
Proof.
  intros Hc Hlag Hfit Hr. rewrite violates_compared, Hc, Z.ltb_lt.
  destruct (decide (lag = 0)) as [->|Hne].
  { unfold add_working_days. simpl. split; [lia|]. intros [?|Hw]; [done|].
    pose proof (working_after_mono 0 (Z.to_nat (num_days b - num_days a)) a ltac:(lia)) as Hm. simpl in Hm. lia. }
  unfold add_working_days. rewrite (proj2 (Z.eqb_neq _ _)) by done.
  destruct (working_loop_spec 801 lag 0 a ltac:(lia) ltac:(lia) ltac:(lia) ltac:(lia)) as (n & Hn & -> & Hlt & Hend).
  assert (E : working_after n a = lag) by (destruct Hend as [E|[-> E]]; [done|unfold lag_fits in Hfit; lia]).
  rewrite nth_after_days by lia. split.
  - intros Hb. destruct (Z.lt_ge_cases (num_days b) (num_days a)); [by left|]. right. apply Hlt. lia.
  - intros [?|Hw]; [lia|]. destruct (Z.lt_ge_cases (num_days b) (num_days a + Z.of_nat n)) as [|Hge]; [done|].
    pose proof (working_after_mono n (Z.to_nat (num_days b - num_days a)) a ltac:(lia)). lia.
Qed.

Lemma compared_present t blocker blocked :
  required_dates_present t blocker blocked = bool_decide (is_Some (compared t blocker blocked)).
Proof. destruct t, blocker as [[?|] [?|]], blocked as [[?|] [?|]]; done. Qed.

End facts.

Lemma add_working_days_exact_witness :
  num_days (add_working_days (H:=civil) 22381 600 (fun _ => false)) = 22381 + 801.
Proof.
  refine (proj2 (add_working_days_exact (fun _ => false) 22381 600 _ _) _); by_decide.
Defined.

(** A task due on Friday 2031-04-11 and a lag of one working day: starting on
    the Sunday after it is a contradiction. *)
Lemma violates_exact_witness :
  violates_inequality (H:=civil) Fs 1 (Ends None (Some 22380)) (Ends (Some 22382) None) (fun _ => false) = true.
Proof.
  refine (proj2 (violates_exact (fun _ => false) Fs 1 (Ends None (Some 22380)) (Ends (Some 22382) None) 22380 22382
    eq_refl _ _ _) _); [by_decide|unfold lag_fits; by_decide|by_decide|right; by_decide].
Defined.
