(* ===== verification/GanttScale.v ===== *)
(** * Gantt time scale

    [src/gantt/date.rs], [calendar.rs], [month.rs] and [scale.rs] with the part
    of [types.rs] they use: epoch days, working days, month pages, and the
    columns of a scale. *)

From stdpp Require Import base list numbers strings gmap.
From Stdlib Require Import ZArith Lia.
From S2P Require Import Prelude Text Chrono Float.

Abbreviation IsoDate := str.

Inductive ZoomLevel := Day | Week | Month | Quarter.

#[export] Instance ZoomLevel_eq_dec : EqDecision ZoomLevel.
Proof. solve_decision. Defined.

Definition ZoomLevel_parse (value : str) : option ZoomLevel :=
  if bool_decide (value = bs "day") then Some Day
  else if bool_decide (value = bs "week") then Some Week
  else if bool_decide (value = bs "month") then Some Month
  else if bool_decide (value = bs "quarter") then Some Quarter
  else None.

Definition ZoomLevel_as_str (z : ZoomLevel) : str :=
  match z with Day => bs "day" | Week => bs "week" | Month => bs "month" | Quarter => bs "quarter" end.

Record TimeScale := Scale { zoom : ZoomLevel; sc_start : IsoDate; sc_end : IsoDate; px_per_day : f64 }.

Record WorkCalendar := Calendar { weekend : list Z; holidays : gset IsoDate }.

Record ScaleTickOutput := Tick {
  tick_date : IsoDate;
  tick_x : f64;
  tick_width : f64;
  label : str;
  off_duty : bool;
}.

Record MonthBandOutput := Band { band_key : str; band_label : str; band_x : f64; band_width : f64 }.

(** ** Printing integers *)

(** The number of decimal digits; twenty are enough for 64 bits. *)
Fixpoint digit_count (fuel : nat) (n : Z) : nat :=
  match fuel with
  | O => 1
  | S f => if n <? 10 then 1 else S (digit_count f (n / 10))
  end.

(** [format!("{:0w}")] of an integer. *)
Definition fmt_padded (w : nat) (z : Z) : str :=
  if z <? 0 then bs "-" ++ dec_digits (Nat.max (w - 1) (digit_count 20 (- z))) (- z)
  else dec_digits (Nat.max w (digit_count 20 z)) z.

Section gantt.
Context `{Chrono}.

(** ** date.rs *)

Definition shape_ok (value : str) : bool :=
  (length value =? 10)%nat && bool_decide (value !! 4%nat = Some Byte.x2d) && bool_decide (value !! 7%nat = Some Byte.x2d) &&
  forallb (fun b => b) (imap (fun i b => (i =? 4)%nat || (i =? 7)%nat || is_ascii_digit b) value).

Definition parse_gantt_date (value : str) : option naive_date :=
  if negb (shape_ok value) then None else parse_ymd value.

Definition to_epoch_day (d : str) : option Z :=
  date ← parse_gantt_date d;
  _ ← from_ymd_opt 1970 1 1;
  Some (num_days date).

(** [chrono] panics when the sum leaves its range of about 262,000 years; the
    model returns [None] there.  Every day number the layout adds up stays
    within years 0 to 10,000 ([from_epoch_total]). *)
Definition from_epoch_day (day : Z) : option IsoDate :=
  _ ← from_ymd_opt 1970 1 1;
  date ← from_num_days day;
  Some (format_ymd date).

Definition days_between (a b : str) : option Z :=
  x ← to_epoch_day a;
  y ← to_epoch_day b;
  Some (y - x).

Definition add_days (d : str) (n : Z) : option IsoDate :=
  day ← to_epoch_day d;
  from_epoch_day (day + n).

Definition day_of_week (d : str) : option Z :=
  day ← to_epoch_day d;
  Some (wrap 8 (Z.rem (day + 4) 7 + 7) mod 7).

(** [(s..=e).filter_map(from_epoch_day)] *)
Definition each_day (start end_ : str) : list IsoDate :=
  match to_epoch_day start, to_epoch_day end_ with
  | Some s, Some e => if s <=? e then omap from_epoch_day (seqZ s (e - s + 1)) else []
  | _, _ => []
  end.

(** ** calendar.rs *)

Definition make_calendar (holidays : list IsoDate) : WorkCalendar := Calendar [0; 6] (list_to_set holidays).

Definition is_working_day (d : str) (cal : WorkCalendar) : bool :=
  match day_of_week d with
  | None => false
  | Some dow => if bool_decide (dow ∈ weekend cal) then false else negb (bool_decide (d ∈ holidays cal))
  end.

Definition is_all_off_duty (start : str) (days : Z) (cal : WorkCalendar) : bool :=
  match add_days start (days - 1) with
  | None => false
  | Some end_ =>
    let all := each_day start end_ in
    negb (len all =? 0) && forallb (fun d => negb (is_working_day d cal)) all
  end.

Definition off_duty_for_tick (start : str) (days : Z) (cal : WorkCalendar) : bool := is_all_off_duty start days cal.

(** ** month.rs *)

Definition month_range (year month week_starts_on : Z) : option (IsoDate * IsoDate) :=
  if negb ((1 <=? month) && (month <=? 12)) || negb ((1 <=? year) && (year <=? 9998)) then None
  else
    let first := fmt_padded 4 year ++ bs "-" ++ fmt_padded 2 month ++ bs "-01" in
    first_day ← to_epoch_day first;
    first_dow ← day_of_week first;
    let lead := Z.rem (Z.rem (first_dow - week_starts_on) 7 + 7) 7 in
    start ← add_days first (- lead);
    let next_month_first :=
      if month =? 12 then fmt_padded 4 (year + 1) ++ bs "-01-01"
      else fmt_padded 4 year ++ bs "-" ++ fmt_padded 2 (month + 1) ++ bs "-01" in
    last_day ← to_epoch_day next_month_first;
    let days := ceil_i32 (fdiv (of_int (last_day - (first_day - lead))) (of_int 7)) * 7 in
    end_ ← add_days start (days - 1);
    Some (start, end_).

(** ** scale.rs *)

Definition DEFAULT_PX : list (ZoomLevel * f64) :=
  [(Day, of_int 32); (Week, of_int 12); (Month, of_int 4); (Quarter, lit 15 1)].

Definition make_scale (start end_ : str) (zoom : ZoomLevel) (px : option f64) : TimeScale :=
  let px := match px with
            | Some p => p
            | None => default (of_int 32) (snd <$> (snd <$> list_find (fun e => e.1 = zoom) DEFAULT_PX))
            end in
  let safe_end := match days_between start end_ with
                  | None => start
                  | Some s => if s <? 0 then start else end_
                  end in
  Scale zoom start safe_end px.

Definition date_to_x (d : str) (scale : TimeScale) : option f64 :=
  offset ← days_between (sc_start scale) d;
  Some (fmul (of_int offset) (px_per_day scale)).

Definition scale_width (scale : TimeScale) : f64 :=
  let span := default 0 (days_between (sc_start scale) (sc_end scale)) in
  fmul (of_int (span + 1)) (px_per_day scale).

Definition day_of_week_or_zero (d : str) : Z := default 0 (day_of_week d).

(** [div_euclid(12)] and [rem_euclid(12)] are floor division and modulus. *)
Definition next_tick_start (d : str) (zoom : ZoomLevel) : option IsoDate :=
  match zoom with
  | Day => add_days d 1
  | Week =>
    let dow := day_of_week_or_zero d in
    let to_monday := if dow =? 0 then 1 else 8 - dow in
    add_days d to_monday
  | Month | Quarter =>
    y ← str_get d 0 4 ≫= parse_i32;
    m ← str_get d 5 7 ≫= parse_i32;
    let step := if bool_decide (zoom = Month) then 1 else 3 - Z.rem (m - 1) 3 in
    let nm := m + step in
    let ny := y + (nm - 1) / 12 in
    let nmm := (nm - 1) mod 12 + 1 in
    Some (fmt_padded 4 ny ++ bs "-" ++ fmt_padded 2 nmm ++ bs "-01")
  end.

Definition tick_label (d : str) (zoom : ZoomLevel) : str :=
  let y := default [] (str_get d 0 4) in
  let m := default [] (str_get d 5 7) in
  let day := default [] (str_get d 8 10) in
  match zoom with
  | Day => trim_start_matches Byte.x30 day
  | Week => m ++ bs "/" ++ day
  | Month => y ++ bs "-" ++ m
  | Quarter =>
    let mm := default 0 (parse_i32 m) in
    let q := Z.quot (mm - 1) 3 + 1 in
    y ++ bs " Q" ++ fmt_padded 1 q
  end.

(** One turn of the loop: the column that starts at [cursor] and the next
    cursor, or [None] for the [break]. *)
Definition tick_at (scale : TimeScale) (cal : option WorkCalendar) (start_day end_day cursor : Z)
    : option (ScaleTickOutput * Z) :=
  let date := default [] (from_epoch_day cursor) in
  let boundary_day := default (end_day + 1) (next_tick_start date (zoom scale) ≫= to_epoch_day) in
  let stop := Z.min boundary_day (end_day + 1) in
  let days := stop - cursor in
  if days <=? 0 then None
  else
    let x := fmul (of_int (cursor - start_day)) (px_per_day scale) in
    let off := match cal with Some c => off_duty_for_tick date days c | None => false end in
    Some (Tick date x (fmul (of_int days) (px_per_day scale)) (tick_label date (zoom scale)) off, stop).

(** The [while cursor <= end_day] loop; every turn moves the cursor, so one
    turn per day is enough ([ticks_fuel]). *)
Fixpoint ticks_loop (fuel : nat) (scale : TimeScale) (cal : option WorkCalendar) (start_day end_day cursor : Z)
    : list ScaleTickOutput :=
  match fuel with
  | O => []
  | S f =>
    if cursor <=? end_day then
      match tick_at scale cal start_day end_day cursor with
      | None => []
      | Some (t, stop) => t :: ticks_loop f scale cal start_day end_day stop
      end
    else []
  end.

Definition ticks (scale : TimeScale) (cal : option WorkCalendar) : list ScaleTickOutput :=
  match to_epoch_day (sc_start scale), to_epoch_day (sc_end scale) with
  | Some s, Some e => if s <=? e then ticks_loop (Z.to_nat (e - s + 1)) scale cal s e s else []
  | _, _ => []
  end.

End gantt.

(** The month sign of the labels. *)
Definition MONTH_SIGN : str := [Byte.xec; Byte.x9b; Byte.x94].

(** [last.width += c.width] on the last band, or a new band. *)
Definition add_band (out : list MonthBandOutput) (c : ScaleTickOutput) : list MonthBandOutput :=
  let key := default (tick_date c) (str_get (tick_date c) 0 7) in
  let fresh :=
    let month := str_get (tick_date c) 5 7 ≫= from_str_radix 10 u32_max in
    let label := match month with Some m => fmt_padded 1 m ++ MONTH_SIGN | None => key end in
    out ++ [Band key label (tick_x c) (tick_width c)] in
  match last out with
  | Some b =>
    if bool_decide (band_key b = key)
    then removelast out ++ [Band (band_key b) (band_label b) (band_x b) (fadd (band_width b) (tick_width c))]
    else fresh
  | None => fresh
  end.

Definition month_bands (cols : list ScaleTickOutput) : list MonthBandOutput := foldl add_band [] cols.
