(* ===== verification/GanttLayout.v ===== *)
(** * Gantt layout

    [src/gantt/schedule.rs], [layout.rs], [links.rs] and [prepare.rs]: from
    task rows and dependencies to bars in lanes, link paths and the response. *)

From stdpp Require Import base list numbers strings gmap.
From Stdlib Require Import ZArith Lia.
From S2P Require Import Prelude Text Uuid Chrono Float Dependency GanttScale.

(** ** types.rs *)

(** [gantt::LinkType] has the constructors of [DependencyType] and the same
    [parse]. *)
Abbreviation LinkType := DependencyType.

Inductive ScheduleInference := InfNone | FromDue | FromStart | Swapped.

Inductive PackMode := Rows | Overlap.

Definition PackMode_parse (value : str) : option PackMode :=
  if bool_decide (value = bs "rows") then Some Rows
  else if bool_decide (value = bs "overlap") then Some Overlap
  else None.

Definition PackMode_as_str (p : PackMode) : str := match p with Rows => bs "rows" | Overlap => bs "overlap" end.

Section types.
Context `{UuidLib}.

Record GanttTaskInput := TaskInput {
  ti_id : uuid;
  ti_title : str;
  ti_start : option IsoDate;
  ti_due : option IsoDate;
  ti_milestone : bool;
}.

Record GanttLinkInput := Link { blocker_id : uuid; blocked_id : uuid; link_type : LinkType; lag_days : Z }.

Record ScheduledTask := Sched {
  st_id : uuid;
  st_title : str;
  st_start : IsoDate;
  st_end : IsoDate;
  st_milestone : bool;
  st_inferred : ScheduleInference;
}.

Record LaidOutBar := Bar {
  bar_id : uuid;
  lane : Z;
  bar_x : f64;
  bar_width : f64;
  bar_milestone : bool;
  bar_inferred : ScheduleInference;
}.

End types.

(** ** schedule.rs *)

Section schedule.
Context `{UuidLib} `{Chrono}.

Definition normalize (v : option str) : option str :=
  match v with
  | None => None
  | Some s => if bool_decide (s = []) then None
              else match to_epoch_day s with None => None | Some _ => Some s end
  end.

Definition build (t : GanttTaskInput) (start end_ : str) (inferred : ScheduleInference) : ScheduledTask :=
  Sched (ti_id t) (ti_title t) start end_ (ti_milestone t) inferred.

Definition schedule_task (t : GanttTaskInput) : option ScheduledTask :=
  match normalize (ti_start t), normalize (ti_due t) with
  | None, None => None
  | Some s, None => Some (build t s s FromStart)
  | None, Some d => Some (build t d d FromDue)
  | Some start, Some due =>
    s ← to_epoch_day start;
    e ← to_epoch_day due;
    if e <? s then Some (build t due start Swapped)
    else Some (build t start due InfNone)
  end.

(** One turn of the loop over the tasks. *)
Definition schedule_one (acc : list ScheduledTask * list uuid) (t : GanttTaskInput) : list ScheduledTask * list uuid :=
  let (scheduled, dropped) := acc in
  match schedule_task t with
  | Some one => (scheduled ++ [one], dropped)
  | None => (scheduled, dropped ++ [ti_id t])
  end.

Definition schedule_tasks (tasks : list GanttTaskInput) : list ScheduledTask * list uuid :=
  foldl schedule_one ([], []) tasks.

End schedule.

(** ** layout.rs *)

Definition MILESTONE_WIDTH : f64 := of_int 12.
Definition PACK_GAP : f64 := of_int 1.

Record BarRect := Rect { rect_x : f64; rect_width : f64 }.

Definition lane_center_y (lane lane_height : Z) : f64 :=
  fadd (fmul (of_int lane) (of_int lane_height)) (fdiv (of_int lane_height) (of_int 2)).

(** The scan of [first_free_lane] from lane [i] over the lanes that follow. *)
Fixpoint free_from (x : f64) (i : Z) (lanes : list f64) : option Z :=
  match lanes with
  | [] => None
  | end_ :: t => if fleb (fadd end_ PACK_GAP) x then Some i else free_from x (i + 1) t
  end.

Definition first_free_lane (lane_end : list f64) (x : f64) (min_lane : Z) : Z :=
  default (Z.max (len lane_end) min_lane) (free_from x min_lane (drop (Z.to_nat min_lane) lane_end)).

(** [resize(lane + 1, 0.0)] when the lane is new, then the assignment. *)
Definition set_lane (lane_end : list f64) (lane : Z) (v : f64) : list f64 :=
  let i := Z.to_nat lane in
  <[i := v]> (if (length lane_end <=? i)%nat then lane_end ++ replicate (i + 1 - length lane_end) (of_int 0) else lane_end).

Section layout.
Context `{UuidLib} `{Chrono}.

Definition uuid_cmp (a b : uuid) : comparison := as_u128 a ?= as_u128 b.

Definition cmp_packing (a b : ScheduledTask) : comparison :=
  match str_compare (st_start a) (st_start b) with
  | Eq => uuid_cmp (st_id a) (st_id b)
  | other => other
  end.

Definition sort_for_packing (tasks : list ScheduledTask) : list ScheduledTask := sort_by cmp_packing tasks.

Definition bar_rect (t : ScheduledTask) (scale : TimeScale) : option BarRect :=
  x ← date_to_x (st_start t) scale;
  if st_milestone t then
    Some (Rect (fsub (fadd x (fdiv (px_per_day scale) (of_int 2))) (fdiv MILESTONE_WIDTH (of_int 2))) MILESTONE_WIDTH)
  else
    span ← days_between (st_start t) (st_end t);
    Some (Rect x (fmul (of_int (span + 1)) (px_per_day scale))).

Definition ranges_overlap (a : LaidOutBar) (b : BarRect) : bool :=
  fltb (bar_x a) (fadd (fadd (rect_x b) (rect_width b)) PACK_GAP) &&
  fltb (rect_x b) (fadd (fadd (bar_x a) (bar_width a)) PACK_GAP).

Definition make_bar (t : ScheduledTask) (lane : Z) (r : BarRect) : LaidOutBar :=
  Bar (st_id t) lane (rect_x r) (rect_width r) (st_milestone t) (st_inferred t).

(** The loop state of the packers. *)
Record packing := Packing {
  lane_end : list f64;
  placed : gmap uuid LaidOutBar;
  pk_bars : list LaidOutBar;
  pk_overflow : list uuid;
}.

(** Placing one task at the first free lane from [min_lane] on. *)
Definition place (scale : TimeScale) (max_lanes : Z) (min_lane : BarRect -> Z) (p : packing) (t : ScheduledTask) : packing :=
  match bar_rect t scale with
  | None => Packing (lane_end p) (placed p) (pk_bars p) (pk_overflow p ++ [st_id t])
  | Some rect =>
    let lane := first_free_lane (lane_end p) (rect_x rect) (min_lane rect) in
    if max_lanes <=? lane
    then Packing (lane_end p) (placed p) (pk_bars p) (pk_overflow p ++ [st_id t])
    else
      let bar := make_bar t lane rect in
      Packing (set_lane (lane_end p) lane (fadd (rect_x rect) (rect_width rect)))
              (<[st_id t := bar]> (placed p)) (pk_bars p ++ [bar]) (pk_overflow p)
  end.

Definition pack_empty : packing := Packing [] ∅ [] [].

Definition pack_lanes (tasks : list ScheduledTask) (scale : TimeScale) (max_lanes : Z) : list LaidOutBar * list uuid :=
  let p := foldl (place scale max_lanes (fun _ => 0)) pack_empty (sort_for_packing tasks) in
  (pk_bars p, pk_overflow p).

(** [order_by_dependency]: the edges among the tasks and their counts. *)
Record graph := Graph { by_id : gmap uuid ScheduledTask; adj : gmap uuid (list uuid); indeg : gmap uuid Z }.

Definition add_edge (g : graph) (l : GanttLinkInput) : graph :=
  match by_id g !! blocker_id l, by_id g !! blocked_id l with
  | Some _, Some _ =>
    Graph (by_id g)
      (<[blocker_id l := default [] (adj g !! blocker_id l) ++ [blocked_id l]]> (adj g))
      (<[blocked_id l := default 0 (indeg g !! blocked_id l) + 1]> (indeg g))
  | _, _ => g
  end.

(** [collect] into a map: a later entry replaces an earlier one. *)
Definition collect_map {A B} (f : A -> uuid * B) (l : list A) : gmap uuid B :=
  foldl (fun m a => <[(f a).1 := (f a).2]> m) ∅ l.

Definition make_graph (tasks : list ScheduledTask) (links : list GanttLinkInput) : graph :=
  foldl add_edge
    (Graph (collect_map (fun t => (st_id t, t)) tasks) (collect_map (fun t => (st_id t, [])) tasks)
           (collect_map (fun t => (st_id t, 0)) tasks))
    links.

(** The loop over the successors of a finished task. *)
Definition relax (g : graph) (acc : gmap uuid Z * list ScheduledTask) (n : uuid) : gmap uuid Z * list ScheduledTask :=
  let (deg, ready) := acc in
  let next := default 1 (deg !! n) - 1 in
  let deg := <[n := next]> deg in
  if next =? 0 then
    match by_id g !! n with
    | Some nt => (deg, sort_by cmp_packing (ready ++ [nt]))
    | None => (deg, ready)
    end
  else (deg, ready).

(** The [while !ready.is_empty()] loop.  Every turn outputs a task and no task
    becomes ready twice, so one turn per task is enough. *)
Fixpoint order_loop (fuel : nat) (g : graph) (deg : gmap uuid Z) (ready out : list ScheduledTask) : list ScheduledTask :=
  match fuel with
  | O => out
  | S f =>
    match ready with
    | [] => out
    | t :: ready =>
      let (deg, ready) := foldl (relax g) (deg, ready) (default [] (adj g !! st_id t)) in
      order_loop f g deg ready (out ++ [t])
    end
  end.

Definition order_by_dependency (tasks : list ScheduledTask) (links : list GanttLinkInput) : list ScheduledTask :=
  let g := make_graph tasks links in
  let ready := sort_by cmp_packing (filter (fun t => default 0 (indeg g !! st_id t) = 0) tasks) in
  let out := order_loop (length tasks) g (indeg g) ready [] in
  if (length out <? length tasks)%nat then
    let seen : gset uuid := list_to_set (st_id <$> out) in
    out ++ sort_by cmp_packing (filter (fun t => st_id t ∉ seen) tasks)
  else out.

(** The lowest lane a task may take: below the predecessors already placed
    that its bar overlaps, level with the others. *)
Definition min_lane_of (preds : list uuid) (placed : gmap uuid LaidOutBar) (rect : BarRect) : Z :=
  foldl (fun min_lane pid =>
           match placed !! pid with
           | Some pb => if ranges_overlap pb rect then Z.max min_lane (lane pb + 1) else Z.max min_lane (lane pb)
           | None => min_lane
           end) 0 preds.

(** [preds.entry(blocked).or_default().push(blocker)] *)
Definition add_pred (m : gmap uuid (list uuid)) (l : GanttLinkInput) : gmap uuid (list uuid) :=
  <[blocked_id l := default [] (m !! blocked_id l) ++ [blocker_id l]]> m.

Definition pack_flow (tasks : list ScheduledTask) (scale : TimeScale) (links : list GanttLinkInput) (max_lanes : Z)
    : list LaidOutBar * list uuid :=
  let order := order_by_dependency tasks links in
  let preds := foldl add_pred ∅ links in
  let p := foldl (fun p t => place scale max_lanes (min_lane_of (default [] (preds !! st_id t)) (placed p)) p t)
             pack_empty order in
  (pk_bars p, pk_overflow p).

(** One turn of [stack_rows]: bars, overflow and the next lane. *)
Definition stack_one (scale : TimeScale) (acc : list LaidOutBar * list uuid * Z) (t : ScheduledTask)
    : list LaidOutBar * list uuid * Z :=
  let '(bars, overflow, lane) := acc in
  match bar_rect t scale with
  | None => (bars, overflow ++ [st_id t], lane)
  | Some rect => (bars ++ [make_bar t lane rect], overflow, lane + 1)
  end.

Definition stack_rows (tasks : list ScheduledTask) (scale : TimeScale) : list LaidOutBar * list uuid :=
  (foldl (stack_one scale) ([], [], 0) (sort_for_packing tasks)).1.

End layout.

(** ** links.rs *)

Definition ELBOW_PAD : f64 := of_int 10.
Definition DETOUR_STEP : f64 := of_int 6.

Record Point := Pt { pt_x : f64; pt_y : f64 }.

Abbreviation gutters := (list (f64 * f64 * f64)).

Section links.
Context `{UuidLib}.

Definition hits_name (y left right : f64) (bars : list LaidOutBar) (lane_height : Z) : bool :=
  let half := fmul (of_int lane_height) (lit 32 2) in
  existsb (fun b =>
    let cy := lane_center_y (lane b) lane_height in
    if fltb y (fsub cy half) || fltb (fadd cy half) y then false
    else
      let x0 := bar_x b in
      let x1 := fadd (fadd (bar_x b) (bar_width b)) (if bar_milestone b then of_int 64 else of_int 0) in
      fltb left x1 && fltb x0 right) bars.

Definition deltas : list f64 :=
  [of_int 0; fneg DETOUR_STEP; DETOUR_STEP; fmul (fneg DETOUR_STEP) (of_int 2); fmul DETOUR_STEP (of_int 2)].

(** A gutter position that is free: below the top margin, off the names, away
    from the gutters in use. *)
Definition gutter_free (y left right : f64) (bars : list LaidOutBar) (lane_height : Z) (used : gutters) : bool :=
  negb (fltb y (of_int 4)) && negb (hits_name y left right bars lane_height) &&
  negb (existsb (fun u => let '(uy, ul, ur) := u in
          fltb (fabs (fsub uy y)) (fsub DETOUR_STEP (of_int 1)) && fltb left ur && fltb ul right) used).

Fixpoint try_prefs (prefs : list f64) (seen : list Z) (left right : f64) (bars : list LaidOutBar) (lane_height : Z)
    (used : gutters) : option f64 :=
  match prefs with
  | [] => None
  | base :: prefs =>
    let key := trunc_i64 (fmul base (of_int 1000)) in
    if bool_decide (key ∈ seen) then try_prefs prefs seen left right bars lane_height used
    else
      match list_find (fun d => gutter_free (fadd base d) left right bars lane_height used = true) deltas with
      | Some (_, d) => Some (fadd base d)
      | None => try_prefs prefs (seen ++ [key]) left right bars lane_height used
      end
  end.

Definition pick_gutter (left right y1 y2 : f64) (bars : list LaidOutBar) (lane_height : Z) (used : gutters)
    : f64 * gutters :=
  let lo := fmin y1 y2 in
  let hi := fmax y1 y2 in
  let h := of_int lane_height in
  let gutter := floor_i32 (fdiv lo h) + 1 in
  let gutter_y := fmul (of_int gutter) h in
  let prefs :=
    (if negb (feqb y1 y2) then [fdiv (fadd y1 y2) (of_int 2)] else []) ++
    (if fltb lo gutter_y && fltb gutter_y hi then [gutter_y] else []) ++
    [fsub lo (fmul h (lit 38 2)); fadd hi (fmul h (lit 38 2))] in
  match try_prefs prefs [] left right bars lane_height used with
  | Some y => (y, used ++ [(y, left, right)])
  | None =>
    let fallback := fadd hi (fmul h (lit 38 2)) in
    (fallback, used ++ [(fallback, left, right)])
  end.

Definition elbow (from to : LaidOutBar) (x1 x2 y1 y2 : f64) (bars : list LaidOutBar) (lane_height : Z) (used : gutters)
    : list f64 * gutters :=
  let overlap_l := fmax (bar_x from) (bar_x to) in
  let overlap_r := fmin (fadd (bar_x from) (bar_width from)) (fadd (bar_x to) (bar_width to)) in
  let (pts, used) :=
    if fltb overlap_l overlap_r && negb (feqb y1 y2) then
      let cx := fdiv (fadd overlap_l overlap_r) (of_int 2) in
      let edge := fmul (of_int lane_height) (lit 26 2) in
      ([Pt cx (if fltb y1 y2 then fadd y1 edge else fsub y1 edge);
        Pt cx (if fltb y2 y1 then fadd y2 edge else fsub y2 edge)], used)
    else
      let gap := fsub x2 x1 in
      if fleb (fmul ELBOW_PAD (of_int 2)) gap then
        let mid := fdiv (fadd x1 x2) (of_int 2) in
        ([Pt x1 y1; Pt mid y1; Pt mid y2; Pt x2 y2], used)
      else if fleb (of_int 0) gap then
        if feqb y1 y2 then ([Pt x1 y1; Pt x2 y2], used)
        else
          let mid := fdiv (fadd x1 x2) (of_int 2) in
          ([Pt x1 y1; Pt mid y1; Pt mid y2; Pt x2 y2], used)
      else
        let left := fsub x2 ELBOW_PAD in
        let right := fadd x1 ELBOW_PAD in
        let (detour_y, used) := pick_gutter left right y1 y2 bars lane_height used in
        ([Pt x1 y1; Pt (fadd x1 ELBOW_PAD) y1; Pt (fadd x1 ELBOW_PAD) detour_y;
          Pt (fsub x2 ELBOW_PAD) detour_y; Pt (fsub x2 ELBOW_PAD) y2; Pt x2 y2], used) in
  (concat ((fun p => [pt_x p; pt_y p]) <$> pts), used).

(** The end points of a link's path, for a link between two bars. *)
Definition link_ends (by_id : gmap uuid LaidOutBar) (lane_height : Z) (px_per_day : f64) (l : GanttLinkInput)
    : option (LaidOutBar * LaidOutBar * (f64 * f64 * f64 * f64)) :=
  match by_id !! blocker_id l, by_id !! blocked_id l with
  | Some from, Some to =>
    let lag := fmul (of_int (lag_days l)) px_per_day in
    let (x1, x2) :=
      match link_type l with
      | Ss => (bar_x from, fadd (bar_x to) lag)
      | Ff => (fadd (bar_x from) (bar_width from), fadd (fadd (bar_x to) (bar_width to)) lag)
      | Fs => (fadd (bar_x from) (bar_width from), fadd (bar_x to) lag)
      end in
    Some (from, to, (x1, x2, lane_center_y (lane from) lane_height, lane_center_y (lane to) lane_height))
  | _, _ => None
  end.

(** Drawing the paths in order, each seeing the gutters used before it. *)
Fixpoint draw_all (items : list (LaidOutBar * LaidOutBar * (f64 * f64 * f64 * f64))) (bars : list LaidOutBar)
    (lane_height : Z) (used : gutters) : list (list f64) :=
  match items with
  | [] => []
  | (from, to, (x1, x2, y1, y2)) :: t =>
    let (pts, used) := elbow from to x1 x2 y1 y2 bars lane_height used in
    pts :: draw_all t bars lane_height used
  end.

Definition link_paths (links : list GanttLinkInput) (bars : list LaidOutBar) (lane_height : Z) (px_per_day : f64)
    : list (list f64) :=
  let by_id := collect_map (fun b => (bar_id b, b)) bars in
  draw_all (omap (link_ends by_id lane_height px_per_day) links) bars lane_height [].

End links.
