(* ===== verification/GanttPrepare.v ===== *)
(** * The Gantt response ([src/gantt/prepare.rs])

    [prepare_gantt] puts the parts together: schedule, bars, links, paths,
    columns and month bands. *)

From stdpp Require Import base list numbers strings gmap.
From Stdlib Require Import ZArith Lia.
From S2P Require Import Prelude Text Uuid Chrono Float Dependency GanttScale GanttLayout.

Definition MAX_DISPLAY_PATHS : nat := 2048.

(** ** Outputs (types.rs) *)

Record GanttBarOutput := BarOut {
  bo_id : str;
  bo_lane : Z;
  bo_x : f64;
  bo_width : f64;
  bo_milestone : bool;
  bo_inferred : ScheduleInference;
}.

Record GanttScaleOutput := ScaleOut { so_zoom : str; so_start : IsoDate; so_end : IsoDate; so_px_per_day : f64 }.

Record GanttLayoutItemOutput := Item {
  it_id : str;
  it_title : str;
  it_number : Z;
  it_status_id : str;
  it_priority : str;
  it_assignee_ids : list str;
  it_start_date : option IsoDate;
  it_due_date : option IsoDate;
  it_due_at : option str;
  it_start : IsoDate;
  it_end : IsoDate;
  it_milestone : bool;
  it_inferred : ScheduleInference;
}.

Record GanttLinkOutput := LinkOut { lo_blocker_id : str; lo_blocked_id : str; lo_type : LinkType; lo_lag_days : Z }.

Record GanttCalendarOutput := CalOut { co_weekend : list Z; co_holidays : list IsoDate }.

Record GanttLayoutOutput := LayoutOut {
  o_truncated : bool;
  o_items : list GanttLayoutItemOutput;
  o_can_edit : bool;
  o_links : list GanttLinkOutput;
  o_link_total : Z;
  o_calendar : GanttCalendarOutput;
  o_scale : GanttScaleOutput;
  o_lane_height : Z;
  o_lane_count : Z;
  o_pack : str;
  o_bars : list GanttBarOutput;
  o_path_total : Z;
  o_paths : list (list Z);
  o_columns : list ScaleTickOutput;
  o_month_bands : list MonthBandOutput;
  o_width : f64;
  o_height : f64;
  o_overflow : list str;
  o_dropped : list str;
}.

(** Iterating a [HashSet]: the order of one call. *)
Class SetOrder := {
  iter_holidays : gset IsoDate -> list IsoDate;
  iter_holidays_perm s : iter_holidays s ≡ₚ elements s;
}.

Section prepare.
Context `{UuidLib} `{Chrono} `{SetOrder}.

Record PrepareInput := Input {
  tasks : list GanttTaskInput;
  links : list GanttLinkInput;
  in_holidays : list str;
  scale_start : str;
  scale_end : str;
  in_zoom : ZoomLevel;
  in_px_per_day : option f64;
  lane_height : Z;
  pack : PackMode;
  max_lanes : option Z;
  truncated : bool;
  item_meta : list GanttLayoutItemOutput;
  can_edit : bool;
}.

Definition link_pair_order (a b : GanttLinkInput) : comparison :=
  match uuid_cmp (blocker_id a) (blocker_id b) with
  | Eq => uuid_cmp (blocked_id a) (blocked_id b)
  | other => other
  end.

Definition cap_links (links : list GanttLinkInput) : list GanttLinkInput * nat :=
  let total := length links in
  if (MAX_DISPLAY_PATHS <? total)%nat
  then (take MAX_DISPLAY_PATHS (sort_by link_pair_order links), total)
  else (links, total).

(** [to_epoch_day(d).is_some_and(|day| (start..=end).contains(&day))] *)
Definition in_days (start end_ : Z) (d : str) : bool :=
  match to_epoch_day d with Some day => (start <=? day) && (day <=? end_) | None => false end.

Definition holidays_in_scale (cal : WorkCalendar) (scale : TimeScale) : list IsoDate :=
  match to_epoch_day (sc_start scale), to_epoch_day (sc_end scale) with
  | Some start, Some end_ =>
    sort_by str_compare
      (filter (fun d => in_days start end_ d = true) (iter_holidays (holidays cal)))
  | _, _ => []
  end.

(** [filter_map(..).collect()] into a map keyed by the parsed id. *)
Definition meta_by_id (meta : list GanttLayoutItemOutput) : gmap uuid GanttLayoutItemOutput :=
  foldl (fun m i => match try_parse (it_id i) with Some id => <[id := i]> m | None => m end) ∅ meta.

Definition merge_items (scheduled : list ScheduledTask) (meta : list GanttLayoutItemOutput) : list GanttLayoutItemOutput :=
  let by_id := meta_by_id meta in
  (fun s =>
     let base := by_id !! st_id s in
     Item (hyphenated (st_id s)) (st_title s)
       (default 0 (it_number <$> base)) (default [] (it_status_id <$> base))
       (default (bs "none") (it_priority <$> base)) (default [] (it_assignee_ids <$> base))
       (base ≫= it_start_date) (base ≫= it_due_date) (base ≫= it_due_at)
       (st_start s) (st_end s) (st_milestone s) (st_inferred s)) <$> scheduled.

Definition links_among (ids : gset uuid) (links : list GanttLinkInput) : list GanttLinkInput :=
  filter (fun l => blocker_id l ∈ ids /\ blocked_id l ∈ ids) links.

(** The compact row of a path; [unwrap] on the item indices, so [None] is a
    panic. *)
Definition path_row (item_index : gmap uuid Z) (link : GanttLinkInput) (pts : list f64) : option (list Z) :=
  blocker ← item_index !! blocker_id link;
  blocked ← item_index !! blocked_id link;
  Some (blocker :: blocked :: (round_i64 <$> pts)).

(** [p.chunks(2).map(|c| c.get(1).unwrap_or(&0.0))] *)
Fixpoint path_ys (p : list f64) : list f64 :=
  match p with
  | _ :: y :: t => y :: path_ys t
  | [_] => [of_int 0]
  | [] => []
  end.

Definition bar_out (b : LaidOutBar) : GanttBarOutput :=
  BarOut (hyphenated (bar_id b)) (lane b) (bar_x b) (bar_width b) (bar_milestone b) (bar_inferred b).

Definition bar_order (a b : GanttBarOutput) : comparison :=
  match bo_lane a ?= bo_lane b with
  | Eq => default Eq (partial_cmp (bo_x a) (bo_x b))
  | other => other
  end.

Definition link_out (l : GanttLinkInput) : GanttLinkOutput :=
  LinkOut (hyphenated (blocker_id l)) (hyphenated (blocked_id l)) (link_type l) (lag_days l).

(** [None] is the panic of an index that is missing, which cannot happen
    ([prepare_total]). *)
Definition prepare_gantt (input : PrepareInput) : option GanttLayoutOutput :=
  let cal := make_calendar (in_holidays input) in
  let scale := make_scale (scale_start input) (scale_end input) (in_zoom input) (in_px_per_day input) in
  let (scheduled, dropped) := schedule_tasks (tasks input) in
  let max_lanes := default i32_max (max_lanes input) in
  let (bars, overflow) :=
    match pack input with
    | Overlap => pack_flow scheduled scale (links input) max_lanes
    | Rows => stack_rows scheduled scale
    end in
  let item_ids : gset uuid := list_to_set (st_id <$> scheduled) in
  let (item_links, link_total) := cap_links (links_among item_ids (links input)) in
  let item_links := sort_by link_pair_order item_links in
  let bar_ids : gset uuid := list_to_set (bar_id <$> bars) in
  let (shown, path_total) := cap_links (links_among bar_ids (links input)) in
  let path_points := link_paths shown bars (lane_height input) (px_per_day scale) in
  let item_index := collect_map (fun e : nat * ScheduledTask => (st_id e.2, Z.of_nat e.1)) (imap pair scheduled) in
  paths ← mapM (fun e : nat * list f64 => link ← shown !! e.1; path_row item_index link e.2) (imap pair path_points);
  let columns := ticks scale (Some cal) in
  let lane_count := foldr Z.max 0 ((fun b => lane b + 1) <$> bars) in
  let max_link_y := foldl fmax (of_int 0) (concat (path_ys <$> path_points)) in
  let height := fmax (fmax (fmul (of_int lane_count) (of_int (lane_height input))) (fadd max_link_y (of_int 12)))
                  (of_int (lane_height input)) in
  Some (LayoutOut (truncated input) (merge_items scheduled (item_meta input)) (can_edit input)
    (link_out <$> item_links) (Z.of_nat link_total)
    (CalOut (weekend cal) (holidays_in_scale cal scale))
    (ScaleOut (ZoomLevel_as_str (zoom scale)) (sc_start scale) (sc_end scale) (px_per_day scale))
    (lane_height input) lane_count (PackMode_as_str (pack input))
    (sort_by bar_order (bar_out <$> bars)) (Z.of_nat path_total) paths columns (month_bands columns)
    (scale_width scale) height (hyphenated <$> overflow) (hyphenated <$> dropped)).

End prepare.
