(* ===== verification/GanttScaleFacts.v ===== *)
(** * Facts and theorems about the time scale *)

From stdpp Require Import base list numbers strings gmap.
From Stdlib Require Import ZArith Lia.
From S2P Require Import Prelude Text Chrono ChronoInstance Float GanttScale.

Abbreviation first_epoch := (-719528).
Abbreviation last_epoch := 2932896.

(** ** Printing and reading fields *)

Lemma to_digit_ascii b : is_ascii_digit b = true -> to_digit 10 b = Some (b2z b - 48).
Proof.
  unfold is_ascii_digit, to_digit. intros E. rewrite E. unfold in_range in E. bool_to_prop.
  by rewrite (proj2 (Z.ltb_lt _ _)) by lia.
Qed.

Lemma dec_fold_ge s : forall acc,
  Forall (fun b => is_ascii_digit b = true) s -> 0 <= acc ->
  acc <= foldl (fun a b => a * 10 + (b2z b - 48)) acc s.
Proof.
  induction s as [|b s IH]; intros acc Hs Ha; [simpl; lia|]. inversion_clear Hs as [|? ? Hb Hs'].
  cbn [foldl]. unfold is_ascii_digit, in_range in Hb. bool_to_prop.
  specialize (IH (acc * 10 + (b2z b - 48)) Hs' ltac:(lia)). lia.
Qed.

Lemma radix_loop_digits max s : forall acc,
  Forall (fun b => is_ascii_digit b = true) s -> 0 <= acc ->
  foldl (fun a b => a * 10 + (b2z b - 48)) acc s <= max ->
  radix_loop 10 max acc s = Some (foldl (fun a b => a * 10 + (b2z b - 48)) acc s).
Proof.
  induction s as [|b s IH]; intros acc Hf Ha Hm; [done|]. inversion Hf as [|?? Hb Hs]; subst.
  cbn [radix_loop foldl] in *. rewrite to_digit_ascii by done.
  unfold is_ascii_digit, in_range in Hb. bool_to_prop.
  pose proof (dec_fold_ge s (acc * 10 + (b2z b - 48)) Hs ltac:(lia)).
  rewrite (proj2 (Z.ltb_ge _ _)) by lia. apply IH; [done|lia|done].
Qed.

Lemma parse_i32_digits n z :
  (0 < n)%nat -> 0 <= z < 10 ^ Z.of_nat n -> z <= i32_max -> parse_i32 (dec_digits n z) = Some z.
Proof.
  intros Hn Hz Hm. pose proof (dec_digits_ascii n z) as Hf. pose proof (dec_digits_length n z) as Hl.
  pose proof (dec_value_digits n z Hz) as Hv. destruct (dec_digits n z) as [|b s]; [simpl in Hl; lia|].
  rewrite Forall_cons_iff in Hf. destruct Hf as [Hb Hs]. unfold is_ascii_digit, in_range in Hb. bool_to_prop.
  unfold parse_i32. rewrite bool_decide_false by (intros ->; change (b2z Byte.x2d) with 45 in *; lia).
  unfold from_str_radix. rewrite bool_decide_false by (intros ->; change (b2z Byte.x2b) with 43 in *; lia).
  unfold dec_value in Hv. rewrite radix_loop_digits; [by rewrite Hv| |lia|by rewrite Hv].
  constructor; [|done]. unfold is_ascii_digit, in_range. apply andb_true_iff. rewrite !Z.leb_le. lia.
Qed.

Lemma digit_count_le f n k : 0 <= n < 10 ^ Z.of_nat k -> (0 < k)%nat -> (digit_count f n <= k)%nat.
Proof.
  revert n k. induction f as [|f IH]; intros n k Hn Hk; cbn [digit_count]; [lia|].
  destruct (Z.ltb_spec n 10); [lia|]. destruct k as [|[|k]]; [lia|simpl in Hn; lia|].
  apply le_n_S, IH; [|lia]. rewrite Nat2Z.inj_succ, Z.pow_succ_r in Hn by lia.
  split; [apply Z.div_pos; lia|apply Z.div_lt_upper_bound; lia].
Qed.

Lemma fmt_padded_small w z : (0 < w)%nat -> 0 <= z < 10 ^ Z.of_nat w -> fmt_padded w z = dec_digits w z.
Proof.
  intros Hw Hz. unfold fmt_padded. rewrite (proj2 (Z.ltb_ge _ _)) by lia.
  by rewrite Nat.max_l by (by apply digit_count_le).
Qed.

(** ** Shape *)

Lemma shape_iso y m d : shape_ok (iso y m d) = true.
Proof.
  unfold iso. pose proof (dec_digits_ascii 4 y) as Hy. pose proof (dec_digits_ascii 2 m) as Hm.
  pose proof (dec_digits_ascii 2 d) as Hd. pose proof (dec_digits_length 4 y) as Ly.
  pose proof (dec_digits_length 2 m) as Lm. pose proof (dec_digits_length 2 d) as Ld.
  destruct (dec_digits 4 y) as [|y1 [|y2 [|y3 [|y4 [|]]]]]; try done.
  destruct (dec_digits 2 m) as [|m1 [|m2 [|]]]; try done. destruct (dec_digits 2 d) as [|d1 [|d2 [|]]]; try done.
  repeat match goal with Hf : Forall _ (_ :: _) |- _ => apply Forall_cons_iff in Hf as [? ?] end.
  unfold shape_ok. simpl. repeat match goal with Hx : is_ascii_digit _ = true |- _ => rewrite Hx; clear Hx end. done.
Qed.

Lemma shape_length s : shape_ok s = true -> length s = 10%nat.
Proof. unfold shape_ok. intros E. bool_to_prop. by apply Nat.eqb_eq. Qed.

(** A string of that shape names its fields. *)
Lemma shape_parts s : shape_ok s = true ->
  exists ys ms ds, s = ys ++ bs "-" ++ ms ++ bs "-" ++ ds /\ length ys = 4%nat /\ length ms = 2%nat /\
    length ds = 2%nat /\ Forall (fun b => is_ascii_digit b = true) (ys ++ ms ++ ds).
Proof.
  intros E. pose proof (shape_length s E) as Hl.
  do 10 (destruct s as [|? s]; [done|]). destruct s; [|done].
  unfold shape_ok in E. simpl in E. bool_to_prop. simplify_eq.
  eexists [_; _; _; _], [_; _], [_; _]. split_and!; [reflexivity|done|done|done|].
  repeat (apply Forall_cons; split; [assumption|]). constructor.
Qed.

Section facts.
Context `{ChronoLaws}.

Lemma to_epoch_day_eq d : to_epoch_day d = num_days <$> parse_gantt_date d.
Proof.
  unfold to_epoch_day. destruct (parse_gantt_date d); [|done]. destruct epoch_day as (e & He & _). simpl. by rewrite He.
Qed.

Lemma dec_value_bounds s n : length s = n -> Forall (fun b => is_ascii_digit b = true) s -> 0 <= dec_value s < 10 ^ Z.of_nat n.
Proof.
  intros <-. induction s as [|b s IH] using rev_ind; intros Hf; [vm_compute; split; [discriminate|reflexivity]|].
  apply Forall_app in Hf as [Hs Hb]. inversion Hb as [|?? Hb' _]; subst. specialize (IH Hs).
  unfold dec_value in *. rewrite foldl_app, length_app. simpl.
  rewrite Nat2Z.inj_add, Z.pow_add_r by lia. change (10 ^ Z.of_nat 1) with 10.
  unfold is_ascii_digit, in_range in Hb'. bool_to_prop. lia.
Qed.

(** A parsed date has a four-digit year, and its text is its printed form. *)
Lemma to_epoch_day_Some s n :
  to_epoch_day s = Some n -> first_epoch <= n <= last_epoch /\
  exists a y m d, num_days a = n /\ ymd a = (y, m, d) /\ 0 <= y <= 9999 /\ s = iso y m d.
Proof.
  rewrite to_epoch_day_eq. unfold parse_gantt_date. destruct (shape_ok s) eqn:Es; [|done].
  destruct (shape_parts s Es) as (ys & ms & ds & -> & Ly & Lm & Ld & Hf). simpl negb. cbv iota.
  rewrite parse_digits by done. apply Forall_app in Hf as [Hy Hf]. apply Forall_app in Hf as [Hm Hd].
  destruct (from_ymd_opt _ _ _) as [a|] eqn:Ea; [|done]. intros [= <-]. apply from_ymd_ymd in Ea.
  pose proof (dec_value_bounds ys 4 Ly Hy). pose proof (dec_value_bounds ms 2 Lm Hm). pose proof (dec_value_bounds ds 2 Ld Hd).
  split; [apply (four_digit_year a _ _ _ Ea); lia|]. eexists a, _, _, _. split_and!; [done|exact Ea|lia|lia|].
  unfold iso. by rewrite (digits_dec_value ys 4), (digits_dec_value ms 2), (digits_dec_value ds 2).
Qed.

Lemma parse_gantt_iso y m d : 0 <= y <= 9999 -> 0 <= m <= 99 -> 0 <= d <= 99 ->
  to_epoch_day (iso y m d) = num_days <$> from_ymd_opt y m d.
Proof. intros. rewrite to_epoch_day_eq. unfold parse_gantt_date. rewrite shape_iso. simpl. by rewrite parse_iso. Qed.

(** Day numbers the layout can meet have a printed form. *)
Lemma from_epoch_total n : -10000000 <= n <= 10000000 ->
  exists a, num_days a = n /\ from_epoch_day n = Some (format_ymd a).
Proof.
  intros Hn. destruct (from_num_days_spec n Hn) as (a & Ha & En). exists a. split; [done|].
  unfold from_epoch_day. destruct epoch_day as (e & He & _). rewrite He. simpl. by rewrite Ha.
Qed.

Lemma from_epoch_iso n : first_epoch <= n <= last_epoch ->
  exists a y m d, num_days a = n /\ ymd a = (y, m, d) /\ 0 <= y <= 9999 /\ from_epoch_day n = Some (iso y m d).
Proof.
  intros Hn. destruct (from_epoch_total n ltac:(lia)) as (a & En & ->). destruct (ymd a) as [[y m] d] eqn:Ea.
  assert (0 <= y <= 9999) by (apply (four_digit_year a y m d Ea); lia).
  eexists a, y, m, d. split_and!; try done; try lia. by rewrite (format_iso a y m d).
Qed.

(** Printing a day number and reading it back. *)
Lemma epoch_roundtrip n : first_epoch <= n <= 10000000 ->
  from_epoch_day n ≫= to_epoch_day = if n <=? last_epoch then Some n else None.
Proof.
  intros Hn. destruct (Z.leb_spec n last_epoch).
  - destruct (from_epoch_iso n ltac:(lia)) as (a & y & m & d & En & Ea & Hy & ->). simpl.
    destruct (ymd_range a y m d Ea). rewrite parse_gantt_iso by lia.
    apply from_ymd_ymd in Ea. rewrite Ea. simpl. by rewrite En.
  - destruct (from_epoch_total n ltac:(lia)) as (a & En & ->). simpl. destruct (ymd a) as [[y m] d] eqn:Ea.
    pose proof (four_digit_year a y m d Ea) as Hfy.
    assert (9999 < y).
    { destruct year_last as (l & Hl & El). destruct (Z.lt_ge_cases y 0); [|lia].
      apply from_ymd_ymd in Hl. pose proof (ymd_order a l) as Ho. rewrite Ea, Hl in Ho. unfold lex_lt in Ho. simpl in Ho. lia. }
    rewrite to_epoch_day_eq. unfold parse_gantt_date. destruct (shape_ok (format_ymd a)) eqn:Es; [|done].
    exfalso. by apply shape_length, (format_long a y m d Ea) in Es.
Qed.

Lemma add_days_spec s n k : to_epoch_day s = Some n -> first_epoch <= n + k <= 10000000 ->
  add_days s k = from_epoch_day (n + k) /\ add_days s k ≫= to_epoch_day = if n + k <=? last_epoch then Some (n + k) else None.
Proof. intros Hs Hk. unfold add_days. rewrite Hs. simpl. split; [done|by apply epoch_roundtrip]. Qed.

Lemma day_of_week_spec s n : to_epoch_day s = Some n -> day_of_week s = Some ((n + 4) mod 7).
Proof.
  intros Hs. unfold day_of_week. rewrite Hs. simpl. f_equal.
  pose proof (Z.rem_bound_abs (n + 4) 7 ltac:(lia)) as Hr. rewrite wrap_small by lia.
  rewrite <- Z.add_mod_idemp_r, Z_mod_same_full, Z.add_0_r by lia.
  destruct (Z.lt_ge_cases (n + 4) 0).
  - rewrite (Z.rem_eq (n + 4) 7) by lia. symmetry. rewrite <- (Z.mod_add (n + 4) (- (Z.quot (n + 4) 7)) 7) by lia.
    f_equal. lia.
  - by rewrite Z.rem_mod_nonneg, Z.mod_mod by lia.
Qed.

End facts.
