(* ===== verification/Downloads.v ===== *)
(** * Serving attachments ([src/src/attachments])

    [Range] headers ([range.rs]), the [Content-Disposition] header of a
    download ([disposition.rs]) and the type of an upload ([mime.rs]).

    [range_exact] gives the accepted ranges as a grammar with their bounds,
    [disposition_safe] says that the header is one line of printable ASCII from
    which a client reads the file name back, and [sniffed_pdf] that only a file
    that starts with the signature is served as PDF. *)

From stdpp Require Import base list numbers strings sets.
From Stdlib Require Import ZArith Lia.
From S2P Require Import Prelude Text TextFacts Chrono GanttScaleFacts Unfurl.

(** ** Ranges *)

Inductive ParsedRange :=
| RFull
| RBytes (start end_ : Z)
| RInvalid.

Definition digits_only (s : str) : bool := forallb is_ascii_digit s.

(** [raw.parse::<u64>()]. *)
Definition parse_u64 (s : str) : option Z := from_str_radix 10 u64_max s.

Definition parse_range (header : option str) (size_bytes : Z) : ParsedRange :=
  match header with
  | None => RFull
  | Some value =>
    match strip_prefix (bs "bytes=") (trim value) with
    | None => RInvalid
    | Some rest =>
      match split_once Byte.x2d rest with
      | None => RInvalid
      | Some (raw_start, raw_end) =>
        if negb (digits_only raw_start) || negb (digits_only raw_end) then RInvalid
        else if bool_decide (raw_start = []) && bool_decide (raw_end = []) then RInvalid
        else if bool_decide (raw_start = []) then
          let n := default 0 (parse_u64 raw_end) in
          if (n =? 0) || (size_bytes =? 0) then RInvalid
          else RBytes (Z.max 0 (size_bytes - n)) (size_bytes - 1)
        else
          match parse_u64 raw_start with
          | None => RInvalid
          | Some start =>
            if size_bytes <=? start then RInvalid
            else if bool_decide (raw_end = []) then RBytes start (size_bytes - 1)
            else
              match parse_u64 raw_end with
              | None => RInvalid
              | Some end_ => if end_ <? start then RInvalid else RBytes start (Z.min end_ (size_bytes - 1))
              end
          end
      end
    end
  end.

(** The accepted headers: [bytes=a-b], [bytes=a-] and [bytes=-n] in decimal
    64-bit numbers, with the first and last byte they select. *)
Inductive selects (size : Z) : str -> Z -> Z -> Prop :=
| selects_closed a b :
    Forall (fun c => is_ascii_digit c = true) a -> Forall (fun c => is_ascii_digit c = true) b ->
    a <> [] -> b <> [] ->
    dec_value a <= u64_max -> dec_value b <= u64_max ->
    dec_value a < size -> dec_value a <= dec_value b ->
    selects size (bs "bytes=" ++ a ++ bs "-" ++ b) (dec_value a) (Z.min (dec_value b) (size - 1))
| selects_from a :
    Forall (fun c => is_ascii_digit c = true) a -> a <> [] -> dec_value a <= u64_max -> dec_value a < size ->
    selects size (bs "bytes=" ++ a ++ bs "-") (dec_value a) (size - 1)
| selects_last b :
    Forall (fun c => is_ascii_digit c = true) b -> b <> [] -> 0 < dec_value b <= u64_max -> 0 < size ->
    selects size (bs "bytes=-" ++ b) (Z.max 0 (size - dec_value b)) (size - 1).

Lemma digits_only_Forall s : digits_only s = true <-> Forall (fun c => is_ascii_digit c = true) s.
Proof. unfold digits_only. rewrite forallb_forall, Forall_forall. by setoid_rewrite list_elem_of_In. Qed.

Lemma radix_loop_over max s : forall acc,
  Forall (fun b => is_ascii_digit b = true) s -> 0 <= acc <= max ->
  max < foldl (fun a b => a * 10 + (b2z b - 48)) acc s -> radix_loop 10 max acc s = None.
Proof.
  induction s as [|b s IH]; intros acc Hs Ha Hv; [simpl in Hv; lia|]. inversion_clear Hs as [|? ? Hb Hs'].
  cbn [radix_loop foldl] in *. rewrite to_digit_ascii by done. apply in_range_spec in Hb.
  destruct (Z.ltb_spec max (acc * 10 + (b2z b - 48))); [done|]. apply IH; [done|lia|done].
Qed.

(** [parse] on digits: the decimal value, or an error when it does not fit. *)
Lemma parse_u64_digits s :
  Forall (fun b => is_ascii_digit b = true) s -> s <> [] ->
  parse_u64 s = if dec_value s <=? u64_max then Some (dec_value s) else None.
Proof.
  intros Hs Hne. unfold parse_u64, from_str_radix. destruct s as [|b s]; [done|].
  rewrite bool_decide_false.
  2: { intros ->. apply Forall_cons in Hs as [Hb _]. done. }
  destruct (Z.leb_spec (dec_value (b :: s)) u64_max) as [Hle|Hgt].
  - by rewrite radix_loop_digits.
  - by apply radix_loop_over.
Qed.

Lemma dec_value_nonneg s : Forall (fun b => is_ascii_digit b = true) s -> 0 <= dec_value s.
Proof. intros Hs. by apply (dec_fold_ge s 0). Qed.

Lemma digits_no_dash s : Forall (fun b => is_ascii_digit b = true) s -> Byte.x2d ∉ s.
Proof. rewrite Forall_forall. intros Hs Hin. by specialize (Hs _ Hin). Qed.

Lemma digits_only_neg s : Forall (fun c => is_ascii_digit c = true) s -> negb (digits_only s) = false.
Proof. intros Hs. by rewrite (proj2 (digits_only_Forall s) Hs). Qed.

(** An accepted header is one of the grammar. *)
Lemma parse_range_sound h size a b :
  0 <= size -> parse_range (Some h) size = RBytes a b -> selects size (trim h) a b.
Proof.
  intros Hsz. unfold parse_range. destruct (strip_prefix _ _) as [rest|] eqn:Hp; [|done].
  apply strip_prefix_Some in Hp as ->.
  destruct (split_once _ rest) as [[s e]|] eqn:Hs; [|done]. apply split_once_Some in Hs as [-> _].
  destruct (digits_only s) eqn:Ds; [|done]. destruct (digits_only e) eqn:De; [|done]. simpl.
  apply digits_only_Forall in Ds, De.
  case_bool_decide as Hs0; simpl; [subst s|].
  - case_bool_decide as He0; [done|]. rewrite (parse_u64_digits e) by done.
    pose proof (dec_value_nonneg e De).
    destruct (Z.leb_spec (dec_value e) u64_max); simpl; [|done].
    destruct (Z.eqb_spec (dec_value e) 0); simpl; [done|]. destruct (Z.eqb_spec size 0); [done|].
    intros [= <- <-]. apply (selects_last size e); [done|done|lia|lia].
  - rewrite (parse_u64_digits s) by done.
    destruct (Z.leb_spec (dec_value s) u64_max); simpl; [|done].
    destruct (Z.leb_spec size (dec_value s)); [done|].
    case_bool_decide as He0; [subst e; intros [= <- <-]; by apply (selects_from size s)|].
    rewrite (parse_u64_digits e) by done.
    destruct (Z.leb_spec (dec_value e) u64_max); simpl; [|done].
    destruct (Z.ltb_spec (dec_value e) (dec_value s)); [done|]. intros [= <- <-]. by apply (selects_closed size s e).
Qed.

Lemma parse_range_complete h size a b :
  selects size (trim h) a b -> parse_range (Some h) size = RBytes a b.
Proof.
  unfold parse_range. generalize (trim h). intros t [s e Ds De Ns Ne Ms Me Hlt Hle|s Ds Ns Ms Hlt|e De Ne Hv Hsz].
  - change (bs "-" ++ e) with (Byte.x2d :: e).
    rewrite strip_prefix_app, split_once_app by by apply digits_no_dash.
    rewrite !digits_only_neg by done. simpl. rewrite !bool_decide_false by done. simpl.
    rewrite !parse_u64_digits, (proj2 (Z.leb_le (dec_value s) _)) by (done || lia).
    rewrite (proj2 (Z.leb_gt size _)), (proj2 (Z.leb_le (dec_value e) _)) by lia.
    by rewrite (proj2 (Z.ltb_ge _ _)) by lia.
  - change (bs "-") with [Byte.x2d].
    rewrite strip_prefix_app, split_once_app by by apply digits_no_dash.
    rewrite digits_only_neg by done. simpl. rewrite bool_decide_false by done. simpl.
    rewrite parse_u64_digits, (proj2 (Z.leb_le _ _)) by (done || lia).
    by rewrite (proj2 (Z.leb_gt _ _)) by lia.
  - change (bs "bytes=-" ++ e) with (bs "bytes=" ++ [] ++ Byte.x2d :: e).
    rewrite strip_prefix_app, split_once_app by set_solver.
    rewrite (digits_only_neg e) by done. simpl. rewrite bool_decide_false by done.
    rewrite parse_u64_digits, (proj2 (Z.leb_le _ _)) by (done || lia). simpl.
    by rewrite (proj2 (Z.eqb_neq (dec_value e) _)), (proj2 (Z.eqb_neq size _)) by lia.
Qed.

(** C40: a [Range] header selects bytes exactly when, without the white space
    around it, it is [bytes=a-b], [bytes=a-] or [bytes=-n] with numbers that fit
    64 bits and a first byte inside the file; what it selects is then clipped to
    the file, and never empty or outside it.  The whole file is served exactly
    when there is no header; everything else is refused. *)
Theorem range_exact header size :
  0 <= size <= u64_max ->
  match parse_range header size with
  | RFull => header = None
  | RBytes a b => exists h, header = Some h /\ selects size (trim h) a b /\ 0 <= a <= b /\ b < size
  | RInvalid => exists h, header = Some h /\ forall a b, ~ selects size (trim h) a b
  end.
Proof.
  intros Hsz. destruct header as [h|]; [|done].
  destruct (parse_range (Some h) size) as [|a b|] eqn:E.
  - unfold parse_range in E. repeat (case_match; try done).
  - apply parse_range_sound in E; [|lia]. exists h. split; [done|]. split; [done|].
    destruct E as [s e Ds|s Ds|e]; try pose proof (dec_value_nonneg s Ds); lia.
  - exists h. split; [done|]. intros a b Hs%parse_range_complete. congruence.
Qed.

(** [range_exact] for a range that reaches past the end. *)
Lemma range_exact_witness :
  exists h, parse_range (Some (bs " bytes=2-99")) 10 = RBytes 2 9 /\ Some (bs " bytes=2-99") = Some h /\
    selects 10 (trim h) 2 9 /\ 0 <= 2 <= 9 /\ 9 < 10.
Proof.
  pose proof (range_exact (Some (bs " bytes=2-99")) 10 ltac:(done)) as H.
  assert (parse_range (Some (bs " bytes=2-99")) 10 = RBytes 2 9) as E by by vm_compute.
  rewrite E in H. destruct H as [h H]. by exists h.
Defined.

(** ** Download names *)

Definition percent_encode_utf8 (value : str) : str :=
  value ≫= fun b =>
    if in_range 65 90 (b2z b) || in_range 97 122 (b2z b) || in_range 48 57 (b2z b) ||
       bool_decide (b ∈ [Byte.x2d; Byte.x2e; Byte.x5f; Byte.x7e])
    then [b] else [Byte.x25; hex_upper (Z.shiftr (b2z b) 4); hex_upper (Z.land (b2z b) 15)].

(** The fallback name: other characters than printable ASCII, quotes and
    backslashes become underscores. *)
Definition ascii_fallback (name : str) : str :=
  (fun c => if in_range 0x20 0x7e c && negb (c =? 34) && negb (c =? 92) then z2b c else Byte.x5f) <$> chars name.

Definition content_disposition_attachment (name : str) : str :=
  bs "attachment; filename=" ++ [Byte.x22] ++ ascii_fallback name ++ [Byte.x22] ++
  bs "; filename*=UTF-8''" ++ percent_encode_utf8 name.

(** A client: the quoted fallback and the decoded extended name. *)
Fixpoint percent_decode (s : str) : option str :=
  match s with
  | [] => Some []
  | b :: t =>
    if bool_decide (b = Byte.x25) then
      match t with
      | h :: l :: t => h ← to_digit 16 h; l ← to_digit 16 l; r ← percent_decode t; Some (z2b (16 * h + l) :: r)
      | _ => None
      end
    else r ← percent_decode t; Some (b :: r)
  end.

Definition read_disposition (header : str) : option (str * str) :=
  s ← strip_prefix (bs "attachment; filename=" ++ [Byte.x22]) header;
  '(fallback, s) ← split_once Byte.x22 s;
  s ← strip_prefix (bs "; filename*=UTF-8''") s;
  name ← percent_decode s;
  Some (fallback, name).

Lemma encode_byte_decode b s :
  percent_decode (percent_encode_utf8 [b] ++ s) = (r ← percent_decode s; Some (b :: r)).
Proof. destruct b; vm_compute percent_encode_utf8; reflexivity. Qed.

Lemma percent_decode_encode s : percent_decode (percent_encode_utf8 s) = Some s.
Proof.
  induction s as [|b s IH]; [done|].
  replace (percent_encode_utf8 (b :: s)) with (percent_encode_utf8 [b] ++ percent_encode_utf8 s)
    by (unfold percent_encode_utf8; cbn; by rewrite app_nil_r).
  by rewrite encode_byte_decode, IH.
Qed.

Definition printable (b : byte) : Prop := 0x20 <= b2z b <= 0x7e.

Lemma percent_encode_printable s : Forall printable (percent_encode_utf8 s).
Proof.
  unfold percent_encode_utf8. induction s as [|b s IH]; [constructor|]. cbn. apply Forall_app. split; [|done].
  clear IH. unfold printable. destruct b; vm_compute; repeat constructor; discriminate.
Qed.

Lemma fallback_char c :
  let b := if in_range 0x20 0x7e c && negb (c =? 34) && negb (c =? 92) then z2b c else Byte.x5f in
  printable b /\ b <> Byte.x22 /\ b <> Byte.x5c.
Proof.
  simpl. destruct (in_range 0x20 0x7e c) eqn:E; simpl; [|done]. apply in_range_spec in E.
  destruct (Z.eqb_spec c 34); simpl; [done|]. destruct (Z.eqb_spec c 92); simpl; [done|].
  unfold printable. rewrite b2z_z2b_small by lia. split; [lia|].
  split; intros Eq; apply (f_equal b2z) in Eq; rewrite b2z_z2b_small in Eq by lia; by vm_compute in Eq.
Qed.

(** The header of a download is printable ASCII, whatever the file is
    called, so a name cannot add a header line; the quoted fallback name has no
    quote or backslash in it and one character for each of the name's; and a
    client that reads the header gets the name itself back. *)
Theorem disposition_safe name :
  let header := content_disposition_attachment name in
  Forall printable header /\
  length (ascii_fallback name) = length (chars name) /\
  Forall (fun b => b <> Byte.x22 /\ b <> Byte.x5c) (ascii_fallback name) /\
  read_disposition header = Some (ascii_fallback name, name).
Proof.
  assert (Forall (fun b => printable b /\ b <> Byte.x22 /\ b <> Byte.x5c) (ascii_fallback name)) as Hf.
  { apply Forall_fmap, Forall_true. apply fallback_char. }
  split_and!.
  - unfold content_disposition_attachment. rewrite !Forall_app. split_and!; try (apply percent_encode_printable);
      try (eapply Forall_impl; [exact Hf|by intros ? []]); repeat constructor; done.
  - apply length_fmap.
  - eapply Forall_impl; [exact Hf|]. by intros ? [].
  - unfold read_disposition, content_disposition_attachment.
    rewrite (app_assoc (bs "attachment; filename=")), strip_prefix_app. cbn [mbind option_bind].
    change ([Byte.x22] ++ ?x) with (Byte.x22 :: x).
    rewrite split_once_app by (rewrite Forall_forall in Hf; intros H'; by destruct (Hf _ H') as (_ & ? & _)). cbn [mbind option_bind].
    rewrite strip_prefix_app. cbn [mbind option_bind]. by rewrite percent_decode_encode.
Qed.

(** ** Sniffed types *)

Definition PDF_MAGIC : list byte := bs "%PDF".

Definition magic_at (at_ : nat) (buf : list byte) : bool := bool_decide (PDF_MAGIC `prefix_of` drop at_ buf).

(** One turn of the loop: the last byte of a match is overwritten. *)
Definition break_magic (out : list byte) (at_ : nat) : list byte :=
  if magic_at at_ out then <[(at_ + length PDF_MAGIC - 1)%nat := Byte.x78]> out else out.

Definition without_late_pdf_magic (buf : list byte) : list byte :=
  let end_ := Nat.min (length buf) 1024 in
  foldl break_magic buf (seq 1 (end_ - (length PDF_MAGIC - 1) - 1)).

Section sniff.
(** [infer::get] and [mime_type], third-party. *)
Context (infer_get : list byte -> option str).

Definition sniff_mime_from_bytes (buf : list byte) : str :=
  let kind :=
    match infer_get buf with
    | Some kind =>
      if bool_decide (kind = bs "application/pdf") && negb (magic_at 0 buf)
      then infer_get (without_late_pdf_magic buf) else Some kind
    | None => None
    end in
  match kind with
  | None => bs "application/octet-stream"
  | Some mime => if bool_decide (mime = bs "image/vnd.dwg") then bs "application/octet-stream" else mime
  end.

Definition is_image_mime (mime : str) : bool :=
  bool_decide (bs "image/" `prefix_of` mime) && bool_decide (mime <> bs "image/svg+xml").

(** The crate reports PDF only for the signature in the first KiB. *)
Context (infer_pdf : forall buf, infer_get buf = Some (bs "application/pdf") ->
  exists at_, (at_ + length PDF_MAGIC <= Nat.min (length buf) 1024)%nat /\ magic_at at_ buf = true).

Lemma magic_lookup at_ buf :
  magic_at at_ buf = true <-> forall j b, PDF_MAGIC !! j = Some b -> buf !! (at_ + j)%nat = Some b.
Proof.
  unfold magic_at. rewrite bool_decide_eq_true. split.
  - intros [r Hr] j b Hj. rewrite <- lookup_drop, Hr. by apply lookup_app_l_Some.
  - intros Hj. exists (drop (length PDF_MAGIC) (drop at_ buf)).
    rewrite <- (take_drop (length PDF_MAGIC) (drop at_ buf)) at 1. f_equal. apply list_eq. intros i.
    destruct (PDF_MAGIC !! i) as [b|] eqn:E.
    + rewrite lookup_take_lt by (by apply lookup_lt_Some in E). rewrite lookup_drop. auto.
    + rewrite lookup_take_ge; [done|]. by apply lookup_ge_None in E.
Qed.

(** Overwriting with a byte that is not in the signature makes no new match. *)
Lemma magic_insert at_ i buf : magic_at at_ (<[i := Byte.x78]> buf) = true -> magic_at at_ buf = true.
Proof.
  rewrite !magic_lookup. intros Hm j b Hj. specialize (Hm j b Hj).
  destruct (decide (i = at_ + j)%nat) as [->|?]; [|by rewrite list_lookup_insert_ne in Hm].
  destruct (decide (at_ + j < length buf)%nat).
  - rewrite list_lookup_insert_eq in Hm by done. injection Hm as <-.
    apply list_elem_of_lookup_2 in Hj. vm_compute in Hj. set_solver.
  - by rewrite list_insert_ge in Hm by lia.
Qed.

Lemma break_magic_less at_ k buf : magic_at k (break_magic buf at_) = true -> magic_at k buf = true.
Proof. unfold break_magic. case_match; [apply magic_insert|done]. Qed.

Lemma break_magic_here at_ buf : magic_at at_ (break_magic buf at_) = false.
Proof.
  unfold break_magic. destruct (magic_at at_ buf) eqn:E; [|done].
  apply not_true_iff_false. intros Hm. rewrite magic_lookup in Hm. specialize (Hm 3%nat Byte.x46 eq_refl).
  replace (at_ + length PDF_MAGIC - 1)%nat with (at_ + 3)%nat in Hm by (simpl; lia).
  rewrite list_lookup_insert_eq in Hm; [done|].
  rewrite magic_lookup in E. specialize (E 3%nat Byte.x46 eq_refl). by apply lookup_lt_Some in E.
Qed.

Lemma break_all_less ats k : forall buf, magic_at k (foldl break_magic buf ats) = true -> magic_at k buf = true.
Proof. induction ats as [|a ats IH]; simpl; [done|]. intros buf Hm. by apply IH, break_magic_less in Hm. Qed.

Lemma break_all_here ats k : k ∈ ats -> forall buf, magic_at k (foldl break_magic buf ats) = false.
Proof.
  induction 1 as [|k a ats _ IH]; intros buf; simpl; [|apply IH].
  apply not_true_iff_false. intros Hm%break_all_less. by rewrite break_magic_here in Hm.
Qed.

Lemma without_late_length buf : length (without_late_pdf_magic buf) = length buf.
Proof.
  unfold without_late_pdf_magic. generalize (seq 1 (Nat.min (length buf) 1024 - (length PDF_MAGIC - 1) - 1)). intros ats.
  revert buf. induction ats as [|a ats IH]; intros buf; simpl; [done|]. rewrite IH. unfold break_magic.
  case_match; [apply length_insert|done].
Qed.

(** An upload is served as PDF only when it starts with the signature, although
    the crate also finds it later in the first KiB, and never as an AutoCAD
    drawing. *)
Theorem sniffed_pdf buf :
  (sniff_mime_from_bytes buf = bs "application/pdf" -> magic_at 0 buf = true) /\
  sniff_mime_from_bytes buf <> bs "image/vnd.dwg".
Proof.
  unfold sniff_mime_from_bytes. split.
  2: { repeat case_match; try done; by case_bool_decide. }
  destruct (infer_get buf) as [kind|]; [|done].
  case_bool_decide as Hk; simpl; [|case_bool_decide; [done|congruence]].
  destruct (magic_at 0 buf) eqn:E0; simpl; [done|].
  destruct (infer_get (without_late_pdf_magic buf)) as [mime|] eqn:E; [|done].
  case_bool_decide; [done|]. intros ->. apply infer_pdf in E as (k & Hlen & Hm).
  rewrite without_late_length in Hlen. simpl length in Hlen. destruct k as [|k].
  - apply break_all_less in Hm. congruence.
  - unfold without_late_pdf_magic in Hm. rewrite break_all_here in Hm; [done|].
    apply elem_of_seq. simpl length. lia.
Qed.

End sniff.
