(* ===== verification/GanttScaleTheorems.v ===== *)
(** * Theorems about the time scale *)

From stdpp Require Import base list numbers strings gmap.
From Stdlib Require Import ZArith Lia.
From S2P Require Import Prelude Text Chrono ChronoInstance Float GanttScale GanttScaleFacts.

Section theorems.
Context `{ChronoLaws}.

(** The fields of a printed date, read back as [next_tick_start] reads them. *)
Lemma iso_fields y m d : 0 <= y <= 9999 -> 0 <= m <= 99 ->
  str_get (iso y m d) 0 4 ≫= parse_i32 = Some y /\ str_get (iso y m d) 5 7 ≫= parse_i32 = Some m.
Proof.
  intros Hy Hm. pose proof (parse_i32_digits 4 y ltac:(lia) ltac:(lia) ltac:(unfold i32_max; lia)) as Py.
  pose proof (parse_i32_digits 2 m ltac:(lia) ltac:(lia) ltac:(unfold i32_max; lia)) as Pm.
  unfold iso. pose proof (dec_digits_ascii 2 m) as Am.
  pose proof (dec_digits_length 4 y) as Ly. pose proof (dec_digits_length 2 m) as Lm.
  destruct (dec_digits 4 y) as [|y1 [|y2 [|y3 [|y4 [|]]]]]; try done.
  destruct (dec_digits 2 m) as [|m1 [|m2 [|]]]; try done.
  apply Forall_cons_iff in Am as [Am1 _].
  assert (is_cont m1 = false) as Ec.
  { unfold is_cont, is_ascii_digit, in_range in *. bool_to_prop. apply andb_false_iff. rewrite !Z.leb_gt. lia. }
  unfold str_get, is_char_boundary. simpl. rewrite Ec. simpl. split; [exact Py|exact Pm].
Qed.

(** A column never ends before the day after it starts. *)
Lemma next_tick_later c y m d a z :
  first_epoch <= c <= last_epoch -> num_days a = c -> ymd a = (y, m, d) -> 0 <= y <= 9999 ->
  match next_tick_start (iso y m d) z ≫= to_epoch_day with Some b => c < b | None => True end.
Proof.
  intros Hc En Ea Hy. destruct (ymd_range a y m d Ea) as [Hm Hd].
  assert (Hs : to_epoch_day (iso y m d) = Some c).
  { rewrite parse_gantt_iso by lia. apply from_ymd_ymd in Ea. rewrite Ea. simpl. by rewrite En. }
  assert (Hadd : forall k, 0 < k <= 7 -> match add_days (iso y m d) k ≫= to_epoch_day with Some b => c < b | None => True end).
  { intros k Hk. destruct (add_days_spec _ _ k Hs ltac:(lia)) as [_ ->]. destruct (_ <=? _); [lia|done]. }
  assert (Hmonth : forall step, 1 <= step <= 3 ->
    match to_epoch_day (fmt_padded 4 (y + (m + step - 1) / 12) ++ bs "-" ++ fmt_padded 2 ((m + step - 1) mod 12 + 1) ++ bs "-01")
    with Some b => c < b | None => True end).
  { intros step Hst. set (ny := y + (m + step - 1) / 12). set (nm := (m + step - 1) mod 12 + 1).
    assert (Hnm : 1 <= nm <= 12) by (subst nm; pose proof (Z.mod_pos_bound (m + step - 1) 12 ltac:(lia)); lia).
    assert (Hny : y <= ny <= y + 1) by (subst ny; Z.to_euclidean_division_equations; lia).
    assert (Hlt : lex_lt (y, m, d) (ny, nm, 1)).
    { unfold lex_lt. simpl. subst ny nm. Z.to_euclidean_division_equations. lia. }
    rewrite (fmt_padded_small 2) by lia.
    destruct (to_epoch_day (fmt_padded 4 ny ++ _)) as [b|] eqn:Eb; [|done].
    destruct (to_epoch_day_Some _ _ Eb) as [_ (b' & y' & m' & d' & Enb & Eyb & Hy' & Hstr)].
    destruct (Z.le_gt_cases ny 9999) as [Hle|Hgt].
    - rewrite (fmt_padded_small 4) in Eb by lia. change (bs "-01") with (bs "-" ++ dec_digits 2 1) in Eb.
      fold (iso ny nm 1) in Eb. rewrite parse_gantt_iso in Eb by lia.
      destruct (from_ymd_opt ny nm 1) as [f|] eqn:Ef; [|done]. injection Eb as <-. rewrite <- En.
      apply ymd_order. apply from_ymd_ymd in Ef. by rewrite Ea, Ef.
    - exfalso. assert (ny = 10000) as E by lia. rewrite E in Hstr. apply (f_equal length) in Hstr.
      unfold iso in Hstr. rewrite !length_app, !dec_digits_length in Hstr. vm_compute in Hstr. lia. }
  unfold next_tick_start. destruct z.
  - apply Hadd. lia.
  - apply Hadd. unfold day_of_week_or_zero. rewrite (day_of_week_spec _ _ Hs). cbn [from_option id].
    pose proof (Z.mod_pos_bound (c + 4) 7 ltac:(lia)). destruct (Z.eqb_spec ((c + 4) mod 7) 0); lia.
  - destruct (iso_fields y m d Hy ltac:(lia)) as [-> ->]. cbn [mbind option_bind]. apply (Hmonth 1). lia.
  - destruct (iso_fields y m d Hy ltac:(lia)) as [-> ->]. cbn [mbind option_bind].
    assert (0 <= Z.rem (m - 1) 3 < 3) by (apply Z.rem_bound_pos; lia).
    rewrite bool_decide_false by done. apply Hmonth. lia.
Qed.

(** Columns that cover the days from [c] to [e] without gap or overlap, each at
    its place on a scale that starts at [s]. *)
Fixpoint tiles (px : f64) (s e c : Z) (cols : list ScaleTickOutput) : Prop :=
  match cols with
  | [] => c = e + 1
  | t :: rest =>
    exists stop, c < stop <= e + 1 /\ from_epoch_day c = Some (tick_date t) /\
      tick_x t = fmul (of_int (c - s)) px /\ tick_width t = fmul (of_int (stop - c)) px /\
      tiles px s e stop rest
  end.

Lemma tick_at_spec scale cal s e c :
  first_epoch <= c <= e -> e <= last_epoch ->
  exists t stop, tick_at scale cal s e c = Some (t, stop) /\ c < stop <= e + 1 /\
    from_epoch_day c = Some (tick_date t) /\ tick_x t = fmul (of_int (c - s)) (px_per_day scale) /\
    tick_width t = fmul (of_int (stop - c)) (px_per_day scale).
Proof.
  intros Hc He. destruct (from_epoch_iso c ltac:(lia)) as (a & y & m & d & En & Ea & Hy & Ef).
  pose proof (next_tick_later c y m d a (zoom scale) ltac:(lia) En Ea Hy) as Hnext.
  unfold tick_at. rewrite Ef. cbn [from_option id]. cbv zeta.
  set (b := default (e + 1) _). assert (c < b).
  { subst b. destruct (next_tick_start (iso y m d) (zoom scale) ≫= to_epoch_day); simpl; lia. }
  rewrite (proj2 (Z.leb_gt _ _)) by lia. eexists _, _. split; [reflexivity|]. cbn [tick_date tick_x tick_width].
  split_and!; [lia|lia|done..].
Qed.

(** One turn per day is enough for the loop. *)
Lemma ticks_fuel scale cal s e fuel : forall c,
  first_epoch <= c <= e + 1 -> e <= last_epoch -> (Z.to_nat (e + 1 - c) <= fuel)%nat ->
  tiles (px_per_day scale) s e c (ticks_loop fuel scale cal s e c) /\
  (length (ticks_loop fuel scale cal s e c) <= Z.to_nat (e + 1 - c))%nat.
Proof.
  induction fuel as [|f IH]; intros c Hc He Hf; cbn [ticks_loop].
  - simpl. lia.
  - destruct (Z.leb_spec c e) as [Hle|Hgt]; [|simpl; lia].
    destruct (tick_at_spec scale cal s e c ltac:(lia) He) as (t & stop & -> & Hstop & Hd & Hx & Hw).
    destruct (IH stop ltac:(lia) He ltac:(lia)) as [Ht Hl]. split.
    + cbn [tiles]. exists stop. split_and!; try done; lia.
    + simpl. lia.
Qed.

(** The columns of a scale tile it: every zoom level, every calendar.  They
    start at the scale's first day, follow each other without gap or overlap,
    end with its last day, are at most one per day, and stand at the x and
    width their days give them. *)
Theorem ticks_tile (scale : TimeScale) (cal : option WorkCalendar) (s e : Z) :
  to_epoch_day (sc_start scale) = Some s -> to_epoch_day (sc_end scale) = Some e -> s <= e ->
  tiles (px_per_day scale) s e s (ticks scale cal) /\ len (ticks scale cal) <= e - s + 1.
Proof.
  intros Hs He Hle. pose proof (to_epoch_day_Some _ _ Hs) as [Hrs _]. pose proof (to_epoch_day_Some _ _ He) as [Hre _].
  unfold ticks. rewrite Hs, He, (proj2 (Z.leb_le _ _) Hle).
  destruct (ticks_fuel scale cal s e (Z.to_nat (e - s + 1)) s ltac:(lia) ltac:(lia) ltac:(lia)) as [Ht Hl].
  split; [done|]. unfold len. lia.
Qed.

(** [(n as f64 / 7.0).ceil()] on the day counts of a month page. *)
Lemma weeks_of n : 28 <= n <= 37 -> ceil_i32 (fdiv (of_int n) (of_int 7)) = (n + 6) / 7.
Proof.
  intros Hn. assert (n = 28 \/ n = 29 \/ n = 30 \/ n = 31 \/ n = 32 \/ n = 33 \/ n = 34 \/ n = 35 \/ n = 36 \/ n = 37) as Hc by lia.
  by destruct Hc as [->|[->|[->|[->|[->|[->|[->|[->|[->| ->]]]]]]]]].
Qed.

Lemma first_of_month y m : 0 <= y <= 9999 -> 1 <= m <= 12 ->
  exists a, from_ymd_opt y m 1 = Some a /\
    to_epoch_day (fmt_padded 4 y ++ bs "-" ++ fmt_padded 2 m ++ bs "-01") = Some (num_days a).
Proof.
  intros Hy Hm. destruct (month_first y m ltac:(lia) Hm) as [a Ha]. exists a. split; [done|].
  rewrite (fmt_padded_small 4), (fmt_padded_small 2) by lia. change (bs "-01") with (bs "-" ++ dec_digits 2 1).
  fold (iso y m 1). rewrite parse_gantt_iso by lia. by rewrite Ha.
Qed.

(** Every month from the year 1 on starts at least four weeks into the range. *)
Lemma year_one_later a year month :
  1 <= year -> 1 <= month <= 12 -> from_ymd_opt year month 1 = Some a -> first_epoch + 28 <= num_days a.
Proof.
  intros Hy Hm Ha. destruct year_zero as (z & Hz & Ez).
  destruct (month_first 0 12 ltac:(lia) ltac:(lia)) as [dec Hd]. destruct (month_first 1 1 ltac:(lia) ltac:(lia)) as [o Ho].
  pose proof (month_length 0 12 dec o ltac:(lia) ltac:(lia) Hd Ho). apply from_ymd_ymd in Hd, Ho, Hz, Ha.
  pose proof (ymd_order z dec) as O1. rewrite Hz, Hd in O1. unfold lex_lt in O1. simpl in O1.
  pose proof (ymd_order o a) as O2. rewrite Ho, Ha in O2. unfold lex_lt in O2. simpl in O2.
  destruct (decide (year = 1 /\ month = 1)) as [[-> ->]|Hne]; [|lia].
  apply from_ymd_ymd in Ho, Ha. rewrite Ho in Ha. injection Ha as <-. lia.
Qed.

(** The last page ends within the range. *)
Lemma end_in_range year month b :
  1 <= year <= 9998 -> 1 <= month <= 12 -> from_ymd_opt (year + month / 12) (month mod 12 + 1) 1 = Some b ->
  num_days b <= last_epoch - 28.
Proof.
  intros Hy Hm Hb. destruct year_last as (l & Hl & El).
  destruct (month_first 9999 1 ltac:(lia) ltac:(lia)) as [j Hj]. destruct (month_first 9999 2 ltac:(lia) ltac:(lia)) as [f Hf].
  pose proof (month_length 9999 1 j f ltac:(lia) ltac:(lia) Hj Hf). apply from_ymd_ymd in Hj, Hf, Hl, Hb.
  pose proof (ymd_order f l) as O1. rewrite Hf, Hl in O1. unfold lex_lt in O1. simpl in O1.
  pose proof (ymd_order b j) as O2. rewrite Hb, Hj in O2. unfold lex_lt in O2. simpl in O2.
  assert (month = 12 /\ year + month / 12 = year + 1 /\ month mod 12 + 1 = 1 \/ month / 12 = 0 /\ month <> 12)
    as [(-> & E1 & E2)|[E1 E2]] by (Z.to_euclidean_division_equations; lia).
  - destruct (decide (year = 9998)) as [->|]; [|lia].
    apply from_ymd_ymd in Hb, Hj. change (9998 + 12 / 12) with 9999 in Hb. change (12 mod 12 + 1) with 1 in Hb.
    rewrite Hj in Hb. injection Hb as <-. lia.
  - lia.
Qed.

Lemma month_guard year month : 1 <= month <= 12 -> 1 <= year <= 9998 ->
  negb ((1 <=? month) && (month <=? 12)) || negb ((1 <=? year) && (year <=? 9998)) = false.
Proof.
  intros. rewrite orb_false_iff, !negb_false_iff, !andb_true_iff, !Z.leb_le. lia.
Qed.

(** The first day of the next month, as [month_range] writes it. *)
Lemma next_first year month : 1 <= month <= 12 ->
  (if month =? 12 then fmt_padded 4 (year + 1) ++ bs "-01-01"
   else fmt_padded 4 year ++ bs "-" ++ fmt_padded 2 (month + 1) ++ bs "-01") =
  fmt_padded 4 (year + month / 12) ++ bs "-" ++ fmt_padded 2 (month mod 12 + 1) ++ bs "-01".
Proof.
  intros Hm. destruct (Z.eqb_spec month 12) as [->|Hne]; [done|].
  rewrite Z.div_small, Z.mod_small, (Z.add_0_r year) by lia. done.
Qed.

(** A month page starts on the requested weekday, ends six days before one,
    covers every day of the month and no whole week outside it. *)
Theorem month_range_exact (year month w : Z) :
  1 <= month <= 12 -> 1 <= year <= 9998 -> 0 <= w <= 6 ->
  exists start end_ s e first next,
    month_range year month w = Some (start, end_) /\
    to_epoch_day start = Some s /\ to_epoch_day end_ = Some e /\
    num_days <$> from_ymd_opt year month 1 = Some first /\
    num_days <$> from_ymd_opt (year + month / 12) (month mod 12 + 1) 1 = Some next /\
    s <= first < s + 7 /\ next <= e + 1 < next + 7 /\ (s + 4) mod 7 = w /\ (e + 1 - s) mod 7 = 0.
Proof.
  intros Hm Hy Hw. destruct (first_of_month year month ltac:(lia) Hm) as (a & Ha & Ea).
  assert (Hny : 0 <= year + month / 12 <= 9999) by (Z.to_euclidean_division_equations; lia).
  assert (Hnm : 1 <= month mod 12 + 1 <= 12) by (pose proof (Z.mod_pos_bound month 12 ltac:(lia)); lia).
  destruct (first_of_month (year + month / 12) (month mod 12 + 1) Hny Hnm) as (b & Hb & Eb).
  pose proof (month_length year month a b ltac:(lia) Hm Ha Hb) as Hlen.
  assert (Hra : first_epoch + 28 <= num_days a).
  { apply (year_one_later a year month); [lia|lia|done]. }
  pose proof (to_epoch_day_Some _ _ Eb) as [Hrb _].
  pose proof (day_of_week_spec _ _ Ea) as Edow. set (n := num_days a) in *.
  assert (Hlead : Z.rem (Z.rem ((n + 4) mod 7 - w) 7 + 7) 7 = ((n + 4) mod 7 - w) mod 7)
    by (pose proof (Z.mod_pos_bound (n + 4) 7 ltac:(lia)); Z.to_euclidean_division_equations; lia).
  set (lead := ((n + 4) mod 7 - w) mod 7) in *.
  assert (Hl : 0 <= lead < 7) by (apply Z.mod_pos_bound; lia).
  assert (Hwd : (n - lead + 4) mod 7 = w) by (subst lead; Z.to_euclidean_division_equations; lia).
  destruct (add_days_spec _ _ (- lead) Ea ltac:(lia)) as [Es1 Es2]. rewrite (proj2 (Z.leb_le _ _)) in Es2 by lia.
  destruct (add_days _ (- lead)) as [start|] eqn:Est; [|done]. cbn [mbind option_bind] in Es2.
  set (days := (num_days b - (n - lead) + 6) / 7 * 7).
  assert (Hdays : num_days b - (n - lead) <= days < num_days b - (n - lead) + 7)
    by (subst days; Z.to_euclidean_division_equations; lia).
  pose proof (end_in_range year month b Hy Hm Hb) as Hrb'.
  destruct (add_days_spec _ _ (days - 1) Es2 ltac:(lia)) as [Ee1 Ee2]. rewrite (proj2 (Z.leb_le _ _)) in Ee2 by lia.
  destruct (add_days start (days - 1)) as [end_|] eqn:Een; [|done]. cbn [mbind option_bind] in Ee2.
  exists start, end_, (n + - lead), (n + - lead + (days - 1)), n, (num_days b).
  split; [|rewrite Ha, Hb; split_and!; try done; try lia].
  - unfold month_range. rewrite month_guard by lia. rewrite next_first by done.
    cbv zeta. rewrite Ea, Edow, Eb. cbn [mbind option_bind]. rewrite Hlead, Est. cbn [mbind option_bind].
    rewrite weeks_of by lia. fold days. by rewrite Een.
  - subst days. replace (n + - lead + ((num_days b - (n - lead) + 6) / 7 * 7 - 1) + 1 - (n + - lead))
      with ((num_days b - (n - lead) + 6) / 7 * 7) by lia. by apply Z.mod_mul.
Qed.

End theorems.

(** ** Witnesses *)

Definition w_scale : TimeScale := make_scale (bs "2026-09-01") (bs "2026-12-31") Month None.

Lemma ticks_tile_witness : len (ticks w_scale None) <= 20818 - 20697 + 1.
Proof. refine (proj2 (ticks_tile w_scale None 20697 20818 _ _ _)); by_decide. Defined.

Lemma month_range_exact_witness : is_Some (month_range 2026 9 1).
Proof.
  destruct (month_range_exact 2026 9 1 ltac:(lia) ltac:(lia) ltac:(lia)) as (s & e & ? & ? & ? & ? & Hr & _).
  rewrite Hr. by eexists.
Defined.
