(* ===== verification/GanttOrder.v ===== *)
(** * The dependency order of the packer

    [order_by_dependency] is Kahn's algorithm with a sorted ready list.  The
    facts about its graph and its loop, up to the permutation and the
    topological order of its result. *)

From stdpp Require Import base list numbers strings gmap.
From Stdlib Require Import ZArith Lia.
From S2P Require Import Prelude Text Uuid Chrono ChronoInstance Float Dependency GanttScale GanttLayout.

Section order.
Context `{UuidLib}.
Implicit Types (t : ScheduledTask) (l : GanttLinkInput) (n : uuid).

(** ** Maps collected from lists *)

Lemma collect_fold {A B} (f : A -> uuid * B) (l : list A) : forall (m : gmap uuid B) k v,
  NoDup ((fst ∘ f) <$> l) ->
  foldl (fun m a => <[(f a).1 := (f a).2]> m) m l !! k = Some v <->
  (exists a, a ∈ l /\ f a = (k, v)) \/ (k ∉ ((fst ∘ f) <$> l)) /\ m !! k = Some v.
Proof.
  induction l as [|a l IH]; intros m k v Hd; cbn [foldl].
  - split; [intros; right; split; [apply not_elem_of_nil|done]|].
    intros [(a & Ha & _)|[_ ?]]; [by apply elem_of_nil in Ha|done].
  - rewrite fmap_cons in Hd |- *. apply NoDup_cons in Hd as [Hn Hd]. rewrite IH by done. simpl in Hn.
    rewrite not_elem_of_cons. split.
    + intros [(b & Hb & E)|[Hk Hm]]; [left; exists b; split; [by right|done]|].
      apply lookup_insert_Some in Hm as [[E1 E2]|[Hne Hm]]; [|right; simpl; split; [split; [congruence|done]|done]].
      left. exists a. split; [by left|]. rewrite <- E1, <- E2. by destruct (f a).
    + intros [(b & Hb & E)|[[Hka Hk] Hm]].
      * apply elem_of_cons in Hb as [->|Hb]; [|left; by exists b]. right. rewrite E in *. simpl in *.
        split; [done|]. apply lookup_insert_eq.
      * right. split; [done|]. simpl in Hka. by rewrite lookup_insert_ne by congruence.
Qed.

Lemma collect_lookup {A B} (f : A -> uuid * B) (l : list A) k v :
  NoDup ((fst ∘ f) <$> l) -> collect_map f l !! k = Some v <-> exists a, a ∈ l /\ f a = (k, v).
Proof.
  intros Hd. unfold collect_map. rewrite collect_fold by done. rewrite lookup_empty. naive_solver.
Qed.

(** ** The graph *)

Context (tasks : list ScheduledTask) (links : list GanttLinkInput).
Abbreviation ids := (st_id <$> tasks).
Hypothesis Hids : NoDup ids.

(** The links whose both ends are tasks. *)
Definition edges (ls : list GanttLinkInput) : list GanttLinkInput :=
  filter (fun l => blocker_id l ∈ ids /\ blocked_id l ∈ ids) ls.

Definition succs (n : uuid) (ls : list GanttLinkInput) : list uuid :=
  blocked_id <$> filter (fun l => blocker_id l = n) (edges ls).

Definition indegree (n : uuid) (ls : list GanttLinkInput) : Z :=
  len (filter (fun l => blocked_id l = n) (edges ls)).

Lemma id_inj t u : t ∈ tasks -> u ∈ tasks -> st_id t = st_id u -> t = u.
Proof.
  intros Ht Hu E. apply list_elem_of_lookup in Ht as [i Hi]. apply list_elem_of_lookup in Hu as [j Hj].
  assert (i = j); [|naive_solver].
  apply (NoDup_lookup ids i j (st_id t)); [done| |]; rewrite list_lookup_fmap; [by rewrite Hi|by rewrite Hj, E].
Qed.

Lemma by_id_lookup n t : collect_map (fun t => (st_id t, t)) tasks !! n = Some t <-> t ∈ tasks /\ st_id t = n.
Proof. rewrite collect_lookup by done. naive_solver. Qed.

Lemma by_id_some n : is_Some (collect_map (fun t => (st_id t, t)) tasks !! n) <-> n ∈ ids.
Proof.
  rewrite list_elem_of_fmap. split.
  - intros [t Ht]. apply by_id_lookup in Ht as [? <-]. eauto.
  - intros (t & -> & Ht). exists t. by apply by_id_lookup.
Qed.

Lemma const_lookup {B} (b : B) n : n ∈ ids -> collect_map (fun t => (st_id t, b)) tasks !! n = Some b.
Proof. intros (t & -> & Ht)%list_elem_of_fmap. apply collect_lookup; [done|]. by exists t. Qed.

Definition empty_graph : graph :=
  Graph (collect_map (fun t => (st_id t, t)) tasks) (collect_map (fun t => (st_id t, [])) tasks)
        (collect_map (fun t => (st_id t, 0)) tasks).

Lemma graph_spec ls :
  let g := foldl add_edge empty_graph ls in
  by_id g = collect_map (fun t => (st_id t, t)) tasks /\
  forall n, n ∈ ids -> adj g !! n = Some (succs n ls) /\ indeg g !! n = Some (indegree n ls).
Proof.
  induction ls as [|l ls IH] using rev_ind; cbv zeta.
  - split; [done|]. intros n Hn. simpl. by rewrite !const_lookup.
  - rewrite foldl_app. cbn [foldl]. destruct IH as [Hb Hn]. set (g := foldl add_edge empty_graph ls) in *.
    assert (He : edges (ls ++ [l]) = edges ls ++ if decide (blocker_id l ∈ ids /\ blocked_id l ∈ ids) then [l] else []).
    { unfold edges. by rewrite filter_app. }
    unfold add_edge. rewrite Hb.
    destruct (decide (blocker_id l ∈ ids /\ blocked_id l ∈ ids)) as [[H1 H2]|Hno].
    + apply by_id_some in H1 as Hs1. apply by_id_some in H2 as Hs2. destruct Hs1 as [t1 E1], Hs2 as [t2 E2].
      rewrite E1, E2. cbn [by_id adj indeg]. split; [done|]. intros n Hin.
      destruct (Hn _ H1) as [Ea _], (Hn _ H2) as [_ Ei], (Hn n Hin) as [Ea' Ei'].
      unfold succs, indegree. rewrite He, !filter_app, fmap_app. split.
      * rewrite Ea. cbn [from_option id]. destruct (decide (blocker_id l = n)) as [<-|Hne].
        -- rewrite lookup_insert_eq. rewrite filter_cons_True by done. done.
        -- rewrite lookup_insert_ne by done. rewrite filter_cons_False by done. rewrite Ea'. simpl. by rewrite app_nil_r.
      * rewrite Ei. cbn [from_option id]. destruct (decide (blocked_id l = n)) as [<-|Hne].
        -- rewrite lookup_insert_eq, filter_cons_True by done. f_equal. rewrite len_app. done.
        -- rewrite lookup_insert_ne by done. rewrite filter_cons_False by done. rewrite Ei'. by rewrite app_nil_r.
    + assert (Hg : match collect_map (fun t => (st_id t, t)) tasks !! blocker_id l,
                         collect_map (fun t => (st_id t, t)) tasks !! blocked_id l with
                   | Some _, Some _ => False | _, _ => True end).
      { pose proof (by_id_some (blocker_id l)) as S1. pose proof (by_id_some (blocked_id l)) as S2.
        destruct (collect_map _ _ !! blocker_id l), (collect_map _ _ !! blocked_id l); try done.
        apply Hno. split; [apply S1|apply S2]; by eexists. }
      assert (match collect_map (fun t => (st_id t, t)) tasks !! blocker_id l,
                    collect_map (fun t => (st_id t, t)) tasks !! blocked_id l with
              | Some _, Some _ => Graph (collect_map (fun t => (st_id t, t)) tasks)
                  (<[blocker_id l := default [] (adj g !! blocker_id l) ++ [blocked_id l]]> (adj g))
                  (<[blocked_id l := default 0 (indeg g !! blocked_id l) + 1]> (indeg g))
              | _, _ => g end = g) as -> by (repeat case_match; done).
      unfold succs, indegree. rewrite He, app_nil_r. done.
Qed.

(** ** One turn of the loop *)

Definition count (n : uuid) (ns : list uuid) : Z := len (filter (fun m => n = m) ns).

Lemma count_cons n m ns : count n (m :: ns) = (if decide (n = m) then 1 else 0) + count n ns.
Proof. unfold count. rewrite filter_cons. case_decide; [by rewrite len_cons|lia]. Qed.

Lemma count_pos n ns : 0 <= count n ns.
Proof. apply len_nonneg. Qed.

Lemma count_elem n ns : n ∈ ns -> 0 < count n ns.
Proof.
  induction ns as [|m ns IH]; [by intros ?%elem_of_nil|]. rewrite count_cons. pose proof (count_pos n ns).
  intros [->|Hin]%elem_of_cons; [rewrite decide_True by done; lia|]. specialize (IH Hin). case_decide; lia.
Qed.

(** Finishing a task lowers its successors' counts; those that reach zero
    become ready, each once. *)
Lemma relax_fold (g : graph) ns : forall deg ready deg' ready',
  by_id g = collect_map (fun t => (st_id t, t)) tasks ->
  (forall n, n ∈ ns -> n ∈ ids /\ exists d, deg !! n = Some d /\ count n ns <= d) ->
  foldl (relax g) (deg, ready) ns = (deg', ready') ->
  (forall n d, deg !! n = Some d -> deg' !! n = Some (d - count n ns)) /\
  exists new, ready' ≡ₚ ready ++ new /\ NoDup (st_id <$> new) /\
    forall t, t ∈ new <-> t ∈ tasks /\ st_id t ∈ ns /\ deg' !! st_id t = Some 0.
Proof.
  induction ns as [|m ns IH]; intros deg ready deg' ready' Hb Hpre; cbn [foldl].
  - intros [= <- <-]. split; [intros n d ->; f_equal; change (count n []) with 0; lia|].
    exists []. rewrite app_nil_r. split_and!; [done|constructor|]. intros t. rewrite !elem_of_nil. tauto.
  - destruct (Hpre m ltac:(by left)) as (Hm & dm & Edm & Hcm). rewrite count_cons, decide_True in Hcm by done.
    destruct (proj2 (by_id_some m) Hm) as [tm Htm].
    unfold relax at 2. rewrite Edm, Hb, Htm. cbn [from_option id].
    set (deg1 := <[m := dm - 1]> deg).
    assert (Hpre1 : forall n, n ∈ ns -> n ∈ ids /\ exists d, deg1 !! n = Some d /\ count n ns <= d).
    { intros n Hn. destruct (Hpre n ltac:(by right)) as (Hi & d & Ed & Hc). rewrite count_cons in Hc. split; [done|].
      subst deg1. destruct (decide (n = m)) as [->|Hne]; [|exists d; by rewrite lookup_insert_ne].
      exists (dm - 1). rewrite lookup_insert_eq. split; [done|lia]. }
    assert (Hd1 : forall n d, deg !! n = Some d -> deg1 !! n = Some (d - if decide (n = m) then 1 else 0)).
    { intros n d Ed. subst deg1. destruct (decide (n = m)) as [->|Hne].
      - rewrite lookup_insert_eq. f_equal. rewrite Edm in Ed. injection Ed as ->. done.
      - rewrite lookup_insert_ne by done. rewrite Ed. f_equal. lia. }
    set (ready1 := if dm - 1 =? 0 then sort_by cmp_packing (ready ++ [tm]) else ready).
    assert (E1 : (if dm - 1 =? 0 then (deg1, sort_by cmp_packing (ready ++ [tm])) else (deg1, ready)) = (deg1, ready1))
      by (subst ready1; by destruct (dm - 1 =? 0)).
    rewrite E1. intros Hf. destruct (IH _ _ _ _ Hb Hpre1 Hf) as [Hdeg (new & Hr & Hnd & Hnew)].
    assert (Hfin : forall n d, deg !! n = Some d -> deg' !! n = Some (d - count n (m :: ns))).
    { intros n d Ed. rewrite (Hdeg n _ (Hd1 n d Ed)), count_cons. f_equal. lia. }
    split; [done|]. pose proof (Hfin m dm Edm) as Em. rewrite count_cons, decide_True in Em by done.
    apply by_id_lookup in Htm as [Htm Etm]. pose proof (count_pos m ns) as Hcp.
    destruct (Z.eqb_spec (dm - 1) 0) as [Hz|Hz].
    + assert (Hmn : m ∉ ns) by (intros ?%count_elem; lia).
      exists (tm :: new). split_and!.
      * rewrite Hr. subst ready1. rewrite sort_by_perm, <- app_assoc. done.
      * rewrite fmap_cons. apply NoDup_cons. split; [|done]. rewrite Etm.
        intros (u & Eu & Hu)%list_elem_of_fmap. apply Hnew in Hu as (_ & Hu & _). by rewrite <- Eu in Hu.
      * intros t. rewrite elem_of_cons, Hnew, elem_of_cons. split.
        -- intros [->|(? & ? & ?)]; [|tauto]. split_and!; [done|by left|]. rewrite Etm, Em. f_equal. lia.
        -- intros (Ht & [Hid|Hin] & H0); [left; apply id_inj; [done|done|congruence]|right; done].
    + exists new. split_and!; [done|done|]. intros t. rewrite Hnew, elem_of_cons. split; [tauto|].
      intros (Ht & [Hid|Hin] & H0); [|tauto]. split_and!; [done| |done]. rewrite Hid in *. rewrite Em in H0. injection H0 as H0.
      destruct (decide (m ∈ ns)) as [|Hno]; [done|]. exfalso. apply Hz.
      assert (count m ns = 0); [|lia]. unfold count. destruct (filter _ ns) as [|x r] eqn:Ex; [done|].
      assert (x ∈ filter (fun y => m = y) ns) as [-> Hx]%list_elem_of_filter by (rewrite Ex; by left). done.
Qed.

(** ** The loop *)

Abbreviation E := (edges links).

(** The unfinished predecessors of a task, counted with multiplicity. *)
Definition pend (P : list uuid) (n : uuid) : Z := len (filter (fun l => blocked_id l = n /\ blocker_id l ∉ P) E).

(** Every predecessor of a finished task was finished before it. *)
Definition topo (out : list ScheduledTask) : Prop :=
  forall l pre t suf, l ∈ E -> out = pre ++ t :: suf -> st_id t = blocked_id l -> blocker_id l ∈ st_id <$> pre.

Record kahn (deg : gmap uuid Z) (ready out : list ScheduledTask) : Prop := {
  k_nodup : NoDup (st_id <$> out ++ ready);
  k_tasks : forall t, t ∈ out ++ ready -> t ∈ tasks;
  k_deg : forall n, n ∈ ids -> deg !! n = Some (pend (st_id <$> out) n);
  k_ready : forall t, t ∈ tasks -> st_id t ∉ st_id <$> out -> t ∈ ready <-> pend (st_id <$> out) (st_id t) = 0;
  k_topo : topo out;
}.

Lemma pend_zero P n : pend P n = 0 <-> forall l, l ∈ E -> blocked_id l = n -> blocker_id l ∈ P.
Proof.
  unfold pend. split.
  - intros Hz l Hl Hn. destruct (decide (blocker_id l ∈ P)) as [|Hno]; [done|].
    destruct (filter _ E) as [|x r] eqn:Ex; [|unfold len in Hz; simpl in Hz; lia].
    assert (l ∈ filter (fun l => blocked_id l = n /\ blocker_id l ∉ P) E) as Hin by (by apply list_elem_of_filter).
    rewrite Ex in Hin. by apply elem_of_nil in Hin.
  - intros Hall. destruct (filter _ E) as [|x r] eqn:Ex; [done|].
    assert (x ∈ filter (fun l => blocked_id l = n /\ blocker_id l ∉ P) E) as [[Hn Hno] Hx]%list_elem_of_filter by (rewrite Ex; by left).
    exfalso. auto.
Qed.

Lemma pend_snoc P m n : m ∉ P -> pend P n = pend (P ++ [m]) n + count n (succs m links).
Proof.
  intros Hm. unfold pend, count, succs. induction E as [|l ls IH]; [done|].
  rewrite !filter_cons. destruct (decide (blocker_id l = m)) as [Hb|Hb].
  - rewrite fmap_cons, filter_cons. rewrite (decide_False (P := _ /\ blocker_id l ∉ P ++ [m])) by set_solver.
    destruct (decide (blocked_id l = n)) as [Hn|Hn].
    + rewrite decide_True by (split; [done|congruence]). rewrite decide_True by done. rewrite !len_cons. lia.
    + rewrite !decide_False by naive_solver. done.
  - destruct (decide (blocked_id l = n /\ blocker_id l ∉ P)) as [[Hn Hp]|Hn].
    + rewrite decide_True by set_solver. rewrite !len_cons. lia.
    + rewrite decide_False by set_solver. done.
Qed.

Lemma topo_snoc out t : topo out -> (forall l, l ∈ E -> blocked_id l = st_id t -> blocker_id l ∈ st_id <$> out) -> topo (out ++ [t]).
Proof.
  intros Ht Hn l pre u suf Hl Ho Hu. destruct suf as [|x suf _] using rev_ind.
  - apply app_inj_tail in Ho as [-> ->]. by apply Hn.
  - rewrite (app_comm_cons suf), app_assoc in Ho. apply app_inj_tail in Ho as [-> _]. by eapply Ht.
Qed.

Lemma succs_ids m n : n ∈ succs m links -> n ∈ ids.
Proof. intros (l & -> & Hl)%list_elem_of_fmap. apply list_elem_of_filter in Hl as [_ Hl]. apply list_elem_of_filter in Hl. tauto. Qed.

(** A task that still waits for a predecessor is neither finished nor ready. *)
Lemma fresh_ready deg t ready out u :
  kahn deg (t :: ready) out -> u ∈ tasks -> 0 < pend (st_id <$> out) (st_id u) ->
  (st_id u ∉ st_id <$> out) /\ st_id u <> st_id t /\ (st_id u ∉ st_id <$> ready).
Proof.
  intros [Hnd Hin Hdeg Hready Htopo] Hu Hpos.
  assert (Hno : st_id u ∉ st_id <$> out).
  { intros (v & Ev & Hv)%list_elem_of_fmap. apply list_elem_of_split in Hv as (pre & suf & ->).
    assert (pend (st_id <$> (pre ++ v :: suf)) (st_id u) = 0); [|lia]. apply pend_zero. intros l Hl Hbl.
    rewrite fmap_app. apply elem_of_app. left. eapply Htopo; [exact Hl|reflexivity|congruence]. }
  assert (Hnr : u ∉ t :: ready) by (intros Hx; apply (Hready u Hu Hno) in Hx; lia).
  assert (Hmem : forall v, v ∈ t :: ready -> st_id u <> st_id v).
  { intros v Hv Ev. apply Hnr. rewrite (id_inj u v Hu); [done| |done]. apply Hin. set_solver. }
  split_and!; [done|apply Hmem; by left|]. intros (v & Ev & Hv)%list_elem_of_fmap. eapply Hmem; [by right|done].
Qed.

(** The output, the task just output and the ready tasks stay distinct. *)
Lemma nodup_step (out ready ready' new : list ScheduledTask) t :
  NoDup (st_id <$> out ++ t :: ready) -> NoDup (st_id <$> new) ->
  (forall u, u ∈ new -> (st_id u ∉ st_id <$> out) /\ st_id u <> st_id t /\ (st_id u ∉ st_id <$> ready)) ->
  ready' ≡ₚ ready ++ new -> NoDup (st_id <$> (out ++ [t]) ++ ready').
Proof.
  intros Hnd Hnn Hfresh Hr.
  rewrite fmap_app, fmap_cons in Hnd. apply NoDup_app in Hnd as (Hno & Hdisj & Hnr). apply NoDup_cons in Hnr as [Htr Hnr].
  rewrite Hr, <- app_assoc. cbn [app]. rewrite !fmap_app, fmap_cons, fmap_app. apply NoDup_app. split_and!; [done| |].
  - intros n Hn. rewrite elem_of_cons, elem_of_app. intros [->|[Hx|Hx]].
    + eapply Hdisj; [exact Hn|by left].
    + eapply Hdisj; [exact Hn|by right].
    + apply list_elem_of_fmap in Hx as (u & -> & Hu). by apply Hfresh in Hu as [? _].
  - apply NoDup_cons. split.
    + rewrite elem_of_app. intros [?|Hx]; [done|]. apply list_elem_of_fmap in Hx as (u & Eu & Hu).
      apply Hfresh in Hu as (_ & ? & _). congruence.
    + apply NoDup_app. split_and!; [done| |done]. intros n Hn Hx. apply list_elem_of_fmap in Hx as (u & -> & Hu).
      by apply Hfresh in Hu as (_ & _ & ?).
Qed.

Lemma count_notin n (l : list uuid) : n ∉ l -> count n l = 0.
Proof.
  intros Hn. unfold count. destruct (filter _ _) as [|x r] eqn:Ex; [done|].
  assert (x ∈ filter (fun y => n = y) l) as [<- Hx]%list_elem_of_filter by (rewrite Ex; by left). done.
Qed.

Lemma kahn_step deg t ready out deg' ready' (g := make_graph tasks links) :
  kahn deg (t :: ready) out -> foldl (relax g) (deg, ready) (default [] (adj g !! st_id t)) = (deg', ready') ->
  kahn deg' ready' (out ++ [t]).
Proof.
  intros [Hnd Hin Hdeg Hready Htopo] Hf. pose proof Hnd as Hnd0. destruct (graph_spec links) as [Hb Hg].
  change (foldl add_edge empty_graph links) with g in Hb, Hg.
  assert (Htt : t ∈ tasks) by (apply Hin; set_solver). assert (Hti : st_id t ∈ ids) by (by apply list_elem_of_fmap_2).
  rewrite fmap_app, fmap_cons in Hnd. apply NoDup_app in Hnd as (Hno & Hdisj & Hnr). apply NoDup_cons in Hnr as [Htr Hnr].
  assert (Hto : st_id t ∉ st_id <$> out) by (intros Hx; eapply Hdisj; [exact Hx|by left]).
  destruct (Hg _ Hti) as [Ea _]. rewrite Ea in Hf. cbn [from_option id] in Hf.
  assert (Hp : forall n, pend (st_id <$> out) n = pend (st_id <$> out ++ [t]) n + count n (succs (st_id t) links)).
  { intros n. rewrite fmap_app. by apply pend_snoc. }
  destruct (relax_fold g (succs (st_id t) links) deg ready deg' ready') as [Hd (new & Hr & Hnn & Hnew)]; [done| |done|].
  { intros n Hn. apply succs_ids in Hn as Hni. split; [done|]. eexists. split; [by apply Hdeg|]. rewrite Hp.
    pose proof (len_nonneg (filter (fun l => blocked_id l = n /\ blocker_id l ∉ st_id <$> out ++ [t]) E)). unfold pend. lia. }
  assert (Hdeg' : forall n, n ∈ ids -> deg' !! n = Some (pend (st_id <$> out ++ [t]) n)).
  { intros n Hn. rewrite (Hd n _ (Hdeg n Hn)). f_equal. rewrite Hp. lia. }
  assert (Hfresh : forall u, u ∈ new -> (st_id u ∉ st_id <$> out) /\ st_id u <> st_id t /\ (st_id u ∉ st_id <$> ready)).
  { intros u Hu. apply Hnew in Hu as (Hu & Hs & _).
    apply (fresh_ready deg t ready out u); [by split|done|]. pose proof (Hp (st_id u)). apply count_elem in Hs.
    pose proof (len_nonneg (filter (fun l => blocked_id l = st_id u /\ blocker_id l ∉ st_id <$> out ++ [t]) E)). unfold pend in *. lia. }
  split.
  - by apply (nodup_step out ready ready' new t).
  - intros u. rewrite Hr. rewrite !elem_of_app. intros [[Hu|Hu]|[Hu|Hu]].
    + apply Hin. set_solver.
    + apply list_elem_of_singleton in Hu as ->. done.
    + apply Hin. set_solver.
    + by apply Hnew in Hu as [? _].
  - done.
  - intros u Hu Hnu. rewrite fmap_app in Hnu. rewrite not_elem_of_app in Hnu. destruct Hnu as [Hno' Hnt].
    assert (Hut : st_id u <> st_id t) by (simpl in Hnt; set_solver).
    rewrite Hr, elem_of_app, Hnew. pose proof (Hready u Hu Hno') as Hru. rewrite elem_of_cons in Hru.
    pose proof (Hp (st_id u)) as Hpu. pose proof (count_pos (st_id u) (succs (st_id t) links)).
    assert (0 <= pend (st_id <$> out ++ [t]) (st_id u)) by apply len_nonneg.
    rewrite Hdeg' by (by apply list_elem_of_fmap_2). split.
    + intros [Hx|(_ & _ & [= Hx])]; [|done]. assert (pend (st_id <$> out) (st_id u) = 0) by (apply Hru; by right). lia.
    + intros Hz. destruct (decide (st_id u ∈ succs (st_id t) links)) as [Hs|Hs]; [right; split_and!; try done; by rewrite Hz|].
      left. pose proof (count_notin _ _ Hs) as Hc.
      destruct (proj2 Hru ltac:(lia)) as [->|]; [done|done].
  - apply topo_snoc; [done|]. intros l Hl Hbl. apply (pend_zero (st_id <$> out) (st_id t)); [|done|done].
    apply (Hready t Htt Hto). by left.
Qed.

(** The start: tasks without predecessors are ready. *)
Lemma kahn_init (g := make_graph tasks links) :
  kahn (indeg g) (sort_by cmp_packing (filter (fun t => default 0 (indeg g !! st_id t) = 0) tasks)) [].
Proof.
  destruct (graph_spec links) as [_ Hg]. change (foldl add_edge empty_graph links) with g in Hg.
  assert (Hp : forall n, pend [] n = indegree n links).
  { intros n. unfold pend, indegree. f_equal. apply list_filter_iff. intros l. rewrite elem_of_nil. tauto. }
  split.
  - rewrite app_nil_l, sort_by_perm. apply (sublist_NoDup _ ids Hids). apply fmap_sublist, sublist_filter.
  - intros t. rewrite app_nil_l, sort_by_perm. by intros [_ ?]%list_elem_of_filter.
  - intros n Hn. rewrite Hp. by apply Hg.
  - intros t Ht _. rewrite sort_by_perm, list_elem_of_filter, Hp.
    destruct (Hg (st_id t)) as [_ ->]; [by apply list_elem_of_fmap_2|]. simpl. tauto.
  - intros l pre t suf _ Ho. by destruct pre.
Qed.

(** One turn per task is enough: the loop ends with nothing ready. *)
Lemma order_loop_kahn (g := make_graph tasks links) fuel : forall deg ready out,
  kahn deg ready out -> (length tasks <= fuel + length out)%nat ->
  exists deg', kahn deg' [] (order_loop fuel g deg ready out).
Proof.
  induction fuel as [|f IH]; intros deg ready out Hk Hf; cbn [order_loop].
  - destruct ready as [|t ready]; [by exists deg|]. exfalso. destruct Hk as [Hnd Hin _ _ _].
    assert (Hsub : st_id <$> out ++ t :: ready ⊆+ ids).
    { apply NoDup_submseteq; [done|]. intros n (u & -> & Hu)%list_elem_of_fmap. by apply list_elem_of_fmap_2, Hin. }
    apply submseteq_length in Hsub. rewrite !length_fmap, length_app in Hsub. simpl in *. lia.
  - destruct ready as [|t ready]; [by exists deg|].
    destruct (foldl (relax g) (deg, ready) _) as [deg' ready'] eqn:E. apply (IH deg' ready').
    + eapply kahn_step; [exact Hk|exact E].
    + rewrite length_app. simpl. lia.
Qed.

(** Everything the loop leaves out waits for something it left out. *)
Lemma kahn_stuck deg out t : kahn deg [] out -> t ∈ tasks -> st_id t ∉ st_id <$> out ->
  exists l, l ∈ E /\ blocked_id l = st_id t /\ blocker_id l ∉ st_id <$> out.
Proof.
  intros [_ _ _ Hready _] Ht Hno. destruct (filter (fun l => blocked_id l = st_id t /\ blocker_id l ∉ st_id <$> out) E) as [|l r] eqn:Ef.
  - exfalso. assert (t ∈ []) as Hx; [|by apply elem_of_nil in Hx]. apply Hready; [done|done|]. unfold pend. by rewrite Ef.
  - exists l. assert (l ∈ filter (fun l => blocked_id l = st_id t /\ blocker_id l ∉ st_id <$> out) E) as [? ?]%list_elem_of_filter
      by (rewrite Ef; by left). tauto.
Qed.

Lemma kahn_complete deg out (rank : uuid -> nat) :
  kahn deg [] out -> (forall l, l ∈ E -> (rank (blocker_id l) < rank (blocked_id l))%nat) ->
  forall t, t ∈ tasks -> st_id t ∈ st_id <$> out.
Proof.
  intros Hk Hrank t. remember (rank (st_id t)) as r eqn:Er. revert t Er.
  induction (lt_wf r) as [r _ IH]. intros t -> Ht. destruct (decide (st_id t ∈ st_id <$> out)) as [|Hno]; [done|].
  destruct (kahn_stuck _ _ _ Hk Ht Hno) as (l & Hl & Hb & Hp). exfalso. apply Hp.
  pose proof (Hrank l Hl) as Hlt. apply list_elem_of_filter in Hl as [[Hbi _] _].
  apply list_elem_of_fmap in Hbi as (u & Eu & Hu). rewrite Eu. eapply IH; [|reflexivity|done].
  rewrite <- Eu, <- Hb. done.
Qed.

Lemma rest_perm deg out : kahn deg [] out ->
  out ++ filter (fun t => st_id t ∉ (list_to_set (st_id <$> out) : gset uuid)) tasks ≡ₚ tasks.
Proof.
  intros [Hnd Hin _ _ _]. rewrite app_nil_r in Hnd, Hin. apply NoDup_Permutation.
  - apply NoDup_app. split_and!.
    + by eapply NoDup_fmap_1.
    + intros t Ht. rewrite list_elem_of_filter, elem_of_list_to_set. intros [Hx _]. apply Hx. by apply list_elem_of_fmap_2.
    + apply NoDup_filter. by eapply NoDup_fmap_1.
  - by eapply NoDup_fmap_1.
  - intros t. rewrite elem_of_app, list_elem_of_filter, elem_of_list_to_set. split; [intros [?|[_ ?]]; auto|].
    intros Ht. destruct (decide (st_id t ∈ st_id <$> out)) as [Hx|Hx]; [|by right].
    left. apply list_elem_of_fmap in Hx as (u & Eu & Hu). by rewrite (id_inj t u Ht (Hin u Hu) Eu).
Qed.

Lemma order_perm : order_by_dependency tasks links ≡ₚ tasks.
Proof.
  unfold order_by_dependency. cbv zeta. destruct (order_loop_kahn (length tasks) _ _ _ kahn_init ltac:(simpl; lia)) as [deg Hk].
  set (out := order_loop _ _ _ _ _) in *. pose proof (rest_perm deg out Hk) as Hr.
  destruct (Nat.ltb_spec (length out) (length tasks)).
  - rewrite sort_by_perm. done.
  - apply Permutation_length in Hr as Hl. rewrite length_app in Hl. set (rest := filter _ tasks) in Hr, Hl.
    destruct rest; [by rewrite app_nil_r in Hr|simpl in Hl; lia].
Qed.

Lemma order_topo (rank : uuid -> nat) :
  (forall l, l ∈ E -> (rank (blocker_id l) < rank (blocked_id l))%nat) -> topo (order_by_dependency tasks links).
Proof.
  intros Hrank. unfold order_by_dependency. cbv zeta.
  destruct (order_loop_kahn (length tasks) _ _ _ kahn_init ltac:(simpl; lia)) as [deg Hk].
  set (out := order_loop _ _ _ _ _) in *. pose proof (rest_perm deg out Hk) as Hr.
  assert (Hnil : filter (fun t => st_id t ∉ (list_to_set (st_id <$> out) : gset uuid)) tasks = []).
  { set (rest := filter _ tasks). destruct rest as [|t r] eqn:Ef; [done|]. exfalso. subst rest.
    assert (t ∈ filter (fun t => st_id t ∉ (list_to_set (st_id <$> out) : gset uuid)) tasks) as [Hx Ht]%list_elem_of_filter
      by (rewrite Ef; by left). apply Hx, elem_of_list_to_set. by eapply kahn_complete. }
  rewrite Hnil, app_nil_r in Hr. apply Permutation_length in Hr.
  rewrite (proj2 (Nat.ltb_ge _ _)) by lia. apply Hk.
Qed.

End order.

(** ** Theorem *)

(** C26: the packing order is a permutation of the tasks, whatever the
    dependencies, cycles included; and when the dependencies among the tasks
    have no cycle (some rank grows along every one), every task comes after
    all the tasks that block it. *)
Theorem dependency_order `{UuidLib} (tasks : list ScheduledTask) (links : list GanttLinkInput) :
  NoDup (st_id <$> tasks) ->
  order_by_dependency tasks links ≡ₚ tasks /\
  forall rank : uuid -> nat,
    (forall l, l ∈ links -> blocker_id l ∈ st_id <$> tasks -> blocked_id l ∈ st_id <$> tasks ->
       (rank (blocker_id l) < rank (blocked_id l))%nat) ->
    forall l pre t suf, l ∈ links -> blocker_id l ∈ st_id <$> tasks -> st_id t = blocked_id l ->
      order_by_dependency tasks links = pre ++ t :: suf -> blocker_id l ∈ st_id <$> pre.
Proof.
  intros Hids. split; [by apply order_perm|]. intros rank Hrank l pre t suf Hl Hb Ht Ho.
  assert (Htin : t ∈ tasks) by (rewrite <- (order_perm tasks links Hids), Ho; set_solver).
  eapply (order_topo tasks links Hids rank); [|apply list_elem_of_filter; split; [split; [done|]|done]|exact Ho|done].
  - intros l' Hl'. apply list_elem_of_filter in Hl' as [[? ?] ?]. by apply Hrank.
  - rewrite <- Ht. by apply list_elem_of_fmap_2.
Qed.

Definition w_uuid (z : Z) : uuid128 := default (Uuid128 0 eq_refl) (uuid128_of z).

Definition w_task (z : Z) (start end_ : string) : ScheduledTask :=
  Sched (w_uuid z) (bs "t") (bs start) (bs end_) false InfNone.

Definition w_tasks : list ScheduledTask := [w_task 2 "2026-09-01" "2026-09-02"; w_task 1 "2026-09-03" "2026-09-04"].

Lemma dependency_order_witness :
  order_by_dependency w_tasks [Link (w_uuid 1) (w_uuid 2) Fs 0] ≡ₚ w_tasks.
Proof. refine (proj1 (dependency_order w_tasks [Link (w_uuid 1) (w_uuid 2) Fs 0] _)). by_decide. Defined.
