(* ===== verification/GanttPack.v ===== *)
(** * Scheduling and packing

    Theorems about [schedule_tasks] and [pack_flow]. *)

From stdpp Require Import base list numbers strings gmap.
From Stdlib Require Import ZArith Lia.
From S2P Require Import Prelude Text Uuid Chrono ChronoInstance Float Dependency GanttScale GanttLayout GanttOrder.

(** ** Scheduling *)

Section schedule.
Context `{UuidLib} `{Chrono}.

(** A date field that holds a date, with its day number. *)
Definition usable (v : option str) : option (str * Z) := s ← v; day ← to_epoch_day s; Some (s, day).

Lemma normalize_usable v : normalize v = fst <$> usable v.
Proof.
  unfold normalize, usable. destruct v as [s|]; [|done]. simpl. case_bool_decide as Hs; [subst; done|].
  by destruct (to_epoch_day s).
Qed.

Lemma usable_Some v s day : usable v = Some (s, day) -> to_epoch_day s = Some day.
Proof.
  unfold usable. intros (s' & _ & Hd)%bind_Some. apply bind_Some in Hd as (d & Hd & [= -> ->]). done.
Qed.

Lemma schedule_fold l : forall sch dr,
  foldl schedule_one (sch, dr) l =
  (sch ++ omap schedule_task l,
   dr ++ omap (fun t => match schedule_task t with None => Some (ti_id t) | Some _ => None end) l).
Proof.
  induction l as [|t l IH]; intros sch dr; cbn [foldl omap list_omap]; [by rewrite !app_nil_r|].
  unfold schedule_one at 2. destruct (schedule_task t); rewrite IH; by rewrite <- app_assoc.
Qed.

Lemma schedule_tasks_eq l :
  schedule_tasks l =
  (omap schedule_task l, omap (fun t => match schedule_task t with None => Some (ti_id t) | Some _ => None end) l).
Proof. unfold schedule_tasks. by rewrite schedule_fold. Qed.

(** Scheduling splits the tasks in order.  A task is dropped exactly when
    neither date field holds a date; a scheduled task keeps its identity, runs
    from an existing day to the same or a later one, and its dates are the two
    given ones in chronological order, or the only given one twice, with the
    inference that says which. *)
Theorem schedule_exact (l : list GanttTaskInput) :
  schedule_tasks l =
  (omap schedule_task l, omap (fun t => match schedule_task t with None => Some (ti_id t) | Some _ => None end) l) /\
  forall t, match schedule_task t with
  | None => usable (ti_start t) = None /\ usable (ti_due t) = None
  | Some st =>
    st_id st = ti_id t /\ st_title st = ti_title t /\ st_milestone st = ti_milestone t /\
    exists s e, to_epoch_day (st_start st) = Some s /\ to_epoch_day (st_end st) = Some e /\ s <= e /\
      match usable (ti_start t), usable (ti_due t) with
      | Some (a, da), Some (b, db) =>
        if db <? da then st_start st = b /\ st_end st = a /\ st_inferred st = Swapped
        else st_start st = a /\ st_end st = b /\ st_inferred st = InfNone
      | Some (a, _), None => st_start st = a /\ st_end st = a /\ st_inferred st = FromStart
      | None, Some (b, _) => st_start st = b /\ st_end st = b /\ st_inferred st = FromDue
      | None, None => False
      end
  end.
Proof.
  split; [apply schedule_tasks_eq|]. intros t. unfold schedule_task. rewrite !normalize_usable.
  destruct (usable (ti_start t)) as [[a da]|] eqn:Ea, (usable (ti_due t)) as [[b db]|] eqn:Eb; simpl; try done.
  - apply usable_Some in Ea, Eb. rewrite Ea, Eb. simpl.
    destruct (Z.ltb_spec db da); simpl; split_and!; try done; [exists db, da|exists da, db]; split_and!; done || lia.
  - apply usable_Some in Ea. split_and!; try done. by exists da, da.
  - apply usable_Some in Eb. split_and!; try done. by exists db, db.
Qed.

End schedule.

(** ** Lanes *)

Lemma free_from_Some x lanes : forall i j, free_from x i lanes = Some j ->
  i <= j /\ exists e, lanes !! Z.to_nat (j - i) = Some e /\ fleb (fadd e PACK_GAP) x = true.
Proof.
  induction lanes as [|e lanes IH]; intros i j; cbn [free_from]; [done|].
  destruct (fleb (fadd e PACK_GAP) x) eqn:Ef.
  - intros [= <-]. split; [lia|]. exists e. by rewrite Z.sub_diag.
  - intros (Hle & e' & He & Hf)%IH. split; [lia|]. exists e'. split; [|done].
    replace (Z.to_nat (j - i)) with (S (Z.to_nat (j - (i + 1)))) by lia. done.
Qed.

(** The chosen lane is not below the minimum, and is new or free at [x]. *)
Lemma first_free_spec ends x mn :
  0 <= mn -> let r := first_free_lane ends x mn in
  mn <= r /\ forall e, ends !! Z.to_nat r = Some e -> fleb (fadd e PACK_GAP) x = true.
Proof.
  intros Hm. cbv zeta. unfold first_free_lane. destruct (free_from _ _ _) as [j|] eqn:E; simpl.
  - apply free_from_Some in E as (Hle & e & He & Hf). split; [done|]. intros e' He'.
    rewrite lookup_drop in He. replace (Z.to_nat mn + Z.to_nat (j - mn))%nat with (Z.to_nat j) in He by lia.
    rewrite He in He'. by injection He' as <-.
  - split; [lia|]. intros e He. apply lookup_lt_Some in He. unfold len in *. lia.
Qed.

Lemma set_lane_lookup ends L v i :
  0 <= L -> (i = Z.to_nat L -> set_lane ends L v !! i = Some v) /\
  (i <> Z.to_nat L -> (i < length ends)%nat -> set_lane ends L v !! i = ends !! i).
Proof.
  intros HL. unfold set_lane. set (ends' := if (length ends <=? Z.to_nat L)%nat then _ else ends).
  assert (Hlen : (Z.to_nat L < length ends')%nat).
  { subst ends'. destruct (Nat.leb_spec (length ends) (Z.to_nat L)); [|lia].
    rewrite length_app, length_replicate. lia. }
  split.
  - intros ->. by apply list_lookup_insert_eq.
  - intros Hne Hi. rewrite list_lookup_insert_ne by done. subst ends'.
    destruct (_ <=? _)%nat; [by rewrite lookup_app_l|done].
Qed.

Section packing.
Context `{UuidLib} `{Chrono}.
Implicit Types (b c : LaidOutBar).

Definition bar_end b : f64 := fadd (bar_x b) (bar_width b).

(** Neighbours in a lane keep the packing gap. *)
Definition lanes_spaced (bars : list LaidOutBar) : Prop :=
  forall pre b mid c suf, bars = pre ++ b :: mid ++ c :: suf -> lane b = lane c -> Forall (fun d => lane d <> lane b) mid ->
    fleb (fadd (bar_end b) PACK_GAP) (bar_x c) = true.

(** A placed bar stands level with or below every earlier bar that blocks it,
    and strictly below when the two overlap in time. *)
Definition below_blockers (ls : list GanttLinkInput) (bars : list LaidOutBar) : Prop :=
  forall l pre c suf b, l ∈ ls -> bars = pre ++ c :: suf -> bar_id c = blocked_id l -> b ∈ pre -> bar_id b = blocker_id l ->
    lane b <= lane c /\ (ranges_overlap b (Rect (bar_x c) (bar_width c)) = true -> lane b < lane c).

(** The state of the packing loop. *)
Record packing_ok (max : Z) (p : packing) : Prop := {
  p_lanes : Forall (fun b => 0 <= lane b < max) (pk_bars p);
  p_ends : forall pre b suf, pk_bars p = pre ++ b :: suf -> Forall (fun d => lane d <> lane b) suf ->
    lane_end p !! Z.to_nat (lane b) = Some (bar_end b);
  p_spaced : lanes_spaced (pk_bars p);
  p_placed : forall b, b ∈ pk_bars p -> placed p !! bar_id b = Some b;
}.

Lemma snoc_split {A} (l : list A) x pre y suf :
  l ++ [x] = pre ++ y :: suf -> (suf = [] /\ y = x /\ pre = l) \/ exists suf', suf = suf' ++ [x] /\ l = pre ++ y :: suf'.
Proof.
  destruct suf as [|z suf _] using rev_ind; intros E.
  - apply app_inj_tail in E as [-> ->]. by left.
  - rewrite (app_comm_cons suf), app_assoc in E. apply app_inj_tail in E as [-> ->]. right. by exists suf.
Qed.

Lemma lanes_spaced_snoc bars c :
  lanes_spaced bars ->
  (forall pre b suf, bars = pre ++ b :: suf -> lane b = lane c -> Forall (fun d => lane d <> lane b) suf ->
     fleb (fadd (bar_end b) PACK_GAP) (bar_x c) = true) ->
  lanes_spaced (bars ++ [c]).
Proof.
  intros Hs Hc pre b mid d suf E Hl Hm. rewrite app_comm_cons, app_assoc in E.
  apply snoc_split in E as [(-> & -> & E)|(suf' & -> & E)].
  - eapply Hc; [by rewrite <- E|done|done].
  - eapply Hs; [by rewrite E, <- app_assoc|done|done].
Qed.

Lemma below_blockers_snoc ls bars c :
  below_blockers ls bars ->
  (forall l b, l ∈ ls -> bar_id c = blocked_id l -> b ∈ bars -> bar_id b = blocker_id l ->
     lane b <= lane c /\ (ranges_overlap b (Rect (bar_x c) (bar_width c)) = true -> lane b < lane c)) ->
  below_blockers ls (bars ++ [c]).
Proof.
  intros Hs Hc l pre d suf b Hl E Hd Hb Hbi. apply snoc_split in E as [(-> & -> & ->)|(suf' & -> & ->)].
  - by apply (Hc l).
  - by eapply Hs.
Qed.

(** One turn either keeps the bars and overflows the task, or appends a bar. *)
Lemma place_cases scale max mn p t :
  packing_ok max p -> (forall r, 0 <= mn r) -> st_id t ∉ bar_id <$> pk_bars p ->
  (exists p', place scale max mn p t = p' /\ pk_bars p' = pk_bars p /\ pk_overflow p' = pk_overflow p ++ [st_id t] /\
     packing_ok max p') \/
  exists p' bar, place scale max mn p t = p' /\ pk_bars p' = pk_bars p ++ [bar] /\ pk_overflow p' = pk_overflow p /\
     bar_id bar = st_id t /\ mn (Rect (bar_x bar) (bar_width bar)) <= lane bar /\ packing_ok max p'.
Proof.
  intros [Hl He Hs Hp] Hmn Hid. unfold place. destruct (bar_rect t scale) as [rect|] eqn:Er; [|left; eexists; by repeat split].
  destruct (first_free_spec (lane_end p) (rect_x rect) (mn rect) (Hmn rect)) as [Hge Hfree].
  set (L := first_free_lane _ _ _) in *. destruct (Z.leb_spec max L) as [Hm|Hm]; [left; eexists; by repeat split|].
  right. eexists _, _. split; [reflexivity|]. cbn [pk_bars pk_overflow]. specialize (Hmn rect).
  split_and!; [done|done|done|by destruct rect|]. split; cbn [pk_bars lane_end placed].
  - apply Forall_app. split; [done|]. repeat constructor; simpl; lia.
  - intros pre b suf E Hf. apply snoc_split in E as [(-> & -> & ->)|(suf' & -> & E)].
    + by apply (set_lane_lookup _ L); [lia|].
    + apply Forall_app in Hf as [Hf Hlast]. inversion Hlast as [|?? Hne _]; subst. simpl in Hne.
      pose proof (He pre b suf' E Hf) as Hb. pose proof (lookup_lt_Some _ _ _ Hb).
      assert (0 <= lane b < max) as Hlb by (rewrite Forall_forall in Hl; apply Hl; rewrite E; set_solver).
      rewrite (proj2 (set_lane_lookup (lane_end p) L _ _ ltac:(lia))) by lia. done.
  - apply lanes_spaced_snoc; [done|]. intros pre b suf E Hlb Hf. simpl in *. apply Hfree. rewrite <- Hlb. by eapply He.
  - intros b [Hb| ->%list_elem_of_singleton]%elem_of_app; [|by rewrite lookup_insert_eq].
    rewrite lookup_insert_ne; [by apply Hp|]. intros E. apply Hid. rewrite E. by apply list_elem_of_fmap_2.
Qed.

(** The lowest lane respects every placed predecessor. *)
Lemma min_lane_ge preds placed rect :
  0 <= min_lane_of preds placed rect /\
  forall pid pb, pid ∈ preds -> placed !! pid = Some pb ->
    lane pb <= min_lane_of preds placed rect /\ (ranges_overlap pb rect = true -> lane pb < min_lane_of preds placed rect).
Proof.
  unfold min_lane_of. set (f := fun (mn : Z) (pid : uuid) => match placed !! pid with Some pb => _ | None => mn end).
  assert (Hmono : forall l a, a <= foldl f a l).
  { induction l as [|x l IH]; intros a; cbn [foldl]; [lia|]. etrans; [|apply IH]. unfold f. repeat case_match; lia. }
  split; [apply Hmono|]. generalize 0 as a. induction preds as [|x preds IH]; intros a pid pb Hin Hp; [by apply elem_of_nil in Hin|].
  cbn [foldl]. apply elem_of_cons in Hin as [->|Hin]; [|by apply (IH (f a x) pid)].
  pose proof (Hmono preds (f a x)) as Hm. assert (lane pb <= f a x /\ (ranges_overlap pb rect = true -> lane pb < f a x)) as [Hf1 Hf2].
  { unfold f. rewrite Hp. destruct (ranges_overlap pb rect); split; lia || done. }
  split; [lia|]. intros Ho. specialize (Hf2 Ho). lia.
Qed.

Lemma preds_lookup ls l : l ∈ ls -> blocker_id l ∈ default [] (foldl add_pred ∅ ls !! blocked_id l).
Proof.
  induction ls as [|x ls IH] using rev_ind; [by intros ?%elem_of_nil|]. rewrite foldl_app. cbn [foldl].
  unfold add_pred at 1. intros [Hl| ->%list_elem_of_singleton]%elem_of_app.
  - specialize (IH Hl). destruct (decide (blocked_id x = blocked_id l)) as [->|Hne].
    + rewrite lookup_insert_eq. simpl. apply elem_of_app. by left.
    + by rewrite lookup_insert_ne.
  - rewrite lookup_insert_eq. simpl. apply elem_of_app. right. by left.
Qed.

(** The loop of [pack_flow]. *)
Lemma pack_fold scale max ls ts (preds := foldl add_pred ∅ ls) : forall p,
  NoDup (st_id <$> ts) -> (forall t, t ∈ ts -> st_id t ∉ bar_id <$> pk_bars p) ->
  packing_ok max p -> below_blockers ls (pk_bars p) ->
  let p' := foldl (fun p t => place scale max (min_lane_of (default [] (preds !! st_id t)) (placed p)) p t) p ts in
  packing_ok max p' /\ below_blockers ls (pk_bars p') /\
  (bar_id <$> pk_bars p') ++ pk_overflow p' ≡ₚ (bar_id <$> pk_bars p) ++ pk_overflow p ++ (st_id <$> ts).
Proof.
  induction ts as [|t ts IH]; intros p Hnd Hfresh Hok Hbel; cbn [foldl]; [by rewrite app_nil_r|].
  rewrite fmap_cons in Hnd. apply NoDup_cons in Hnd as [Hti Hnd].
  destruct (place_cases scale max (min_lane_of (default [] (preds !! st_id t)) (placed p)) p t Hok)
    as [(p' & -> & Eb & Eo & Hok')|(p' & bar & -> & Eb & Eo & Eid & Hmn & Hok')].
  - intros r. apply min_lane_ge.
  - apply Hfresh. by left.
  - destruct (IH p' Hnd) as (H1 & H2 & H3); [intros u Hu; rewrite Eb; apply Hfresh; by right|done|by rewrite Eb|].
    split_and!; [done|done|]. rewrite H3, Eb, Eo, fmap_cons. by rewrite <- app_assoc.
  - destruct (IH p' Hnd) as (H1 & H2 & H3).
    + intros u Hu. rewrite Eb, fmap_app, not_elem_of_app. split; [apply Hfresh; by right|]. simpl. rewrite Eid.
      intros Eu%list_elem_of_singleton. apply Hti. rewrite <- Eu. by apply list_elem_of_fmap_2.
    + done.
    + rewrite Eb. apply below_blockers_snoc; [done|]. intros l b Hl Hc Hb Hbi.
      assert (placed p !! blocker_id l = Some b) as Hpb by (rewrite <- Hbi; by apply Hok).
      pose proof (preds_lookup ls l Hl) as Hpl. rewrite <- Hc, Eid in Hpl.
      destruct (min_lane_ge (default [] (preds !! st_id t)) (placed p) (Rect (bar_x bar) (bar_width bar))) as [_ Hg].
      destruct (Hg _ _ Hpl Hpb) as [Hg1 Hg2]. split; [lia|]. intros Ho. specialize (Hg2 Ho). lia.
    + split_and!; [done|done|]. rewrite H3, Eb, Eo, fmap_cons, fmap_app. simpl. rewrite Eid, <- app_assoc. simpl.
      apply Permutation_app_head. apply Permutation_middle.
Qed.

Lemma pack_flow_facts tasks scale ls max bars overflow :
  NoDup (st_id <$> tasks) -> pack_flow tasks scale ls max = (bars, overflow) ->
  (bar_id <$> bars) ++ overflow ≡ₚ st_id <$> tasks /\ Forall (fun b => 0 <= lane b < max) bars /\
  lanes_spaced bars /\ below_blockers ls bars.
Proof.
  intros Hnd. unfold pack_flow. pose proof (order_perm tasks ls Hnd) as Hperm.
  intros [= <- <-]. destruct (pack_fold scale max ls (order_by_dependency tasks ls) pack_empty) as ([Hl _ Hs _] & Hb & Hp).
  - by rewrite Hperm.
  - intros t _. apply not_elem_of_nil.
  - split; simpl; [constructor|by intros []|by intros []|by intros ? ?%elem_of_nil].
  - intros l pre c suf b _ E. by destruct pre.
  - split_and!; [|done..]. rewrite Hp. simpl. by rewrite Hperm.
Qed.


(** Rows: one lane per bar, in packing order. *)
Lemma stack_fold scale ts : forall bars ov (k : Z),
  let '(bars', ov', k') := foldl (stack_one scale) (bars, ov, k) ts in
  (bar_id <$> bars') ++ ov' ≡ₚ (bar_id <$> bars) ++ ov ++ (st_id <$> ts).
Proof.
  induction ts as [|t ts IH]; intros bars ov k; cbn [foldl]; [by rewrite app_nil_r|].
  unfold stack_one at 2. destruct (bar_rect t scale) as [r|].
  - specialize (IH (bars ++ [make_bar t k r]) ov (k + 1)). destruct (foldl _ _ ts) as [[bars' ov'] k'].
    rewrite IH, fmap_app, fmap_cons. simpl. rewrite <- app_assoc. simpl.
    apply Permutation_app_head, Permutation_middle.
  - specialize (IH bars (ov ++ [st_id t]) k). destruct (foldl _ _ ts) as [[bars' ov'] k'].
    rewrite IH, fmap_cons. by rewrite <- app_assoc.
Qed.

Lemma stack_rows_perm tasks scale bars ov :
  stack_rows tasks scale = (bars, ov) -> (bar_id <$> bars) ++ ov ≡ₚ st_id <$> tasks.
Proof.
  unfold stack_rows. pose proof (stack_fold scale (sort_for_packing tasks) [] [] 0) as Hs.
  destruct (foldl _ _ _) as [[b o] k]. simpl. intros [= <- <-]. rewrite Hs. simpl.
  unfold sort_for_packing. by rewrite sort_by_perm.
Qed.

End packing.

Definition w_scale : TimeScale := make_scale (bs "2026-09-01") (bs "2026-09-30") Day None.

Definition w_packed : list LaidOutBar * list uuid := pack_flow w_tasks w_scale [Link (w_uuid 1) (w_uuid 2) Fs 0] 8.

