(* ===== verification/GanttTheorems.v ===== *)
(** * Theorems about the Gantt response *)

From stdpp Require Import base list numbers strings gmap sorting.
From Stdlib Require Import ZArith Lia.
From S2P Require Import Prelude Text Uuid Chrono ChronoInstance Float Dependency GanttScale GanttLayout GanttOrder GanttPack GanttPrepare.

Section links.
Context `{UuidLib}.

Definition link_pair (l : GanttLinkInput) : uuid * uuid := (blocker_id l, blocked_id l).

(** The pair order as a comparison of numbers. *)
Lemma link_pair_order_le a b :
  link_pair_order a b <> Gt <->
  as_u128 (blocker_id a) < as_u128 (blocker_id b) \/
  as_u128 (blocker_id a) = as_u128 (blocker_id b) /\ as_u128 (blocked_id a) <= as_u128 (blocked_id b).
Proof.
  unfold link_pair_order, uuid_cmp.
  destruct (Z.compare_spec (as_u128 (blocker_id a)) (as_u128 (blocker_id b))).
  - rewrite Z.compare_gt_iff. lia.
  - split; [lia|done].
  - split; [done|lia].
Qed.

#[export] Instance link_pair_ordered : Ordered link_pair_order.
Proof.
  split.
  - intros a b Hgt. apply link_pair_order_le. assert (~ (link_pair_order a b <> Gt)) as Hn by (by rewrite Hgt; intros []).
    rewrite link_pair_order_le in Hn. lia.
  - intros a b c. rewrite !link_pair_order_le. lia.
Qed.

Lemma link_pair_antisym `{!UuidLaws H} a b :
  link_pair_order a b <> Gt -> link_pair_order b a <> Gt -> link_pair a = link_pair b.
Proof.
  rewrite !link_pair_order_le. intros. unfold link_pair. f_equal; apply as_u128_inj; lia.
Qed.

(** Sorting does not depend on the order of the rows. *)
Lemma sort_links_perm `{!UuidLaws H} ls ls' :
  NoDup (link_pair <$> ls) -> ls ≡ₚ ls' -> sort_by link_pair_order ls = sort_by link_pair_order ls'.
Proof.
  intros Hnd Hp. apply (StronglySorted_unique_strong (cmp_le link_pair_order));
    [|apply (sort_by_sorted link_pair_order)|apply (sort_by_sorted link_pair_order)|by rewrite !sort_by_perm].
  intros a b. rewrite !sort_by_perm, <- Hp. intros Ha Hb Hab Hba.
  apply link_pair_antisym in Hba as Heq; [|done]. apply list_elem_of_lookup in Ha as [i Hi]. apply list_elem_of_lookup in Hb as [j Hj].
  assert (i = j); [|naive_solver]. apply (NoDup_lookup (link_pair <$> ls) i j (link_pair a)); [done| |];
    rewrite list_lookup_fmap; [by rewrite Hi|rewrite Hj; simpl; congruence].
Qed.

Lemma cap_links_length ls : length (cap_links ls).1 = Nat.min MAX_DISPLAY_PATHS (length ls) /\ (cap_links ls).2 = length ls.
Proof.
  unfold cap_links. destruct (Nat.ltb_spec MAX_DISPLAY_PATHS (length ls)); cbn [fst snd]; [|lia].
  rewrite length_take, sort_by_length. lia.
Qed.

Lemma cap_links_sub ls l : l ∈ (cap_links ls).1 -> l ∈ ls.
Proof.
  unfold cap_links. destruct (_ <? _)%nat; cbn [fst]; [|done]. intros Hl.
  rewrite <- (sort_by_perm link_pair_order ls). eapply elem_of_subseteq; [|exact Hl].
  intros x Hx. rewrite <- (take_drop MAX_DISPLAY_PATHS (sort_by link_pair_order ls)). apply elem_of_app. by left.
Qed.

(** Capping the links.  Up to 2,048 links are kept as they are.  Of more,
    exactly the 2,048 with the lowest (blocker, blocked) pairs are kept, in
    that order, so the result does not depend on the order in which the query
    returned the rows. *)
Theorem cap_links_exact `{!UuidLaws H} (ls : list GanttLinkInput) :
  NoDup (link_pair <$> ls) ->
  (cap_links ls).2 = length ls /\ length (cap_links ls).1 = Nat.min MAX_DISPLAY_PATHS (length ls) /\
  if decide (length ls <= MAX_DISPLAY_PATHS)%nat then (cap_links ls).1 = ls
  else (exists dropped, (cap_links ls).1 ++ dropped ≡ₚ ls /\ StronglySorted (cmp_le link_pair_order) (cap_links ls).1 /\
          forall a b, a ∈ (cap_links ls).1 -> b ∈ dropped -> link_pair_order a b <> Gt) /\
       forall ls', ls ≡ₚ ls' -> cap_links ls' = cap_links ls.
Proof.
  intros Hnd. destruct (cap_links_length ls) as [Hl Ht]. split_and!; [done|done|].
  case_decide as Hd; unfold cap_links; [by rewrite (proj2 (Nat.ltb_ge _ _)) by lia|].
  rewrite (proj2 (Nat.ltb_lt _ _)) by lia. cbn [fst]. split.
  - pose proof (sort_by_sorted link_pair_order ls) as Hs.
    rewrite <- (take_drop MAX_DISPLAY_PATHS (sort_by link_pair_order ls)) in Hs.
    exists (drop MAX_DISPLAY_PATHS (sort_by link_pair_order ls)). rewrite take_drop. split_and!; [apply sort_by_perm| |].
    + by eapply StronglySorted_app_1_l.
    + intros a b Ha Hb. eapply (StronglySorted_app_1_elem_of (cmp_le link_pair_order)); [exact Hs|done|done].
  - intros ls' Hp. apply Permutation_length in Hp as Hlen. rewrite (proj2 (Nat.ltb_lt _ _)) by lia.
    by rewrite (sort_links_perm ls ls'), Hlen.
Qed.

End links.

Section prepare.
Context `{UuidLib} `{Chrono} `{SetOrder}.

Lemma collect_some {A B} (f : A -> uuid * B) (l : list A) k :
  k ∈ (fun a => (f a).1) <$> l -> exists a, a ∈ l /\ (f a).1 = k /\ collect_map f l !! k = Some (f a).2.
Proof.
  unfold collect_map. revert k. induction l as [|x l IH] using rev_ind; intros k; [by intros ?%elem_of_nil|].
  rewrite foldl_app. cbn [foldl]. destruct (decide ((f x).1 = k)) as [<-|Hne].
  - intros _. exists x. rewrite lookup_insert_eq. split_and!; [|done|done]. apply elem_of_app. right. by left.
  - rewrite fmap_app. intros [Hk|Hk]%elem_of_app; [|apply list_elem_of_singleton in Hk; congruence].
    destruct (IH k Hk) as (a & Ha & Ef & Em). exists a. rewrite lookup_insert_ne by done.
    split_and!; [apply elem_of_app; by left|done|done].
Qed.

(** Every shown link has both bars, so every one has a path. *)
Lemma link_paths_length ls (bars : list LaidOutBar) h px :
  (forall l, l ∈ ls -> blocker_id l ∈ bar_id <$> bars /\ blocked_id l ∈ bar_id <$> bars) ->
  length (link_paths ls bars h px) = length ls.
Proof.
  intros Hall. unfold link_paths. cbv zeta.
  assert (Hd : forall items used, length (draw_all items bars h used) = length items).
  { induction items as [|[[from to] [[[x1 x2] y1] y2]] items IH]; intros used; [done|]. cbn [draw_all].
    destruct (elbow from to x1 x2 y1 y2 bars h used) as [pts used']. simpl. by rewrite IH. }
  rewrite Hd. set (m := collect_map _ bars). induction ls as [|l ls IH]; [done|].
  destruct (Hall l ltac:(by left)) as [Hf Ht].
  destruct (collect_some (fun b => (bar_id b, b)) bars _ Hf) as (f & _ & _ & Ef).
  destruct (collect_some (fun b => (bar_id b, b)) bars _ Ht) as (t & _ & _ & Et). fold m in Ef, Et.
  cbn [omap list_omap]. unfold link_ends at 1. rewrite Ef, Et.
  destruct (match link_type l with Fs => _ | Ss => _ | Ff => _ end) as [x1 x2]. simpl. f_equal.
  apply IH. intros l' Hl'. apply Hall. by right.
Qed.

Lemma elem_of_links_among ids ls l : l ∈ links_among ids ls <-> (blocker_id l ∈ ids /\ blocked_id l ∈ ids) /\ l ∈ ls.
Proof. unfold links_among. by rewrite list_elem_of_filter. Qed.

(** More endpoints allow more links. *)
Lemma links_among_mono (ids ids' : gset uuid) ls :
  (forall n, n ∈ ids -> n ∈ ids') -> links_among ids ls `sublist_of` links_among ids' ls.
Proof.
  intros Hsub. unfold links_among. induction ls as [|l ls IH]; [done|]. rewrite !filter_cons.
  destruct (decide (blocker_id l ∈ ids /\ blocked_id l ∈ ids)) as [[? ?]|].
  - rewrite decide_True by auto. by apply sublist_skip.
  - case_decide; [by apply sublist_cons|done].
Qed.

(** The index map of the items. *)
Lemma item_index_lookup (scheduled : list ScheduledTask) n :
  n ∈ st_id <$> scheduled ->
  exists i, collect_map (fun e : nat * ScheduledTask => (st_id e.2, Z.of_nat e.1)) (imap pair scheduled) !! n = Some i /\
    0 <= i < len scheduled.
Proof.
  intros Hn. destruct (collect_some (fun e : nat * ScheduledTask => (st_id e.2, Z.of_nat e.1)) (imap pair scheduled) n) as ([i t] & Hin & _ & ->).
  - apply list_elem_of_fmap in Hn as (t & -> & Ht). apply list_elem_of_lookup in Ht as [i Hi].
    apply list_elem_of_fmap. exists (i, t). split; [done|]. apply list_elem_of_lookup. exists i. by rewrite list_lookup_imap, Hi.
  - exists (Z.of_nat i). split; [done|]. apply list_elem_of_lookup in Hin as [j Hj]. rewrite list_lookup_imap in Hj.
    destruct (scheduled !! j) as [u|] eqn:Eu; [|done]. injection Hj as -> ->. apply lookup_lt_Some in Eu. unfold len. simpl. lia.
Qed.

(** What the two packers have in common. *)
Lemma packed_perm (input : PrepareInput) scheduled scale bars overflow :
  NoDup (st_id <$> scheduled) ->
  match pack input with
  | Overlap => pack_flow scheduled scale (links input) (default i32_max (max_lanes input))
  | Rows => stack_rows scheduled scale
  end = (bars, overflow) ->
  (bar_id <$> bars) ++ overflow ≡ₚ st_id <$> scheduled.
Proof.
  intros Hnd. destruct (pack input); intros E; [by eapply stack_rows_perm|].
  by apply pack_flow_facts in E as [? _].
Qed.

Lemma scheduled_ids (l : list GanttTaskInput) : NoDup (ti_id <$> l) -> NoDup (st_id <$> (schedule_tasks l).1).
Proof.
  rewrite schedule_tasks_eq. cbn [fst]. intros Hnd. eapply sublist_NoDup; [exact Hnd|].
  clear Hnd. induction l as [|t l IH]; [done|]. cbn [omap list_omap]. rewrite fmap_cons.
  destruct (schedule_task t) as [st|] eqn:Es.
  - rewrite fmap_cons. assert (st_id st = ti_id t) as ->; [|by apply sublist_skip].
    revert Es. unfold schedule_task. repeat case_match; try done; try (by intros [= <-]).
    intros (s & _ & Hs)%bind_Some. apply bind_Some in Hs as (e & _ & Hs). case_match; by injection Hs as <-.
  - by apply sublist_cons.
Qed.

Lemma schedule_lengths (l : list GanttTaskInput) :
  (length (schedule_tasks l).1 + length (schedule_tasks l).2 = length l)%nat.
Proof.
  rewrite schedule_tasks_eq. cbn [fst snd]. induction l as [|t l IH]; [done|]. cbn [omap list_omap length].
  destruct (schedule_task t); simpl; lia.
Qed.

(** The compact rows of the shown paths. *)
Lemma rows_total scheduled shown (points : list (list f64)) :
  length points = length shown ->
  (forall l, l ∈ shown -> blocker_id l ∈ st_id <$> scheduled /\ blocked_id l ∈ st_id <$> scheduled) ->
  let item_index := collect_map (fun e : nat * ScheduledTask => (st_id e.2, Z.of_nat e.1)) (imap pair scheduled) in
  exists rows, mapM (fun e : nat * list f64 => link ← shown !! e.1; path_row item_index link e.2) (imap pair points) = Some rows /\
    length rows = length shown /\
    Forall (fun r => exists i j pts, r = i :: j :: pts /\ 0 <= i < len scheduled /\ 0 <= j < len scheduled) rows.
Proof.
  intros Hlen Hin item_index. set (f := fun e : nat * list f64 => link ← shown !! e.1; path_row item_index link e.2).
  assert (Hrow : forall i pts, points !! i = Some pts -> exists r, f (i, pts) = Some r /\
    exists a b rest, r = a :: b :: rest /\ 0 <= a < len scheduled /\ 0 <= b < len scheduled).
  { intros i pts Hi. destruct (lookup_lt_is_Some_2 shown i) as [l Hl]; [apply lookup_lt_Some in Hi; lia|].
    destruct (Hin l) as [H3 H4]; [by apply list_elem_of_lookup_2 in Hl|].
    destruct (item_index_lookup scheduled _ H3) as (a & Ea & Ha). destruct (item_index_lookup scheduled _ H4) as (b & Eb & Hb).
    unfold f, path_row. cbn [fst snd]. rewrite Hl. cbn [mbind option_bind]. fold item_index in Ea, Eb. rewrite Ea. cbn [mbind option_bind]. rewrite Eb.
    cbn [mbind option_bind]. eexists. split; [reflexivity|]. by eexists a, b, _. }
  destruct (mapM_is_Some_2 f (imap pair points)) as [rows Hrows].
  { apply Forall_forall. intros e He. apply list_elem_of_lookup in He as [i Hi]. rewrite list_lookup_imap in Hi.
    destruct (points !! i) as [pts|] eqn:Ep; [|done]. injection Hi as <-. destruct (Hrow i pts Ep) as (r & Er & _). by exists r. }
  exists rows. split; [done|]. apply length_mapM in Hrows as Hlr. rewrite length_imap in Hlr. split; [lia|].
  apply mapM_Some in Hrows. apply Forall_forall. intros r Hr. apply list_elem_of_lookup in Hr as [i Hi].
  destruct (Forall2_lookup_r _ _ _ _ _ Hrows Hi) as (e & He & Ef). rewrite list_lookup_imap in He.
  destruct (points !! i) as [pts|] eqn:Ep; [|done]. injection He as <-. destruct (Hrow i pts Ep) as (r' & Er & Hr').
  rewrite Er in Ef. by injection Ef as <-.
Qed.

(** Preparing the response never fails: for tasks with distinct ids every
    index it unwraps exists.  Every task is an item or dropped, every item has
    a bar or is in the overflow, the link and path lists are capped at 2,048
    with their totals reported before the cap, and every path row starts with
    two valid item indices. *)
Theorem prepare_total (input : PrepareInput) :
  NoDup (ti_id <$> tasks input) ->
  exists o, prepare_gantt input = Some o /\
    (length (o_items o) + length (o_dropped o) = length (tasks input))%nat /\
    (length (o_bars o) + length (o_overflow o) = length (o_items o))%nat /\
    len (o_links o) = Z.min 2048 (o_link_total o) /\ len (o_paths o) = Z.min 2048 (o_path_total o) /\
    o_path_total o <= o_link_total o /\
    Forall (fun r => exists i j pts, r = i :: j :: pts /\ 0 <= i < len (o_items o) /\ 0 <= j < len (o_items o)) (o_paths o).
Proof.
  intros Hnd. unfold prepare_gantt. pose proof (scheduled_ids _ Hnd) as Hsd. pose proof (schedule_lengths (tasks input)) as Hsl.
  destruct (schedule_tasks (tasks input)) as [scheduled dropped]. cbn [fst snd] in *.
  set (scale := make_scale _ _ _ _). cbv zeta. set (packed := match pack input with Rows => _ | Overlap => _ end).
  pose proof (packed_perm input scheduled scale packed.1 packed.2 Hsd (surjective_pairing packed)) as Hpk.
  destruct packed as [bars overflow]. cbn [fst snd] in *.
  set (item_ids := list_to_set (st_id <$> scheduled) : gset uuid). set (bar_ids := list_to_set (bar_id <$> bars) : gset uuid).
  destruct (cap_links_length (links_among item_ids (links input))) as [Hil Hit].
  destruct (cap_links (links_among item_ids (links input))) as [item_links link_total].
  pose proof (cap_links_sub (links_among bar_ids (links input))) as Hsub.
  destruct (cap_links_length (links_among bar_ids (links input))) as [Hpl Hpt].
  destruct (cap_links (links_among bar_ids (links input))) as [shown path_total]. cbn [fst snd] in *.
  assert (Hbars : forall n, n ∈ bar_id <$> bars -> n ∈ st_id <$> scheduled) by (intros n Hn; rewrite <- Hpk; apply elem_of_app; by left).
  assert (Hshown : forall l, l ∈ shown -> blocker_id l ∈ bar_id <$> bars /\ blocked_id l ∈ bar_id <$> bars).
  { intros l [[H3 H4] _]%Hsub%elem_of_links_among. by apply elem_of_list_to_set in H3, H4. }
  pose proof (link_paths_length shown bars (lane_height input) (px_per_day scale) Hshown) as Hpaths.
  destruct (rows_total scheduled shown (link_paths shown bars (lane_height input) (px_per_day scale)) Hpaths) as (rows & -> & Hrl & Hrows).
  { intros l Hl. apply Hshown in Hl as [? ?]. split; by apply Hbars. }
  eexists. split; [reflexivity|]. cbn [o_items o_dropped o_bars o_overflow o_links o_link_total o_paths o_path_total].
  assert (Hitems : length (merge_items scheduled (item_meta input)) = length scheduled) by (unfold merge_items; apply length_fmap).
  apply Permutation_length in Hpk. rewrite length_app, !length_fmap in Hpk.
  assert (Hle : (length (links_among bar_ids (links input)) <= length (links_among item_ids (links input)))%nat).
  { apply submseteq_length, sublist_submseteq. apply links_among_mono. intros n. unfold bar_ids, item_ids.
    rewrite !elem_of_list_to_set. apply Hbars. }
  unfold MAX_DISPLAY_PATHS, len in *. rewrite !Hitems, !length_fmap, !sort_by_length, ?length_fmap.
  split_and!; lia || done.
Qed.

End prepare.

(** ** Witnesses *)

Definition w_links : list GanttLinkInput := [Link (w_uuid 1) (w_uuid 2) Fs 0; Link (w_uuid 2) (w_uuid 3) Ss 1].

Lemma cap_links_exact_witness : (cap_links w_links).2 = 2%nat.
Proof. refine (proj1 (cap_links_exact w_links _)). by_decide. Defined.

#[export] Instance elements_order : SetOrder := {| iter_holidays := elements; iter_holidays_perm s := Permutation_refl _ |}.

Definition w_input (z : Z) (start due : string) : GanttTaskInput :=
  TaskInput (w_uuid z) (bs "t") (Some (bs start)) (Some (bs due)) false.

Definition w_prepare : PrepareInput :=
  Input [w_input 1 "2026-09-01" "2026-09-03"; w_input 2 "2026-09-02" "2026-09-04"; w_input 3 "2026-09-07" "2026-09-01"]
    w_links [bs "2026-09-02"] (bs "2026-09-01") (bs "2026-09-30") Day None 36 Overlap (Some 5) false [] true.

Lemma prepare_total_witness : exists o, prepare_gantt w_prepare = Some o.
Proof.
  destruct (prepare_total w_prepare ltac:(by_decide)) as (o & Ho & _). by exists o.
Defined.
