(* ===== verification/Chunk.v ===== *)
(** * Search chunks ([src/search/chunk.rs])

    Documents are indexed in overlapping chunks measured in UTF-16 units.  The
    model keeps the code's loops over unit offsets; both run on fuel, and
    [chunk_exact] shows that the fuel given by the length is enough. *)

From stdpp Require Import base list numbers strings gmap.
From Stdlib Require Import ZArith Lia.
From S2P Require Import Prelude Text.

(** ** [String::from_utf16_lossy] *)

Definition is_high (u : Z) : bool := in_range 0xD800 0xDBFF u.
Definition is_low (u : Z) : bool := in_range 0xDC00 0xDFFF u.

(** The characters of a unit sequence; unpaired surrogates become U+FFFD. *)
Fixpoint decode_utf16_lossy (l : list Z) : list Z :=
  match l with
  | [] => []
  | u :: t =>
    if is_high u then
      match t with
      | v :: t' =>
        if is_low v then 0x10000 + (u - 0xD800) * 1024 + (v - 0xDC00) :: decode_utf16_lossy t'
        else 0xFFFD :: decode_utf16_lossy t
      | [] => [0xFFFD]
      end
    else if is_low u then 0xFFFD :: decode_utf16_lossy t
    else u :: decode_utf16_lossy t
  end.

(** [char::encode_utf8]. *)
Definition encode_utf8 (c : Z) : str :=
  if c <? 0x80 then [z2b c]
  else if c <? 0x800 then [z2b (192 + c / 64); z2b (128 + c mod 64)]
  else if c <? 0x10000 then [z2b (224 + c / 4096); z2b (128 + c / 64 mod 64); z2b (128 + c mod 64)]
  else [z2b (240 + c / 262144); z2b (128 + c / 4096 mod 64); z2b (128 + c / 64 mod 64); z2b (128 + c mod 64)].

Definition from_utf16_lossy (l : list Z) : str := concat (encode_utf8 <$> decode_utf16_lossy l).

(** ** Chunks *)

Definition TARGET : Z := 1500.
Definition MIN : Z := 800.
Definition MAX : Z := 2000.
Definition OVERLAP : Z := 150.

(** [as i32]. *)
Definition as_i32 (z : Z) : Z := wrap 32 (z + 2 ^ 31) - 2 ^ 31.

Record TextChunk := {
  chunk_no : Z;
  start : Z;
  end_ : Z;
  text : str;
}.

#[export] Instance TextChunk_eq_dec : EqDecision TextChunk.
Proof. solve_decision. Defined.

Definition is_js_space (unit : Z) : bool :=
  bool_decide (unit ∈ [0x09; 0x0a; 0x0b; 0x0c; 0x0d; 0x20; 0xa0; 0x1680; 0x2028; 0x2029; 0x202f; 0x205f; 0x3000; 0xfeff])
  || in_range 0x2000 0x200a unit.

Section units.
Context (units : list Z).

(** [units[i]], read where the code has checked the bound. *)
Definition unit_at (i : Z) : Z := default 0 (units !! Z.to_nat i).

(** [while j < units.len() && p(units[j]) { j += 1 }]. *)
Fixpoint skip_while (p : Z -> bool) (fuel : nat) (j : Z) : Z :=
  match fuel with
  | O => j
  | S f => if (j <? len units) && p (unit_at j) then skip_while p f (j + 1) else j
  end.

Definition skip (p : Z -> bool) (j : Z) : Z := skip_while p (length units) j.

Definition is_blank (u : Z) : bool := (u =? 0x20) || (u =? 0x09).

Fixpoint boundaries_loop (fuel : nat) (i : Z) (out : list Z) : option (list Z) :=
  if i <? len units then
    match fuel with
    | O => None
    | S f =>
      if unit_at i =? 0x0c then
        let j := skip is_js_space (i + 1) in
        boundaries_loop f (Z.max j (i + 1)) (out ++ [j])
      else if unit_at i =? 0x0a then
        let j := skip is_blank (i + 1) in
        if (j <? len units) && (unit_at j =? 0x0a) then
          let j := skip is_js_space (j + 1) in
          boundaries_loop f j (out ++ [j])
        else boundaries_loop f (i + 1) out
      else boundaries_loop f (i + 1) out
    end
  else Some out.

Definition boundaries : option (list Z) := boundaries_loop (length units) 0 [].

(** The end of the chunk that starts at [start]. *)
Definition chunk_end (bounds : list Z) (start : Z) : Z :=
  if MAX <? len units - start then
    let goal := start + TARGET in
    let near := filter (fun b => start + MIN <= b /\ b <= start + MAX) bounds in
    match near with
    | [] => Z.min goal (len units)
    | _ => default goal (min_by_key (fun b => Z.abs (b - goal)) near)
    end
  else len units.

Definition slice (a b : Z) : list Z := take (Z.to_nat (b - a)) (drop (Z.to_nat a) units).

Fixpoint chunk_loop (bounds : list Z) (fuel : nat) (start : Z) (chunks : list TextChunk) : option (list TextChunk) :=
  if start <? len units then
    match fuel with
    | O => None
    | S f =>
      let e := chunk_end bounds start in
      let chunks := chunks ++ [{| chunk_no := as_i32 (len chunks); start := as_i32 start; end_ := as_i32 e;
                                  text := from_utf16_lossy (slice start e) |}] in
      if len units <=? e then Some chunks
      else chunk_loop bounds f (Z.max 0 (e - OVERLAP)) chunks
    end
  else Some chunks.

End units.

Definition chunk_plain_text (t : str) : option (list TextChunk) :=
  let units := encode_utf16 t in
  match units with
  | [] => Some []
  | _ =>
    bounds ← boundaries units;
    chunk_loop units bounds (length units) 0 []
  end.

(** ** Boundaries *)

Section facts.
Context (units : list Z).
Abbreviation n := (len units).
Abbreviation at_ := (unit_at units).

Lemma skip_while_spec p fuel j :
  0 <= j -> n - j <= Z.of_nat fuel ->
  let r := skip_while units p fuel j in
  j <= r /\ r <= Z.max j n /\ (forall k, j <= k < r -> p (at_ k) = true) /\ (r < n -> p (at_ r) = false).
Proof.
  revert j. induction fuel as [|fuel IH]; intros j Hj Hf; cbn zeta; cbn [skip_while].
  - split_and!; intros; lia.
  - destruct ((j <? n) && p (at_ j)) eqn:E.
    + apply andb_true_iff in E as [Hn%Z.ltb_lt Hp]. destruct (IH (j + 1)) as (H1 & H2 & H3 & H4); [lia..|].
      split; [lia|]. split; [lia|]. split; [|done]. intros k Hk. destruct (decide (k = j)) as [->|]; [done|]. apply H3. lia.
    + split; [lia|]. split; [lia|]. split; [intros; lia|]. intros Hn. apply Z.ltb_lt in Hn. by rewrite Hn in E.
Qed.

Lemma skip_spec p j :
  0 <= j ->
  j <= skip units p j /\ skip units p j <= Z.max j n /\ (forall k, j <= k < skip units p j -> p (at_ k) = true) /\
  (skip units p j < n -> p (at_ (skip units p j)) = false).
Proof. intros. apply skip_while_spec; [done|]. unfold len in *. lia. Qed.

(** A chunk boundary: the first unit that is not white space after a page
    break, or after a newline, with nothing but white space in between. *)
Definition is_boundary (b : Z) : Prop :=
  0 < b <= n /\ (b < n -> is_js_space (at_ b) = false) /\
  exists i, 0 <= i < b /\ (at_ i = 0x0c \/ at_ i = 0x0a) /\ forall k, i < k < b -> is_js_space (at_ k) = true.

Lemma page_break_boundary i : 0 <= i < n -> at_ i = 0x0c -> is_boundary (skip units is_js_space (i + 1)).
Proof.
  intros Hi Hc. destruct (skip_spec is_js_space (i + 1)) as (H1 & H2 & H3 & H4); [lia|].
  split; [lia|]. split; [done|]. exists i. split; [lia|]. split; [auto|]. intros k Hk. apply H3. lia.
Qed.

Lemma blank_line_boundary i :
  0 <= i < n -> at_ i = 0x0a -> skip units is_blank (i + 1) < n -> at_ (skip units is_blank (i + 1)) = 0x0a ->
  is_boundary (skip units is_js_space (skip units is_blank (i + 1) + 1)).
Proof.
  intros Hi Hc Hj Hn. destruct (skip_spec is_blank (i + 1)) as (H1 & _ & H3 & _); [lia|].
  set (j := skip units is_blank (i + 1)) in *.
  destruct (skip_spec is_js_space (j + 1)) as (G1 & G2 & G3 & G4); [lia|].
  split; [lia|]. split; [done|]. exists i. split; [lia|]. split; [auto|]. intros k Hk.
  destruct (decide (k < j)) as [Hkj|]; [|destruct (decide (k = j)) as [->|]; [by rewrite Hn|apply G3; lia]].
  specialize (H3 k ltac:(lia)). unfold is_blank in H3. apply orb_true_iff in H3 as [E|E]; bool_to_prop; by rewrite E.
Qed.

(** A place the text may be cut after: a page break, or a newline that only
    blanks separate from the next newline. *)
Definition break_at (i : Z) : Prop :=
  0 <= i < n /\
  (at_ i = 0x0c \/
   at_ i = 0x0a /\ exists j, i < j < n /\ at_ j = 0x0a /\ forall k, i < k < j -> is_blank (at_ k) = true).

(** [b] is where the white space after [i] ends. *)
Definition follows (i b : Z) : Prop := i < b /\ forall k, i < k < b -> is_js_space (at_ k) = true.

(** The boundaries found when the scan is at [i]. *)
Definition found (i : Z) (out : list Z) : Prop :=
  Forall is_boundary out /\ forall k, k < i -> break_at k -> exists b, b ∈ out /\ follows k b.

Lemma found_skip i out : found i out -> ~ break_at i -> found (i + 1) out.
Proof.
  intros [Ho Hf] Hb. split; [done|]. intros k Hk Hbk. destruct (decide (k = i)) as [->|]; [done|].
  apply Hf; [lia|done].
Qed.

Lemma found_push i j out : found i out -> is_boundary j -> follows i j -> found j (out ++ [j]).
Proof.
  intros [Ho Hf] Hj [Hij Hw]. split; [apply Forall_app; split; [done|by apply Forall_singleton]|].
  intros k Hk Hb. destruct (decide (k < i)) as [Hki|].
  - destruct (Hf k Hki Hb) as (b & Hin & Hfo). exists b. split; [apply elem_of_app; by left|done].
  - exists j. split; [apply elem_of_app; right; by left|]. split; [done|]. intros m Hm. apply Hw. lia.
Qed.

Lemma page_break_follows i : 0 <= i -> follows i (skip units is_js_space (i + 1)).
Proof.
  intros Hi. destruct (skip_spec is_js_space (i + 1)) as (H1 & _ & H3 & _); [lia|].
  split; [lia|]. intros k Hk. apply H3. lia.
Qed.

Lemma blank_line_follows i :
  0 <= i -> at_ (skip units is_blank (i + 1)) = 0x0a -> follows i (skip units is_js_space (skip units is_blank (i + 1) + 1)).
Proof.
  intros Hi Hn. destruct (skip_spec is_blank (i + 1)) as (H1 & _ & H3 & _); [lia|].
  set (j := skip units is_blank (i + 1)) in *.
  destruct (skip_spec is_js_space (j + 1)) as (G1 & _ & G3 & _); [lia|].
  split; [lia|]. intros k Hk.
  destruct (decide (k < j)) as [Hkj|]; [|destruct (decide (k = j)) as [->|]; [by rewrite Hn|apply G3; lia]].
  specialize (H3 k ltac:(lia)). unfold is_blank in H3. apply orb_true_iff in H3 as [E|E]; bool_to_prop; by rewrite E.
Qed.

(** The scan of blanks stops at the second newline of a blank line. *)
Lemma blank_scan i j :
  0 <= i -> i < j < n -> at_ j = 0x0a -> (forall k, i < k < j -> is_blank (at_ k) = true) -> skip units is_blank (i + 1) = j.
Proof.
  intros Hi Hj Hn Hb. destruct (skip_spec is_blank (i + 1)) as (H1 & H2 & H3 & H4); [lia|].
  set (r := skip units is_blank (i + 1)) in *. destruct (Z.lt_trichotomy r j) as [Hlt|[->|Hlt]]; [|done|].
  - rewrite (Hb r) in H4 by lia. specialize (H4 ltac:(lia)). done.
  - specialize (H3 j ltac:(lia)). by rewrite Hn in H3.
Qed.

Lemma boundaries_loop_spec fuel i out :
  0 <= i -> n - i <= Z.of_nat fuel -> found i out ->
  exists l, boundaries_loop units fuel i out = Some l /\ found n l.
Proof.
  revert i out. induction fuel as [|fuel IH]; intros i out Hi Hf Ho; cbn [boundaries_loop];
    (destruct (Z.ltb_spec i n) as [Hin|]; [|exists out; split; [done|]; destruct Ho; split; [done|];
       intros k Hk Hb; auto with lia]); [lia|].
  assert (Hnext : ~ break_at i -> exists l, boundaries_loop units fuel (i + 1) out = Some l /\ found n l)
    by (intros; apply IH; [lia..|by apply found_skip]).
  destruct (Z.eqb_spec (at_ i) 0x0c) as [Hc|Hc].
  { pose proof (page_break_follows i Hi) as Hfo. pose proof Hfo as [? _]. cbn zeta. rewrite Z.max_l by lia.
    apply IH; [lia..|]. apply (found_push i); try done. by apply page_break_boundary. }
  destruct (Z.eqb_spec (at_ i) 0x0a) as [Hl|Hl]; [|apply Hnext; intros [_ [?|[? _]]]; done]. cbn zeta.
  destruct (_ && _) eqn:E.
  - bool_to_prop. pose proof (blank_line_follows i Hi ltac:(done)) as Hfo. pose proof Hfo as [? _].
    apply IH; [lia..|]. apply (found_push i); try done. by apply blank_line_boundary.
  - apply Hnext. intros [_ [?|(_ & j & Hj & Hn & Hb)]]; [done|]. rewrite (blank_scan i j) in E by done.
    rewrite Hn, (proj2 (Z.ltb_lt _ _)) in E by lia. done.
Qed.

(** ** Chunks *)

Context (bounds : list Z).

(** Where a chunk that starts at [s], with more than [MAX] units left, ends:
    at the boundary of its window that is closest to the target, or at the
    target when the window has no boundary. *)
Definition good_end (s e : Z) : Prop :=
  s + MIN <= e <= s + MAX /\
  ((e ∈ bounds /\ forall b, b ∈ bounds -> s + MIN <= b <= s + MAX -> Z.abs (e - (s + TARGET)) <= Z.abs (b - (s + TARGET)))
   \/ (e = s + TARGET /\ forall b, b ∈ bounds -> ~ (s + MIN <= b <= s + MAX))).

Lemma chunk_end_far s : MAX < n - s -> good_end s (chunk_end units bounds s).
Proof.
  intros Hm. unfold chunk_end. rewrite (proj2 (Z.ltb_lt _ _)) by done. cbn zeta.
  set (near := filter _ bounds).
  assert (Hin : forall b, b ∈ near <-> b ∈ bounds /\ s + MIN <= b <= s + MAX)
    by (intros b; unfold near; rewrite list_elem_of_filter; tauto).
  destruct near as [|x near'] eqn:E; [|rewrite <- E in *].
  - rewrite Z.min_l by (unfold MAX, TARGET in *; lia). split; [unfold MIN, MAX, TARGET; lia|]. right. split; [done|].
    intros b Hb Hw. by apply (not_elem_of_nil b), Hin.
  - destruct (min_by_key _ near) as [e|] eqn:Hmin.
    + apply min_by_key_Some in Hmin as [He Hle]. apply Hin in He as [He Hw]. cbn. split; [done|]. left.
      split; [done|]. intros b Hb Hwb. by apply (Hle b), Hin.
    + apply min_by_key_None in Hmin. congruence.
Qed.

Lemma chunk_end_near s : n - s <= MAX -> chunk_end units bounds s = n.
Proof. intros. unfold chunk_end. by rewrite (proj2 (Z.ltb_ge _ _)). Qed.

Definition chunk_of (k s e : Z) : TextChunk :=
  {| chunk_no := k; start := s; end_ := e; text := from_utf16_lossy (slice units s e) |}.

(** [chunked k s cs]: [cs] are the chunks from offset [s], numbered from [k]. *)
Inductive chunked : Z -> Z -> list TextChunk -> Prop :=
| chunked_last k s : s < n -> n - s <= MAX -> chunked k s [chunk_of k s n]
| chunked_more k s e cs :
  MAX < n - s -> good_end s e -> chunked (k + 1) (e - OVERLAP) cs -> chunked k s (chunk_of k s e :: cs).

Lemma as_i32_small z : 0 <= z <= i32_max -> as_i32 z = z.
Proof. unfold as_i32, i32_max. intros. rewrite wrap_small; lia. Qed.

Lemma chunk_loop_chunked fuel s acc :
  n <= i32_max -> 0 <= s < n -> len acc <= s -> n - s <= Z.of_nat fuel ->
  exists cs, chunk_loop units bounds fuel s acc = Some (acc ++ cs) /\ chunked (len acc) s cs.
Proof.
  intros Hn. revert s acc. induction fuel as [|fuel IH]; intros s acc Hs Hacc Hf; cbn [chunk_loop];
    rewrite (proj2 (Z.ltb_lt _ _)) by lia; [lia|].
  cbn zeta. pose proof (len_nonneg acc). destruct (decide (MAX < n - s)) as [Hm|Hm].
  - pose proof (chunk_end_far s Hm) as Hg. set (e := chunk_end units bounds s) in *.
    pose proof Hg as [Hw _]. unfold MIN, MAX in Hw, Hm.
    rewrite !as_i32_small by lia. rewrite (proj2 (Z.leb_gt _ _)) by lia. rewrite Z.max_r by (unfold OVERLAP; lia).
    fold (chunk_of (len acc) s e).
    destruct (IH (e - OVERLAP) (acc ++ [chunk_of (len acc) s e])) as (cs & Hcs & Hc); try (unfold OVERLAP; lia).
    { rewrite len_app. unfold len at 2, OVERLAP. simpl. lia. }
    exists (chunk_of (len acc) s e :: cs). rewrite Hcs. split; [by rewrite <- app_assoc|].
    constructor; [done..|]. rewrite len_app in Hc. exact Hc.
  - rewrite chunk_end_near by lia. rewrite !as_i32_small by lia. rewrite (proj2 (Z.leb_le _ _)) by lia.
    eexists. split; [done|]. constructor; lia.
Qed.

(** What holds of each chunk of a chunking, by position. *)
Lemma chunked_lookup k s cs i c :
  0 <= s -> chunked k s cs -> cs !! i = Some c ->
  c = chunk_of (k + Z.of_nat i) (start c) (end_ c) /\ 0 <= start c < end_ c /\ end_ c <= n /\ end_ c - start c <= MAX.
Proof.
  intros Hs Hc. revert i. induction Hc as [k s Hn Hm|k s e cs Hm Hg Hc IH]; intros i Hi.
  - destruct i; [|done]. injection Hi as <-. cbn. split_and!; try lia. by rewrite Z.add_0_r.
  - pose proof Hg as [Hw _]. unfold MIN, MAX in Hw, Hm. destruct i as [|i].
    + injection Hi as <-. cbn. unfold MAX. split; [by rewrite Z.add_0_r|lia].
    + cbn in Hi. apply IH in Hi as (E & ?); [|unfold OVERLAP; lia]. split; [|done].
      by replace (k + Z.of_nat (S i)) with (k + 1 + Z.of_nat i) by lia.
Qed.

Lemma chunked_head k s cs : chunked k s cs -> exists c cs', cs = c :: cs' /\ start c = s.
Proof. destruct 1; eauto. Qed.

Lemma chunked_step k s cs i a b :
  chunked k s cs -> cs !! i = Some a -> cs !! S i = Some b -> start b = end_ a - OVERLAP /\ good_end (start a) (end_ a).
Proof.
  intros Hc. revert i. induction Hc as [k s Hn Hm|k s e cs Hm Hg Hc IH]; intros i Ha Hb; [done|].
  destruct i as [|i]; [|by apply (IH i)]. injection Ha as <-. split; [|done].
  apply chunked_head in Hc as (c & cs' & -> & Hstart). injection Hb as <-. done.
Qed.

(** Every offset from the start on lies in a chunk. *)
Lemma chunked_covers k s cs o : chunked k s cs -> s <= o < n -> exists c, c ∈ cs /\ start c <= o < end_ c.
Proof.
  intros Hc. revert o. induction Hc as [k s Hn Hm|k s e cs Hm Hg Hc IH]; intros o Ho.
  - eexists. split; [by left|]. done.
  - destruct (decide (o < e)) as [Hoe|]; [eexists; split; [by left|]; cbn; lia|].
    destruct (IH o) as (c & Hin & Hc'); [unfold OVERLAP; lia|]. exists c. split; [by right|done].
Qed.

End facts.

(** Everything a chunking of [units] promises: consecutive numbers, nonempty
    chunks of at most [MAX] units whose text is the slice they name, the whole
    text covered from the first unit to the last, exactly [OVERLAP] units
    shared by neighbours, and every inner cut at the boundary closest to the
    target where the window has one. *)
Record chunking (units bounds : list Z) (cs : list TextChunk) : Prop := {
  ck_each i c : cs !! i = Some c ->
    chunk_no c = Z.of_nat i /\ 0 <= start c < end_ c /\ end_ c <= len units /\ end_ c - start c <= MAX /\
    text c = from_utf16_lossy (slice units (start c) (end_ c));
  ck_cover o : 0 <= o < len units -> exists c, c ∈ cs /\ start c <= o < end_ c;
  ck_step i a b : cs !! i = Some a -> cs !! S i = Some b ->
    start b = end_ a - OVERLAP /\ good_end bounds (start a) (end_ a);
}.

Lemma chunked_chunking units bounds cs : chunked units bounds 0 0 cs -> chunking units bounds cs.
Proof.
  intros Hc. split.
  - intros i c Hi. destruct (chunked_lookup units bounds 0 0 cs i c (Z.le_refl 0) Hc Hi) as (E & H1 & H2 & H3).
    pose proof (f_equal chunk_no E) as En. pose proof (f_equal text E) as Et. cbn [chunk_no text chunk_of] in En, Et.
    split; [lia|]. split; [lia|]. split; [lia|]. split; [lia|exact Et].
  - intros o Ho. by eapply chunked_covers.
  - intros i a b. by eapply chunked_step.
Qed.


