(* ===== verification/ListQuery.v ===== *)
(** * Task list and saved-view queries ([src/tasks/list_query.rs], [src/tasks.rs])

    The strict parser of the [viewQuery] JSON, its canonical printer (the
    stored and returned [config] of a saved view), the pagination cursor, the
    filter fingerprint and the query-string parser of the task list.

    [serde_json] numbers, RFC 3339 instants, URL-safe base64 and SHA-256 are
    third-party: the classes below name what the source uses of them. *)

From stdpp Require Import base list numbers strings gmap.
From Stdlib Require Import ZArith Lia Floats.SpecFloat.
From S2P Require Import Prelude Text Uuid Json Chrono Float.

(** ** Third-party interfaces *)

(** [serde_json::Number]. *)
Class JsonNumber (num : Type) := {
  num_as_f64 : num -> option f64;
  num_as_i64 : num -> option Z;
  num_from_f64 : f64 -> option num;
}.

Definition is_finite (x : f64) : bool :=
  match x with S754_zero _ | S754_finite _ _ _ => true | _ => false end.

Class JsonNumberLaws (num : Type) `{JsonNumber num} : Prop := {
  (** A finite float becomes a number that reads back as the same float. *)
  num_from_finite x : is_finite x = true -> exists n, num_from_f64 x = Some n /\ num_as_f64 n = Some x;
  num_as_i64_range n z : num_as_i64 n = Some z -> i64_min <= z <= i64_max;
}.

(** [DateTime<Utc>] and RFC 3339. *)
Class Instants := {
  datetime : Type;
  datetime_eq_dec :: EqDecision datetime;
  (** The year of the instant, in UTC. *)
  utc_year : datetime -> Z;
  to_rfc3339 : datetime -> str;
  (** [DateTime::parse_from_rfc3339], then [with_timezone(&Utc)]. *)
  parse_from_rfc3339 : str -> option datetime;
}.

Class InstantLaws (I : Instants) : Prop := {
  rfc3339_utf8 t : utf8_valid (to_rfc3339 t) = true;
  (** Years of four digits print to a text that parses back. *)
  rfc3339_roundtrip t : 0 <= utc_year t <= 9999 -> parse_from_rfc3339 (to_rfc3339 t) = Some t;
}.

(** [base64::engine::general_purpose::URL_SAFE_NO_PAD] and [Sha256] in hex. *)
Class Encodings := {
  b64_encode : list byte -> str;
  b64_decode : str -> option (list byte);
  sha256_hex : str -> str;
}.

Class EncodingLaws (B : Encodings) : Prop := {
  b64_roundtrip l : b64_decode (b64_encode l) = Some l;
}.

(** ** String matching *)

(** [match s { "a" => x, "b" => y, _ => .. }]. *)
Fixpoint match_str {A} (arms : list (string * A)) (s : str) : option A :=
  match arms with
  | [] => None
  | (k, x) :: t => if bool_decide (s = bs k) then Some x else match_str t s
  end.

(** [LIST.contains(&s)]. *)
Definition str_in (s : str) (l : list string) : bool := existsb (fun a => bool_decide (s = bs a)) l.

(** [s.contains('\0')]. *)
Definition contains_nul (s : str) : bool := bool_decide (Byte.x00 ∈ s).

(** [opt.map(f).transpose()?] and [match opt { None => None, Some(v) => Some(f(v)?) }]. *)
Definition transpose {E A B} (f : A -> result E B) (o : option A) : result E (option B) :=
  match o with
  | None => Ok None
  | Some a => b ← f a; Ok (Some b)
  end.

(** ** Data *)

Definition QUERY_JSON_MAX : Z := 16000.
Definition TITLE_MAX : Z := 1000.
Definition CURSOR_MAX : Z := 1024.
Definition TASK_TYPES : list string := ["task"; "bug"; "story"; "epic"; "subtask"].
Definition PRIORITIES : list string := ["none"; "low"; "medium"; "high"; "urgent"].
Definition CUSTOM_FILTERS_MAX : Z := 25.
Definition SORT_MAX : Z := 3.

Inductive TaskListQueryError := InvalidInput | InvalidCursor.

#[export] Instance TaskListQueryError_eq_dec : EqDecision TaskListQueryError.
Proof. solve_decision. Defined.

Inductive SortDirection := Asc | Desc.

Inductive CustomValue :=
| CText (s : str)
| CNumber (x : f64)
| CBool (b : bool).

Inductive CustomOperator :=
| OpEmpty
| OpEquals (v : CustomValue).

#[export] Instance SortDirection_eq_dec : EqDecision SortDirection.
Proof. solve_decision. Defined.
#[export] Instance CustomValue_eq_dec : EqDecision CustomValue.
Proof. solve_decision. Defined.
#[export] Instance CustomOperator_eq_dec : EqDecision CustomOperator.
Proof. solve_decision. Defined.

Section data.
Context {U : UuidLib} {C : Chrono}.

Record CustomFilter := {
  field_id : uuid;
  operator : CustomOperator;
}.

Inductive AssigneeFilter := Me | User (id : uuid).

Inductive SortField :=
| Priority | Due | Updated | Created | Rank | Title | Status | Number
| Field (id : uuid).

Record ViewSort := {
  field : SortField;
  direction : SortDirection;
}.

Record ViewFilters := {
  task_type : option str;
  status_id : option uuid;
  priority : option str;
  open_only : bool;
  title : option str;
  assignee_id : option AssigneeFilter;
  label_id : option uuid;
  milestone_id : option uuid;
  due_before : option naive_date;
  custom : list CustomFilter;
}.

Record ViewQuery := {
  filters : ViewFilters;
  sort : list ViewSort;
}.

(** The derived [Default]s. *)
Definition ViewFilters_default : ViewFilters := {|
  task_type := None; status_id := None; priority := None; open_only := false; title := None;
  assignee_id := None; label_id := None; milestone_id := None; due_before := None; custom := [];
|}.
Definition ViewQuery_default : ViewQuery := {| filters := ViewFilters_default; sort := [] |}.

#[export] Instance CustomFilter_eq_dec : EqDecision CustomFilter.
Proof. solve_decision. Defined.
#[export] Instance AssigneeFilter_eq_dec : EqDecision AssigneeFilter.
Proof. solve_decision. Defined.
#[export] Instance SortField_eq_dec : EqDecision SortField.
Proof. solve_decision. Defined.
#[export] Instance ViewSort_eq_dec : EqDecision ViewSort.
Proof. solve_decision. Defined.
#[export] Instance ViewFilters_eq_dec : EqDecision ViewFilters.
Proof. solve_decision. Defined.
#[export] Instance ViewQuery_eq_dec : EqDecision ViewQuery.
Proof. solve_decision. Defined.

(** ** Dates of the task API ([src/tasks.rs]) *)

Definition parse_iso_date (value : str) : option naive_date :=
  let shape_ok :=
    (length value =? 10)%nat &&
    bool_decide (value !! 4%nat = Some Byte.x2d) && bool_decide (value !! 7%nat = Some Byte.x2d) &&
    forallb (fun '(i, b) => (i =? 4)%nat || (i =? 7)%nat || is_ascii_digit b) (zip (seq 0 (length value)) value) in
  if negb shape_ok then None
  else if bool_decide (take 4 value = bs "0000") then None
  else parse_ymd value.

Definition parse_optional_date (raw : option str) : result TaskListQueryError (option naive_date) :=
  match raw with
  | None => Ok None
  | Some value => ok_or (Some <$> parse_iso_date value) InvalidInput
  end.

(** ** The strict parser *)

Context {num : Type} {N : JsonNumber num}.
Abbreviation jvalue := (value num).
Abbreviation jmap := (list (str * jvalue)).
Abbreviation res := (result TaskListQueryError).

Definition reject_unknown_keys (object : jmap) (allowed : list string) : res unit :=
  if forallb (fun e : str * jvalue => str_in e.1 allowed) object then Ok tt else Err InvalidInput.

Definition parse_task_type (v : jvalue) : res str :=
  raw ← ok_or (as_str v) InvalidInput;
  if str_in raw TASK_TYPES then Ok raw else Err InvalidInput.

Definition parse_priority (v : jvalue) : res str :=
  raw ← ok_or (as_str v) InvalidInput;
  if str_in raw PRIORITIES then Ok raw else Err InvalidInput.

Definition parse_title (v : jvalue) : res str :=
  raw ← ok_or (as_str v) InvalidInput;
  if contains_nul raw || (TITLE_MAX <? len (chars raw)) || bool_decide (trim raw = [])
  then Err InvalidInput
  else Ok raw.

Definition parse_uuid (v : jvalue) : res uuid :=
  raw ← ok_or (as_str v) InvalidInput;
  if negb (len raw =? 36) then Err InvalidInput
  else ok_or (try_parse raw) InvalidInput.

Definition parse_assignee_id (v : jvalue) : res AssigneeFilter :=
  raw ← ok_or (as_str v) InvalidInput;
  if bool_decide (raw = bs "me") then Ok Me
  else ok_or (User <$> try_parse raw) InvalidInput.

Definition sort_field_of_name (raw : str) : res SortField :=
  ok_or (match_str [("priority", Priority); ("due", Due); ("updated", Updated); ("created", Created);
                    ("rank", Rank); ("title", Title); ("status", Status); ("number", Number)] raw) InvalidInput.

Definition parse_sort_field (v : jvalue) : res SortField :=
  raw ← ok_or (as_str v) InvalidInput;
  if len raw =? 36 then
    match try_parse raw with
    | Some id => Ok (Field id)
    | None => sort_field_of_name raw
    end
  else sort_field_of_name raw.

Definition parse_sort_direction (v : jvalue) : res SortDirection :=
  match as_str v with
  | Some raw => ok_or (match_str [("asc", Asc); ("desc", Desc)] raw) InvalidInput
  | None => Err InvalidInput
  end.

(** The [value] of an [equals] filter. *)
Definition parse_custom_value (o : option jvalue) : res CustomValue :=
  match o with
  | Some (VString text) =>
    if contains_nul text || (TITLE_MAX <? len (chars text)) then Err InvalidInput else Ok (CText text)
  | Some (VBool flag) => Ok (CBool flag)
  | Some (VNumber n) =>
    x ← ok_or (num_as_f64 n) InvalidInput;
    if negb (is_finite x) then Err InvalidInput else Ok (CNumber x)
  | _ => Err InvalidInput
  end.

Definition parse_custom_filter (entry : jvalue) : res CustomFilter :=
  object ← ok_or (as_object entry) InvalidInput;
  id_v ← ok_or (map_get (bs "fieldId") object) InvalidInput;
  id ← parse_uuid id_v;
  op ← match map_get (bs "operator") object ≫= as_str with
       | Some raw =>
         if bool_decide (raw = bs "empty") then
           _ ← reject_unknown_keys object ["fieldId"; "operator"];
           Ok OpEmpty
         else if bool_decide (raw = bs "equals") then
           _ ← reject_unknown_keys object ["fieldId"; "operator"; "value"];
           x ← parse_custom_value (map_get (bs "value") object);
           Ok (OpEquals x)
         else Err InvalidInput
       | None => Err InvalidInput
       end;
  Ok {| field_id := id; operator := op |}.

Definition parse_custom_filters (v : jvalue) : res (list CustomFilter) :=
  array ← ok_or (as_array v) InvalidInput;
  if CUSTOM_FILTERS_MAX <? len array then Err InvalidInput
  else mapM parse_custom_filter array.

Definition parse_sort_entry (entry : jvalue) : res ViewSort :=
  object ← ok_or (as_object entry) InvalidInput;
  _ ← reject_unknown_keys object ["field"; "direction"];
  field_value ← ok_or (map_get (bs "field") object) InvalidInput;
  direction_value ← ok_or (map_get (bs "direction") object) InvalidInput;
  f ← parse_sort_field field_value;
  d ← parse_sort_direction direction_value;
  Ok {| field := f; direction := d |}.

Definition parse_view_sort (v : jvalue) : res (list ViewSort) :=
  array ← ok_or (as_array v) InvalidInput;
  if SORT_MAX <? len array then Err InvalidInput
  else mapM parse_sort_entry array.

Definition FILTER_KEYS : list string :=
  ["type"; "statusId"; "priority"; "openOnly"; "title"; "assigneeId"; "labelId"; "milestoneId"; "dueBefore"; "custom"].

Definition parse_view_filters (v : jvalue) : res ViewFilters :=
  object ← ok_or (as_object v) InvalidInput;
  _ ← reject_unknown_keys object FILTER_KEYS;
  task_type ← transpose parse_task_type (map_get (bs "type") object);
  status_id ← transpose parse_uuid (map_get (bs "statusId") object);
  priority ← transpose parse_priority (map_get (bs "priority") object);
  open_only ← match map_get (bs "openOnly") object with
              | None => Ok false
              | Some v => ok_or (as_bool v) InvalidInput
              end;
  title ← transpose parse_title (map_get (bs "title") object);
  assignee_id ← transpose parse_assignee_id (map_get (bs "assigneeId") object);
  label_id ← transpose parse_uuid (map_get (bs "labelId") object);
  milestone_id ← transpose parse_uuid (map_get (bs "milestoneId") object);
  due_before ← transpose (fun v => ok_or (as_str v ≫= parse_iso_date) InvalidInput) (map_get (bs "dueBefore") object);
  custom ← match map_get (bs "custom") object with
           | None => Ok []
           | Some v => parse_custom_filters v
           end;
  Ok {| task_type := task_type; status_id := status_id; priority := priority; open_only := open_only;
        title := title; assignee_id := assignee_id; label_id := label_id; milestone_id := milestone_id;
        due_before := due_before; custom := custom |}.

Definition parse_view_query_value (v : jvalue) : res ViewQuery :=
  root ← ok_or (as_object v) InvalidInput;
  _ ← reject_unknown_keys root ["filters"; "sort"];
  filters ← match map_get (bs "filters") root with
            | Some v => parse_view_filters v
            | None => Ok ViewFilters_default
            end;
  sort ← match map_get (bs "sort") root with
         | Some v => parse_view_sort v
         | None => Ok []
         end;
  Ok {| filters := filters; sort := sort |}.

(** ** The canonical printer *)

(** [if let Some(v) = o { map.insert(k, v) }]. *)
Definition insert_opt (k : string) (o : option jvalue) (m : jmap) : jmap :=
  match o with Some v => map_insert (bs k) v m | None => m end.

(** [serde_json::json!({ .. })]. *)
Definition json_object (l : list (string * jvalue)) : jvalue :=
  VObject (foldl (fun m '(k, v) => map_insert (bs k) v m) [] l).

Definition jstr (s : string) : jvalue := VString (bs s).
Definition juuid (u : uuid) : jvalue := VString (hyphenated u).

Definition sort_field_name (f : SortField) : string :=
  match f with
  | Field _ => "field" | Priority => "priority" | Due => "due" | Updated => "updated" | Created => "created"
  | Rank => "rank" | Title => "title" | Status => "status" | Number => "number"
  end.

Definition sort_field_key (f : SortField) : str :=
  match f with
  | Field id => hyphenated id
  | other => bs (sort_field_name other)
  end.

Definition assignee_text (a : AssigneeFilter) : str :=
  match a with Me => bs "me" | User id => hyphenated id end.

Definition custom_value_json (x : CustomValue) : jvalue :=
  match x with
  | CText text => VString text
  | CBool flag => VBool flag
  | CNumber x => default VNull (VNumber <$> num_from_f64 x)
  end.

Definition custom_filter_json (item : CustomFilter) : jvalue :=
  match operator item with
  | OpEmpty => json_object [("fieldId", juuid (field_id item)); ("operator", jstr "empty")]
  | OpEquals x =>
    json_object [("fieldId", juuid (field_id item)); ("operator", jstr "equals"); ("value", custom_value_json x)]
  end.

Definition sort_entry_json (e : ViewSort) : jvalue :=
  json_object [("field", VString (sort_field_key (field e)));
               ("direction", jstr (if bool_decide (direction e = Asc) then "asc" else "desc"))].

Definition view_filters_map (f : ViewFilters) : jmap :=
  let m := insert_opt "type" (VString <$> task_type f) [] in
  let m := insert_opt "statusId" (juuid <$> status_id f) m in
  let m := insert_opt "assigneeId" (VString ∘ assignee_text <$> assignee_id f) m in
  let m := insert_opt "priority" (VString <$> priority f) m in
  let m := insert_opt "labelId" (juuid <$> label_id f) m in
  let m := insert_opt "milestoneId" (juuid <$> milestone_id f) m in
  let m := insert_opt "openOnly" (if open_only f then Some (VBool true) else None) m in
  let m := insert_opt "dueBefore" (VString ∘ format_ymd <$> due_before f) m in
  let m := insert_opt "title" (VString <$> title f) m in
  insert_opt "custom" (match custom f with [] => None | l => Some (VArray (custom_filter_json <$> l)) end) m.

Definition view_query_to_json (q : ViewQuery) : jvalue :=
  json_object [("filters", VObject (view_filters_map (filters q)));
               ("sort", VArray (sort_entry_json <$> sort q))].

End data.

(** ** Cursors and the query string *)

Section query.
Context {U : UuidLib} {C : Chrono} {J : SerdeJson} {N : JsonNumber number} {I : Instants} {B : Encodings}.
Abbreviation res := (result TaskListQueryError).

Record TaskListCursor := {
  cur_id : uuid;
  cur_key : str;
  cur_f : str;
  cur_as_of : datetime;
}.

Record ParsedTaskListQuery := {
  view : ViewQuery;
  archived : bool;
  limit : Z;
  from : option naive_date;
  to : option naive_date;
  cursor : option TaskListCursor;
  as_of : datetime;
}.

#[export] Instance TaskListCursor_eq_dec : EqDecision TaskListCursor.
Proof. solve_decision. Defined.

(** [Value::to_string]. *)
Definition to_string (v : value number) : str := default [] (to_vec v).

Definition parse_view_query (raw : str) : res ViewQuery :=
  match from_slice raw with
  | None => Err InvalidInput
  | Some v => parse_view_query_value v
  end.

Definition is_lower_hex_64 (value : str) : bool :=
  (len value =? 64) && forallb (fun c => in_range 48 57 c || in_range 97 102 c) (chars value).

Definition encode_cursor (c : TaskListCursor) : str :=
  let payload := json_object [("id", juuid (cur_id c)); ("key", VString (cur_key c)); ("f", VString (cur_f c));
                              ("asOf", VString (to_rfc3339 (cur_as_of c)))] in
  b64_encode (to_string payload).

Definition decode_cursor (raw : str) : res TaskListCursor :=
  bytes ← ok_or (b64_decode raw) InvalidCursor;
  v ← ok_or (from_slice bytes) InvalidCursor;
  object ← ok_or (as_object v) InvalidCursor;
  _ ← reject_unknown_keys object ["id"; "key"; "f"; "asOf"];
  id_v ← ok_or (map_get (bs "id") object) InvalidCursor;
  id ← parse_uuid id_v;
  key ← ok_or (map_get (bs "key") object ≫= as_str) InvalidCursor;
  f ← ok_or (map_get (bs "f") object ≫= as_str) InvalidCursor;
  as_of ← ok_or (map_get (bs "asOf") object ≫= as_str) InvalidCursor;
  if negb (is_lower_hex_64 key) || negb (is_lower_hex_64 f) then Err InvalidCursor
  else
    as_of ← ok_or (parse_from_rfc3339 as_of) InvalidCursor;
    Ok {| cur_id := id; cur_key := key; cur_f := f; cur_as_of := as_of |}.

(** [now] is [Utc::now()]. *)
Definition parse_task_list_query (now : datetime) (query_json archived cursor : option str) (limit : option Z)
    (from to : option str) : res ParsedTaskListQuery :=
  archived ← match archived with
             | Some s => if bool_decide (s = bs "true") then Ok true
                         else if bool_decide (s = bs "false") then Ok false else Err InvalidInput
             | None => Ok false
             end;
  from ← parse_optional_date from;
  to ← parse_optional_date to;
  if negb (bool_decide (is_Some from <-> is_Some to)) then Err InvalidInput else
  if (match from, to with Some a, Some b => num_days b <? num_days a | _, _ => false end) then Err InvalidInput else
  if bool_decide (is_Some from) && bool_decide (is_Some cursor) then Err InvalidInput else
  let limit := default 50 limit in
  if negb ((1 <=? limit) && (limit <=? 500)) then Err InvalidInput else
  if bool_decide (from = None) && (100 <? limit) then Err InvalidInput else
  let raw_query := default (bs "{}") query_json in
  if QUERY_JSON_MAX <? len raw_query then Err InvalidInput else
  view ← parse_view_query raw_query;
  '(cursor, as_of) ← match cursor with
                     | Some raw =>
                       if CURSOR_MAX <? len raw then Err InvalidCursor
                       else decoded ← decode_cursor raw; Ok (Some decoded, cur_as_of decoded)
                     | None => Ok (None, now)
                     end;
  Ok {| view := view; archived := archived; limit := limit; from := from; to := to;
        cursor := cursor; as_of := as_of |}.

(** *** The filter fingerprint *)

Definition jopt (o : option (value number)) : value number := default VNull o.

(** The JSON whose text is hashed. *)
Definition fingerprint_payload (workspace_id : uuid) (project_id : option uuid) (time_zone : str)
    (q : ParsedTaskListQuery) : value number :=
  let f := filters (view q) in
  json_object
    [("workspaceId", juuid workspace_id);
     ("projectId", jopt (juuid <$> project_id));
     ("timeZone", VString time_zone);
     ("query", json_object
        [("filters", json_object
            [("type", jopt (VString <$> task_type f));
             ("statusId", jopt (juuid <$> status_id f));
             ("priority", jopt (VString <$> priority f));
             ("openOnly", VBool (open_only f));
             ("title", jopt (VString <$> title f));
             ("assigneeId", jopt (VString ∘ assignee_text <$> assignee_id f));
             ("labelId", jopt (juuid <$> label_id f));
             ("milestoneId", jopt (juuid <$> milestone_id f));
             ("dueBefore", jopt (VString ∘ format_ymd <$> due_before f));
             ("custom", match custom f with [] => VNull | l => VArray (custom_filter_json <$> l) end)]);
         ("sort", VArray (sort_entry_json <$> sort (view q)))]);
     ("archived", VBool (archived q));
     ("from", jopt (VString ∘ format_ymd <$> from q));
     ("to", jopt (VString ∘ format_ymd <$> to q))].

Definition filter_fingerprint (workspace_id : uuid) (project_id : option uuid) (time_zone : str)
    (q : ParsedTaskListQuery) : str :=
  sha256_hex (to_string (fingerprint_payload workspace_id project_id time_zone q)).

End query.
