(* ===== verification/Policies.v ===== *)
(** * Small policies

    API token scopes ([src/src/auth/scopes.rs]), the stopwatch
    ([src/src/task_timer.rs]), display identifiers ([src/src/display_id.rs]),
    estimates and field updates ([src/src/tasks/patch.rs]) and the parameters of
    a layout request ([src/src/tasks/layout_query.rs]).

    [scopes_no_escalation]: what a token may grant. [display_id_roundtrip],
    [estimate_exact], [timer_language] and [layout_query_bounds] for the rest. *)

From stdpp Require Import base list numbers strings gmap.
From Stdlib Require Import ZArith Lia.
From S2P Require Import Prelude Text TextFacts Uuid Json Float Chrono GanttScale GanttLayout GanttScaleFacts ListQuery.

(** ** Scopes *)

Module Scopes.

Inductive ApiTokenScope :=
| DocumentsRead | DocumentsWrite | TasksRead | TasksWrite | ProjectsRead | ProjectsManage | ShareManage | WorkspaceManage.

#[export] Instance ApiTokenScope_eq_dec : EqDecision ApiTokenScope.
Proof. solve_decision. Defined.

Definition as_str (s : ApiTokenScope) : str :=
  match s with
  | DocumentsRead => bs "documents.read"
  | DocumentsWrite => bs "documents.write"
  | TasksRead => bs "tasks.read"
  | TasksWrite => bs "tasks.write"
  | ProjectsRead => bs "projects.read"
  | ProjectsManage => bs "projects.manage"
  | ShareManage => bs "share.manage"
  | WorkspaceManage => bs "workspace.manage"
  end.

Definition domain (s : ApiTokenScope) : str :=
  match s with
  | DocumentsRead | DocumentsWrite => bs "documents"
  | TasksRead | TasksWrite => bs "tasks"
  | ProjectsRead | ProjectsManage => bs "projects"
  | ShareManage => bs "share"
  | WorkspaceManage => bs "workspace"
  end.

Definition parse_api_token_scope (value : str) : option ApiTokenScope :=
  if bool_decide (value = bs "documents.read") then Some DocumentsRead
  else if bool_decide (value = bs "documents.write") then Some DocumentsWrite
  else if bool_decide (value = bs "tasks.read") then Some TasksRead
  else if bool_decide (value = bs "tasks.write") then Some TasksWrite
  else if bool_decide (value = bs "projects.read") then Some ProjectsRead
  else if bool_decide (value = bs "projects.manage") then Some ProjectsManage
  else if bool_decide (value = bs "share.manage") then Some ShareManage
  else if bool_decide (value = bs "workspace.manage") then Some WorkspaceManage
  else None.

Definition action_read (s : ApiTokenScope) : bool :=
  match s with DocumentsRead | TasksRead | ProjectsRead => true | _ => false end.

Definition grants_api_token_scope (held : list ApiTokenScope) (required : ApiTokenScope) : bool :=
  if bool_decide (required ∈ held) then true
  else action_read required && existsb (fun scope => bool_decide (domain scope = domain required)) held.

(** The names are exact. *)
Lemma scope_names v s : parse_api_token_scope v = Some s <-> v = as_str s.
Proof.
  split; [|by intros ->; destruct s; vm_compute].
  unfold parse_api_token_scope. repeat (case_bool_decide; [by intros [= <-]|]). done.
Qed.

(** One scope includes another: itself, or the reading of its domain. *)
Definition includes (a b : ApiTokenScope) : Prop := a = b \/ action_read b = true /\ domain a = domain b.

Lemma includes_trans a b c : includes a b -> includes b c -> includes a c.
Proof.
  unfold includes. intros [Hab|[Hb Hab]] [Hbc|[Hc Hbc]]; [left|right..]; try split; congruence.
Qed.

Lemma includes_antisym a b : includes a b -> includes b a -> a = b.
Proof. unfold includes. intros [Hab|[Hb Hd]] [Hba|[Ha _]]; try congruence. by destruct a, b. Qed.

Lemma grants_includes held required : grants_api_token_scope held required = true <-> exists a, a ∈ held /\ includes a required.
Proof.
  unfold grants_api_token_scope, includes. case_bool_decide as E.
  - split; [|done]. intros _. exists required. auto.
  - rewrite andb_true_iff, existsb_exists. split.
    + intros [Hr (a & Ha & Hd)]. apply bool_decide_eq_true in Hd. exists a. rewrite list_elem_of_In. auto.
    + intros (a & Ha & [->|[Hr Hd]]); [done|]. split; [done|]. exists a. rewrite <- list_elem_of_In, bool_decide_eq_true. auto.
Qed.

(** Scopes do not escalate. A list of scopes that another list grants, each
    of them, grants nothing that the other does not; and the smallest list, one
    scope, grants exactly itself and the reading of its own domain, so that
    nothing but a scope of the same domain reaches a domain. *)
Theorem scopes_no_escalation (held delegated : list ApiTokenScope) (required : ApiTokenScope) :
  Forall (fun s => grants_api_token_scope held s = true) delegated ->
  grants_api_token_scope delegated required = true ->
  grants_api_token_scope held required = true /\ exists s, s ∈ held /\ domain s = domain required /\ (s = required \/ action_read required = true).
Proof.
  intros Hf (b & Hb & Hi)%grants_includes. rewrite Forall_forall in Hf. destruct (proj1 (grants_includes _ _) (Hf b Hb)) as (a & Ha & Hab).
  pose proof (includes_trans _ _ _ Hab Hi) as Hac. split; [apply grants_includes; eauto|].
  exists a. split; [done|]. destruct Hac as [->|[]]; auto.
Qed.

Lemma scopes_no_escalation_witness :
  grants_api_token_scope [ProjectsManage] ProjectsRead = true /\ grants_api_token_scope [ProjectsManage] TasksRead = false.
Proof.
  split; [|vm_compute; reflexivity].
  refine (proj1 (scopes_no_escalation [ProjectsManage] [ProjectsRead] ProjectsRead _ _)); [|vm_compute; reflexivity].
  constructor; [vm_compute; reflexivity|constructor].
Defined.

End Scopes.

(** ** The stopwatch *)

Module Timer.

Inductive TimerStatus := Running | Paused | Stopped.
Inductive TimerOperation := Start | Pause | Resume | Stop.

Definition timer_as_str (s : TimerStatus) : str :=
  match s with Running => bs "running" | Paused => bs "paused" | Stopped => bs "stopped" end.

Definition transition (status : TimerStatus) (operation : TimerOperation) : option TimerStatus :=
  match status, operation with
  | Running, Pause => Some Paused
  | Paused, Resume => Some Running
  | (Running | Paused), Stop => Some Stopped
  | _, _ => None
  end.

(** Instants in nanoseconds; [num_milliseconds] truncates towards zero. *)
Definition elapsed_milliseconds (start end_ : Z) : Z := Z.max (Z.quot (end_ - start) 1000000) 0.

Definition run (status : TimerStatus) (ops : list TimerOperation) : option TimerStatus :=
  foldl (fun s o => s ← s; transition s o) (Some status) ops.

(** The accepted operations after a start: pauses and resumes in turn, then at
    most one stop, which is the last. *)
Inductive turns : bool -> list TimerOperation -> Prop :=
| turns_nil r : turns r []
| turns_stop r : turns r [Stop]
| turns_pause l : turns false l -> turns true (Pause :: l)
| turns_resume l : turns true l -> turns false (Resume :: l).

Lemma run_none ops : foldl (fun s o => s ← s; transition s o) None ops = None.
Proof. by induction ops. Qed.

Theorem timer_language ops : is_Some (run Running ops) <-> turns true ops.
Proof.
  assert (H : forall ops, (is_Some (run Running ops) <-> turns true ops) /\ (is_Some (run Paused ops) <-> turns false ops));
    [|apply H].
  clear ops. induction ops as [|o ops [IHr IHp]]; [repeat split; try constructor; by eexists|].
  unfold run in *. cbn [foldl mbind option_bind].
  assert (Hs : is_Some (foldl (fun s o => s ← s; transition s o) (Some Stopped) ops) <-> ops = []).
  { destruct ops as [|o' ops']; [by split|]. cbn. destruct o'; rewrite run_none; (split; [by intros [x Hx]|done]). }
  split; destruct o; cbn [transition]; rewrite ?run_none, ?Hs, ?IHr, ?IHp;
    (split; [intros Hx; try (by destruct Hx); subst; by constructor|intros Ht; inversion Ht; subst; done]).
Qed.

(** Measured time is never negative, and splitting an interval loses less than
    one millisecond for each cut. *)
Theorem elapsed_split a b c : a <= b <= c ->
  0 <= elapsed_milliseconds a b /\
  elapsed_milliseconds a b + elapsed_milliseconds b c <= elapsed_milliseconds a c <= elapsed_milliseconds a b + elapsed_milliseconds b c + 1.
Proof.
  intros H. unfold elapsed_milliseconds. rewrite !Z.quot_div_nonneg by lia.
  pose proof (Z.div_mod (b - a) 1000000). pose proof (Z.div_mod (c - b) 1000000). pose proof (Z.div_mod (c - a) 1000000).
  pose proof (Z.mod_pos_bound (b - a) 1000000). pose proof (Z.mod_pos_bound (c - b) 1000000). pose proof (Z.mod_pos_bound (c - a) 1000000).
  lia.
Qed.

End Timer.

(** ** Estimates and field updates *)

Module Patch.

(** [iter().position(|b| b == '.')] and the two slices. *)
Definition estimate_is_valid (value : str) : bool :=
  if bool_decide (value = []) || (19 <? len value) then false
  else
    match split_once Byte.x2e value with
    | None => (len value <=? 12) && forallb is_ascii_digit value
    | Some (int_part, frac_part) =>
      negb (bool_decide (int_part = [])) && (len int_part <=? 12) && negb (bool_decide (frac_part = [])) && (len frac_part <=? 6) &&
      forallb is_ascii_digit int_part && forallb is_ascii_digit frac_part
    end.

(** [FieldUpdate]. *)
Inductive FieldUpdate (T : Type) := Unchanged | SetTo (v : T) | Clear.
Arguments Unchanged {T}.
Arguments SetTo {T} v.
Arguments Clear {T}.

Definition from_optional {T} (value : option (option T)) : FieldUpdate T :=
  match value with
  | None => Unchanged
  | Some None => Clear
  | Some (Some v) => SetTo v
  end.

Definition digits (lo hi : Z) (s : str) : Prop := lo <= len s <= hi /\ Forall (fun b => is_ascii_digit b = true) s.

Lemma digits_no_dot lo hi s : digits lo hi s -> Byte.x2e ∉ s.
Proof. intros [_ Hf] Hi. rewrite Forall_forall in Hf. by apply Hf in Hi. Qed.

Lemma digits_spec hi s : bool_decide (s = []) = false /\ (len s <=? hi) = true /\ forallb is_ascii_digit s = true <-> digits 1 hi s.
Proof.
  unfold digits. rewrite bool_decide_eq_false, Z.leb_le, forallb_forall, Forall_forall. setoid_rewrite list_elem_of_In.
  destruct s as [|b s]; [split; [intros (H & _); by destruct H|intros ([H _] & _); unfold len in H; simpl in H; lia]|].
  rewrite len_cons. pose proof (len_nonneg s). intuition (try done; lia).
Qed.

(** The accepted estimates: up to twelve digits, then at most a dot and up to
    six digits; the length check admits all of these. *)
Theorem estimate_exact value :
  estimate_is_valid value = true <->
  digits 1 12 value \/ exists int frac, value = int ++ Byte.x2e :: frac /\ digits 1 12 int /\ digits 1 6 frac.
Proof.
  unfold estimate_is_valid. split.
  - destruct (_ || _) eqn:G; [done|]. apply orb_false_iff in G as [G1 G2].
    destruct (split_once _ value) as [[int frac]|] eqn:E.
    + apply split_once_Some in E as [-> _]. rewrite !andb_true_iff, !negb_true_iff. intros (((((? & ?) & ?) & ?) & ?) & ?).
      right. exists int, frac. split_and!; [done|by apply digits_spec..].
    + rewrite andb_true_iff. intros [? ?]. left. by apply digits_spec.
  - intros [H|(int & frac & -> & Hi & Hf)].
    + pose proof (digits_no_dot _ _ _ H) as Hd. apply split_once_None in Hd. rewrite Hd.
      apply digits_spec in H as (-> & Hl & ->). rewrite Hl. apply Z.leb_le in Hl. by rewrite (proj2 (Z.ltb_ge _ _)) by lia.
    + rewrite split_once_app by by eapply digits_no_dot. rewrite bool_decide_false by by destruct int.
      rewrite (proj2 (Z.ltb_ge _ _)) by (rewrite len_app, len_cons; destruct Hi, Hf; lia).
      apply digits_spec in Hi as (-> & -> & ->). by apply digits_spec in Hf as (-> & -> & ->).
Qed.

End Patch.

(** ** Display identifiers *)

Module DisplayId.

Record ParsedDisplayId := { prefix : str; number : Z }.

(** The characters of the prefix, and [to_uppercase] on them. *)
Definition prefix_char (b : byte) : bool :=
  let z := b2z b in in_range 65 90 z || in_range 97 122 z || in_range 48 57 z || (z =? 45).
Definition upper (b : byte) : byte := if in_range 97 122 (b2z b) then z2b (b2z b - 32) else b.

(** [DISPLAY_ID_RE]: the digits hold no hyphen, so the one before them is the
    last. Digits outside ASCII match [\d] and then fail to parse. *)
Definition captures (s : str) : option (str * str) :=
  '(p, d) ← rsplit_once Byte.x2d s;
  if in_range 2 32 (len p) && forallb prefix_char p && in_range 1 9 (len d) && forallb is_ascii_digit d then Some (p, d) else None.

Definition parse_display_id (raw : str) : option ParsedDisplayId :=
  '(p, d) ← captures (trim raw);
  n ← parse_i32 d;
  Some {| prefix := upper <$> p; number := n |}.

(** [format!("{prefix}-{number}")]. *)
Definition format_display_id (prefix : str) (number : Z) : str := prefix ++ bs "-" ++ fmt_padded 1 number.

Definition plain (b : byte) : Prop := b2z b < 128 /\ ws_seq [b2z b] = false.

(** A white-space character of several bytes has high bytes at both ends. *)
Lemma ws_seq_low a l : a < 128 -> l <> [] -> ws_seq (a :: l) = false.
Proof. intros Ha Hl. unfold ws_seq. repeat (case_match; subst; try done; try lia). Qed.
Lemma ws_seq_low_last a l : a < 128 -> l <> [] -> ws_seq (l ++ [a]) = false.
Proof.
  intros Ha Hl. destruct l as [|b [|c [|d l]]]; [done|..]; cbn [app].
  - unfold ws_seq, in_range. repeat (case_match; subst; try done); apply orb_false_iff; rewrite !Z.eqb_neq; lia.
  - unfold ws_seq, in_range. repeat (case_match; subst; try done; try lia); rewrite !orb_false_iff, andb_false_iff, !Z.leb_gt, !Z.eqb_neq; lia.
  - unfold ws_seq. repeat (case_match; subst; try done). all: destruct l; done.
Qed.

Lemma trim_start_plain b s : plain b -> trim_start (b :: s) = b :: s.
Proof.
  intros [Hb Hw]. unfold trim_start. cbn [length strip_with].
  assert (ws_start (b :: s) = None) as ->; [|done].
  unfold ws_start. change (b2z <$> take 1 (b :: s)) with [b2z b]. rewrite Hw, andb_false_r.
  destruct s as [|c s]; [done|]. change (b2z <$> take 2 (b :: c :: s)) with (b2z b :: [b2z c]).
  change (b2z <$> take 3 (b :: c :: s)) with (b2z b :: b2z c :: (b2z <$> take 1 s)).
  by rewrite !ws_seq_low, !andb_false_r by done.
Qed.

Lemma trim_end_plain b s : plain b -> trim_end (s ++ [b]) = s ++ [b].
Proof.
  intros [Hb Hw]. unfold trim_end. rewrite length_app, reverse_snoc, Nat.add_comm. cbn [length Nat.add strip_with].
  assert (ws_end (b :: reverse s) = None) as ->; [|by rewrite <- reverse_snoc, reverse_involutive].
  unfold ws_end. change (b2z <$> reverse (take 1 (b :: reverse s))) with [b2z b]. rewrite Hw, andb_false_r.
  destruct (reverse s) as [|c l]; [done|]. change (b2z <$> reverse (take 2 (b :: c :: l))) with ([b2z c] ++ [b2z b]).
  change (take 3 (b :: c :: l)) with (b :: c :: take 1 l). rewrite reverse_cons, fmap_app. cbn [fmap list_fmap].
  rewrite !ws_seq_low_last; [by rewrite !andb_false_r|done| |done|done].
  rewrite reverse_cons, fmap_app. by destruct (b2z <$> _).
Qed.

Lemma trim_plain a s b : plain a -> plain b -> trim (a :: s ++ [b]) = a :: s ++ [b].
Proof. intros Ha Hb. unfold trim. rewrite trim_start_plain by done. by apply (trim_end_plain b (a :: s)). Qed.

Lemma ws_seq_one z : ws_seq [z] = in_range 9 13 z || (z =? 32).
Proof. unfold ws_seq. by repeat case_match. Qed.

Lemma plain_char b : prefix_char b = true -> plain b.
Proof.
  unfold prefix_char, plain. rewrite ws_seq_one. unfold in_range.
  rewrite !orb_true_iff, !andb_true_iff, !Z.leb_le, Z.eqb_eq, orb_false_iff, andb_false_iff, !Z.leb_gt, Z.eqb_neq. lia.
Qed.

(** Upper-case prefixes, as workspaces and projects have them. *)
Definition upper_prefix (p : str) : Prop :=
  2 <= len p <= 32 /\ Forall (fun b => prefix_char b = true /\ in_range 97 122 (b2z b) = false) p.

Lemma rsplit_once_app c (l r : str) : c ∉ r -> rsplit_once c (l ++ c :: r) = Some (l, r).
Proof.
  intros H. unfold rsplit_once. rewrite reverse_app, reverse_cons, <- app_assoc. cbn [app].
  rewrite split_once_app by (by rewrite elem_of_reverse). cbn [mbind option_bind]. by rewrite !reverse_involutive.
Qed.

Lemma upper_same p : Forall (fun b => prefix_char b = true /\ in_range 97 122 (b2z b) = false) p -> upper <$> p = p.
Proof. induction 1 as [|b p [_ Hb] _ IH]; [done|]. rewrite fmap_cons, IH. unfold upper. by rewrite Hb. Qed.

(** The counted digits are enough. *)
Lemma digit_count_enough f n : 0 <= n < 10 ^ Z.of_nat (S f) -> n < 10 ^ Z.of_nat (digit_count f n).
Proof.
  revert n. induction f as [|f IH]; intros n Hn; cbn [digit_count]; [exact (proj2 Hn)|].
  destruct (Z.ltb_spec n 10); [change (10 ^ Z.of_nat 1) with 10; lia|]. rewrite Nat2Z.inj_succ, Z.pow_succ_r in Hn |- * by lia.
  assert (n / 10 < 10 ^ Z.of_nat (digit_count f (n / 10))).
  { apply IH. split; [apply Z.div_pos; lia|apply Z.div_lt_upper_bound; lia]. }
  pose proof (Z.div_mod n 10). pose proof (Z.mod_pos_bound n 10). lia.
Qed.

(** An identifier that is printed reads back: for every upper-case prefix and
    number of at most nine digits. *)
Theorem display_id_roundtrip p n : upper_prefix p -> 0 <= n < 10 ^ 9 ->
  parse_display_id (format_display_id p n) = Some {| prefix := p; number := n |}.
Proof.
  intros [Hl Hp] Hn. unfold parse_display_id, format_display_id.
  set (k := Nat.max 1 (digit_count 20 n)).
  assert (Hd : fmt_padded 1 n = dec_digits k n) by (unfold fmt_padded; by rewrite (proj2 (Z.ltb_ge _ _)) by lia).
  rewrite Hd.
  assert (Hk : (1 <= k <= 9)%nat) by (unfold k; pose proof (digit_count_le 20 n 9 Hn ltac:(lia)); lia).
  assert (Hv : 0 <= n < 10 ^ Z.of_nat k).
  { split; [lia|]. pose proof (digit_count_enough 20 n ltac:(simpl; lia)). unfold k.
    eapply Z.lt_le_trans; [done|]. apply Z.pow_le_mono_r; lia. }
  pose proof (dec_digits_ascii k n) as Ha. pose proof (dec_digits_length k n) as Hlen.
  assert (Hx : captures (p ++ bs "-" ++ dec_digits k n) = Some (p, dec_digits k n)).
  { unfold captures. change (bs "-" ++ dec_digits k n) with (Byte.x2d :: dec_digits k n). rewrite rsplit_once_app.
    2: { intros Hi. rewrite Forall_forall in Ha. by apply Ha in Hi. }
    cbn [mbind option_bind].
    assert (forallb prefix_char p = true) as -> by (apply forallb_forall; intros b Hb; rewrite Forall_forall in Hp; by apply Hp, list_elem_of_In).
    assert (forallb is_ascii_digit (dec_digits k n) = true) as -> by (apply forallb_forall; intros b Hb; rewrite Forall_forall in Ha; by apply Ha, list_elem_of_In).
    rewrite (proj2 (in_range_spec 2 32 (len p))) by lia. unfold len. rewrite Hlen.
    by rewrite (proj2 (in_range_spec 1 9 _)) by lia. }
  assert (Ht : trim (p ++ bs "-" ++ dec_digits k n) = p ++ bs "-" ++ dec_digits k n).
  { destruct k as [|k']; [lia|]. destruct p as [|a p]; [unfold len in Hl; simpl in Hl; lia|]. cbn [dec_digits].
    replace ((a :: p) ++ bs "-" ++ dec_digits k' (n / 10) ++ [dec_digit (n mod 10)])
      with (a :: (p ++ bs "-" ++ dec_digits k' (n / 10)) ++ [dec_digit (n mod 10)]) by (cbn [app]; by rewrite <- !app_assoc).
    apply trim_plain; apply plain_char; [by apply Forall_inv in Hp as [? _]|].
    rewrite Forall_forall in Ha. assert (Hb : is_ascii_digit (dec_digit (n mod 10)) = true).
    { apply Ha. cbn [dec_digits]. apply elem_of_app. right. by left. }
    unfold prefix_char. unfold is_ascii_digit in Hb. by rewrite Hb, orb_true_r. }
  rewrite Ht, Hx. cbn [mbind option_bind]. rewrite parse_i32_digits; [|lia|done|unfold i32_max; lia].
  cbn [mbind option_bind]. by rewrite upper_same.
Qed.

End DisplayId.

(** ** Layout requests *)

Module LayoutQuery.

Record ParsedTaskLayoutQuery := {
  year : Z;
  month : Z;
  week_starts_on : Z;
  lq_zoom : ZoomLevel;
  lq_px_per_day : option f64;
  lq_lane_height : Z;
  lq_pack : PackMode;
  max_lanes : option Z;
  view_query_json : option str;
}.

Section parse.
(** [str::parse::<f64>]. *)
Context (parse_f64 : str -> option f64).

(** [parse::<i32>] and a range. *)
Definition ranged (lo hi : Z) (v : str) : option Z := n ← Text.parse_i32 v; if in_range lo hi n then Some n else None.
Definition parse_i32 (raw : option str) (min max : Z) : option Z := raw ≫= ranged min max.

Definition px_ok (n : f64) : bool := fltb (of_int 0) n && fleb n (of_int 128).

(** An optional parameter: absent, or checked. *)
Definition optional_with {A} (raw : option str) (f : str -> option A) : option (option A) :=
  match raw with None => Some None | Some v => Some <$> f v end.

(** [None] is [InvalidInput], the one error. *)
Definition parse_task_layout_query (raw : gmap str str) : option ParsedTaskLayoutQuery :=
  year ← parse_i32 (raw !! bs "year") 1 9998;
  month ← parse_i32 (raw !! bs "month") 1 12;
  week ← match raw !! bs "weekStartsOn" with
         | None => Some 0
         | Some s => if bool_decide (s = bs "0") then Some 0 else if bool_decide (s = bs "1") then Some 1 else None
         end;
  zoom ← ZoomLevel_parse (default (bs "day") (raw !! bs "zoom"));
  px ← optional_with (raw !! bs "pxPerDay") (fun v => n ← parse_f64 v; if px_ok n then Some n else None);
  lane ← match raw !! bs "laneHeight" with None => Some 36 | Some v => ranged 16 128 v end;
  pack ← PackMode_parse (default (bs "rows") (raw !! bs "pack"));
  lanes ← optional_with (raw !! bs "maxLanes") (ranged 1 500);
  let query := raw !! bs "query" in
  if match query with Some q => 16000 <? len q | None => false end then None
  else Some {| year := year; month := month; week_starts_on := week; lq_zoom := zoom; lq_px_per_day := px; lq_lane_height := lane;
               lq_pack := pack; max_lanes := lanes; view_query_json := query |}.
End parse.

Definition layout_list_query {U : UuidLib} {C : Chrono} {J : SerdeJson} {N : JsonNumber number} {I : Instants} {B : Encodings}
    (now : datetime) (layout : ParsedTaskLayoutQuery) (from to : str) :=
  parse_task_list_query now (view_query_json layout) None None (Some 500) (Some from) (Some to).

Lemma ranged_Some lo hi v n : ranged lo hi v = Some n -> lo <= n <= hi.
Proof. unfold ranged. destruct (Text.parse_i32 v); [|done]. simpl. destruct (in_range lo hi _) eqn:E; [|done]. intros [= <-]. by apply in_range_spec. Qed.

(** What the layout code relies on: the ranges of an accepted request. *)
Theorem layout_query_bounds parse_f64 raw q : parse_task_layout_query parse_f64 raw = Some q ->
  1 <= year q <= 9998 /\ 1 <= month q <= 12 /\ 0 <= week_starts_on q <= 1 /\ 16 <= lq_lane_height q <= 128 /\
  (forall n, max_lanes q = Some n -> 1 <= n <= 500) /\ (forall x, lq_px_per_day q = Some x -> px_ok x = true) /\
  (forall s, view_query_json q = Some s -> len s <= 16000).
Proof.
  unfold parse_task_layout_query. intros H.
  repeat match type of H with
  | mbind _ ?o = _ => let E := fresh "E" in destruct o eqn:E; [cbn [mbind option_bind] in H|done]
  end.
  cbv zeta in H.
  assert (Hq : forall s, raw !! bs "query" = Some s -> len s <= 16000).
  { intros s Es. rewrite Es in H. destruct (Z.ltb_spec 16000 (len s)); [done|lia]. }
  destruct (match raw !! _ with Some _ => _ | None => _ end) in H; [done|]. injection H as <-. simpl.
  unfold parse_i32, optional_with in *.
  repeat match goal with
  | E : (raw !! ?k ≫= ranged _ _) = Some _ |- _ => destruct (raw !! k); [apply ranged_Some in E|done]
  end.
  assert (Hw : 0 <= z1 <= 1) by (clear -E1; repeat case_match; simplify_eq; lia).
  assert (Hl : 16 <= z3 <= 128) by (destruct (raw !! bs "laneHeight"); [by apply ranged_Some in E4|injection E4 as <-; lia]).
  assert (Hm : forall n, o0 = Some n -> 1 <= n <= 500).
  { intros n ->. destruct (raw !! bs "maxLanes") as [v|]; [|done]. destruct (ranged 1 500 v) eqn:Er; [|done].
    injection E6 as <-. by apply ranged_Some in Er. }
  assert (Hx : forall x, o = Some x -> px_ok x = true).
  { intros x ->. destruct (raw !! bs "pxPerDay") as [v|]; [|done]. destruct (parse_f64 v) as [n|]; [|done]. simpl in E3.
    destruct (px_ok n) eqn:Ep; [|done]. by injection E3 as <-. }
  split_and!; lia || done.
Qed.
End LayoutQuery.
