(* ===== verification/Share.v ===== *)
(** * Public share pages: HTML ([src/src/share_render.rs])

    A shared document is rendered to HTML for anyone with the link, so whatever
    its author typed must not become markup or script.  The renderer appends to
    one output string; here each function returns what it appends.  The
    recursion follows the document: its fuel is the size of the value, and
    [None] would mean that the fuel ran out.

    [fragment] is the grammar of the pages: allowed elements, properly nested,
    with the allowed attributes, and text without markup characters.
    [share_html_safe] says that rendering always ends and gives a fragment, and
    [href_allowed_sound] that an accepted link cannot run a script or leave the
    schemes [http], [https] and [mailto], as a browser reads it. *)

From stdpp Require Import base list numbers strings sets.
From Stdlib Require Import ZArith Lia.
From S2P Require Import Prelude Text TextFacts Float Json Blocks ListQuery.

Definition lt_b : byte := Byte.x3c.
Definition gt_b : byte := Byte.x3e.
Definition amp : byte := Byte.x26.
Definition quote : byte := Byte.x22.

Definition is_ty (t : str) (s : string) : bool := bool_decide (t = bs s).

Definition cat : list str -> str := @concat byte.

(** ** Escaping *)

(** [push_text]: [escapeHtml(text, false)]. *)
Definition push_text (s : str) : str :=
  s ≫= fun c =>
    if bool_decide (c = amp) then bs "&amp;"
    else if bool_decide (c = lt_b) then bs "&lt;"
    else if bool_decide (c = gt_b) then bs "&gt;"
    else [c].

(** [push_attr]: [escapeHtml(value, true)]. *)
Definition push_attr (s : str) : str :=
  s ≫= fun c =>
    if bool_decide (c = amp) then bs "&amp;"
    else if bool_decide (c = lt_b) then bs "&lt;"
    else if bool_decide (c = gt_b) then bs "&gt;"
    else if bool_decide (c = quote) then bs "&quot;"
    else [c].

(** ** Links *)

(** [str::find] of a string: the index of its first occurrence. *)
Fixpoint find_str (sub s : str) : option nat :=
  if bool_decide (sub `prefix_of` s) then Some 0%nat
  else match s with
       | [] => None
       | _ :: t => S <$> find_str sub t
       end.

(** One turn of the loop: the first comment, if it is closed, is cut out. *)
Definition strip_comment (cleaned : str) : option str :=
  first ← find_str (bs "<!--") cleaned;
  rel ← find_str (bs "-->") (drop (first + 4) cleaned);
  let last := (first + 4 + rel)%nat in
  Some (take first cleaned ++ drop (last + 3) cleaned).

Fixpoint strip_comments (fuel : nat) (cleaned : str) : str :=
  match fuel with
  | O => cleaned
  | S fuel => match strip_comment cleaned with Some cleaned => strip_comments fuel cleaned | None => cleaned end
  end.

Definition is_alpha (b : byte) : bool := in_range 65 90 (b2z b) || in_range 97 122 (b2z b).
Definition is_digit (b : byte) : bool := in_range 48 57 (b2z b).
Definition scheme_char (b : byte) : bool :=
  is_alpha b || is_digit b || bool_decide (b ∈ [Byte.x2e; Byte.x2d; Byte.x2b]).
Definition slash (b : byte) : bool := bool_decide (b ∈ [Byte.x2f; Byte.x5c]).

(** [take_while(..).count()]. *)
Fixpoint count_while (f : byte -> bool) (s : str) : nat :=
  match s with b :: t => if f b then S (count_while f t) else 0%nat | [] => 0%nat end.

(** The length of the scheme before the first colon. *)
Definition scheme_len (bytes : str) : option nat :=
  match bytes with
  | b :: t =>
    if is_alpha b then
      let len := S (count_while scheme_char t) in
      if bool_decide (bytes !! len = Some Byte.x3a) then Some len else None
    else None
  | [] => None
  end.

Definition to_lower (b : byte) : byte := if in_range 65 90 (b2z b) then z2b (b2z b + 32) else b.

Definition allowed_schemes : list str := [bs "http"; bs "https"; bs "mailto"].

(** The characters above [\u{20}]; the others are single bytes. *)
Definition visible (b : byte) : bool := 0x20 <? b2z b.

Definition protocol_relative (bytes : str) : bool :=
  match bytes with a :: b :: _ => slash a && slash b | _ => false end.

Definition href_allowed (href : str) : bool :=
  let cleaned := filter (fun b => visible b = true) href in
  let cleaned := strip_comments (length cleaned) cleaned in
  match scheme_len cleaned with
  | Some len => bool_decide (to_lower <$> take len cleaned ∈ allowed_schemes)
  | None => negb (protocol_relative cleaned)
  end.

Section share.
Context {num : Type} `{!JsonNumber num} {E : Shortcodes}.
Abbreviation value := (value num).
Implicit Types n : value.

(** ** Nodes *)

(** [f64::clamp]. *)
Definition fclamp (x lo hi : f64) : f64 := if fltb x lo then lo else if fltb hi x then hi else x.

Definition heading_level n : f64 :=
  match node_attr n (bs "level") with
  | Some (VNumber k) => match num_as_f64 k with Some level => fclamp level (of_int 1) (of_int 6) | None => of_int 1 end
  | _ => of_int 1
  end.

Record Mark := { ty : str; href : option str }.

Definition raw_mark (m : value) : option Mark :=
  t ← get_type m; Some {| ty := t; href := get_str_attr m (bs "href") |}.

Definition raw_marks n : list Mark :=
  omap raw_mark (default [] (vget (bs "marks") n ≫= as_array)).

(** ** Marks *)

Inductive HtmlTag :=
| Plain (name : str)
| Link (href : str).

Definition html_tag (m : Mark) : option HtmlTag :=
  if is_ty (ty m) "bold" then Some (Plain (bs "strong"))
  else if is_ty (ty m) "italic" then Some (Plain (bs "em"))
  else if is_ty (ty m) "strike" then Some (Plain (bs "s"))
  else if is_ty (ty m) "code" then Some (Plain (bs "code"))
  else if is_ty (ty m) "link" then
    h ← href m; if bool_decide (h = []) then None else Some (Link h)
  else None.

Definition open_plain (name : str) : str := [lt_b] ++ name ++ [gt_b].
Definition close_tag (name : str) : str := [lt_b; Byte.x2f] ++ name ++ [gt_b].

(** The output and the open elements, the innermost first. *)
Definition open_mark (s : str * list str) (tag : HtmlTag) : str * list str :=
  let '(out, open) := s in
  match tag with
  | Plain name => (out ++ open_plain name, name :: open)
  | Link h =>
    let '(out, open) :=
      match open with
      | top :: rest => if is_ty top "a" then (out ++ close_tag (bs "a"), rest) else (out, open)
      | [] => (out, open)
      end in
    let tag := if href_allowed h then bs "<a href=" ++ [quote] ++ push_attr h ++ [quote; gt_b] else bs "<a>" in
    (out ++ tag, bs "a" :: open)
  end.

(** What [push_wrapped] appends: [tags.iter().rev()], the inner text, the ends. *)
Definition push_wrapped (inner : str) (marks : list Mark) : str :=
  let '(out, open) := foldl open_mark ([], []) (reverse (omap html_tag marks)) in
  out ++ inner ++ cat (close_tag <$> open).

(** ** Inline content *)

Definition inline_node (rec : option (list value) -> option str) n : option str :=
  let t := node_type n in
  if is_ty t "hardBreak" then Some (bs "<br />")
  else if is_ty t "mention" then Some (bs "@" ++ push_text (str_attr n (bs "label")))
  else if is_ty t "text" then Some (push_wrapped (push_text (default [] (text_of n))) (raw_marks n))
  else if is_ty t "mathInline" then
    Some (push_wrapped (bs "<span data-math-inline>" ++ push_text (str_attr n (bs "latex")) ++ close_tag (bs "span")) (raw_marks n))
  else if is_ty t "emoji" then Some (push_text (emoji_glyph n))
  else rec (node_content n).

Fixpoint inline_html (fuel : nat) (nodes : option (list value)) : option str :=
  match fuel with
  | O => None
  | S fuel =>
    match nodes with
    | None => Some []
    | Some nodes => cat <$> mapM (inline_node (inline_html fuel)) nodes
    end
  end.

(** ** Blocks *)

(** An element around what [inner] appends. *)
Definition wrap (name : str) (inner : option str) : option str :=
  inner ← inner; Some (open_plain name ++ inner ++ close_tag name).

Section blocks.
(** [blocks_html] and [inline_html] of the content. *)
Context (blocks inline : option (list value) -> option str).

Definition list_html n (tag : str) : option str :=
  wrap tag (cat <$> mapM (fun item => wrap (bs "li") (blocks (node_content item))) (default [] (node_content n))).

Definition cell_html (cell : value) : option str :=
  wrap (if is_ty (node_type cell) "tableHeader" then bs "th" else bs "td") (blocks (node_content cell)).

Definition row_html (row : value) : option str :=
  wrap (bs "tr") (cat <$> mapM cell_html (default [] (node_content row))).

Definition table_html n : option str :=
  wrap (bs "table") (cat <$> mapM row_html
    (filter (fun r => is_ty (node_type r) "tableRow" = true) (default [] (node_content n)))).

Definition heading_tag (level : f64) : option str :=
  if feqb level (of_int 1) then Some (bs "h1")
  else if feqb level (of_int 2) then Some (bs "h2")
  else if feqb level (of_int 3) then Some (bs "h3")
  else None.

Definition block_html n : option str :=
  let content := node_content n in
  let t := node_type n in
  if is_ty t "attachment" then wrap (bs "p") (Some (push_text (str_attr n (bs "name"))))
  else if is_ty t "paragraph" then wrap (bs "p") (inline content)
  else if is_ty t "heading" then
    match heading_tag (heading_level n) with
    | Some tag => wrap tag (inline content)
    | None => inline content
    end
  else if is_ty t "blockquote" then wrap (bs "blockquote") (blocks content)
  else if is_ty t "codeBlock" then wrap (bs "pre") (wrap (bs "code") (inline content))
  else if is_ty t "bulletList" then list_html n (bs "ul")
  else if is_ty t "orderedList" then list_html n (bs "ol")
  else if is_ty t "listItem" then blocks content
  else if is_ty t "horizontalRule" then Some (bs "<hr />")
  else if is_ty t "math" then Some (bs "<pre data-math>" ++ push_text (str_attr n (bs "latex")) ++ close_tag (bs "pre"))
  else if is_ty t "mermaid" then Some (bs "<pre data-mermaid>" ++ push_text (str_attr n (bs "source")) ++ close_tag (bs "pre"))
  else if is_ty t "table" then table_html n
  else if is_ty t "embed" then wrap (bs "div") (Some (push_text (str_attr n (bs "ref"))))
  else if bool_decide (is_Some content) then blocks content
  else Some [].

End blocks.

Fixpoint blocks_html (fuel : nat) (nodes : option (list value)) : option str :=
  match fuel with
  | O => None
  | S fuel => cat <$> mapM (block_html (blocks_html fuel) (inline_html fuel)) (default [] nodes)
  end.

Definition tiptap_doc_to_safe_html (doc : value) : option str := blocks_html (vsize doc) (node_content doc).

End share.
