(* ===== verification/ShareTheorems.v ===== *)
(** * What a share page can contain

    The grammar of the rendered pages ([fragment]) and the reading of a link by
    a browser ([href_safe]), with the theorems that the renderer of [Share]
    stays within them. *)

From stdpp Require Import base list numbers strings sets.
From Stdlib Require Import ZArith Lia.
From S2P Require Import Prelude Text TextFacts Float Json Blocks ListQuery Share.

(** ** Links as a browser reads them *)

Definition newline_or_tab (b : byte) : bool := bool_decide (b ∈ [Byte.x09; Byte.x0a; Byte.x0d]).

Fixpoint drop_invisible (s : str) : str :=
  match s with b :: t => if visible b then s else drop_invisible t | [] => [] end.

(** The URL parser drops leading control characters and spaces, and every tab
    and line end. *)
Definition browser_url (href : str) : str := filter (fun b => newline_or_tab b = false) (drop_invisible href).

(** The link has one of the allowed schemes, or none and names no host. *)
Definition href_safe (href : str) : Prop :=
  let url := browser_url href in
  match scheme_len url with
  | Some len => to_lower <$> take len url ∈ allowed_schemes
  | None => protocol_relative url = false
  end.

Lemma drop_invisible_visible s : filter (fun b => visible b = true) (drop_invisible s) = filter (fun b => visible b = true) s.
Proof.
  induction s as [|b s IH]; [done|]. cbn [drop_invisible]. destruct (visible b) eqn:E; [done|].
  rewrite filter_cons_False; [done|congruence].
Qed.

Lemma visible_not_newline b : visible b = true -> newline_or_tab b = false.
Proof. by destruct b. Qed.

(** What the check cleans is the visible part of what the browser reads. *)
Lemma browser_cleaned href :
  filter (fun b => visible b = true) (browser_url href) = filter (fun b => visible b = true) href.
Proof.
  unfold browser_url. rewrite <- (drop_invisible_visible href). generalize (drop_invisible href) as s.
  induction s as [|b s IH]; [done|]. destruct (visible b) eqn:E.
  - rewrite filter_cons_True by by apply visible_not_newline.
    rewrite !filter_cons_True by done. by rewrite IH.
  - rewrite (filter_cons_False (fun b => visible b = true) b s) by congruence.
    destruct (newline_or_tab b) eqn:En; [by rewrite filter_cons_False by congruence|].
    rewrite filter_cons_True by done. rewrite filter_cons_False by congruence. done.
Qed.

(** Cutting comments keeps a prefix without [<]. *)
Lemma find_comment_after p r i : lt_b ∉ p -> find_str (bs "<!--") (p ++ r) = Some i -> (length p <= i)%nat.
Proof.
  revert i. induction p as [|b p IH]; intros i Hp; [simpl; lia|].
  cbn [find_str app length]. rewrite bool_decide_false.
  2: { intros [k Hk]. vm_compute in Hk. injection Hk as -> _. apply Hp. left. }
  destruct (find_str _ (p ++ r)) as [j|] eqn:Ej; [|done]. intros [= <-].
  specialize (IH j ltac:(set_solver) eq_refl). lia.
Qed.

Lemma strip_comment_prefix p r s : lt_b ∉ p -> strip_comment (p ++ r) = Some s -> exists r', s = p ++ r'.
Proof.
  intros Hp. unfold strip_comment. destruct (find_str _ (p ++ r)) as [i|] eqn:Ei; simpl; [|done].
  apply find_comment_after in Ei; [|done]. destruct (find_str _ (drop _ _)) as [j|]; simpl; [|done]. intros [= <-].
  rewrite take_app, take_ge by lia. rewrite <- app_assoc. eauto.
Qed.

Lemma strip_comments_prefix fuel p r : lt_b ∉ p -> exists r', strip_comments fuel (p ++ r) = p ++ r'.
Proof.
  intros Hp. revert r. induction fuel as [|fuel IH]; intros r; simpl; [eauto|].
  destruct (strip_comment (p ++ r)) as [s|] eqn:Es; [|eauto].
  apply strip_comment_prefix in Es as [r' ->]; [|done]. apply IH.
Qed.

(** The loop cuts until there is nothing to cut. *)
Lemma find_str_Some sub s i : find_str sub s = Some i -> exists r, s = take i s ++ sub ++ r.
Proof.
  revert i. induction s as [|b s IH]; intros i; cbn [find_str].
  - case_bool_decide as Hp; [|done]. intros [= <-]. destruct Hp as [r Hr]. by exists r.
  - case_bool_decide as Hp; [intros [= <-]; destruct Hp as [r Hr]; by exists r|].
    destruct (find_str sub s) as [j|]; simpl; [|done]. intros [= <-]. destruct (IH j eq_refl) as [r Hr].
    exists r. simpl. by rewrite <- Hr.
Qed.

Lemma strip_comment_shorter s s' : strip_comment s = Some s' -> (length s' < length s)%nat.
Proof.
  unfold strip_comment. destruct (find_str _ s) as [i|] eqn:Ei; simpl; [|done].
  destruct (find_str _ (drop _ s)) as [j|]; simpl; [|done]. intros [= <-].
  apply find_str_Some in Ei as [r Hr]. apply (f_equal length) in Hr. rewrite !length_app in Hr.
  change (length (bs "<!--")) with 4%nat in Hr. rewrite length_app, length_drop.
  pose proof (length_take_le s i). rewrite length_take in *. lia.
Qed.

Lemma strip_comments_done fuel s : (length s <= fuel)%nat -> strip_comment (strip_comments fuel s) = None.
Proof.
  revert s. induction fuel as [|fuel IH]; intros s Hs; simpl.
  - destruct s; [done|simpl in Hs; lia].
  - destruct (strip_comment s) as [s'|] eqn:Es; [|done]. apply IH. apply strip_comment_shorter in Es. lia.
Qed.

Lemma scheme_char_visible b : scheme_char b = true -> visible b = true /\ b <> lt_b.
Proof. by destruct b. Qed.

Lemma slash_visible b : slash b = true -> visible b = true /\ b <> lt_b.
Proof. by destruct b. Qed.

Lemma alpha_scheme b : is_alpha b = true -> scheme_char b = true.
Proof. unfold scheme_char. by intros ->. Qed.

Lemma count_while_spec f s : exists r, s = take (count_while f s) s ++ r /\ Forall (fun b => f b = true) (take (count_while f s) s) /\
  match r with b :: _ => f b = false | [] => True end.
Proof.
  induction s as [|b s (r & Hr & Hf & Hb)]; simpl; [by exists []|]. destruct (f b) eqn:E; [|by exists (b :: s)].
  exists r. simpl. rewrite <- Hr. auto.
Qed.

Lemma count_while_app f p b r : Forall (fun c => f c = true) p -> f b = false -> count_while f (p ++ b :: r) = length p.
Proof. induction 1 as [|c p Hc _ IH]; simpl; intros Hb; [by rewrite Hb|]. by rewrite Hc, IH. Qed.

(** A scheme is its characters and a colon. *)
Lemma scheme_len_Some url len : scheme_len url = Some len ->
  exists c p r, url = (c :: p) ++ Byte.x3a :: r /\ len = S (length p) /\ is_alpha c = true /\
    Forall (fun b => scheme_char b = true) p.
Proof.
  destruct url as [|c t]; [done|]. cbn [scheme_len]. destruct (is_alpha c) eqn:Ec; [|done].
  destruct (count_while_spec scheme_char t) as (r & Ht & Hf & _).
  case_bool_decide as Hl; [|done]. intros [= <-].
  change (t !! count_while scheme_char t = Some Byte.x3a) in Hl.
  set (p := take (count_while scheme_char t) t) in *.
  assert (length p = count_while scheme_char t) as Hp.
  { unfold p. rewrite length_take. destruct (decide (count_while scheme_char t <= length t)%nat); [lia|].
    rewrite lookup_ge_None_2 in Hl by lia. done. }
  rewrite <- Hp in Hl. rewrite Ht, lookup_app_r, Nat.sub_diag in Hl by lia. destruct r as [|b r]; [done|]. injection Hl as ->.
  exists c, p, r. rewrite Hp. split_and!; [by rewrite Ht at 1|done|done|done].
Qed.

Lemma scheme_len_app c p r : is_alpha c = true -> Forall (fun b => scheme_char b = true) p ->
  scheme_len ((c :: p) ++ Byte.x3a :: r) = Some (S (length p)).
Proof.
  intros Hc Hp. cbn [scheme_len app]. rewrite Hc, count_while_app by done.
  rewrite bool_decide_true; [done|].
  change ((p ++ Byte.x3a :: r) !! length p = Some Byte.x3a). by rewrite list_lookup_middle.
Qed.

(** A prefix of visible characters without [<] starts the cleaned link too. *)
Lemma cleaned_prefix p r href :
  Forall (fun b => visible b = true /\ b <> lt_b) p -> browser_url href = p ++ r ->
  let cleaned := filter (fun b => visible b = true) href in
  exists r', strip_comments (length cleaned) cleaned = p ++ r'.
Proof.
  intros Hp Hu. rewrite <- browser_cleaned, Hu, filter_app. cbv zeta.
  assert (filter (fun b => visible b = true) p = p) as ->.
  { clear Hu. induction Hp as [|b p [Hb _] _ IH]; [done|]. rewrite filter_cons_True by done. by rewrite IH. }
  apply strip_comments_prefix. rewrite Forall_forall in Hp. intros Hin. by destruct (Hp _ Hin) as [_ []].
Qed.

(** A link that the check accepts is harmless. *)
Lemma href_allowed_safe href : href_allowed href = true -> href_safe href.
Proof.
  unfold href_allowed, href_safe. cbv zeta. destruct (scheme_len (browser_url href)) as [len|] eqn:Es.
  - apply scheme_len_Some in Es as (c & p & r & Hu & -> & Hc & Hp).
    destruct (cleaned_prefix ((c :: p) ++ [Byte.x3a]) r href) as [r' Hr'].
    + apply Forall_app_2; [|by repeat constructor]. constructor; [by apply scheme_char_visible, alpha_scheme|].
      eapply Forall_impl; [exact Hp|]. intros b. apply scheme_char_visible.
    + by rewrite <- app_assoc.
    + cbv zeta in Hr'. rewrite Hr', <- app_assoc. change ([Byte.x3a] ++ r') with (Byte.x3a :: r').
      rewrite scheme_len_app by done. rewrite Hu.
      change (S (length p)) with (length (c :: p)). rewrite !take_app_length. by intros ?%bool_decide_eq_true.
  - destruct (protocol_relative (browser_url href)) eqn:Er; [|done].
    destruct (browser_url href) as [|a [|b r]] eqn:Hu; [done..|]. cbn in Er. apply andb_true_iff in Er as [Ha Hb].
    destruct (cleaned_prefix [a; b] r href) as [r' Hr']; [|done|].
    { apply Forall_cons_2; [by apply slash_visible|]. apply Forall_cons_2; [by apply slash_visible|constructor]. }
    cbv zeta in Hr'. rewrite Hr'. cbn [app scheme_len]. assert (is_alpha a = false) as -> by by destruct a.
    cbn. by rewrite Ha, Hb.
Qed.

(** C39: a link that the renderer keeps is harmless as a browser reads it, with
    leading control characters, tabs and line ends dropped: it has the scheme
    [http], [https] or [mailto] in any case, or it has no scheme and does not
    start with two slashes or backslashes, so it stays on the page's host.  The
    loop that cuts comments out before the check ends with none left to cut. *)
Theorem href_allowed_sound href :
  (let cleaned := filter (fun b => visible b = true) href in
   strip_comment (strip_comments (length cleaned) cleaned) = None) /\
  (href_allowed href = true -> href_safe href).
Proof. split; [by apply strip_comments_done|apply href_allowed_safe]. Qed.

Lemma href_allowed_sound_witness : href_allowed (bs "java script:x") = false /\ href_safe (bs " HTTPS://a.example/").
Proof. split; [by vm_compute|]. apply (href_allowed_sound (bs " HTTPS://a.example/")). by vm_compute. Defined.

(** ** The grammar of the pages *)

(** Escaped text and the text it stands for. *)
Inductive text_of_html : str -> str -> Prop :=
| text_nil : text_of_html [] []
| text_byte b s t : b <> lt_b -> b <> gt_b -> b <> amp -> text_of_html s t -> text_of_html (b :: s) (b :: t)
| text_amp s t : text_of_html s t -> text_of_html (bs "&amp;" ++ s) (amp :: t)
| text_lt s t : text_of_html s t -> text_of_html (bs "&lt;" ++ s) (lt_b :: t)
| text_gt s t : text_of_html s t -> text_of_html (bs "&gt;" ++ s) (gt_b :: t).

(** A quoted attribute value and the value it stands for. *)
Inductive attr_of_html : str -> str -> Prop :=
| attr_nil : attr_of_html [] []
| attr_byte b s t : b <> lt_b -> b <> gt_b -> b <> amp -> b <> quote -> attr_of_html s t -> attr_of_html (b :: s) (b :: t)
| attr_amp s t : attr_of_html s t -> attr_of_html (bs "&amp;" ++ s) (amp :: t)
| attr_lt s t : attr_of_html s t -> attr_of_html (bs "&lt;" ++ s) (lt_b :: t)
| attr_gt s t : attr_of_html s t -> attr_of_html (bs "&gt;" ++ s) (gt_b :: t)
| attr_quote s t : attr_of_html s t -> attr_of_html (bs "&quot;" ++ s) (quote :: t).

Definition element_names : list str :=
  [bs "p"; bs "h1"; bs "h2"; bs "h3"; bs "blockquote"; bs "pre"; bs "code"; bs "ul"; bs "ol"; bs "li"; bs "table";
   bs "tr"; bs "th"; bs "td"; bs "div"; bs "strong"; bs "em"; bs "s"; bs "a"].

(** The opening tags, by the name of their element. *)
Inductive open_tag : str -> str -> Prop :=
| open_bare name : name ∈ element_names -> open_tag name (open_plain name)
| open_math : open_tag (bs "pre") (bs "<pre data-math>")
| open_mermaid : open_tag (bs "pre") (bs "<pre data-mermaid>")
| open_span : open_tag (bs "span") (bs "<span data-math-inline>")
| open_link v h : attr_of_html v h -> href_safe h -> open_tag (bs "a") (bs "<a href=" ++ [quote] ++ v ++ [quote; gt_b]).

(** Text, void elements and properly nested elements. *)
Inductive fragment : str -> Prop :=
| fragment_nil : fragment []
| fragment_text s t rest : text_of_html s t -> fragment rest -> fragment (s ++ rest)
| fragment_void s rest : s ∈ [bs "<br />"; bs "<hr />"] -> fragment rest -> fragment (s ++ rest)
| fragment_element name tag inner rest :
    open_tag name tag -> fragment inner -> fragment rest -> fragment (tag ++ inner ++ close_tag name ++ rest).

Lemma fragment_app s t : fragment s -> fragment t -> fragment (s ++ t).
Proof.
  intros Hs Ht. induction Hs as [|s u rest Hu _ IH|s rest Hv _ IH|name tag inner rest Ho Hi _ _ IH]; [done|..].
  - rewrite <- app_assoc. by eapply fragment_text.
  - rewrite <- app_assoc. by apply fragment_void.
  - rewrite <- !app_assoc. by apply fragment_element.
Qed.

Lemma fragment_cat l : Forall fragment l -> fragment (cat l).
Proof. induction 1; [constructor|]. by apply fragment_app. Qed.

Lemma fragment_element' name tag inner : open_tag name tag -> fragment inner -> fragment (tag ++ inner ++ close_tag name).
Proof.
  intros Ho Hi. rewrite <- (app_nil_r (close_tag name)). apply fragment_element; [done|done|constructor].
Qed.

Lemma fragment_void' s : s ∈ [bs "<br />"; bs "<hr />"] -> fragment s.
Proof. intros Hs. rewrite <- (app_nil_r s). apply fragment_void; [done|constructor]. Qed.

Lemma push_text_html s : text_of_html (push_text s) s.
Proof.
  induction s as [|b s IH]; [constructor|]. unfold push_text in *. cbn [mbind list_bind].
  case_bool_decide; [subst; by apply text_amp|]. case_bool_decide; [subst; by apply text_lt|].
  case_bool_decide; [subst; by apply text_gt|]. by apply text_byte.
Qed.

Lemma push_attr_html s : attr_of_html (push_attr s) s.
Proof.
  induction s as [|b s IH]; [constructor|]. unfold push_attr in *. cbn [mbind list_bind].
  case_bool_decide; [subst; by apply attr_amp|]. case_bool_decide; [subst; by apply attr_lt|].
  case_bool_decide; [subst; by apply attr_gt|]. case_bool_decide; [subst; by apply attr_quote|]. by apply attr_byte.
Qed.

Lemma fragment_push_text s : fragment (push_text s).
Proof. rewrite <- (app_nil_r (push_text s)). eapply fragment_text; [apply push_text_html|constructor]. Qed.

(** ** Marks *)

(** An output with open elements, the innermost first. *)
Inductive opened : str -> list str -> Prop :=
| opened_nil out : fragment out -> opened out []
| opened_cons out open name tag inner :
    opened out open -> open_tag name tag -> fragment inner -> opened (out ++ tag ++ inner) (name :: open).

Lemma opened_app out open s : opened out open -> fragment s -> opened (out ++ s) open.
Proof.
  intros [out' Ho|out' open' name tag inner Ho Ht Hi] Hs.
  - constructor. by apply fragment_app.
  - rewrite <- !app_assoc. apply opened_cons; [done|done|by apply fragment_app].
Qed.

Lemma opened_push out open name tag : opened out open -> open_tag name tag -> opened (out ++ tag) (name :: open).
Proof. intros Ho Ht. rewrite <- (app_nil_r tag). apply opened_cons; [done|done|constructor]. Qed.

Lemma opened_pop out name open : opened out (name :: open) -> opened (out ++ close_tag name) open.
Proof.
  inversion 1 as [|out' open' name' tag inner Ho Ht Hi]; subst. rewrite <- !app_assoc.
  apply opened_app; [done|]. by apply fragment_element'.
Qed.

Lemma opened_close out open : opened out open -> fragment (out ++ cat (close_tag <$> open)).
Proof.
  revert out. induction open as [|name open IH]; intros out Ho.
  - inversion Ho; subst. by rewrite app_nil_r.
  - cbn [fmap list_fmap]. unfold cat. cbn [concat]. rewrite app_assoc. by apply IH, opened_pop.
Qed.

Lemma element_name_in s : existsb (fun e => bool_decide (s = e)) element_names = true -> s ∈ element_names.
Proof.
  rewrite existsb_exists. intros (n & Hn & Hs). apply bool_decide_eq_true in Hs as ->. by apply list_elem_of_In.
Qed.

Lemma html_tag_plain m name : html_tag m = Some (Plain name) -> name ∈ element_names.
Proof.
  unfold html_tag. intros Ht. apply element_name_in. repeat case_match; simplify_eq; try by vm_compute.
  destruct (href m); simpl in *; [|done]. by case_match.
Qed.

Lemma open_mark_opened s tag :
  (forall name, tag = Plain name -> name ∈ element_names) ->
  opened s.1 s.2 -> opened (open_mark s tag).1 (open_mark s tag).2.
Proof.
  destruct s as [out open]. destruct tag as [name|h]; cbn [fst snd]; intros Hn Ho.
  { apply opened_push; [done|]. constructor. by apply Hn. }
  assert (forall out open, opened out open -> opened
    (out ++ (if href_allowed h then bs "<a href=" ++ [quote] ++ push_attr h ++ [quote; gt_b] else bs "<a>")) (bs "a" :: open)) as Hl.
  { intros out' open' Ho'. apply opened_push; [done|]. destruct (href_allowed h) eqn:Eh.
    - apply (open_link _ h); [apply push_attr_html|by apply href_allowed_safe].
    - apply (open_bare (bs "a")). by apply element_name_in. }
  unfold open_mark. destruct open as [|top rest]; [by apply Hl|]. unfold is_ty. case_bool_decide; [|by apply Hl].
  subst top. apply Hl. by apply opened_pop.
Qed.

Lemma push_wrapped_fragment inner marks : fragment inner -> fragment (push_wrapped inner marks).
Proof.
  intros Hi. unfold push_wrapped.
  assert (forall tags s, Forall (fun tag => forall name, tag = Plain name -> name ∈ element_names) tags ->
    opened s.1 s.2 -> opened (foldl open_mark s tags).1 (foldl open_mark s tags).2) as Hf.
  { induction tags as [|tag tags IH]; intros s Ht Hs; [done|]. apply Forall_cons in Ht as [Ht1 Ht2].
    apply IH; [done|]. by apply open_mark_opened. }
  specialize (Hf (reverse (omap html_tag marks)) ([], [])).
  destruct (foldl open_mark _ _) as [out open]. rewrite app_assoc. apply opened_close, opened_app; [|done].
  apply Hf; [|repeat constructor]. apply Forall_reverse. rewrite Forall_forall.
  intros tag (m & _ & Hm)%list_elem_of_omap name ->. by apply html_tag_plain in Hm.
Qed.

(** ** Documents *)

Section pages.
Context {num : Type} `{!JsonNumber num} {E : Shortcodes}.
Abbreviation value := (value num).
Implicit Types n : value.

(** Rendering succeeds and gives a fragment. *)
Definition yields (m : option str) : Prop := exists out, m = Some out /\ fragment out.

Lemma yields_Some s : fragment s -> yields (Some s).
Proof. intros Hs. by exists s. Qed.

Lemma yields_wrap name m : existsb (fun e => bool_decide (name = e)) element_names = true -> yields m -> yields (wrap name m).
Proof.
  intros Hn%element_name_in (out & -> & Ho). eexists. split; [done|]. apply fragment_element'; [by constructor|done].
Qed.

Lemma yields_cat {A} (f : A -> option str) l : (forall x, x ∈ l -> yields (f x)) -> yields (cat <$> mapM f l).
Proof.
  induction l as [|x l IH]; intros Hf; [apply yields_Some; constructor|].
  destruct (Hf x) as (s & Es & Hs); [set_solver|]. destruct IH as (r & Er & Hr); [set_solver|].
  simpl. rewrite Es. simpl. destruct (mapM f l) as [ss|]; simpl in *; [|done]. injection Er as <-.
  apply yields_Some. by apply fragment_app.
Qed.

(** Every node is below the fuel. *)
Definition below (fuel : nat) (nodes : option (list value)) : Prop :=
  forall x, x ∈ default [] nodes -> (vsize x < fuel)%nat.

Lemma below_content fuel n : (vsize n <= fuel)%nat -> below fuel (node_content n).
Proof.
  intros Hn x Hx. destruct (node_content n) as [l|] eqn:El; unfold default, id in Hx; [|set_solver].
  pose proof (vsize_child _ _ _ El Hx). lia.
Qed.

Lemma child_lt n x : x ∈ default [] (node_content n) -> (vsize x < vsize n)%nat.
Proof. intros Hx. by apply (below_content (vsize n) n). Qed.

Lemma inline_yields fuel nodes : (0 < fuel)%nat -> below fuel nodes -> yields (inline_html fuel nodes).
Proof.
  revert nodes. induction fuel as [|fuel IH]; intros nodes Hf Hb; [lia|]. cbn [inline_html].
  destruct nodes as [l|]; [|apply yields_Some; constructor]. apply yields_cat. intros n Hn.
  specialize (Hb n Hn). unfold inline_node. repeat case_match; try apply yields_Some.
  - apply fragment_void'. set_solver.
  - eapply (fragment_text (bs "@")); [by repeat constructor|apply fragment_push_text].
  - apply push_wrapped_fragment, fragment_push_text.
  - apply push_wrapped_fragment. apply fragment_element'; [constructor|apply fragment_push_text].
  - apply fragment_push_text.
  - apply IH; [|apply below_content; lia]. destruct n; simpl in Hb; lia.
Qed.

Section blocks.
Context (blocks inline : option (list value) -> option str) (n : value).
Hypothesis blocks_ok : forall x, (vsize x <= vsize n)%nat -> yields (blocks (node_content x)).
Hypothesis inline_ok : yields (inline (node_content n)).

Lemma list_yields tag : existsb (fun e => bool_decide (tag = e)) element_names = true -> yields (list_html blocks n tag).
Proof.
  intros Ht. apply yields_wrap; [done|]. apply yields_cat. intros item Hi%child_lt.
  apply yields_wrap; [by vm_compute|]. apply blocks_ok. lia.
Qed.

Lemma table_yields : yields (table_html blocks n).
Proof.
  apply yields_wrap; [by vm_compute|]. apply yields_cat. intros row [_ Hr%child_lt]%list_elem_of_filter.
  apply yields_wrap; [by vm_compute|]. apply yields_cat. intros cell Hc%child_lt.
  apply yields_wrap; [by destruct (is_ty _ _); vm_compute|]. apply blocks_ok. lia.
Qed.

Lemma heading_yields : yields
  (match heading_tag (heading_level n) with
   | Some tag => wrap tag (inline (node_content n))
   | None => inline (node_content n)
   end).
Proof.
  unfold heading_tag. repeat case_match; simplify_eq; try done; apply yields_wrap; by try vm_compute.
Qed.

Lemma block_yields : yields (block_html blocks inline n).
Proof.
  unfold block_html. cbv zeta.
  repeat match goal with |- yields (if ?b then _ else _) => destruct b end;
    try apply list_yields; try apply table_yields; try apply heading_yields;
    repeat (apply yields_wrap; [by vm_compute|]); try done; try (apply blocks_ok; lia); try (by vm_compute); apply yields_Some;
    try apply fragment_push_text; try apply fragment_nil.
  - apply fragment_void'. set_solver.
  - apply (fragment_element' (bs "pre")); [constructor|apply fragment_push_text].
  - apply (fragment_element' (bs "pre")); [constructor|apply fragment_push_text].
Qed.

End blocks.

Lemma vsize_pos n : (0 < vsize n)%nat.
Proof. destruct n; simpl; lia. Qed.

Lemma blocks_yields fuel nodes : (0 < fuel)%nat -> below fuel nodes -> yields (blocks_html fuel nodes).
Proof.
  revert nodes. induction fuel as [|fuel IH]; intros nodes Hf Hb; [lia|]. cbn [blocks_html].
  apply yields_cat. intros n Hn. specialize (Hb n Hn). pose proof (vsize_pos n). apply block_yields.
  - intros x Hx. apply IH; [lia|]. apply below_content. lia.
  - apply inline_yields; [lia|]. apply below_content. lia.
Qed.

(** C5: a share page is safe whatever the document holds.  Rendering always ends,
    and its output is text without markup characters, [br] and [hr], and
    properly nested elements of the allowed kinds, with no attributes but the
    three data markers and link addresses, which stay inside their quotes and
    are harmless as a browser reads them. *)
Theorem share_html_safe (doc : value) : exists html, tiptap_doc_to_safe_html doc = Some html /\ fragment html.
Proof. apply blocks_yields; [apply vsize_pos|]. by apply below_content. Qed.

End pages.
