(* ===== verification/ListQueryTheorems.v ===== *)
(** * Task list queries: the saved-view contract

    The printer is a right inverse of the strict parser on everything the
    parser accepts, so a stored view re-parses to itself and comparing stored
    JSON is comparing queries. *)

From stdpp Require Import base list numbers strings gmap.
From Stdlib Require Import ZArith Lia Floats.SpecFloat.
From S2P Require Import Prelude Text Uuid Json Chrono Float ListQuery.

(** ** What an accepted query satisfies *)

Section wf.
Context {U : UuidLib} {C : Chrono}.

Definition year_of (d : naive_date) : Z := (ymd d).1.1.
Definition date_ok (d : naive_date) : Prop := 1 <= year_of d <= 9999.
Definition text_ok (s : str) : Prop := contains_nul s = false /\ len (chars s) <= TITLE_MAX.

Definition custom_ok (c : CustomFilter) : Prop :=
  match operator c with
  | OpEquals (CText s) => text_ok s
  | OpEquals (CNumber x) => is_finite x = true
  | _ => True
  end.

Record filters_wf (f : ViewFilters) : Prop := {
  wf_type s : task_type f = Some s -> str_in s TASK_TYPES = true;
  wf_priority s : priority f = Some s -> str_in s PRIORITIES = true;
  wf_title s : title f = Some s -> text_ok s /\ trim s <> [];
  wf_due d : due_before f = Some d -> date_ok d;
  wf_custom : Forall custom_ok (custom f);
  wf_custom_len : len (custom f) <= CUSTOM_FILTERS_MAX;
}.

Definition view_wf (q : ViewQuery) : Prop := filters_wf (filters q) /\ len (sort q) <= SORT_MAX.

End wf.

(** ** Dates *)

Section dates.
Context {C : Chrono} {CL : ChronoLaws C}.

Lemma parse_iso_date_ok s d : parse_iso_date s = Some d -> date_ok d.
Proof.
  unfold parse_iso_date. cbn zeta.
  destruct (negb _) eqn:Hs; [done|].
  destruct (bool_decide (take _ _ = _)) eqn:H0; [done|].
  bool_to_prop. repeat match goal with H : (_ =? _)%nat = true |- _ => apply Nat.eqb_eq in H end.
  do 10 (destruct s as [|? s]; [done|]). destruct s; [|done]. cbn in *. simplify_eq.
  cbn in *. bool_to_prop.
  match goal with |- parse_ymd ?l = _ -> _ => set (l0 := l) end.
  change l0 with ([b; b0; b1; b2] ++ bs "-" ++ [b4; b5] ++ bs "-" ++ [b7; b8]).
  rewrite parse_digits by (try done; cbn; by repeat constructor).
  intros Hd%from_ymd_ymd. unfold date_ok, year_of. rewrite Hd. cbn [fst].
  assert (Hdig : Forall (fun b => is_ascii_digit b = true) [b; b0; b1; b2]) by (by repeat constructor).
  pose proof (digits_dec_value [b; b0; b1; b2] 4 eq_refl Hdig) as Hv.
  assert (dec_value [b; b0; b1; b2] <> 0) as Hne.
  { intros E. rewrite E in Hv. apply H0. rewrite <- Hv. reflexivity. }
  unfold is_ascii_digit, in_range in *. bool_to_prop.
  unfold dec_value in *. cbn in *. lia.
Qed.

Lemma parse_iso_date_format d : date_ok d -> parse_iso_date (format_ymd d) = Some d.
Proof.
  unfold date_ok, year_of. destruct (ymd d) as [[y m] k] eqn:E. cbn. intros Hy.
  pose proof (parse_format d y m k E ltac:(lia)) as Hp. rewrite (format_iso d y m k) in * by (done || lia).
  unfold parse_iso_date. cbn zeta. rewrite (bool_decide_false (take _ _ = _)), Hp.
  2: { unfold iso. rewrite take_app_le by (rewrite dec_digits_length; lia).
       rewrite take_ge by (rewrite dec_digits_length; lia). intros H0.
       assert (Hd : dec_value (dec_digits 4 y) = dec_value (bs "0000")) by (by rewrite H0).
       rewrite dec_value_digits in Hd by lia. change (y = 0) in Hd. lia. }
  pose proof (dec_digits_ascii 4 y) as D4. pose proof (dec_digits_ascii 2 m) as D2. pose proof (dec_digits_ascii 2 k) as D3.
  unfold iso. cbn in D4, D2, D3 |- *. decompose_Forall_hyps.
  repeat match goal with H : is_ascii_digit _ = true |- _ => rewrite H; clear H end. done.
Qed.

End dates.

(** ** Maps built by the printer *)

Section insert_opt.
Context {num : Type}.
Implicit Types m : list (str * value num).

Lemma insert_opt_sorted k o m : map_sorted m -> map_sorted (insert_opt k o m).
Proof. destruct o; [apply map_insert_sorted|done]. Qed.

Lemma get_insert_opt k o m : map_sorted m -> map_get (bs k) m = None -> map_get (bs k) (insert_opt k o m) = o.
Proof. destruct o; [intros Hs _; by apply map_get_insert|done]. Qed.

Lemma get_insert_opt_ne k k' o m : bs k <> bs k' -> map_get (bs k) (insert_opt k' o m) = map_get (bs k) m.
Proof. destruct o; [apply map_get_insert_ne|done]. Qed.

Lemma insert_opt_keys k o m allowed :
  str_in (bs k) allowed = true -> Forall (fun e => str_in e.1 allowed = true) m ->
  Forall (fun e => str_in e.1 allowed = true) (insert_opt k o m).
Proof. destruct o; [intros; by apply map_insert_Forall|done]. Qed.

Lemma reject_unknown_keys_ok m allowed :
  Forall (fun e => str_in e.1 allowed = true) m -> reject_unknown_keys m allowed = Ok tt.
Proof.
  intros Hm. unfold reject_unknown_keys. replace (forallb _ m) with true; [done|]. symmetry.
  apply forallb_forall. intros e He. rewrite Forall_forall in Hm. apply Hm. by apply list_elem_of_In.
Qed.

End insert_opt.

(** Look a key up in a chain of insertions with concrete keys. *)
Ltac map_lookup :=
  repeat first
    [ rewrite get_insert_opt; [|repeat apply insert_opt_sorted; exact I|
        repeat (rewrite get_insert_opt_ne by (by_decide)); reflexivity]
    | rewrite get_insert_opt_ne by by_decide ].

(** ** Round trips *)

Section roundtrip.
Context {U : UuidLib} {UL : UuidLaws U} {C : Chrono} {CL : ChronoLaws C}.
Context {num : Type} {N : JsonNumber num} {NL : JsonNumberLaws num}.

Lemma len_hyphenated (u : uuid) : len (hyphenated u) = 36.
Proof. unfold len. by rewrite hyphenated_length. Qed.

Lemma parse_uuid_print (u : uuid) : parse_uuid (num := num) (juuid u) = Ok u.
Proof. unfold parse_uuid. cbn. by rewrite len_hyphenated, try_parse_hyphenated. Qed.

Lemma parse_assignee_print a : parse_assignee_id (num := num) (VString (assignee_text a)) = Ok a.
Proof.
  destruct a as [|u]; [done|]. unfold parse_assignee_id. cbn. rewrite bool_decide_false.
  - by rewrite try_parse_hyphenated.
  - intros E. pose proof (hyphenated_length u) as Hl. by rewrite E in Hl.
Qed.

Lemma parse_sort_field_print f : parse_sort_field (num := num) (VString (sort_field_key f)) = Ok f.
Proof.
  destruct f; try done. unfold parse_sort_field. cbn. by rewrite len_hyphenated, try_parse_hyphenated.
Qed.

Lemma parse_sort_entry_print e : parse_sort_entry (num := num) (sort_entry_json e) = Ok e.
Proof.
  destruct e as [f d]. transitivity (
    f' ← parse_sort_field (num := num) (VString (sort_field_key f));
    d' ← parse_sort_direction (num := num) (jstr (if bool_decide (d = Asc) then "asc" else "desc"));
    Ok (E := TaskListQueryError) {| field := f'; direction := d' |}); [reflexivity|].
  rewrite parse_sort_field_print. by destruct d.
Qed.

Lemma parse_custom_value_print x :
  match x with CText s => text_ok s | CNumber x => is_finite x = true | CBool _ => True end ->
  parse_custom_value (Some (custom_value_json (num := num) x)) = Ok x.
Proof.
  destruct x as [s|x|b]; [cbn|intros Hx|done].
  - intros [-> Hl]. by rewrite (proj2 (Z.ltb_ge _ _)).
  - destruct (num_from_finite x Hx) as (n & Hf & Hn). unfold custom_value_json. rewrite Hf.
    change (parse_custom_value _) with
      (y ← ok_or (num_as_f64 n) InvalidInput; if negb (is_finite y) then Err InvalidInput else Ok (CNumber y)).
    rewrite Hn. change (_ ≫= _) with (if negb (is_finite x) then Err InvalidInput else Ok (CNumber x)). by rewrite Hx.
Qed.

Lemma parse_custom_filter_print c : custom_ok c -> parse_custom_filter (num := num) (custom_filter_json c) = Ok c.
Proof.
  destruct c as [u [|x]]; intros Hc; unfold custom_ok in Hc; cbn [operator] in Hc.
  - transitivity (id ← parse_uuid (num := num) (juuid u);
      Ok (E := TaskListQueryError) {| field_id := id; operator := OpEmpty |}); [reflexivity|].
    by rewrite parse_uuid_print.
  - transitivity (id ← parse_uuid (num := num) (juuid u);
      op ← (x ← parse_custom_value (Some (custom_value_json (num := num) x)); Ok (OpEquals x));
      Ok (E := TaskListQueryError) {| field_id := id; operator := op |}); [reflexivity|].
    by rewrite parse_uuid_print, parse_custom_value_print.
Qed.

(** Every filter key of the printed object holds what its own insertion put there. *)
Lemma view_filters_map_keys f : reject_unknown_keys (num := num) (view_filters_map f) FILTER_KEYS = Ok tt.
Proof. apply reject_unknown_keys_ok. unfold view_filters_map. by repeat (apply insert_opt_keys; [by_decide|]). Qed.

Lemma transpose_print {A E B} (p : A -> result E B) (g : B -> A) o :
  (forall x, o = Some x -> p (g x) = Ok x) -> transpose p (g <$> o) = Ok o.
Proof. destruct o as [x|]; cbn; [|done]. intros H. by rewrite (H x). Qed.

Lemma parse_choice_print (l : list string) s :
  str_in s l = true ->
  (raw ← ok_or (as_str (num := num) (VString s)) InvalidInput; if str_in raw l then Ok raw else Err InvalidInput) = Ok s.
Proof. intros H. cbn [as_str ok_or mbind result_bind]. by rewrite H. Qed.

Lemma parse_custom_filters_print l :
  Forall custom_ok l -> len l <= CUSTOM_FILTERS_MAX ->
  parse_custom_filters (num := num) (VArray (custom_filter_json <$> l)) = Ok l.
Proof.
  intros Hl Hn. unfold parse_custom_filters. cbn [as_array ok_or mbind result_bind].
  unfold len. rewrite length_fmap. fold (len l). rewrite (proj2 (Z.ltb_ge _ _)) by done.
  apply mapM_fmap_Ok. eapply Forall_mono; [|exact Hl]. apply parse_custom_filter_print.
Qed.

Lemma open_only_print (b : bool) :
  match (if b then Some (VBool (num := num) true) else None) with
  | None => Ok false
  | Some v => ok_or (as_bool v) InvalidInput
  end = Ok b.
Proof. by destruct b. Qed.

Lemma custom_print l :
  Forall custom_ok l -> len l <= CUSTOM_FILTERS_MAX ->
  match (match l with [] => None | c :: k => Some (VArray (num := num) (custom_filter_json <$> c :: k)) end) with
  | None => Ok []
  | Some v => parse_custom_filters v
  end = Ok l.
Proof. destruct l; [done|]. apply parse_custom_filters_print. Qed.

Lemma parse_view_filters_print f :
  filters_wf f -> parse_view_filters (num := num) (VObject (view_filters_map f)) = Ok f.
Proof.
  intros []. unfold parse_view_filters. cbn [as_object ok_or mbind result_bind].
  rewrite view_filters_map_keys. cbn [mbind result_bind]. unfold view_filters_map. map_lookup.
  rewrite (transpose_print parse_task_type) by (intros; by apply parse_choice_print, wf_type0).
  cbn [mbind result_bind]. rewrite !(transpose_print parse_uuid) by (intros; apply parse_uuid_print).
  cbn [mbind result_bind].
  rewrite (transpose_print parse_priority) by (intros; by apply parse_choice_print, wf_priority0).
  cbn [mbind result_bind]. rewrite open_only_print.
  cbn [mbind result_bind]. rewrite (transpose_print parse_title).
  2: { intros s Hs. destruct (wf_title0 s Hs) as [[Hc Hl] Ht]. unfold parse_title. cbn [as_str ok_or mbind result_bind].
       by rewrite Hc, (proj2 (Z.ltb_ge _ _)), bool_decide_false. }
  cbn [mbind result_bind].
  rewrite (transpose_print parse_assignee_id) by (intros; apply parse_assignee_print).
  cbn [mbind result_bind]. rewrite (transpose_print _ (VString ∘ format_ymd)).
  2: { intros d Hd. cbn. by rewrite parse_iso_date_format by auto. }
  cbn [mbind result_bind]. rewrite custom_print by done.
  by destruct f.
Qed.

Lemma view_query_print_parse q : view_wf q -> parse_view_query_value (num := num) (view_query_to_json q) = Ok q.
Proof.
  intros [Hf Hs]. destruct q as [f s]. cbn [filters sort] in *.
  transitivity (f' ← parse_view_filters (num := num) (VObject (view_filters_map f));
    s' ← parse_view_sort (num := num) (VArray (sort_entry_json <$> s));
    Ok (E := TaskListQueryError) {| filters := f'; sort := s' |}); [reflexivity|].
  rewrite parse_view_filters_print by done. cbn [mbind result_bind]. unfold parse_view_sort.
  cbn [as_array ok_or mbind result_bind]. unfold len. rewrite length_fmap. fold (len s).
  rewrite (proj2 (Z.ltb_ge _ _)) by done.
  rewrite mapM_fmap_Ok; [done|]. apply Forall_true. intros e. apply parse_sort_entry_print.
Qed.

(** ** Accepted queries are well formed *)

Lemma transpose_Ok {A E B} (p : A -> result E B) o r x :
  transpose p o = Ok r -> r = Some x -> exists a, p a = Ok x.
Proof. destruct o as [a|]; cbn; [|by intros [= <-]]. intros (b & Hb & [= <-])%bind_Ok [= ->]. eauto. Qed.

Lemma parse_choice_Ok (v : value num) l s :
  (raw ← ok_or (as_str v) InvalidInput; if str_in raw l then Ok raw else Err InvalidInput) = Ok s -> str_in s l = true.
Proof. intros (raw & _ & H)%bind_Ok. case_hyp H; [|done]. by injection H as <-. Qed.

Lemma parse_title_Ok (v : value num) s : parse_title v = Ok s -> text_ok s /\ trim s <> [].
Proof.
  intros (raw & _ & H)%bind_Ok. case_hyp H; [done|]. injection H as <-. bool_to_prop. by split_and!.
Qed.

Lemma parse_custom_value_Ok o x :
  parse_custom_value (num := num) o = Ok x ->
  match x with CText s => text_ok s | CNumber x => is_finite x = true | CBool _ => True end.
Proof.
  destruct o as [[| | n | s | |]|]; cbn -[is_finite]; try done; [by intros [= <-]|..].
  - intros (y & _ & H)%bind_Ok. case_hyp H; [done|]. injection H as <-. by bool_to_prop.
  - case_goal; [done|]. intros [= <-]. bool_to_prop. by split.
Qed.

Lemma parse_custom_filter_Ok v c : parse_custom_filter (num := num) v = Ok c -> custom_ok c.
Proof.
  unfold parse_custom_filter. intros H. inv_binds H. injection H as <-. unfold custom_ok. cbn [operator].
  destruct (map_get (bs "operator") a ≫= as_str); [|done].
  repeat (case_hyp Ha2; [inv_binds Ha2; injection Ha2 as <-|]); [done|..|done].
  by eapply parse_custom_value_Ok.
Qed.

Lemma parse_custom_filters_Ok v l :
  parse_custom_filters (num := num) v = Ok l -> Forall custom_ok l /\ len l <= CUSTOM_FILTERS_MAX.
Proof.
  intros (a & _ & H)%bind_Ok. case_hyp H; [done|]. bool_to_prop.
  apply (mapM_Ok_Forall _ custom_ok) in H as [Hl Hn]; [|intros ??; apply parse_custom_filter_Ok].
  unfold len in *. split; [done|lia].
Qed.

Lemma parse_view_filters_Ok v f : parse_view_filters (num := num) v = Ok f -> filters_wf f.
Proof.
  unfold parse_view_filters. intros H. inv_binds H. injection H as <-.
  assert (Hc : Forall custom_ok a10 /\ len a10 <= CUSTOM_FILTERS_MAX).
  { case_hyp Ha10; [by apply parse_custom_filters_Ok in Ha10|]. injection Ha10 as <-. split; [done|by compute]. }
  split; cbn [task_type priority title due_before custom]; try apply Hc; intros x Hx.
  - eapply transpose_Ok in Ha1 as [? ?]; [|done]. by eapply parse_choice_Ok.
  - eapply transpose_Ok in Ha3 as [? ?]; [|done]. by eapply parse_choice_Ok.
  - eapply transpose_Ok in Ha5 as [? ?]; [|done]. by eapply parse_title_Ok.
  - eapply transpose_Ok in Ha9 as [y Hy]; [|done]. apply ok_or_inv in Hy.
    apply bind_Some in Hy as (s & _ & Hs). by eapply parse_iso_date_ok.
Qed.

Lemma parse_view_query_Ok v q : parse_view_query_value (num := num) v = Ok q -> view_wf q.
Proof.
  unfold parse_view_query_value. intros H. inv_binds H. injection H as <-. split; cbn [filters sort].
  - case_hyp Ha1; [by eapply parse_view_filters_Ok|]. injection Ha1 as <-. split; try done; by compute.
  - case_hyp Ha2; [|injection Ha2 as <-; by compute]. apply bind_Ok in Ha2 as (l & _ & H). case_hyp H; [done|].
    bool_to_prop. apply mapM_Ok, Forall2_length in H. unfold len in *. lia.
Qed.

(** C29: The printed form of every accepted view query parses back to the very
    same query, the stored form is therefore a fixed point, and two accepted
    queries have the same stored form exactly when they are the same query:
    comparing stored JSON (the compare-and-swap of saved views) compares
    queries. *)
Theorem view_query_canonical (v1 v2 : value num) (q1 q2 : ViewQuery) :
  parse_view_query_value v1 = Ok q1 -> parse_view_query_value v2 = Ok q2 ->
  parse_view_query_value (view_query_to_json (num := num) q1) = Ok q1 /\
  (view_query_to_json (num := num) q1 = view_query_to_json q2 <-> q1 = q2).
Proof.
  intros H1%parse_view_query_Ok%view_query_print_parse H2%parse_view_query_Ok%view_query_print_parse.
  split; [done|]. split; [|by intros ->]. intros E. rewrite E in H1. congruence.
Qed.

End roundtrip.

(** ** Cursors *)

Section cursors.
Context {U : UuidLib} {UL : UuidLaws U} {C : Chrono} {CL : ChronoLaws C}.
Context {J : SerdeJson} {JL : SerdeJsonLaws J} {N : JsonNumber number} {NL : JsonNumberLaws number}.
Context {I : Instants} {IL : InstantLaws I} {B : Encodings} {BL : EncodingLaws B}.

Lemma to_string_from (v : value number) : value_wf v -> from_slice (to_string v) = Some v.
Proof. intros (s & Hs & _ & Hf)%to_vec_from. unfold to_string. rewrite Hs. exact Hf. Qed.

Lemma hyphenated_utf8 (u : uuid) : utf8_valid (hyphenated u) = true.
Proof.
  apply utf8_valid_ascii. eapply Forall_mono; [|apply hyphenated_chars]. intros b Hb.
  unfold uuid_char, is_lower_hex, in_range in Hb. apply orb_true_iff in Hb as [Hb|Hb]; bool_to_prop.
  - destruct Hb; bool_to_prop; lia.
  - by subst.
Qed.

(** A cursor as the server makes it: both digests are 64 lowercase hex digits
    and the instant has a four-digit year. *)
Definition cursor_ok (c : TaskListCursor) : Prop :=
  utf8_valid (cur_key c) = true /\ utf8_valid (cur_f c) = true /\
  is_lower_hex_64 (cur_key c) = true /\ is_lower_hex_64 (cur_f c) = true /\ 0 <= utc_year (cur_as_of c) <= 9999.

Definition cursor_entries (c : TaskListCursor) : list (str * value number) :=
  [(bs "asOf", VString (to_rfc3339 (cur_as_of c))); (bs "f", VString (cur_f c)); (bs "id", juuid (cur_id c));
   (bs "key", VString (cur_key c))].

Lemma encode_cursor_eq c : encode_cursor c = b64_encode (to_string (VObject (cursor_entries c))).
Proof. reflexivity. Qed.

Lemma cursor_entries_wf c : cursor_ok c -> value_wf (VObject (cursor_entries c)).
Proof.
  intros (Hk & Hf & _). apply value_wf_object. split; [by repeat split; repeat constructor|].
  repeat constructor; cbn [fst snd]; try done; [apply rfc3339_utf8|apply hyphenated_utf8].
Qed.

(** A cursor the server issues decodes to itself, so the next page resumes
    at the same row, filters and instant; and whatever decodes at all carries
    two digests of 64 lowercase hex digits. *)
Theorem cursor_roundtrip (c : TaskListCursor) :
  cursor_ok c ->
  decode_cursor (encode_cursor c) = Ok c /\
  forall raw c', decode_cursor raw = Ok c' -> is_lower_hex_64 (cur_key c') = true /\ is_lower_hex_64 (cur_f c') = true.
Proof.
  intros Hc. split.
  - unfold decode_cursor. rewrite encode_cursor_eq, b64_roundtrip. cbn [ok_or mbind result_bind].
    rewrite to_string_from by (by apply cursor_entries_wf). destruct c as [u k f t]. destruct Hc as (_ & _ & Hk & Hf & Ht).
    cbn [cur_id cur_key cur_f cur_as_of] in *.
    transitivity (
      id ← parse_uuid (num := number) (juuid u);
      if negb (is_lower_hex_64 k) || negb (is_lower_hex_64 f) then Err InvalidCursor
      else t' ← ok_or (parse_from_rfc3339 (to_rfc3339 t)) InvalidCursor;
           Ok (E := TaskListQueryError) {| cur_id := id; cur_key := k; cur_f := f; cur_as_of := t' |}); [reflexivity|].
    rewrite parse_uuid_print. cbn [mbind result_bind]. by rewrite Hk, Hf, rfc3339_roundtrip.
  - intros raw c' H. unfold decode_cursor in H. inv_binds H. case_hyp H; [done|]. inv_binds H. injection H as <-.
    cbn [cur_key cur_f]. bool_to_prop. done.
Qed.

(** ** The filter fingerprint *)

Definition custom_utf8 (c : CustomFilter) : Prop :=
  match operator c with OpEquals (CText s) => utf8_valid s = true | _ => True end.

(** A parsed query of UTF-8 strings. *)
Definition query_ok (q : ParsedTaskListQuery) : Prop :=
  view_wf (view q) /\ from_option (fun s => utf8_valid s = true) True (title (filters (view q))) /\
  Forall custom_utf8 (custom (filters (view q))) /\
  from_option date_ok True (from q) /\ from_option date_ok True (to q).

Definition fingerprint_filters (f : ViewFilters) : value number :=
  VObject
    [(bs "assigneeId", jopt (VString ∘ assignee_text <$> assignee_id f));
     (bs "custom", match custom f with [] => VNull | l => VArray (custom_filter_json <$> l) end);
     (bs "dueBefore", jopt (VString ∘ format_ymd <$> due_before f));
     (bs "labelId", jopt (juuid <$> label_id f));
     (bs "milestoneId", jopt (juuid <$> milestone_id f));
     (bs "openOnly", VBool (open_only f));
     (bs "priority", jopt (VString <$> priority f));
     (bs "statusId", jopt (juuid <$> status_id f));
     (bs "title", jopt (VString <$> title f));
     (bs "type", jopt (VString <$> task_type f))].

(** The payload with its keys in order. *)
Lemma fingerprint_payload_eq w p z q :
  fingerprint_payload w p z q =
  VObject
    [(bs "archived", VBool (archived q));
     (bs "from", jopt (VString ∘ format_ymd <$> from q));
     (bs "projectId", jopt (juuid <$> p));
     (bs "query", VObject [(bs "filters", fingerprint_filters (filters (view q)));
                           (bs "sort", VArray (sort_entry_json <$> sort (view q)))]);
     (bs "timeZone", VString z);
     (bs "to", jopt (VString ∘ format_ymd <$> to q));
     (bs "workspaceId", juuid w)].
Proof. reflexivity. Qed.

Lemma jopt_inj {A} (g : A -> value number) (P : A -> Prop) o1 o2 :
  (forall x y, P x -> P y -> g x = g y -> x = y) -> (forall x, g x <> VNull) ->
  from_option P True o1 -> from_option P True o2 -> jopt (g <$> o1) = jopt (g <$> o2) -> o1 = o2.
Proof.
  intros Hg Hn. destruct o1 as [x|], o2 as [y|]; unfold jopt;
    cbn [fmap option_fmap option_map default from_option id]; intros Hx Hy E; [..|done].
  - f_equal. by apply Hg.
  - by apply Hn in E.
  - symmetry in E. by apply Hn in E.
Qed.

Lemma from_option_True {A} (o : option A) : from_option (fun _ => True) True o.
Proof. by destruct o. Qed.

Lemma from_option_weaken {A} (P : A -> Prop) o : (forall x, o = Some x -> P x) -> from_option P True o.
Proof. destruct o; cbn; auto. Qed.

Lemma hyphenated_inj (u v : uuid) : hyphenated u = hyphenated v -> u = v.
Proof. intros E. pose proof (try_parse_hyphenated u) as Hu. rewrite E, try_parse_hyphenated in Hu. congruence. Qed.

Lemma format_inj a b : date_ok a -> date_ok b -> format_ymd a = format_ymd b -> a = b.
Proof.
  intros Ha%parse_iso_date_format Hb%parse_iso_date_format E. rewrite E in Ha. congruence.
Qed.

Lemma jstr_opt_inj (o1 o2 : option str) :
  jopt (VString <$> o1) = jopt (VString <$> o2) -> o1 = o2.
Proof. apply (jopt_inj _ (fun _ => True)); try apply from_option_True; [congruence|done]. Qed.

Lemma juuid_opt_inj (o1 o2 : option uuid) : jopt (juuid <$> o1) = jopt (juuid <$> o2) -> o1 = o2.
Proof.
  apply (jopt_inj _ (fun _ => True)); try apply from_option_True; [|done].
  intros x y _ _ [= E]. by apply hyphenated_inj.
Qed.

Lemma jdate_opt_inj o1 o2 :
  from_option date_ok True o1 -> from_option date_ok True o2 ->
  jopt (VString ∘ format_ymd <$> o1) = jopt (VString ∘ format_ymd <$> o2) -> o1 = o2.
Proof. apply jopt_inj; [|done]. intros x y Hx Hy [= E]. by apply format_inj. Qed.

Lemma jassignee_opt_inj (o1 o2 : option AssigneeFilter) :
  jopt (VString ∘ assignee_text <$> o1) = jopt (VString ∘ assignee_text <$> o2) -> o1 = o2.
Proof.
  apply (jopt_inj _ (fun _ => True)); try apply from_option_True; [|done]. intros x y _ _ E.
  pose proof (parse_assignee_print (num := number) x) as Hx. pose proof (parse_assignee_print (num := number) y) as Hy.
  cbn [compose] in E. rewrite E in Hx. congruence.
Qed.

Lemma custom_json_inj (l1 l2 : list CustomFilter) :
  Forall custom_ok l1 -> Forall custom_ok l2 ->
  match l1 with [] => VNull | c :: l => VArray (num := number) (custom_filter_json <$> c :: l) end =
  match l2 with [] => VNull | c :: l => VArray (custom_filter_json <$> c :: l) end -> l1 = l2.
Proof.
  intros H1 H2 E. assert (custom_filter_json (num := number) <$> l1 = custom_filter_json <$> l2) as E'.
  { destruct l1, l2; congruence. }
  assert (Hp : forall l, Forall custom_ok l -> mapM (parse_custom_filter (num := number)) (custom_filter_json <$> l) = Ok l).
  { intros l Hl. apply mapM_fmap_Ok. eapply Forall_mono; [|exact Hl]. apply parse_custom_filter_print. }
  pose proof (Hp _ H1) as P1. rewrite E', (Hp _ H2) in P1. congruence.
Qed.

Lemma sort_json_inj (l1 l2 : list ViewSort) :
  sort_entry_json (num := number) <$> l1 = sort_entry_json <$> l2 -> l1 = l2.
Proof.
  assert (Hp : forall l, mapM (parse_sort_entry (num := number)) (sort_entry_json <$> l) = Ok l).
  { intros l. apply mapM_fmap_Ok, Forall_true. apply parse_sort_entry_print. }
  intros E. pose proof (Hp l1) as P1. rewrite E, Hp in P1. congruence.
Qed.

Lemma object_cons_inj k (x y : value number) m1 m2 :
  VObject ((k, x) :: m1) = VObject ((k, y) :: m2) -> x = y /\ VObject m1 = VObject m2.
Proof. by intros [= -> ->]. Qed.

Lemma fingerprint_filters_inj f1 f2 :
  filters_wf f1 -> filters_wf f2 -> fingerprint_filters f1 = fingerprint_filters f2 -> f1 = f2.
Proof.
  intros W1 W2 E. unfold fingerprint_filters in E.
  apply object_cons_inj in E as [E1 E]. apply object_cons_inj in E as [E2 E]. apply object_cons_inj in E as [E3 E].
  apply object_cons_inj in E as [E4 E]. apply object_cons_inj in E as [E5 E]. apply object_cons_inj in E as [E6 E].
  apply object_cons_inj in E as [E7 E]. apply object_cons_inj in E as [E8 E]. apply object_cons_inj in E as [E9 E].
  apply object_cons_inj in E as [E10 _]. injection E6 as E6.
  apply jassignee_opt_inj in E1. apply custom_json_inj in E2; [|apply W1|apply W2].
  apply jdate_opt_inj in E3; [|apply from_option_weaken, W1|apply from_option_weaken, W2].
  apply juuid_opt_inj in E4, E5, E8. apply jstr_opt_inj in E7, E9, E10.
  destruct f1, f2; cbn in *; congruence.
Qed.

(** One goal per entry of a concrete list. *)
Ltac each_entry := repeat (apply Forall_cons_2; cbn [snd]); try apply Forall_nil_2.

Lemma object_wf (m : list (str * value number)) :
  map_sorted m -> Forall (fun e => utf8_valid e.1 = true) m -> Forall (fun e => value_wf e.2) m -> value_wf (VObject m).
Proof. intros Hs Hk Hv. apply value_wf_object. split; [done|]. apply Forall_and. by split. Qed.

Lemma jopt_wf {A} (g : A -> value number) o : (forall x, o = Some x -> value_wf (g x)) -> value_wf (jopt (g <$> o)).
Proof. destruct o; cbn; [auto|done]. Qed.

Lemma format_utf8 d : date_ok d -> utf8_valid (format_ymd d) = true.
Proof.
  unfold date_ok, year_of. destruct (ymd d) as [[y m] k] eqn:E. cbn. intros Hy.
  rewrite (format_iso d y m k) by (done || lia). apply utf8_valid_ascii. unfold iso.
  rewrite !Forall_app. split_and!; try (by repeat constructor);
    (eapply Forall_mono; [|apply dec_digits_ascii]; intros b Hb; unfold is_ascii_digit, in_range in Hb; bool_to_prop; lia).
Qed.

Lemma str_in_utf8 s l : Forall (fun a => utf8_valid (bs a) = true) l -> str_in s l = true -> utf8_valid s = true.
Proof.
  unfold str_in. intros Hl Hs. apply existsb_exists in Hs as (a & Ha & Hs). bool_to_prop. subst.
  rewrite Forall_forall in Hl. by apply Hl, list_elem_of_In.
Qed.

Lemma custom_filter_json_wf c : custom_utf8 c -> value_wf (custom_filter_json (num := number) c).
Proof.
  destruct c as [u [|x]]; unfold custom_utf8; cbn [operator]; intros Hc.
  - apply (object_wf [(bs "fieldId", juuid u); (bs "operator", jstr "empty")]);
      [by repeat split; repeat constructor|by repeat constructor|each_entry; [apply hyphenated_utf8|done]].
  - apply (object_wf [(bs "fieldId", juuid u); (bs "operator", jstr "equals"); (bs "value", custom_value_json x)]);
      [by repeat split; repeat constructor|by repeat constructor|each_entry; [apply hyphenated_utf8|done|]].
    destruct x as [s|x|b]; cbn; [done| |done]. by destruct (num_from_f64 x).
Qed.

Lemma sort_entry_json_wf e : value_wf (sort_entry_json (num := number) e).
Proof.
  apply (object_wf [(bs "direction", jstr (if bool_decide (direction e = Asc) then "asc" else "desc"));
                    (bs "field", VString (sort_field_key (field e)))]);
    [by repeat split; repeat constructor|by repeat constructor|each_entry].
  - by destruct (direction e).
  - destruct (field e); try done. apply hyphenated_utf8.
Qed.

Lemma fingerprint_filters_wf f :
  filters_wf f -> from_option (fun s => utf8_valid s = true) True (title f) -> Forall custom_utf8 (custom f) ->
  value_wf (fingerprint_filters f).
Proof.
  intros Hf Ht Hc. apply object_wf; [by repeat split; repeat constructor|by repeat constructor|].
  each_entry; try done; try (apply jopt_wf; intros x Hx; cbn [compose]).
  - destruct x; [done|apply hyphenated_utf8].
  - destruct (custom f); [done|]. apply value_wf_array, Forall_fmap. eapply Forall_mono; [|exact Hc].
    apply custom_filter_json_wf.
  - by eapply format_utf8, wf_due.
  - apply hyphenated_utf8.
  - apply hyphenated_utf8.
  - eapply str_in_utf8; [|by eapply wf_priority]. by repeat constructor.
  - apply hyphenated_utf8.
  - by rewrite Hx in Ht.
  - eapply str_in_utf8; [|by eapply wf_type]. by repeat constructor.
Qed.

Lemma fingerprint_payload_wf w p z q :
  utf8_valid z = true -> query_ok q -> value_wf (fingerprint_payload w p z q).
Proof.
  intros Hz ([Hf _] & Ht & Hc & Hfrom & Hto). rewrite fingerprint_payload_eq.
  apply object_wf; [by repeat split; repeat constructor|by repeat constructor|].
  each_entry; try done; try (apply jopt_wf; intros x Hx; cbn [compose]).
  - rewrite Hx in Hfrom. by apply format_utf8.
  - apply hyphenated_utf8.
  - apply object_wf; [by repeat split; repeat constructor|by repeat constructor|]. each_entry.
    + by apply fingerprint_filters_wf.
    + apply value_wf_array, Forall_fmap, Forall_true. apply sort_entry_json_wf.
  - rewrite Hx in Hto. by apply format_utf8.
  - apply hyphenated_utf8.
Qed.

(** The text hashed into a cursor's filter fingerprint determines the
    workspace, the project scope, the time zone and the whole query: two
    requests with the same text have the same filters, sort, archive flag and
    window, so, up to a SHA-256 collision, a cursor is only ever continued
    under the query it was issued for. *)
Theorem fingerprint_injective w1 w2 p1 p2 z1 z2 (q1 q2 : ParsedTaskListQuery) :
  utf8_valid z1 = true -> utf8_valid z2 = true -> query_ok q1 -> query_ok q2 ->
  to_string (fingerprint_payload w1 p1 z1 q1) = to_string (fingerprint_payload w2 p2 z2 q2) ->
  w1 = w2 /\ p1 = p2 /\ z1 = z2 /\ view q1 = view q2 /\ archived q1 = archived q2 /\ from q1 = from q2 /\ to q1 = to q2.
Proof.
  intros Hz1 Hz2 Hq1 Hq2 E.
  assert (fingerprint_payload w1 p1 z1 q1 = fingerprint_payload w2 p2 z2 q2) as Hp.
  { apply (inj Some). rewrite <- !to_string_from by (by apply fingerprint_payload_wf). by rewrite E. }
  rewrite !fingerprint_payload_eq in Hp.
  apply object_cons_inj in Hp as [[= Ea] Hp]. apply object_cons_inj in Hp as [Ef Hp].
  apply object_cons_inj in Hp as [Ep%juuid_opt_inj Hp]. apply object_cons_inj in Hp as [Eq Hp].
  apply object_cons_inj in Hp as [[= Ez] Hp]. apply object_cons_inj in Hp as [Et Hp].
  apply object_cons_inj in Hp as [[= Ew%hyphenated_inj] _].
  apply object_cons_inj in Eq as [Eq Es]. apply object_cons_inj in Es as [Es _].
  assert (sort (view q1) = sort (view q2)) as Esort by (apply sort_json_inj; congruence).
  apply fingerprint_filters_inj in Eq; [|apply Hq1|apply Hq2].
  apply jdate_opt_inj in Ef; [|apply Hq1|apply Hq2]. apply jdate_opt_inj in Et; [|apply Hq1|apply Hq2].
  split_and!; try done. destruct (view q1), (view q2); cbn in *; congruence.
Qed.

End cursors.

(** * Task list queries: instances and witnesses

    Concrete implementations of the interfaces [ListQuery] leaves open (numbers
    that are floats, instants as seconds printed in the [civil] calendar's day
    numbers, and the identity as text encoding), and the theorems at concrete
    queries. *)

From S2P Require Import JsonInstance ChronoInstance.

#[export] Instance f64_number : JsonNumber f64 := {|
  num_as_f64 := Some;
  num_as_i64 x := match int_value rnd_trunc x with
                  | Some z => if (i64_min <=? z) && (z <=? i64_max) && feqb (of_int z) x then Some z else None
                  | None => None
                  end;
  num_from_f64 x := if is_finite x then Some x else None;
|}.

#[export] Instance f64_number_laws : JsonNumberLaws f64.
Proof.
  split; cbn.
  - intros x Hx. exists x. by rewrite Hx.
  - intros x z H. case_hyp H; [|done]. case_hyp H; [|done]. injection H as <-. bool_to_prop. lia.
Qed.

(** The first instant of each year stands for the instants. *)
#[export] Instance year_instants : Instants := {|
  datetime := Z;
  utc_year y := y;
  to_rfc3339 y := dec_digits 4 y ++ bs "-01-01T00:00:00+00:00";
  parse_from_rfc3339 s := Some (dec_value (take 4 s));
|}.

#[export] Instance year_instants_laws : InstantLaws year_instants.
Proof.
  split; cbn -[dec_digits dec_value bs].
  - intros y. apply utf8_valid_app; [|by vm_compute]. apply utf8_valid_ascii.
    eapply Forall_mono; [|apply dec_digits_ascii]. intros b Hb. unfold is_ascii_digit, in_range in Hb. bool_to_prop. lia.
  - intros y Hy. rewrite take_app_le, take_ge by (rewrite dec_digits_length; lia).
    by rewrite dec_value_digits by lia.
Qed.

(** The identity is an encoding of bytes as text. *)
#[export] Instance id_encodings : Encodings := {|
  b64_encode l := l;
  b64_decode s := Some s;
  sha256_hex _ := replicate 64 Byte.x30;
|}.

#[export] Instance id_encodings_laws : EncodingLaws id_encodings.
Proof. by split. Qed.

(** ** Concrete queries *)

Definition wid (z : Z) : uuid (UuidLib := uuid128_lib) := default (Uuid128 0 eq_refl) (uuid128_of z).

Definition wview : ViewQuery := {|
  filters := {|
    task_type := Some (bs "bug"); status_id := Some (wid 7); priority := Some (bs "high"); open_only := true;
    title := Some (bs "crash"); assignee_id := Some Me; label_id := None; milestone_id := Some (wid 9);
    due_before := Some (20000 : naive_date);
    custom := [{| field_id := wid 3; operator := OpEquals (CNumber (of_int 3)) |}; {| field_id := wid 4; operator := OpEmpty |}];
  |};
  sort := [{| field := Field (wid 3); direction := Desc |}; {| field := Due; direction := Asc |}];
|}.

Lemma view_query_canonical_witness :
  parse_view_query_value (view_query_to_json (num := f64) wview) = Ok wview /\
  (view_query_to_json (num := f64) wview = view_query_to_json ViewQuery_default <-> wview = ViewQuery_default).
Proof.
  refine (view_query_canonical (view_query_to_json wview) (VObject []) wview ViewQuery_default _ _); by_decide.
Defined.

Definition wcursor : TaskListCursor := {|
  cur_id := wid 5; cur_key := replicate 64 Byte.x61; cur_f := replicate 64 Byte.x30; cur_as_of := (2026 : datetime);
|}.

Lemma cursor_roundtrip_witness : decode_cursor (encode_cursor wcursor) = Ok wcursor.
Proof. refine (proj1 (cursor_roundtrip wcursor _)). unfold cursor_ok. split_and!; by vm_compute. Defined.

Definition wquery : ParsedTaskListQuery := {|
  view := wview; archived := false; limit := 50; from := None; to := None; cursor := None; as_of := (2026 : datetime);
|}.

Lemma wquery_ok : query_ok wquery.
Proof.
  unfold query_ok. split_and!; [|by vm_compute..|by repeat constructor|done|done].
  apply (parse_view_query_Ok (num := f64) (view_query_to_json wview)). by_decide.
Qed.

Lemma fingerprint_injective_witness : wid 1 = wid 1 /\ view wquery = view wquery.
Proof.
  destruct (fingerprint_injective (wid 1) (wid 1) (Some (wid 2)) (Some (wid 2)) (bs "UTC") (bs "UTC") wquery wquery
    eq_refl eq_refl wquery_ok wquery_ok eq_refl) as (E & _ & _ & V & _).
  exact (conj E V).
Defined.
