(* ===== verification/Collections.v ===== *)
(** * Collection input contracts ([src/collections.rs], [src/tasks.rs])

    The strict parsers of every request body of collections, their fields,
    values and views: unknown keys, wrong JSON types and out-of-range values
    are one error.  Numbers, instants and identifiers come from the interfaces
    of [ListQuery]; the Unicode digit class of the regex crate is a parameter
    too. *)

From stdpp Require Import base list numbers strings gmap.
From Stdlib Require Import ZArith Lia.
From S2P Require Import Prelude Text Uuid Float Json Chrono ListQuery.

Definition NAME_MAX : Z := 100.
Definition FIELD_KEY_MAX : Z := 50.
Definition FIELD_DESCRIPTION_MAX : Z := 2000.
Definition CREATE_OPTIONS_MAX : Z := 50.
Definition PATCH_OPTIONS_MAX : Z := 200.
Definition VALUE_TEXT_MAX : Z := 10000.
Definition VALUE_OPTIONS_MAX : Z := 200.
Definition VALUE_USERS_MAX : Z := 100.
Definition QUERY_LIMIT_MAX : Z := 100.
Definition QUERY_LIMIT_DEFAULT : Z := 50.
Definition GROUP_MAX : Z := 200.
Definition CURSOR_TEXT_MAX : Z := 1024.
Definition TIME_ZONE_MAX : Z := 100.

(** [struct InvalidInput]. *)
Inductive Invalid := InvalidBody.

#[export] Instance Invalid_eq_dec : EqDecision Invalid.
Proof. solve_decision. Defined.

Abbreviation Parsed := (result Invalid).

(** ** Enumerations *)

Inductive FieldType :=
| FText | Paragraph | FNumber | Date | Datetime | Checkbox | Select | MultiSelect | Checkboxes | FUser | UserMulti | Labels.

#[export] Instance FieldType_eq_dec : EqDecision FieldType.
Proof. solve_decision. Defined.

Definition FieldType_parse (v : str) : option FieldType :=
  match_str [("text", FText); ("paragraph", Paragraph); ("number", FNumber); ("date", Date); ("datetime", Datetime);
             ("checkbox", Checkbox); ("select", Select); ("multi_select", MultiSelect); ("checkboxes", Checkboxes);
             ("user", FUser); ("user_multi", UserMulti); ("labels", Labels)] v.

Definition FieldType_as_str (t : FieldType) : string :=
  match t with
  | FText => "text" | Paragraph => "paragraph" | FNumber => "number" | Date => "date" | Datetime => "datetime"
  | Checkbox => "checkbox" | Select => "select" | MultiSelect => "multi_select" | Checkboxes => "checkboxes"
  | FUser => "user" | UserMulti => "user_multi" | Labels => "labels"
  end.

Definition has_options (t : FieldType) : bool :=
  match t with Select | MultiSelect | Checkboxes | Labels => true | _ => false end.

Definition is_people (t : FieldType) : bool := match t with FUser | UserMulti => true | _ => false end.

Inductive CollectionKind := KDocument | KTask.

#[export] Instance CollectionKind_eq_dec : EqDecision CollectionKind.
Proof. solve_decision. Defined.

Definition CollectionKind_parse (v : str) : option CollectionKind :=
  match_str [("document", KDocument); ("task", KTask)] v.
Definition CollectionKind_as_str (k : CollectionKind) : string :=
  match k with KDocument => "document" | KTask => "task" end.

Inductive CollectionViewType := Table | Board | Calendar.
Definition CollectionViewType_parse (v : str) : option CollectionViewType :=
  match_str [("table", Table); ("board", Board); ("calendar", Calendar)] v.
Definition CollectionViewType_as_str (t : CollectionViewType) : string :=
  match t with Table => "table" | Board => "board" | Calendar => "calendar" end.

Inductive Visibility := Private | Shared.
Definition Visibility_parse (v : str) : option Visibility := match_str [("private", Private); ("shared", Shared)] v.
Definition Visibility_as_str (v : Visibility) : string := match v with Private => "private" | Shared => "shared" end.

Definition PROJECT_VIEW_TYPES : list string := ["list"; "board"; "calendar"; "gantt"; "table"].

(** ** Instants of the task API ([src/tasks.rs]) *)

(** [\d] of the regex crate: the Unicode decimal digits. *)
Class RegexDigits := { unicode_digit : Z -> bool }.
Class RegexDigitsLaws (R : RegexDigits) : Prop := {
  unicode_digit_ascii c : 0 <= c < 128 -> unicode_digit c = in_range 48 57 c;
}.

Section regex.
Context {R : RegexDigits}.

(** [\d{n}], then the rest. *)
Fixpoint digits (n : nat) (cs : list Z) : option (list Z) :=
  match n with
  | O => Some cs
  | S n' => match cs with c :: t => if unicode_digit c then digits n' t else None | [] => None end
  end.

Definition lit_char (c : Z) (cs : list Z) : option (list Z) :=
  match cs with x :: t => if x =? c then Some t else None | [] => None end.

(** [\d{1,n}Z$]. *)
Fixpoint fraction_end (n : nat) (cs : list Z) : bool :=
  match n, cs with
  | S n', c :: t => unicode_digit c && (bool_decide (t = [90]) || fraction_end n' t)
  | _, _ => false
  end.

(** [^\d{4}-\d{2}-\d{2}T\d{2}:\d{2}(:\d{2}(\.\d{1,9})?)?Z$]. *)
Definition iso_datetime_shape (cs : list Z) : bool :=
  let head := cs ← digits 4 cs; cs ← lit_char 45 cs; cs ← digits 2 cs; cs ← lit_char 45 cs; cs ← digits 2 cs;
              cs ← lit_char 84 cs; cs ← digits 2 cs; cs ← lit_char 58 cs; digits 2 cs in
  match head with
  | None => false
  | Some cs =>
    bool_decide (cs = [90]) ||
    match (cs ← lit_char 58 cs; digits 2 cs) with
    | None => false
    | Some cs =>
      bool_decide (cs = [90]) || match lit_char 46 cs with Some cs => fraction_end 9 cs | None => false end
    end
  end.

Context {I : Instants}.

Definition parse_iso_datetime (v : str) : option datetime :=
  if negb (iso_datetime_shape (chars v)) || bool_decide (take 4 v = bs "0000") then None
  else
    let normalized := if len v =? 17 then take 16 v ++ bs ":00Z" else v in
    parse_from_rfc3339 normalized.

End regex.

Section collections.
Context {U : UuidLib} {C : Chrono} {I : Instants} {R : RegexDigits} {num : Type} {N : JsonNumber num}.
Abbreviation jvalue := (value num).
Abbreviation jmap := (list (str * jvalue)).

(** ** Values *)

Inductive CollectionValue :=
| VNone
| VText (s : str)
| VNum (x : f64)
| VDate (d : naive_date)
| VDatetime (t : datetime)
| VCheckbox (b : bool)
| VOptions (l : list uuid)
| VUsers (l : list uuid).

Definition fits (v : CollectionValue) (t : FieldType) : bool :=
  match v with
  | VNone => true
  | VText _ => match t with FText | Paragraph => true | _ => false end
  | VNum _ => bool_decide (t = FNumber)
  | VDate _ => bool_decide (t = Date)
  | VDatetime _ => bool_decide (t = Datetime)
  | VCheckbox _ => bool_decide (t = Checkbox)
  | VUsers _ => is_people t
  | VOptions _ => has_options t
  end.

(** ** Scalar readers *)

Definition object (v : jvalue) : Parsed jmap := ok_or (as_object v) InvalidBody.

Definition only_keys (o : jmap) (allowed : list string) : Parsed unit :=
  if forallb (fun e : str * jvalue => str_in e.1 allowed) o then Ok tt else Err InvalidBody.

(** [o.get(k).ok_or(InvalidInput)?]. *)
Definition get (k : string) (o : jmap) : Parsed jvalue := ok_or (map_get (bs k) o) InvalidBody.

Definition uuid_str (v : jvalue) : Parsed uuid :=
  raw ← ok_or (as_str v) InvalidBody;
  if negb (len raw =? 36) then Err InvalidBody else ok_or (try_parse raw) InvalidBody.

Definition utf16_count (s : str) : Z := len (encode_utf16 s).

Definition parse_name (v : jvalue) : Parsed str :=
  raw ← ok_or (as_str v) InvalidBody;
  let trimmed := trim raw in
  if (utf16_count trimmed =? 0) || (NAME_MAX <? utf16_count trimmed) || contains_nul trimmed then Err InvalidBody
  else Ok trimmed.

(** [Value::as_i64], [as_f64]. *)
Definition as_i64 (v : jvalue) : option Z := match v with VNumber n => num_as_i64 n | _ => None end.
Definition as_f64 (v : jvalue) : option f64 := match v with VNumber n => num_as_f64 n | _ => None end.

Definition positive_int (v : jvalue) : Parsed Z :=
  n ← ok_or (as_i64 v) InvalidBody;
  if (n <? 1) || (i32_max <? n) then Err InvalidBody else Ok n.

Definition limited_string (v : jvalue) (max : Z) : Parsed str :=
  raw ← ok_or (as_str v) InvalidBody;
  if (max <? utf16_count raw) || contains_nul raw then Err InvalidBody else Ok raw.

Definition bool_flag (v : jvalue) : Parsed bool := ok_or (as_bool v) InvalidBody.

(** [o.get(k).and_then(Value::as_str).and_then(parse).ok_or(InvalidInput)?]. *)
Definition str_enum {A} (parse : str -> option A) (k : string) (o : jmap) : Parsed A :=
  ok_or (v ← map_get (bs k) o; s ← as_str v; parse s) InvalidBody.

(** ** Collections and fields *)

Record CollectionCreateInput := {
  cc_name : str;
  cc_kind : CollectionKind;
  cc_project_id : option uuid;
}.

Definition parse_collection_create (body : jvalue) : Parsed CollectionCreateInput :=
  o ← object body;
  _ ← only_keys o ["name"; "kind"; "projectId"];
  name_v ← get "name" o;
  name ← parse_name name_v;
  kind ← str_enum CollectionKind_parse "kind" o;
  project_v ← get "projectId" o;
  project_id ← match project_v with
               | VNull => Ok None
               | other => id ← uuid_str other; Ok (Some id)
               end;
  if bool_decide (kind = KTask) && bool_decide (project_id = None) then Err InvalidBody
  else Ok {| cc_name := name; cc_kind := kind; cc_project_id := project_id |}.

Definition is_lower_alpha (c : Z) : bool := in_range 97 122 c.

Definition field_key_is_valid (key : str) : bool :=
  match chars key with
  | c :: rest =>
    is_lower_alpha c && forallb (fun ch => is_lower_alpha ch || in_range 48 57 ch || (ch =? 95)) rest
    && (len key <=? FIELD_KEY_MAX)
  | [] => false
  end.

Record FieldCreateInput := {
  fc_name : str;
  fc_key : option str;
  fc_field_type : FieldType;
  fc_description : option str;
  fc_options : list str;
}.

Definition parse_field_create (body : jvalue) : Parsed FieldCreateInput :=
  o ← object body;
  _ ← only_keys o ["name"; "key"; "type"; "description"; "options"];
  name_v ← get "name" o;
  name ← parse_name name_v;
  key ← transpose (fun v => raw ← ok_or (as_str v) InvalidBody;
                            if negb (field_key_is_valid raw) then Err InvalidBody else Ok raw) (map_get (bs "key") o);
  field_type ← str_enum FieldType_parse "type" o;
  description ← match map_get (bs "description") o with
                | None | Some VNull => Ok None
                | Some v => d ← limited_string v FIELD_DESCRIPTION_MAX; Ok (Some d)
                end;
  options ← match map_get (bs "options") o with
            | None => Ok []
            | Some v =>
              array ← ok_or (as_array v) InvalidBody;
              if CREATE_OPTIONS_MAX <? len array then Err InvalidBody else mapM parse_name array
            end;
  if negb (bool_decide (options = [])) && negb (has_options field_type) then Err InvalidBody
  else Ok {| fc_name := name; fc_key := key; fc_field_type := field_type; fc_description := description;
             fc_options := options |}.

Record OptionPatch := {
  op_id : option uuid;
  op_label : str;
  op_deleted : bool;
}.

Record FieldPatchInput := {
  fp_expected_version : Z;
  fp_name : option str;
  fp_description : option (option str);
  fp_deleted : option bool;
  fp_options : option (list OptionPatch);
}.

Definition parse_option_patch (entry : jvalue) : Parsed OptionPatch :=
  e ← object entry;
  _ ← only_keys e ["id"; "label"; "deleted"];
  id ← transpose uuid_str (map_get (bs "id") e);
  label_v ← get "label" e;
  label ← parse_name label_v;
  deleted ← match map_get (bs "deleted") e with
            | None => Ok false
            | Some flag => bool_flag flag
            end;
  Ok {| op_id := id; op_label := label; op_deleted := deleted |}.

Definition parse_field_patch (body : jvalue) : Parsed FieldPatchInput :=
  o ← object body;
  _ ← only_keys o ["expectedVersion"; "name"; "description"; "deleted"; "options"];
  version_v ← get "expectedVersion" o;
  expected_version ← positive_int version_v;
  name ← transpose parse_name (map_get (bs "name") o);
  description ← match map_get (bs "description") o with
                | None => Ok None
                | Some VNull => Ok (Some None)
                | Some v => d ← limited_string v FIELD_DESCRIPTION_MAX; Ok (Some (Some d))
                end;
  deleted ← transpose bool_flag (map_get (bs "deleted") o);
  options ← match map_get (bs "options") o with
            | None => Ok None
            | Some v =>
              array ← ok_or (as_array v) InvalidBody;
              if PATCH_OPTIONS_MAX <? len array then Err InvalidBody
              else out ← mapM parse_option_patch array; Ok (Some out)
            end;
  match name, description, deleted, options with
  | None, None, None, None => Err InvalidBody
  | _, _, _, _ =>
    Ok {| fp_expected_version := expected_version; fp_name := name; fp_description := description;
          fp_deleted := deleted; fp_options := options |}
  end.

(** ** Items and values *)

Inductive AttachTarget := AttachDocument (id : uuid) | AttachTask (id : uuid).

Definition parse_attach (body : jvalue) : Parsed AttachTarget :=
  o ← object body;
  if negb (len o =? 1) then Err InvalidBody else
  match map_get (bs "documentId") o with
  | Some v => id ← uuid_str v; Ok (AttachDocument id)
  | None =>
    match map_get (bs "taskId") o with
    | Some v => id ← uuid_str v; Ok (AttachTask id)
    | None => Err InvalidBody
    end
  end.

Definition uuid_list (v : jvalue) (max : Z) : Parsed (list uuid) :=
  array ← ok_or (as_array v) InvalidBody;
  if max <? len array then Err InvalidBody else mapM uuid_str array.

Definition parse_collection_value (v : jvalue) : Parsed CollectionValue :=
  if is_null v then Ok VNone else
  o ← object v;
  if negb (len o =? 1) then Err InvalidBody else
  '(key, inner) ← ok_or (head o) InvalidBody;
  if bool_decide (key = bs "text") then s ← limited_string inner VALUE_TEXT_MAX; Ok (VText s)
  else if bool_decide (key = bs "number") then
    x ← ok_or (as_f64 inner) InvalidBody;
    if negb (is_finite x) then Err InvalidBody else Ok (VNum x)
  else if bool_decide (key = bs "date") then d ← ok_or (as_str inner ≫= parse_iso_date) InvalidBody; Ok (VDate d)
  else if bool_decide (key = bs "datetime") then
    t ← ok_or (as_str inner ≫= parse_iso_datetime) InvalidBody; Ok (VDatetime t)
  else if bool_decide (key = bs "checkbox") then b ← bool_flag inner; Ok (VCheckbox b)
  else if bool_decide (key = bs "options") then l ← uuid_list inner VALUE_OPTIONS_MAX; Ok (VOptions l)
  else if bool_decide (key = bs "users") then l ← uuid_list inner VALUE_USERS_MAX; Ok (VUsers l)
  else Err InvalidBody.

Record ValueInput := {
  vi_field_id : uuid;
  vi_expected_version : Z;
  vi_expected_field_version : Z;
  vi_value : CollectionValue;
}.

Definition parse_value_input (body : jvalue) : Parsed ValueInput :=
  o ← object body;
  _ ← only_keys o ["fieldId"; "expectedVersion"; "expectedFieldVersion"; "value"];
  field_v ← get "fieldId" o;
  field_id ← uuid_str field_v;
  version_v ← get "expectedVersion" o;
  expected_version ← positive_int version_v;
  field_version_v ← get "expectedFieldVersion" o;
  expected_field_version ← positive_int field_version_v;
  value_v ← get "value" o;
  value ← parse_collection_value value_v;
  Ok {| vi_field_id := field_id; vi_expected_version := expected_version;
        vi_expected_field_version := expected_field_version; vi_value := value |}.

(** ** Queries and views *)

Inductive GroupBy := GroupStatus | GroupField (id : uuid).
Inductive DateBy := DateDue | DateStart | DateField (id : uuid).

Record QueryConfig := {
  query : ViewQuery;
  group_by : option GroupBy;
  date_by : option DateBy;
}.

Definition group_by_json (g : option GroupBy) : jvalue :=
  match g with
  | None => VNull
  | Some GroupStatus => jstr "status"
  | Some (GroupField id) => juuid id
  end.

Definition date_by_json (d : option DateBy) : jvalue :=
  match d with
  | None => VNull
  | Some DateDue => jstr "due"
  | Some DateStart => jstr "start"
  | Some (DateField id) => juuid id
  end.

Definition QueryConfig_to_json (c : QueryConfig) : jvalue :=
  json_object [("query", view_query_to_json (query c)); ("groupBy", group_by_json (group_by c));
               ("dateBy", date_by_json (date_by c))].

Definition parse_group_by (o : option jvalue) : Parsed (option GroupBy) :=
  match o with
  | None | Some VNull => Ok None
  | Some other =>
    if bool_decide (as_str other = Some (bs "status")) then Ok (Some GroupStatus)
    else id ← uuid_str other; Ok (Some (GroupField id))
  end.

Definition parse_date_by (o : option jvalue) : Parsed (option DateBy) :=
  match o with
  | None | Some VNull => Ok None
  | Some other =>
    if bool_decide (as_str other = Some (bs "due")) then Ok (Some DateDue)
    else if bool_decide (as_str other = Some (bs "start")) then Ok (Some DateStart)
    else id ← uuid_str other; Ok (Some (DateField id))
  end.

Definition to_invalid {A} (m : result TaskListQueryError A) : Parsed A := map_err (fun _ => InvalidBody) m.

(** The texts of a query hold no NUL. *)
Definition query_has_nul (q : ViewQuery) : bool :=
  match title (filters q) with Some v => contains_nul v | None => false end ||
  existsb (fun f => match operator f with OpEquals (CText v) => contains_nul v | _ => false end) (custom (filters q)).

Definition parse_query_config (v : jvalue) : Parsed QueryConfig :=
  o ← object v;
  _ ← only_keys o ["query"; "groupBy"; "dateBy"];
  query ← match map_get (bs "query") o with
          | None => Ok ViewQuery_default
          | Some v => to_invalid (parse_view_query_value v)
          end;
  if query_has_nul query then Err InvalidBody else
  group_by ← parse_group_by (map_get (bs "groupBy") o);
  date_by ← parse_date_by (map_get (bs "dateBy") o);
  Ok {| query := query; group_by := group_by; date_by := date_by |}.

Record CalendarWindow := {
  w_from : naive_date;
  w_to : naive_date;
  w_time_zone : str;
}.

Record QueryInput := {
  qi_config : QueryConfig;
  qi_group : option (option str);
  qi_day : option (option naive_date);
  qi_window : option CalendarWindow;
  qi_cursor : option str;
  qi_limit : Z;
}.

Definition date_value (v : jvalue) : Parsed naive_date := ok_or (as_str v ≫= parse_iso_date) InvalidBody.

Definition parse_window (v : jvalue) : Parsed CalendarWindow :=
  w ← object v;
  _ ← only_keys w ["from"; "to"; "timeZone"];
  let date k := ok_or (v ← map_get (bs k) w; s ← as_str v; parse_iso_date s) InvalidBody in
  time_zone ← ok_or (v ← map_get (bs "timeZone") w; as_str v) InvalidBody;
  if bool_decide (time_zone = []) || (TIME_ZONE_MAX <? utf16_count time_zone) then Err InvalidBody else
  from ← date "from";
  to ← date "to";
  Ok {| w_from := from; w_to := to; w_time_zone := time_zone |}.

(** [None => None, Some(Null) => Some(None), Some(v) => Some(Some(f(v)?))]. *)
Definition nullable {A} (f : jvalue -> Parsed A) (o : option jvalue) : Parsed (option (option A)) :=
  match o with
  | None => Ok None
  | Some VNull => Ok (Some None)
  | Some v => x ← f v; Ok (Some (Some x))
  end.

Definition parse_query_input (body : jvalue) : Parsed QueryInput :=
  o ← object body;
  _ ← only_keys o ["config"; "group"; "day"; "window"; "cursor"; "limit"];
  config_v ← get "config" o;
  config ← parse_query_config config_v;
  group ← nullable (fun v => limited_string v GROUP_MAX) (map_get (bs "group") o);
  day ← nullable date_value (map_get (bs "day") o);
  window ← transpose parse_window (map_get (bs "window") o);
  cursor ← transpose (fun v => limited_string v CURSOR_TEXT_MAX) (map_get (bs "cursor") o);
  limit ← match map_get (bs "limit") o with
          | None => Ok QUERY_LIMIT_DEFAULT
          | Some v =>
            limit ← ok_or (as_i64 v) InvalidBody;
            if negb ((1 <=? limit) && (limit <=? QUERY_LIMIT_MAX)) then Err InvalidBody else Ok limit
          end;
  Ok {| qi_config := config; qi_group := group; qi_day := day; qi_window := window; qi_cursor := cursor;
        qi_limit := limit |}.

Record CollectionViewInput := {
  cv_name : str;
  cv_view_type : CollectionViewType;
  cv_visibility : Visibility;
  cv_config : QueryConfig;
  cv_expected_version : option Z;
}.

Definition parse_collection_view (body : jvalue) (patch : bool) : Parsed CollectionViewInput :=
  o ← object body;
  _ ← (if patch then only_keys o ["name"; "type"; "visibility"; "config"; "expectedVersion"]
       else only_keys o ["name"; "type"; "visibility"; "config"]);
  name_v ← get "name" o;
  name ← parse_name name_v;
  view_type ← str_enum CollectionViewType_parse "type" o;
  visibility ← str_enum Visibility_parse "visibility" o;
  config_v ← get "config" o;
  config ← parse_query_config config_v;
  expected_version ← (if patch then v ← get "expectedVersion" o; n ← positive_int v; Ok (Some n) else Ok None);
  Ok {| cv_name := name; cv_view_type := view_type; cv_visibility := visibility; cv_config := config;
        cv_expected_version := expected_version |}.

Record ProjectViewCreateInput := {
  pv_name : str;
  pv_view_type : str;
  pv_config : ViewQuery;
}.

Definition parse_project_view_create (body : jvalue) : Parsed ProjectViewCreateInput :=
  o ← object body;
  _ ← only_keys o ["name"; "type"; "config"];
  view_type ← ok_or (v ← map_get (bs "type") o; as_str v) InvalidBody;
  if negb (str_in view_type PROJECT_VIEW_TYPES) then Err InvalidBody else
  name_v ← get "name" o;
  name ← parse_name name_v;
  config_v ← get "config" o;
  config ← to_invalid (parse_view_query_value config_v);
  Ok {| pv_name := name; pv_view_type := view_type; pv_config := config |}.

Record ProjectViewPatchInput := {
  pp_name : option str;
  pp_config : option ViewQuery;
  pp_expected_config : option ViewQuery;
}.

Definition parse_project_view_patch (body : jvalue) : Parsed ProjectViewPatchInput :=
  o ← object body;
  _ ← only_keys o ["name"; "config"; "expectedConfig"];
  let parse_query v := to_invalid (parse_view_query_value v) in
  name ← transpose parse_name (map_get (bs "name") o);
  config ← transpose parse_query (map_get (bs "config") o);
  expected_config ← transpose parse_query (map_get (bs "expectedConfig") o);
  if bool_decide (name = None) && bool_decide (config = None) then Err InvalidBody else
  if negb (bool_decide (config = None)) && bool_decide (expected_config = None) then Err InvalidBody else
  Ok {| pp_name := name; pp_config := config; pp_expected_config := expected_config |}.

#[export] Instance CollectionCreateInput_eq_dec : EqDecision CollectionCreateInput.
Proof. solve_decision. Defined.
#[export] Instance GroupBy_eq_dec : EqDecision GroupBy.
Proof. solve_decision. Defined.
#[export] Instance DateBy_eq_dec : EqDecision DateBy.
Proof. solve_decision. Defined.
#[export] Instance QueryConfig_eq_dec : EqDecision QueryConfig.
Proof. solve_decision. Defined.
#[export] Instance ProjectViewPatchInput_eq_dec : EqDecision ProjectViewPatchInput.
Proof. solve_decision. Defined.

End collections.
