(* ===== verification/CollectionsTheorems.v ===== *)
(** * Collection inputs: the contracts the parsers enforce

    What the handlers may rely on once a body was accepted, and that a stored
    query configuration parses back to itself. *)

From stdpp Require Import base list numbers strings gmap.
From Stdlib Require Import ZArith Lia.
From S2P Require Import Prelude Text Uuid Float Json JsonInstance Chrono ChronoInstance.
From S2P Require Import ListQuery ListQueryTheorems Collections.

(** ** Names of the enumerations *)

Lemma FieldType_roundtrip t : FieldType_parse (bs (FieldType_as_str t)) = Some t.
Proof. by destruct t. Qed.
Lemma CollectionKind_roundtrip k : CollectionKind_parse (bs (CollectionKind_as_str k)) = Some k.
Proof. by destruct k. Qed.
Lemma CollectionViewType_roundtrip t : CollectionViewType_parse (bs (CollectionViewType_as_str t)) = Some t.
Proof. by destruct t. Qed.
Lemma Visibility_roundtrip v : Visibility_parse (bs (Visibility_as_str v)) = Some v.
Proof. by destruct v. Qed.

Section contracts.
Context {U : UuidLib} {UL : UuidLaws U} {C : Chrono} {CL : ChronoLaws C} {I : Instants} {R : RegexDigits}.
Context {num : Type} {N : JsonNumber num} {NL : JsonNumberLaws num}.
Implicit Types v : value num.

(** ** Query configurations *)

Lemma view_wf_no_nul q : view_wf q -> query_has_nul q = false.
Proof.
  intros [Hf _]. unfold query_has_nul. apply orb_false_iff. split.
  - destruct (title (filters q)) as [s|] eqn:E; [|done]. by apply (wf_title _ Hf s) in E as [[? _] _].
  - apply not_true_iff_false. intros (f & Hin & Hn)%existsb_exists.
    pose proof (wf_custom _ Hf) as Hc. rewrite Forall_forall in Hc. apply list_elem_of_In in Hin.
    specialize (Hc f Hin). unfold custom_ok in Hc. destruct (operator f) as [|[s|x|b]]; try done.
    destruct Hc as [Hc _]. congruence.
Qed.

Lemma uuid_str_print (u : uuid) : uuid_str (num := num) (juuid u) = Ok u.
Proof. unfold uuid_str. cbn [as_str ok_or juuid mbind result_bind]. by rewrite len_hyphenated, try_parse_hyphenated. Qed.

Lemma juuid_not_name (u : uuid) (s : string) :
  length (bs s) <> 36%nat -> bool_decide (as_str (num := num) (juuid u) = Some (bs s)) = false.
Proof. intros Hs. apply bool_decide_false. intros [= E]. apply Hs. by rewrite <- E, hyphenated_length. Qed.

Lemma parse_group_by_print g : parse_group_by (num := num) (Some (group_by_json g)) = Ok g.
Proof.
  destruct g as [[|u]|]; [done| |done]. unfold parse_group_by, group_by_json. cbn [juuid].
  change (VString (hyphenated u)) with (juuid (num := num) u). by rewrite juuid_not_name, uuid_str_print.
Qed.

Lemma parse_date_by_print d : parse_date_by (num := num) (Some (date_by_json d)) = Ok d.
Proof.
  destruct d as [[| |u]|]; [done|done| |done]. unfold parse_date_by, date_by_json. cbn [juuid].
  change (VString (hyphenated u)) with (juuid (num := num) u). by rewrite !juuid_not_name, uuid_str_print.
Qed.

Lemma query_config_print c :
  view_wf (query c) -> parse_query_config (num := num) (QueryConfig_to_json c) = Ok c.
Proof.
  destruct c as [q g d]. cbn [query]. intros Hq.
  transitivity (
    q' ← to_invalid (parse_view_query_value (num := num) (view_query_to_json q));
    if query_has_nul q' then Err InvalidBody else
    g' ← parse_group_by (num := num) (Some (group_by_json g));
    d' ← parse_date_by (num := num) (Some (date_by_json d));
    Ok (E := Invalid) {| query := q'; group_by := g'; date_by := d' |}); [reflexivity|].
  rewrite view_query_print_parse by done. cbn [to_invalid map_err mbind result_bind].
  rewrite view_wf_no_nul by done. by rewrite parse_group_by_print; cbn [mbind result_bind]; rewrite parse_date_by_print.
Qed.

Lemma view_wf_default : view_wf ViewQuery_default.
Proof. split; [split|]; try done; by compute. Qed.

Lemma parse_query_config_wf v c : parse_query_config v = Ok c -> view_wf (query c).
Proof.
  unfold parse_query_config. intros H. inv_binds H. case_hyp H; [done|]. inv_binds H. injection H as <-. cbn [query].
  case_hyp Ha1; [|injection Ha1 as <-; apply view_wf_default].
  unfold to_invalid in Ha1. destruct (parse_view_query_value _) eqn:E; [|done]. injection Ha1 as <-.
  by eapply parse_view_query_Ok.
Qed.

(** The configuration of a collection view survives storage: its printed
    form is accepted again and denotes the same query, grouping and date axis,
    and two accepted configurations have the same stored form exactly when
    they are the same. *)
Theorem query_config_canonical v1 v2 (c1 c2 : QueryConfig) :
  parse_query_config v1 = Ok c1 -> parse_query_config v2 = Ok c2 ->
  parse_query_config (QueryConfig_to_json (num := num) c1) = Ok c1 /\
  (QueryConfig_to_json (num := num) c1 = QueryConfig_to_json c2 <-> c1 = c2).
Proof.
  intros H1%parse_query_config_wf%query_config_print H2%parse_query_config_wf%query_config_print.
  split; [done|]. split; [|by intros ->]. intros E. rewrite E in H1. congruence.
Qed.

(** ** Accepted inputs *)

Definition name_ok (s : str) : Prop := 1 <= utf16_count s <= NAME_MAX /\ contains_nul s = false.
Definition version_ok (n : Z) : Prop := 1 <= n <= i32_max.
Definition limited (max : Z) (s : str) : Prop := utf16_count s <= max /\ contains_nul s = false.

Lemma parse_name_Ok v s : parse_name v = Ok s -> name_ok s.
Proof.
  intros (raw & _ & H)%bind_Ok. cbn zeta in H. case_hyp H; [done|]. injection H as <-. bool_to_prop.
  split; [|done]. unfold utf16_count in *. pose proof (len_nonneg (encode_utf16 (trim raw))). lia.
Qed.

Lemma positive_int_Ok v n : positive_int v = Ok n -> version_ok n.
Proof. intros (m & _ & H)%bind_Ok. case_hyp H; [done|]. injection H as <-. bool_to_prop. unfold version_ok. lia. Qed.

Lemma limited_string_Ok v max s : limited_string v max = Ok s -> limited max s.
Proof. intros (raw & _ & H)%bind_Ok. case_hyp H; [done|]. injection H as <-. bool_to_prop. by split. Qed.

Lemma uuid_list_Ok v max l : uuid_list v max = Ok l -> len l <= max.
Proof.
  intros (a & _ & H)%bind_Ok. case_hyp H; [done|]. bool_to_prop. apply mapM_Ok, Forall2_length in H. unfold len in *. lia.
Qed.

(** The values a handler can receive. *)
Definition value_ok (x : CollectionValue) : Prop :=
  match x with
  | VText s => limited VALUE_TEXT_MAX s
  | VNum x => is_finite x = true
  | VDate d => date_ok d
  | VOptions l => len l <= VALUE_OPTIONS_MAX
  | VUsers l => len l <= VALUE_USERS_MAX
  | _ => True
  end.

Lemma parse_collection_value_Ok v x : parse_collection_value v = Ok x -> value_ok x.
Proof.
  unfold parse_collection_value. destruct (is_null v); [by intros [= <-]|].
  intros (o & _ & H)%bind_Ok. case_hyp H; [done|]. apply bind_Ok in H as ([key inner] & _ & H).
  repeat (case_hyp H; [|]); try done; apply bind_Ok in H as (y & Hy & H);
    try (injection H as <-; cbn [value_ok]); try done.
  - by eapply limited_string_Ok.
  - case_hyp H; [done|]. injection H as <-. by bool_to_prop.
  - apply ok_or_inv, bind_Some in Hy as (s & _ & Hs). by eapply parse_iso_date_ok.
  - by eapply uuid_list_Ok.
  - by eapply uuid_list_Ok.
Qed.

Definition create_ok (i : CollectionCreateInput) : Prop :=
  name_ok (cc_name i) /\ (cc_kind i = KTask -> cc_project_id i <> None).

Lemma parse_collection_create_Ok v i : parse_collection_create v = Ok i -> create_ok i.
Proof.
  unfold parse_collection_create. intros H. inv_binds H. case_hyp H; [done|]. injection H as <-.
  split; [by eapply parse_name_Ok|]. cbn [cc_kind cc_project_id]. intros -> ->. done.
Qed.

Definition field_ok (i : FieldCreateInput) : Prop :=
  name_ok (fc_name i) /\ from_option (fun k => field_key_is_valid k = true) True (fc_key i) /\
  from_option (limited FIELD_DESCRIPTION_MAX) True (fc_description i) /\
  Forall name_ok (fc_options i) /\ len (fc_options i) <= CREATE_OPTIONS_MAX /\
  (fc_options i <> [] -> has_options (fc_field_type i) = true).

Lemma parse_field_create_Ok v i : parse_field_create v = Ok i -> field_ok i.
Proof.
  unfold parse_field_create. intros H. inv_binds H. case_hyp H; [done|]. injection H as <-.
  unfold field_ok. cbn [fc_name fc_key fc_description fc_options fc_field_type].
  assert (Hopt : Forall name_ok a6 /\ len a6 <= CREATE_OPTIONS_MAX).
  { case_hyp Ha6; [|injection Ha6 as <-; split; [done|by compute]]. apply bind_Ok in Ha6 as (l & _ & H).
    case_hyp H; [done|]. bool_to_prop.
    apply (mapM_Ok_Forall _ name_ok) in H as [? ?]; [|apply parse_name_Ok]. unfold len in *. split; [done|lia]. }
  split; [by eapply parse_name_Ok|]. split; [|split]; [..|split; [apply Hopt|split; [apply Hopt|]]].
  - apply from_option_weaken. intros k Hk. eapply transpose_Ok in Ha3 as (y & Hy); [|done].
    apply bind_Ok in Hy as (raw & _ & Hy). case_hyp Hy; [done|]. injection Hy as <-. by bool_to_prop.
  - case_hyp Ha5; [|by injection Ha5 as <-].
    destruct v0; try (apply bind_Ok in Ha5 as (d & Hd & [= <-]); by eapply limited_string_Ok). by injection Ha5 as <-.
  - intros Hne. apply andb_false_iff in Heqb as [Hb|Hb]; bool_to_prop; done.
Qed.

Definition patch_ok (i : FieldPatchInput) : Prop :=
  version_ok (fp_expected_version i) /\ from_option name_ok True (fp_name i) /\
  (fp_name i <> None \/ fp_description i <> None \/ fp_deleted i <> None \/ fp_options i <> None).

Lemma parse_field_patch_Ok v i : parse_field_patch v = Ok i -> patch_ok i.
Proof.
  unfold parse_field_patch. intros H. inv_binds H.
  assert (Hi : i = {| fp_expected_version := a2; fp_name := a3; fp_description := a4; fp_deleted := a5; fp_options := a6 |}
    /\ (a3 <> None \/ a4 <> None \/ a5 <> None \/ a6 <> None)).
  { destruct a3, a4, a5, a6; try done; injection H as <-; split; try done; eauto. }
  destruct Hi as [-> Hn]. split; [by eapply positive_int_Ok|]. split; [|done]. apply from_option_weaken. intros s Hs.
  eapply transpose_Ok in Ha3 as (y & Hy); [|done]. by eapply parse_name_Ok.
Qed.

Lemma parse_value_input_Ok v i :
  parse_value_input v = Ok i ->
  version_ok (vi_expected_version i) /\ version_ok (vi_expected_field_version i) /\ value_ok (vi_value i).
Proof.
  unfold parse_value_input. intros H. inv_binds H. injection H as <-. cbn.
  split; [by eapply positive_int_Ok|]. split; [by eapply positive_int_Ok|by eapply parse_collection_value_Ok].
Qed.

Lemma parse_project_view_patch_Ok v i :
  parse_project_view_patch v = Ok i ->
  (pp_name i <> None \/ pp_config i <> None) /\ (pp_config i <> None -> pp_expected_config i <> None).
Proof.
  unfold parse_project_view_patch. intros H. inv_binds H. case_hyp H; [done|]. case_hyp H; [done|]. injection H as <-. cbn.
  apply andb_false_iff in Heqb, Heqb0. rewrite negb_false_iff in Heqb0. rewrite !bool_decide_eq_false in *.
  rewrite bool_decide_eq_true in Heqb0. tauto.
Qed.


End contracts.

Definition wconfig : QueryConfig := {| query := wview; group_by := Some GroupStatus; date_by := Some (DateField (wid 6)) |}.

Lemma query_config_canonical_witness :
  parse_query_config (QueryConfig_to_json (num := f64) wconfig) = Ok wconfig /\
  (QueryConfig_to_json (num := f64) wconfig = QueryConfig_to_json wconfig <-> wconfig = wconfig).
Proof.
  refine (query_config_canonical (QueryConfig_to_json wconfig) (QueryConfig_to_json wconfig) wconfig wconfig _ _); by_decide.
Defined.

(** The ASCII digits are a digit class. *)
#[export] Instance ascii_regex : RegexDigits := {| unicode_digit := in_range 48 57 |}.

#[export] Instance ascii_regex_laws : RegexDigitsLaws ascii_regex.
Proof. by split. Qed.

Definition wcreate : CollectionCreateInput := {| cc_name := bs "Bugs"; cc_kind := KTask; cc_project_id := Some (wid 8) |}.

Definition wbody : value f64 :=
  json_object [("name", jstr " Bugs "); ("kind", jstr "task"); ("projectId", juuid (wid 8))].

