(* ===== verification/Hub.v ===== *)
(** * The room table ([src/collab/hub.rs])

    [CollabHub] keeps one slot per open room.  Joins and HTTP operations look
    a room up or start it, an idle loop and the room cap close empty rooms, a
    MOVE retires rooms of moved resources, and shutdown closes everything.  All
    of them run concurrently: the shared data are the map of rooms, the phase
    of each slot (a mutex), the atomic counters of leases and connections, the
    room permits and the shutdown flag.

    The model is an interleaving semantics.  Every asynchronous function is a
    task with a program counter; one step runs one critical section or atomic
    operation of one task.  What the database, the engine and the room's actor
    answer is the [choice] of the step.  Slots ([Arc<RoomSlot>]) live in a list
    that only grows, so a slot's identity ([Arc::ptr_eq]) is its index. *)

From stdpp Require Import base list numbers strings gmap relations.
From Stdlib Require Import ZArith Lia.
From S2P Require Import Prelude Text Uuid Wire EngineLimits Admission.

(** ** Configuration and errors *)

Inductive JoinError :=
| AdmissionDenied | UnsupportedKind | RoomFull | CapacityRetry | EngineUnavailable | WriterStale | DbError.

#[export] Instance JoinError_eq_dec : EqDecision JoinError.
Proof. solve_decision. Defined.

Inductive BodyWriteError := Rejected | Unavailable | Conflict | TooLarge | BodyInvalid | DeriveFailed.

Definition join_to_body_write_error (e : JoinError) : BodyWriteError :=
  match e with
  | AdmissionDenied | UnsupportedKind => Rejected
  | RoomFull | CapacityRetry | EngineUnavailable | WriterStale | DbError => Unavailable
  end.

Definition MAX_PRE_ENQUEUE_RETRIES : Z := 1.
Definition MAX_ADMISSION_RECLAIMS : Z := 2.
Definition RECLAIM_GRACE_FLOOR_MS : Z := 3000.

(** What the hub reads of [CollabConfig], and its backend. *)
Record HubConfig := {
  max_rooms : Z;
  idle_evict_ms : Z;
  rpc_timeout_ms : Z;
  (** The backend is not PostgreSQL. *)
  family : bool;
  family_timings : bool;
}.

(** [CollabHub::new_backend]: the configuration is refused or built. *)
Definition new_backend_ok (cfg : HubConfig) : bool := negb (family cfg && negb (family_timings cfg)).

Definition reclaim_grace (cfg : HubConfig) : Z :=
  Z.min (Z.max (rpc_timeout_ms cfg) RECLAIM_GRACE_FLOOR_MS) (idle_evict_ms cfg).

(** ** Slots *)

(** The room's actor: its channel is open while it runs; it may close the
    channel before it finishes; [finished] then tells whether it ended
    regularly. *)
Inductive actor := ANone | ARunning | AClosed | ADone (clean : bool).

(** [RoomPhase]; [Booting] and [Live] own a room permit. *)
Inductive RoomPhase :=
| Starting
| Booting
| Live (last_activity : Z)
| Closing
| Failed.

#[export] Instance actor_eq_dec : EqDecision actor.
Proof. solve_decision. Defined.
#[export] Instance RoomPhase_eq_dec : EqDecision RoomPhase.
Proof. solve_decision. Defined.
#[export] Instance CollabKind_countable : Countable CollabKind.
Proof.
  refine (inj_countable' (fun k => match k with Document => true | Task => false end)
    (fun b => if b then Document else Task) _). by intros [].
Defined.

Section hub.
Context {U : UuidLib}.

(** Workspace, resource and kind. *)
Definition RoomKey : Type := uuid * uuid * CollabKind.

#[export] Instance RoomKey_eq_dec : EqDecision RoomKey.
Proof. solve_decision. Defined.
#[export] Instance RoomKey_countable : Countable RoomKey := _.

(** [RoomSlot] with what its [LiveRoom] and its actor share: the counters of
    leases and of connections, and the memory reservation the actor holds until
    its first load.  [ready] counts [notify_waiters]. *)
Record slot := Slot {
  skey : RoomKey;
  sphase : RoomPhase;
  sactor : actor;
  joining : Z;
  conns : Z;
  reserved : Z;
  ready : Z;
}.

Definition set_phase (p : RoomPhase) (x : slot) : slot :=
  Slot (skey x) p (sactor x) (joining x) (conns x) (reserved x) (ready x).
Definition set_actor (a : actor) (x : slot) : slot :=
  Slot (skey x) (sphase x) a (joining x) (conns x) (reserved x) (ready x).
Definition add_lease (d : Z) (x : slot) : slot :=
  Slot (skey x) (sphase x) (sactor x) (joining x + d) (conns x) (reserved x) (ready x).
Definition set_conns (n : Z) (x : slot) : slot :=
  Slot (skey x) (sphase x) (sactor x) (joining x) n (reserved x) (ready x).
Definition set_reserved (n : Z) (x : slot) : slot :=
  Slot (skey x) (sphase x) (sactor x) (joining x) (conns x) n (ready x).
Definition notify_waiters (x : slot) : slot :=
  Slot (skey x) (sphase x) (sactor x) (joining x) (conns x) (reserved x) (ready x + 1).

(** [RoomHandle::is_closed]. *)
Definition is_closed (x : slot) : bool :=
  match sactor x with AClosed | ADone _ => true | _ => false end.

(** The actor has not completed. *)
Definition unfinished (x : slot) : bool :=
  match sactor x with ARunning | AClosed => true | _ => false end.

Definition is_live (x : slot) : bool := match sphase x with Live _ => true | _ => false end.

(** ** Decisions under the phase lock *)

Inductive IdleEvictDecision := NotApplicable | DeferredMembers | DeferredJoining | DeferredActivity | WouldEvict.

#[export] Instance IdleEvictDecision_eq_dec : EqDecision IdleEvictDecision.
Proof. solve_decision. Defined.

(** [Instant::elapsed] saturates at zero. *)
Definition elapsed (now at_ : Z) : Z := Z.max 0 (now - at_).

Definition idle_evict_decision_for (now idle_ms last_activity : Z) (x : slot) : IdleEvictDecision :=
  if is_closed x then WouldEvict
  else if 0 <? joining x then DeferredJoining
  else if 0 <? conns x then DeferredMembers
  else if elapsed now last_activity <? idle_ms then DeferredActivity
  else WouldEvict.

(** [take_idle_evictable]: whether the slot was moved to [Closing]. *)
Definition take_idle_evictable (now idle_ms : Z) (x : slot) : option slot :=
  match sphase x with
  | Live at_ =>
    if bool_decide (idle_evict_decision_for now idle_ms at_ x = WouldEvict)
    then Some (set_phase Closing x) else None
  | _ => None
  end.

Definition reclaimable_at_cap (now grace : Z) (x : slot) : bool :=
  match sphase x with
  | Live at_ => is_closed x || ((joining x =? 0) && (conns x =? 0) && (grace <=? elapsed now at_))
  | _ => false
  end.

(** [take_dead_live]. *)
Definition take_dead_live (x : slot) : option slot :=
  if is_live x && is_closed x then Some (set_phase Closing x) else None.

Inductive LiveBorrow := BorrowLive | BorrowDead | BorrowNotLive.

Definition borrow_live_phase (now : Z) (x : slot) : LiveBorrow * slot :=
  match take_dead_live x with
  | Some x' => (BorrowDead, x')
  | None =>
    match sphase x with
    | Live _ => (BorrowLive, set_phase (Live now) x)
    | _ => (BorrowNotLive, x)
    end
  end.

(** [None] refuses another attempt. *)
Definition allow_pre_enqueue_retry (retries : Z) : option Z :=
  if MAX_PRE_ENQUEUE_RETRIES <=? retries then None else Some (retries + 1).

(** ** Tasks *)

(** What follows [wait_for_live_or_retry] when the room is gone. *)
Inductive cont :=
| ToReserve   (** the lookup of [get_or_create_room] *)
| ToTop       (** its [Existing] arm *)
| ToRetry.    (** [join_room] and [borrow_live_room] after [NotLive] *)

Inductive JoinDelivery := Replied (e : option JoinError) | QueueFull | NoReply | NotDelivered.

(** The steps of [cleanup_starting], which ends with those of [retire_slot]. *)
Inductive cleanup_pc := QLock | QPermit | QRetire | QRemove | QDone.

(** The steps of [finish_owned_room_cleanup]. *)
Inductive close_pc := LWait | LPermit | LRetire | LRemove | LDone.

(** What a caller of the hub wants: [join_room]; [borrow_live_room], with an
    identity or without; [live_handle]; [leave_room]; [send_frame]. *)
Inductive op := OJoin | OBorrow (identity : bool) | OCapture | OLeave | OFrame.

Record caller := Caller {
  w_op : op;
  w_key : RoomKey;
  retries : Z;
  reclaims : Z;
}.

Definition set_retries (n : Z) (w : caller) : caller := Caller (w_op w) (w_key w) n (reclaims w).
Definition set_reclaims (n : Z) (w : caller) : caller := Caller (w_op w) (w_key w) (retries w) n.

(** The entries of the map, as collected under its read lock. *)
Definition entries : Type := list (RoomKey * nat).

Inductive caller_pc :=
| CAdmit | CAdmitDb                         (** admission check of [join_room] *)
| CTop                                      (** head of the retry loop *)
| GTop | GLookup                            (** [get_or_create_room] *)
| WTop (s : nat) (c : cont)                 (** [wait_for_live_or_retry] *)
| WLock (s : nat) (c : cont) (gen : Z)
| WWait (s : nat) (c : cont) (gen : Z)
| WMap (s : nat) (c : cont)
| WDrop (s : nat)                           (** the unused [LiveSlot] is dropped *)
| RTop | RLookup | RPhase (s : nat)         (** [try_reserve_starting] *)
| RRemove (s : nat) | RWrite
| XPass (n : nat)                           (** [reclaim_empty_room_for_admission] *)
| XScan (n : nat) (rest : entries) (oldest : option (Z * RoomKey * nat))
| XLock (n : nat) (k : RoomKey) (s : nat)
| XSpawn (k : RoomKey) (s : nat)
| XWait (j : nat)
| GRegister (s : nat)                       (** the [Creator] arm *)
| GClean (s : nat) (q : cleanup_pc)
| GReply (j : nat)
| CHave (s : nat)                           (** got a [LiveSlot] *)
| CDead (s : nat) | CSpawn (s : nat) | CNotLive (s : nat)
| JDeliver (s : nat) | JDrop (s : nat) (d : JoinDelivery) | JOut (s : nat) (d : JoinDelivery)
| JClaim (s : nat) | JClaimLock (s : nat)
| BUse (s : nat)                            (** the borrowed operation runs *)
| CRetry
| VTop | VLock (s : nat)                    (** [live_handle], [leave_room], [send_frame] *)
| CEnd (r : option JoinError)               (** [None] is success *)
| CCancelled.

(** [start_room]; [b] is the memory reservation it owns. *)
Inductive start_pc :=
| SBegin | SPermit | SBoot | SCheck
| SPool | SPooled | SEstimate
| SGuard (b : Z) | SGuarded (b : Z) | SResource (b : Z)
| SFamily | SFamPend (b : Z) | SFamAcquire (b : Z)
| SReady (b : Z) | SSpawn (b : Z) | SSpawned (e : option JoinError)
| SStop | SPublish | SUnpub
| SClean (q : cleanup_pc) (e : JoinError)
| SReply (r : option JoinError)             (** sent; [None] carries the lease *)
| SEnd.

Inductive idle_pc :=
| ISleep | IRead
| IScan (rest : entries)
| ILock (k : RoomKey) (s : nat) (rest : entries)
| IClose (k : RoomKey) (s : nat) (l : close_pc) (rest : entries)
| IEnd.

(** [retire_moved_resource_rooms] over the keys still to do. *)
Inductive move_pc :=
| MTop (ks : list RoomKey)
| MNotified (k : RoomKey) (s : nat) (ks : list RoomKey)
| MLock (k : RoomKey) (s : nat) (gen : Z) (ks : list RoomKey)
| MSpawn (k : RoomKey) (s : nat) (ks : list RoomKey)
| MClosed (j : nat) (ks : list RoomKey)
| MWait (k : RoomKey) (s : nat) (gen : Z) (ks : list RoomKey).

Inductive shutdown_pc :=
| HFlag | HStop | HRead
| HTake (rest acc : entries)
| HSpawn (acc : entries)
| HJoin
| HLeft
| HLeftover (rest : entries)
| HOwner (k : RoomKey) (s : nat) (rest : entries)             (** [wait_for_closing_owner] *)
| HOwnerLock (k : RoomKey) (s : nat) (gen : Z) (rest : entries)
| HOwnerMap (k : RoomKey) (s : nat) (gen : Z) (rest : entries)
| HOwnerWait (k : RoomKey) (s : nat) (gen : Z) (rest : entries)
| HForce (k : RoomKey) (s : nat) (rest : entries)             (** [force_close_slot] *)
| HForcePermit (k : RoomKey) (s : nat) (rest : entries)
| HClose (k : RoomKey) (s : nat) (l : close_pc) (rest : entries)
| HEnd.

Inductive task :=
| TCaller (w : caller) (pc : caller_pc)
| TStart (k : RoomKey) (s : nat) (identity : bool) (pc : start_pc)
| TClose (k : RoomKey) (s : nat) (l : close_pc)
| TIdle (pc : idle_pc)
| TMove (pc : move_pc)
| TShutdown (pc : shutdown_pc).

(** [CollabHub]. *)
Record hub := Hub {
  config : HubConfig;
  slots : list slot;
  rooms : gmap RoomKey nat;
  permits : Z;
  pending : gset RoomKey;           (** keys of [pending_family_starts] *)
  shutting : bool;                  (** [shutting_down] *)
  stopped : bool;                   (** [idle_stop] *)
  abnormal : Z;                     (** [abnormal_actor_completions] *)
  ledger : MemoryLedger;
  now : Z;
  tasks : list task;
}.

Definition set_slots (v : list slot) (h : hub) : hub :=
  Hub (config h) v (rooms h) (permits h) (pending h) (shutting h) (stopped h) (abnormal h) (ledger h) (now h) (tasks h).
Definition set_rooms (v : gmap RoomKey nat) (h : hub) : hub :=
  Hub (config h) (slots h) v (permits h) (pending h) (shutting h) (stopped h) (abnormal h) (ledger h) (now h) (tasks h).
Definition add_permits (d : Z) (h : hub) : hub :=
  Hub (config h) (slots h) (rooms h) (permits h + d) (pending h) (shutting h) (stopped h) (abnormal h) (ledger h) (now h) (tasks h).
Definition set_pending (v : gset RoomKey) (h : hub) : hub :=
  Hub (config h) (slots h) (rooms h) (permits h) v (shutting h) (stopped h) (abnormal h) (ledger h) (now h) (tasks h).
Definition set_shutting (h : hub) : hub :=
  Hub (config h) (slots h) (rooms h) (permits h) (pending h) true (stopped h) (abnormal h) (ledger h) (now h) (tasks h).
Definition set_stopped (h : hub) : hub :=
  Hub (config h) (slots h) (rooms h) (permits h) (pending h) (shutting h) true (abnormal h) (ledger h) (now h) (tasks h).
Definition add_abnormal (d : Z) (h : hub) : hub :=
  Hub (config h) (slots h) (rooms h) (permits h) (pending h) (shutting h) (stopped h) (abnormal h + d) (ledger h) (now h) (tasks h).
Definition set_ledger (v : MemoryLedger) (h : hub) : hub :=
  Hub (config h) (slots h) (rooms h) (permits h) (pending h) (shutting h) (stopped h) (abnormal h) v (now h) (tasks h).
Definition set_now (v : Z) (h : hub) : hub :=
  Hub (config h) (slots h) (rooms h) (permits h) (pending h) (shutting h) (stopped h) (abnormal h) (ledger h) v (tasks h).
Definition set_tasks (v : list task) (h : hub) : hub :=
  Hub (config h) (slots h) (rooms h) (permits h) (pending h) (shutting h) (stopped h) (abnormal h) (ledger h) (now h) v.

Definition put_slot (s : nat) (x : slot) (h : hub) : hub := set_slots (<[s := x]> (slots h)) h.
Definition spawn (ts : list task) (h : hub) : hub := set_tasks (tasks h ++ ts) h.
Definition release (b : Z) (h : hub) : hub := set_ledger (drop_reservation b (ledger h)) h.

(** [CollabHub::build]: an empty table, all permits free, the idle loop
    spawned. *)
Definition build (cfg : HubConfig) (budget : Z) : hub :=
  Hub cfg [] ∅ (max_rooms cfg) ∅ false false 0 (ledger_new budget) 0 [TIdle ISleep].

End hub.
