(* ===== verification/HubStep.v ===== *)
(** * The steps of the room table ([src/collab/hub.rs])

    One function per asynchronous function of the hub: given the shared state
    and the program counter it runs the next critical section.  [None] means
    that the task is blocked or done. *)

From stdpp Require Import base list numbers strings gmap relations.
From Stdlib Require Import ZArith Lia.
From S2P Require Import Prelude Text Uuid Wire EngineLimits Admission Hub.

(** What [acquire_family_native_room_for_start] did within the deadline. *)
Inductive family_outcome :=
| FamTimeout | FamClaimed | FamStale | FamRefused
| FamError (cleaned : bool).   (** whether the abandoned start was confirmed *)

Section steps.
Context {U : UuidLib}.

(** What the step does not decide itself: the iteration order of the map, the
    answers of the database, of the engine and of the room's actor. *)
Record choice := Choice {
  c_order : entries;
  c_fail : option JoinError;
  c_bytes : Z;
  c_rss : Z;
  c_delivery : JoinDelivery;
  c_family : family_outcome;
  c_confirmed : bool;    (** [release_bounded] succeeded *)
  c_panic : bool;
}.

(** The awaited call succeeded or failed with one of [allowed]. *)
Definition outcome (c : choice) (allowed : list JoinError) : option (option JoinError) :=
  match c_fail c with
  | None => Some None
  | Some e => if bool_decide (e ∈ allowed) then Some (Some e) else None
  end.

(** [rooms.read().await.iter().collect()]: some order of the map. *)
Definition read_entries (c : choice) (h : hub) : option entries :=
  if bool_decide (c_order c ≡ₚ map_to_list (rooms h)) then Some (c_order c) else None.

(** Remove the key when the map still holds this slot. *)
Definition remove_same (k : RoomKey) (s : nat) (h : hub) : hub :=
  if bool_decide (rooms h !! k = Some s) then set_rooms (delete k (rooms h)) h else h.

(** The removal and the wake-up at the end of [retire_slot]. *)
Definition retire_remove (k : RoomKey) (s : nat) (h : hub) : option hub :=
  x ← slots h !! s;
  Some (remove_same k s (put_slot s (notify_waiters x) h)).

Definition retire_failed (s : nat) (h : hub) : option hub :=
  x ← slots h !! s; Some (put_slot s (set_phase Failed x) h).

(** ** Closing a room that the task owns *)

(** [complete_owned_room_cleanup], [finish_owned_room_cleanup] and
    [note_abnormal_actor_completion]. *)
Definition close_step (k : RoomKey) (s : nat) (h : hub) (l : close_pc) : option (hub * close_pc) :=
  match l with
  | LWait =>
    x ← slots h !! s;
    match sactor x with
    | ADone true => Some (h, LPermit)
    | ADone false => Some (add_abnormal 1 h, LPermit)
    | _ => None
    end
  | LPermit => Some (add_permits 1 h, LRetire)
  | LRetire => h' ← retire_failed s h; Some (h', LRemove)
  | LRemove => h' ← retire_remove k s h; Some (h', LDone)
  | LDone => None
  end.

(** [cleanup_starting]. *)
Definition cleanup_step (k : RoomKey) (s : nat) (h : hub) (q : cleanup_pc) : option (hub * cleanup_pc) :=
  match q with
  | QLock =>
    x ← slots h !! s;
    match sphase x with
    | Starting => Some (put_slot s (set_phase Failed x) h, QRetire)
    | Booting => Some (put_slot s (set_phase Failed x) h, QPermit)
    | _ => Some (h, QDone)
    end
  | QPermit => Some (add_permits 1 h, QRetire)
  | QRetire => h' ← retire_failed s h; Some (h', QRemove)
  | QRemove => h' ← retire_remove k s h; Some (h', QDone)
  | QDone => None
  end.

(** ** Starting a room ([start_room] and the task that runs it) *)

(** The reply of the task: taken by its caller, or dropped with its lease when
    no caller waits for it any more. *)
Definition awaits_reply (j : nat) (t : task) : bool :=
  match t with TCaller _ (GReply j') => (j' =? j)%nat | _ => false end.

(** [memory_ledger.try_reserve] on the estimate the database returned. *)
Definition reserve (c : choice) (h : hub) : option (hub * option Z) :=
  if (0 <=? c_bytes c) && (c_bytes c <=? u64_max) && (0 <=? c_rss c) && (c_rss c <=? u64_max) then
    let '(b, l) := try_reserve_against (c_bytes c) (c_rss c) (ledger h) in Some (set_ledger l h, b)
  else None.

(** The [prepared] block: the guard and the memory reservation. *)
Definition prepare_step (c : choice) (k : RoomKey) (s : nat) (identity : bool) (h : hub) (pc : start_pc)
  : option (hub * start_pc) :=
  let fail e := SClean QLock e in
  if c_panic c then
    (** [catch_unwind]: what the future owned is dropped. *)
    match pc with
    | SPool | SPooled | SEstimate | SFamily => Some (h, fail EngineUnavailable)
    | SGuard b | SGuarded b | SResource b | SFamPend b | SFamAcquire b => Some (release b h, fail EngineUnavailable)
    | _ => None
    end
  else
  match pc with
  | SPool =>
    r ← outcome c (if shutting h || stopped h then [DbError; EngineUnavailable] else [DbError]);
    Some (h, match r with None => SPooled | Some e => fail e end)
  | SPooled => Some (h, if shutting h then fail EngineUnavailable else SEstimate)
  | SEstimate =>
    r ← outcome c [DbError];
    match r with
    | None =>
      '(h', b) ← reserve c h;
      Some (h', match b with Some b => SGuard b | None => fail CapacityRetry end)
    | Some e => Some (h, fail e)
    end
  | SGuard b =>
    r ← outcome c [WriterStale; DbError];
    match r with None => Some (h, SGuarded b) | Some e => Some (release b h, fail e) end
  | SGuarded b => if shutting h then Some (release b h, fail EngineUnavailable) else Some (h, SResource b)
  | SResource b =>
    r ← outcome c [AdmissionDenied; DbError];
    match r with None => Some (h, SReady b) | Some e => Some (release b h, fail e) end
  | SFamily =>
    if negb identity then Some (h, fail AdmissionDenied)
    else if negb (family_timings (config h)) then Some (h, fail EngineUnavailable)
    else
      r ← outcome c [DbError; AdmissionDenied];
      match r with
      | None =>
        '(h', b) ← reserve c h;
        Some (h', match b with Some b => SFamPend b | None => fail CapacityRetry end)
      | Some e => Some (h, fail e)
      end
  | SFamPend b => Some (set_pending ({[k]} ∪ pending h) h, SFamAcquire b)
  | SFamAcquire b =>
    match c_family c with
    | FamTimeout => Some (release b (add_abnormal 1 (set_pending ({[k]} ∪ pending h) h)), fail DbError)
    | FamClaimed => Some (set_pending (pending h ∖ {[k]}) h, SReady b)
    | FamStale => Some (release b (set_pending (pending h ∖ {[k]}) h), fail WriterStale)
    | FamRefused => Some (release b (set_pending (pending h ∖ {[k]}) h), fail AdmissionDenied)
    | FamError true => Some (release b (set_pending (pending h ∖ {[k]}) h), fail DbError)
    | FamError false => Some (release b (add_abnormal 1 (set_pending ({[k]} ∪ pending h) h)), fail DbError)
    end
  | _ => None
  end.

Definition start_step (c : choice) (i : nat) (k : RoomKey) (s : nat) (identity : bool) (h : hub) (pc : start_pc)
  : option (hub * start_pc) :=
  let fail e := SClean QLock e in
  match pc with
  | SBegin => Some (h, if shutting h then fail EngineUnavailable else SPermit)
  | SPermit =>
    if 0 <? permits h then Some (add_permits (-1) h, SBoot)
    else if shutting h || stopped h then Some (h, fail EngineUnavailable)
    else None
  | SBoot =>
    x ← slots h !! s;
    if bool_decide (sphase x = Starting) then Some (put_slot s (set_phase Booting x) h, SCheck)
    else Some (add_permits 1 h, SReply (Some EngineUnavailable))
  | SCheck => Some (h, if shutting h then fail EngineUnavailable else if family (config h) then SFamily else SPool)
  | SReady b =>
    if shutting h
    then Some (release b (add_abnormal (if c_confirmed c then 0 else 1) h), fail EngineUnavailable)
    else Some (h, SSpawn b)
  | SSpawn b =>
    x ← slots h !! s;
    r ← outcome c [DbError; EngineUnavailable];
    match r with
    | None => Some (put_slot s (set_reserved b (set_actor ARunning x)) h, SSpawned None)
    | Some e => Some (release b h, SSpawned (Some e))
    end
  | SSpawned r =>
    if shutting h then Some (h, match r with None => SStop | Some _ => fail EngineUnavailable end)
    else
      match r with
      | None => Some (h, SPublish)
      | Some e => Some (add_abnormal (if bool_decide (e = DbError) then 1 else 0) h, fail e)
      end
  | SStop =>
    x ← slots h !! s;
    match sactor x with ADone _ => Some (h, fail EngineUnavailable) | _ => None end
  | SPublish =>
    x ← slots h !! s;
    if bool_decide (sphase x = Booting)
    then Some (put_slot s (notify_waiters (add_lease 1 (set_phase (Live (now h)) x))) h, SReply None)
    else Some (put_slot s (set_phase Failed x) h, SUnpub)
  | SUnpub =>
    x ← slots h !! s;
    match sactor x with
    | ADone _ => Some (put_slot s (notify_waiters x) h, SReply (Some EngineUnavailable))
    | _ => None
    end
  | SClean QDone e => Some (h, SReply (Some e))
  | SClean q e => '(h', q') ← cleanup_step k s h q; Some (h', SClean q' e)
  | SReply r =>
    if existsb (awaits_reply i) (tasks h) then None
    else
      match r with
      | None => x ← slots h !! s; Some (put_slot s (add_lease (-1) x) h, SEnd)
      | Some _ => Some (h, SEnd)
      end
  | SEnd => None
  | _ => prepare_step c k s identity h pc
  end.

(** ** Callers *)

(** The caller's [LiveSlot] or borrowed room. *)
Definition holds_lease (pc : caller_pc) : option nat :=
  match pc with
  | WDrop s | CHave s | CDead s | CNotLive s | JDeliver s | JDrop s _ | BUse s => Some s
  | _ => None
  end.

Definition after_gone (c : cont) : caller_pc :=
  match c with ToReserve => RTop | ToTop => GTop | ToRetry => CRetry end.

Definition close_done (h : hub) (j : nat) : bool :=
  match tasks h !! j with Some (TClose _ _ LDone) => true | _ => false end.

(** [wait_for_live_or_retry]. *)
Definition wait_step (w : caller) (h : hub) (pc : caller_pc) : option (hub * caller_pc) :=
  match pc with
  | WTop s ct =>
    if shutting h then Some (h, CEnd (Some EngineUnavailable))
    else x ← slots h !! s; Some (h, WLock s ct (ready x))
  | WLock s ct gen =>
    x ← slots h !! s;
    match sphase x with
    | Live _ =>
      Some (put_slot s (add_lease 1 x) h, match ct with ToRetry => WDrop s | _ => CHave s end)
    | Failed => Some (h, after_gone ct)
    | _ => Some (h, WWait s ct gen)
    end
  | WWait s ct gen => x ← slots h !! s; if gen <? ready x then Some (h, WMap s ct) else None
  | WMap s ct => Some (h, match rooms h !! w_key w with None => after_gone ct | Some _ => WTop s ct end)
  | WDrop s => x ← slots h !! s; Some (put_slot s (add_lease (-1) x) h, CRetry)
  | _ => None
  end.

Definition new_slot (k : RoomKey) : slot := Slot k Starting ANone 0 0 0 0.

(** [owners.keys().filter(|owned| !rooms.contains_key(owned)).count()]. *)
Definition unresolved (h : hub) : Z := Z.of_nat (size (pending h ∖ dom (rooms h))).

(** [try_reserve_starting], and the arm of [get_or_create_room] for a full
    table. *)
Definition reserve_step (w : caller) (h : hub) (pc : caller_pc) : option (hub * (caller * caller_pc)) :=
  match pc with
  | RTop => Some (h, (w, if shutting h then CEnd (Some EngineUnavailable) else RLookup))
  | RLookup => Some (h, (w, match rooms h !! w_key w with Some s => RPhase s | None => RWrite end))
  | RPhase s =>
    x ← slots h !! s;
    Some (h, (w, if bool_decide (sphase x = Failed) then RRemove s else WTop s ToTop))
  | RRemove s => Some (remove_same (w_key w) s h, (w, RWrite))
  | RWrite =>
    match rooms h !! w_key w with
    | Some s => Some (h, (w, WTop s ToTop))
    | None =>
      if bool_decide (w_key w ∈ pending h) then Some (h, (w, CEnd (Some CapacityRetry)))
      else if max_rooms (config h) <=? Z.of_nat (size (rooms h)) + unresolved h then
        if reclaims w <? MAX_ADMISSION_RECLAIMS
        then Some (h, (set_reclaims (reclaims w + 1) w, XPass (Z.to_nat (max_rooms (config h)) + 1)))
        else Some (h, (w, CEnd (Some RoomFull)))
      else
        let s := length (slots h) in
        Some (set_rooms (<[w_key w := s]> (rooms h)) (set_slots (slots h ++ [new_slot (w_key w)]) h), (w, GRegister s))
    end
  | _ => None
  end.

(** [oldest.is_none_or(|(oldest_at, _, _)| at < *oldest_at)]. *)
Definition older (at_ : Z) (oldest : option (Z * RoomKey * nat)) : bool :=
  match oldest with None => true | Some (a, _, _) => at_ <? a end.

(** [reclaim_empty_room_for_admission] and [oldest_reclaimable_room]. *)
Definition reclaim_step (c : choice) (h : hub) (pc : caller_pc) : option (hub * caller_pc) :=
  let grace := reclaim_grace (config h) in
  match pc with
  | XPass 0 => Some (h, CEnd (Some RoomFull))
  | XPass (S n) =>
    if shutting h then Some (h, CEnd (Some RoomFull))
    else es ← read_entries c h; Some (h, XScan n es None)
  | XScan n [] None => Some (h, CEnd (Some RoomFull))
  | XScan n [] (Some (_, k, s)) => Some (h, XLock n k s)
  | XScan n ((k, s) :: rest) oldest =>
    x ← slots h !! s;
    Some (h, XScan n rest
      match sphase x with
      | Live at_ => if reclaimable_at_cap (now h) grace x && older at_ oldest then Some (at_, k, s) else oldest
      | _ => oldest
      end)
  | XLock n k s =>
    x ← slots h !! s;
    if shutting h then Some (h, CEnd (Some RoomFull))
    else if reclaimable_at_cap (now h) grace x then Some (put_slot s (set_phase Closing x) h, XSpawn k s)
    else Some (h, XPass n)
  | XSpawn k s => Some (spawn [TClose k s LWait] h, XWait (length (tasks h)))
  | XWait j => if close_done h j then Some (h, GTop) else None
  | _ => None
  end.

(** The [Creator] arm of [get_or_create_room]. *)
Definition identity_of (o : op) : bool := match o with OJoin => true | OBorrow b => b | _ => false end.

Definition create_step (w : caller) (h : hub) (pc : caller_pc) : option (hub * caller_pc) :=
  match pc with
  | GRegister s =>
    if shutting h then Some (h, GClean s QLock)
    else Some (spawn [TStart (w_key w) s (identity_of (w_op w)) SBegin] h, GReply (length (tasks h)))
  | GClean s QDone => Some (h, CEnd (Some EngineUnavailable))
  | GClean s q => '(h', q') ← cleanup_step (w_key w) s h q; Some (h', GClean s q')
  | GReply j =>
    match tasks h !! j with
    | Some (TStart k s b (SReply r)) =>
      Some (set_tasks (<[j := TStart k s b SEnd]> (tasks h)) h,
            match r with None => CHave s | Some e => CEnd (Some e) end)
    | _ => None
    end
  | _ => None
  end.

(** The bodies of the loops of [join_room] and [borrow_live_room], with
    [claim_dead_live] and [spawn_reclaim]. *)
Definition use_step (c : choice) (w : caller) (h : hub) (pc : caller_pc) : option (hub * caller_pc) :=
  match pc with
  | CHave s =>
    x ← slots h !! s;
    match borrow_live_phase (now h) x with
    | (BorrowLive, x') => Some (put_slot s x' h, match w_op w with OJoin => JDeliver s | _ => BUse s end)
    | (BorrowDead, x') => Some (put_slot s x' h, CDead s)
    | (BorrowNotLive, _) => Some (h, CNotLive s)
    end
  | CDead s => x ← slots h !! s; Some (put_slot s (add_lease (-1) x) h, CSpawn s)
  | CSpawn s => Some (spawn [TClose (w_key w) s LWait] h, CRetry)
  | CNotLive s => x ← slots h !! s; Some (put_slot s (add_lease (-1) x) h, WTop s ToRetry)
  | JDeliver s =>
    x ← slots h !! s;
    match c_delivery c with
    | NotDelivered => if is_closed x then Some (h, JDrop s NotDelivered) else None
    | d => Some (h, JDrop s d)
    end
  | JDrop s d => x ← slots h !! s; Some (put_slot s (add_lease (-1) x) h, JOut s d)
  | JOut s d =>
    Some (h, match d with
             | Replied r => CEnd r
             | QueueFull => CEnd (Some RoomFull)
             | NoReply => CEnd (Some EngineUnavailable)
             | NotDelivered => JClaim s
             end)
  | JClaim s => Some (h, if bool_decide (rooms h !! w_key w = Some s) then JClaimLock s else CRetry)
  | JClaimLock s =>
    x ← slots h !! s;
    match take_dead_live x with
    | Some x' => Some (put_slot s x' h, CSpawn s)
    | None => Some (h, CRetry)
    end
  | BUse s => x ← slots h !! s; Some (put_slot s (add_lease (-1) x) h, CEnd None)
  | _ => None
  end.

(** [live_handle] with its callers, [leave_room] and [send_frame]. *)
Definition touch_step (w : caller) (h : hub) (pc : caller_pc) : option (hub * caller_pc) :=
  match pc with
  | VTop =>
    match w_op w, shutting h with
    | OFrame, true => Some (h, CEnd None)
    | _, _ => Some (h, match rooms h !! w_key w with Some s => VLock s | None => CEnd None end)
    end
  | VLock s =>
    x ← slots h !! s;
    if is_live x && negb (is_closed x) then
      match w_op w with
      | OCapture => Some (put_slot s (add_lease 1 (set_phase (Live (now h)) x)) h, BUse s)
      | _ => Some (put_slot s (set_phase (Live (now h)) x) h, CEnd None)
      end
    else Some (h, CEnd None)
  | _ => None
  end.

Definition keep_caller (w : caller) (r : option (hub * caller_pc)) : option (hub * (caller * caller_pc)) :=
  '(h, pc) ← r; Some (h, (w, pc)).

Definition caller_step (c : choice) (w : caller) (h : hub) (pc : caller_pc) : option (hub * (caller * caller_pc)) :=
  match pc with
  | CAdmit => Some (h, (w, if shutting h then CEnd (Some EngineUnavailable) else CAdmitDb))
  | CAdmitDb =>
    r ← outcome c [DbError; AdmissionDenied];
    Some (h, (w, match r with None => CTop | Some e => CEnd (Some e) end))
  | CTop => Some (h, if shutting h then (w, CEnd (Some EngineUnavailable)) else (set_reclaims 0 w, GTop))
  | GTop => Some (h, (w, if shutting h then CEnd (Some EngineUnavailable) else GLookup))
  | GLookup => Some (h, (w, match rooms h !! w_key w with Some s => WTop s ToReserve | None => RTop end))
  | CRetry =>
    Some (h, match allow_pre_enqueue_retry (retries w) with
             | Some n => (set_retries n w, CTop)
             | None => (w, CEnd (Some EngineUnavailable))
             end)
  | WTop _ _ | WLock _ _ _ | WWait _ _ _ | WMap _ _ | WDrop _ => keep_caller w (wait_step w h pc)
  | RTop | RLookup | RPhase _ | RRemove _ | RWrite => reserve_step w h pc
  | XPass _ | XScan _ _ _ | XLock _ _ _ | XSpawn _ _ | XWait _ => keep_caller w (reclaim_step c h pc)
  | GRegister _ | GClean _ _ | GReply _ => keep_caller w (create_step w h pc)
  | CHave _ | CDead _ | CSpawn _ | CNotLive _ | JDeliver _ | JDrop _ _ | JOut _ _ | JClaim _ | JClaimLock _
  | BUse _ => keep_caller w (use_step c w h pc)
  | VTop | VLock _ => keep_caller w (touch_step w h pc)
  | CEnd _ | CCancelled => None
  end.

(** The points where a caller's future waits and may be dropped; a lease it
    holds is released. *)
Definition cancellable (pc : caller_pc) : bool :=
  match pc with
  | CAdmitDb | GLookup | WLock _ _ _ | WWait _ _ _ | WMap _ _ | RLookup | RPhase _ | RRemove _ | RWrite
  | XScan _ _ _ | XLock _ _ _ | XWait _ | GClean _ (QLock | QRetire | QRemove) | GReply _ | CHave _ | JDeliver _ | JClaim _ | JClaimLock _
  | BUse _ | VTop | VLock _ => true
  | _ => false
  end.

Definition cancel_step (h : hub) (pc : caller_pc) : option hub :=
  if cancellable pc then
    match holds_lease pc with
    | Some s => x ← slots h !! s; Some (put_slot s (add_lease (-1) x) h)
    | None => Some h
    end
  else None.

(** ** Idle eviction, moved resources, shutdown *)

(** [idle_eviction_loop]. *)
Definition idle_step (c : choice) (h : hub) (pc : idle_pc) : option (hub * idle_pc) :=
  match pc with
  | ISleep => Some (h, if stopped h then IEnd else IRead)
  | IRead => es ← read_entries c h; Some (h, IScan es)
  | IScan [] => Some (h, ISleep)
  | IScan ((k, s) :: rest) => Some (h, if stopped h then IEnd else ILock k s rest)
  | ILock k s rest =>
    x ← slots h !! s;
    match take_idle_evictable (now h) (idle_evict_ms (config h)) x with
    | Some x' => Some (put_slot s x' h, IClose k s LWait rest)
    | None => Some (h, IScan rest)
    end
  | IClose k s LDone rest => Some (h, IScan rest)
  | IClose k s l rest => '(h', l') ← close_step k s h l; Some (h', IClose k s l' rest)
  | IEnd => None
  end.

(** [retire_moved_resource_room] over the keys of
    [retire_moved_resource_rooms]. *)
Definition move_step (h : hub) (pc : move_pc) : option (hub * move_pc) :=
  match pc with
  | MTop [] => None
  | MTop (k :: ks) => Some (h, match rooms h !! k with None => MTop ks | Some s => MNotified k s ks end)
  | MNotified k s ks => x ← slots h !! s; Some (h, MLock k s (ready x) ks)
  | MLock k s gen ks =>
    x ← slots h !! s;
    match sphase x with
    | Failed => Some (h, MTop ks)
    | Live _ => Some (put_slot s (set_phase Closing x) h, MSpawn k s ks)
    | _ => Some (h, MWait k s gen ks)
    end
  | MSpawn k s ks => Some (spawn [TClose k s LWait] h, MClosed (length (tasks h)) ks)
  | MClosed j ks => if close_done h j then Some (h, MTop ks) else None
  | MWait k s gen ks => x ← slots h !! s; if gen <? ready x then Some (h, MTop (k :: ks)) else None
  end.

(** The tasks that shutdown joins: the idle loop and the list [starts]. *)
Definition unjoined (t : task) : bool :=
  match t with
  | TStart _ _ _ SEnd | TStart _ _ _ (SReply (Some _)) | TClose _ _ LDone | TIdle IEnd | TMove (MTop [])
  | TCaller _ _ | TShutdown _ => false
  | TStart _ _ _ (SReply None) => false
  | TStart _ _ _ _ | TClose _ _ _ | TIdle _ | TMove _ => true
  end.

(** Another [shutdown] holds [shutdown_lock]. *)
Definition in_shutdown (t : task) : bool :=
  match t with TShutdown HFlag | TShutdown HEnd => false | TShutdown _ => true | _ => false end.

(** [shutdown] with [take_live_rooms_for_shutdown], [wait_for_closing_owner]
    and [force_close_slot]. *)
Definition shutdown_step (c : choice) (h : hub) (pc : shutdown_pc) : option (hub * shutdown_pc) :=
  match pc with
  | HFlag => if existsb in_shutdown (tasks h) then None else Some (set_shutting h, HStop)
  | HStop => Some (set_stopped h, HRead)
  | HRead => es ← read_entries c h; Some (h, HTake es [])
  | HTake [] acc => Some (h, HSpawn acc)
  | HTake ((k, s) :: rest) acc =>
    x ← slots h !! s;
    if is_live x then Some (put_slot s (set_phase Closing x) h, HTake rest (acc ++ [(k, s)]))
    else Some (h, HTake rest acc)
  | HSpawn acc => Some (spawn (map (fun e => TClose e.1 e.2 LWait) acc) h, HJoin)
  | HJoin => if existsb unjoined (tasks h) then None else Some (h, HLeft)
  | HLeft => es ← read_entries c h; Some (h, HLeftover es)
  | HLeftover [] => Some (set_rooms ∅ h, HEnd)
  | HLeftover ((k, s) :: rest) =>
    x ← slots h !! s;
    Some (h, if bool_decide (sphase x = Closing) then HOwner k s rest else HForce k s rest)
  | HOwner k s rest => x ← slots h !! s; Some (h, HOwnerLock k s (ready x) rest)
  | HOwnerLock k s gen rest =>
    x ← slots h !! s;
    Some (h, if bool_decide (sphase x = Closing) then HOwnerMap k s gen rest else HLeftover rest)
  | HOwnerMap k s gen rest =>
    Some (h, if bool_decide (rooms h !! k = Some s) then HOwnerWait k s gen rest else HLeftover rest)
  | HOwnerWait k s gen rest => x ← slots h !! s; if gen <? ready x then Some (h, HOwner k s rest) else None
  | HForce k s rest =>
    x ← slots h !! s;
    Some (put_slot s (set_phase Closing x) h,
      match sphase x with
      | Live _ => HClose k s LWait rest
      | Booting => HForcePermit k s rest
      | Starting | Failed | Closing => HClose k s LRetire rest
      end)
  | HForcePermit k s rest => Some (add_permits 1 h, HClose k s LRetire rest)
  | HClose k s LDone rest => Some (h, HLeftover rest)
  | HClose k s l rest => '(h', l') ← close_step k s h l; Some (h', HClose k s l' rest)
  | HEnd => None
  end.

(** ** The system *)

Definition task_step (c : choice) (i : nat) (h : hub) (t : task) : option (hub * task) :=
  match t with
  | TCaller w pc => '(h', (w', pc')) ← caller_step c w h pc; Some (h', TCaller w' pc')
  | TStart k s b pc => '(h', pc') ← start_step c i k s b h pc; Some (h', TStart k s b pc')
  | TClose k s l => '(h', l') ← close_step k s h l; Some (h', TClose k s l')
  | TIdle pc => '(h', pc') ← idle_step c h pc; Some (h', TIdle pc')
  | TMove pc => '(h', pc') ← move_step h pc; Some (h', TMove pc')
  | TShutdown pc => '(h', pc') ← shutdown_step c h pc; Some (h', TShutdown pc')
  end.

Definition first_pc (o : op) : caller_pc :=
  match o with OJoin => CAdmit | OBorrow _ => CTop | OCapture | OLeave | OFrame => VTop end.

(** Events: a task takes its next step; a caller arrives or is dropped; a MOVE
    or a shutdown begins; the room's actor closes its queue, ends, drops its
    reservation at its first load, counts connections, or keeps the record of
    an unknown remote write; time passes. *)
Inductive event :=
| EStep (c : choice) (i : nat)
| ECall (o : op) (k : RoomKey)
| ECancel (i : nat)
| EMove (ks : list RoomKey)
| EShutdown
| EActor (s : nat) (a : actor)
| EFirstLoad (s : nat)
| EConns (s : nat) (n : Z)
| EUnknownWrite (s : nat)
| ETime (d : Z).

Definition actor_may (a a' : actor) : bool :=
  match a, a' with
  | ARunning, AClosed | ARunning, ADone _ | AClosed, ADone _ => true
  | _, _ => false
  end.

Definition exec (e : event) (h : hub) : option hub :=
  match e with
  | EStep c i =>
    t ← tasks h !! i;
    '(h', t') ← task_step c i h t;
    Some (set_tasks (<[i := t']> (tasks h')) h')
  | ECall o k => Some (spawn [TCaller (Caller o k 0 0) (first_pc o)] h)
  | ECancel i =>
    match tasks h !! i with
    | Some (TCaller w pc) => h' ← cancel_step h pc; Some (set_tasks (<[i := TCaller w CCancelled]> (tasks h')) h')
    | _ => None
    end
  | EMove ks => Some (spawn [TMove (MTop ks)] h)
  | EShutdown => Some (spawn [TShutdown HFlag] h)
  | EActor s a =>
    x ← slots h !! s;
    if actor_may (sactor x) a then
      match a with
      | ADone _ => Some (release (reserved x) (put_slot s (set_reserved 0 (set_actor a x)) h))
      | _ => Some (put_slot s (set_actor a x) h)
      end
    else None
  | EFirstLoad s => x ← slots h !! s; Some (release (reserved x) (put_slot s (set_reserved 0 x) h))
  | EConns s n => x ← slots h !! s; if 0 <=? n then Some (put_slot s (set_conns n x) h) else None
  | EUnknownWrite s =>
    x ← slots h !! s;
    if family (config h) && unfinished x && negb (bool_decide (skey x ∈ pending h))
    then Some (set_pending ({[skey x]} ∪ pending h) h) else None
  | ETime d => if 0 <=? d then Some (set_now (now h + d) h) else None
  end.

Definition hub_step (h h' : hub) : Prop := exists e, exec e h = Some h'.

Definition run (es : list event) (h : hub) : option hub :=
  foldl (fun r e => r ≫= exec e) (Some h) es.

End steps.
