(* ===== verification/HubFacts.v ===== *)
(** * Ownership in the room table

    What each task owns of each slot, and the protocol by which ownership
    moves.  A step of the system either leaves ownership alone or performs one
    [trade] or one [move] on one slot; the invariants of [HubInvariant] are
    proved once per rule of this protocol instead of once per program point. *)

From stdpp Require Import base list numbers strings gmap relations.
From Stdlib Require Import ZArith Lia.
From S2P Require Import Prelude Text Uuid Wire EngineLimits Admission Hub HubStep.

(** What a task may own of a slot. *)
Inductive role :=
| Lease              (** a [JoiningLease] *)
| Creator            (** created the slot, no start task registered yet *)
| Pre                (** start task before [Booting] *)
| Boot               (** start task, slot [Booting], no actor *)
| Run                (** start task that owns the actor *)
| Unpublished        (** start task that lost its slot; never owned *)
| Clean              (** start task about to clean up *)
| Waits              (** closer that waits for the actor *)
| Retires            (** closer whose actor has finished *)
| Wakes              (** will wake the waiters of the failed slot *)
| Removes            (** will take the failed slot out of the map *)
| Permit             (** a room permit *)
| Mem (b : Z)        (** a memory reservation *)
| Noted (g : Z)      (** has read the wake-up count *)
| Waiting (g : Z).   (** waits for a later wake-up *)

#[export] Instance role_eq_dec : EqDecision role.
Proof. solve_decision. Defined.

Section facts.
Context {U : UuidLib}.

Definition close_roles (s : nat) (l : close_pc) : list (nat * role) :=
  match l with
  | LWait => [(s, Waits); (s, Permit)]
  | LPermit => [(s, Retires); (s, Permit)]
  | LRetire => [(s, Retires)]
  | LRemove => [(s, Wakes)]
  | LDone => []
  end.

Definition clean_roles (r : role) (s : nat) (q : cleanup_pc) : list (nat * role) :=
  match q with
  | QLock => [(s, r)]
  | QPermit => [(s, Wakes); (s, Permit)]
  | QRetire | QRemove => [(s, Wakes)]
  | QDone => []
  end.

Definition caller_roles (pc : caller_pc) : list (nat * role) :=
  match pc with
  | WDrop s | CHave s | CNotLive s | JDeliver s | JDrop s _ | BUse s => [(s, Lease)]
  | CDead s => [(s, Lease); (s, Waits); (s, Permit)]
  | CSpawn s | XSpawn _ s => [(s, Waits); (s, Permit)]
  | WLock s _ g => [(s, Noted g)]
  | WWait s _ g => [(s, Waiting g)]
  | RRemove s => [(s, Removes)]
  | GRegister s => [(s, Creator)]
  | GClean s q => clean_roles Creator s q
  | _ => []
  end.

Definition start_roles (s : nat) (pc : start_pc) : list (nat * role) :=
  match pc with
  | SBegin | SPermit => [(s, Pre)]
  | SBoot => [(s, Pre); (s, Permit)]
  | SCheck | SPool | SPooled | SEstimate | SFamily | SSpawned (Some _) => [(s, Boot)]
  | SGuard b | SGuarded b | SResource b | SFamPend b | SFamAcquire b | SReady b | SSpawn b => [(s, Boot); (s, Mem b)]
  | SSpawned None | SStop | SPublish => [(s, Run)]
  | SUnpub => [(s, Unpublished)]
  | SClean q _ => clean_roles Clean s q
  | SReply None => [(s, Lease)]
  | SReply (Some _) | SEnd => []
  end.

Definition roles_of (t : task) : list (nat * role) :=
  match t with
  | TCaller _ pc => caller_roles pc
  | TStart _ s _ pc => start_roles s pc
  | TClose _ s l | TIdle (IClose _ s l _) | TShutdown (HClose _ s l _) => close_roles s l
  | TMove (MLock _ s g _) | TShutdown (HOwnerLock _ s g _) | TShutdown (HOwnerMap _ s g _) => [(s, Noted g)]
  | TMove (MWait _ s g _) | TShutdown (HOwnerWait _ s g _) => [(s, Waiting g)]
  | TMove (MSpawn _ s _) => close_roles s LWait
  | TShutdown (HTake _ acc) | TShutdown (HSpawn acc) => acc ≫= fun e => close_roles e.2 LWait
  | TShutdown (HForcePermit _ s _) => close_roles s LPermit
  | _ => []
  end.

(** All that is owned. *)
Definition held (h : hub) : list (nat * role) := tasks h ≫= roles_of.

(** Shutdown has joined the hub's own tasks. *)
Definition late_task (t : task) : bool :=
  match t with
  | TShutdown (HLeft | HLeftover _ | HOwner _ _ _ | HOwnerLock _ _ _ _ | HOwnerMap _ _ _ _ | HOwnerWait _ _ _ _
      | HForce _ _ _ | HForcePermit _ _ _ | HClose _ _ _ _ | HEnd) => true
  | _ => false
  end.
Definition late (h : hub) : bool := existsb late_task (tasks h).

(** ** The protocol *)

(** What a rule does to the ledger and to the map. *)
Inductive mem_op := MKeep | MReserve (b : Z) | MDrop (b : Z).
Inductive room_op := RKeep | RDelete (k : RoomKey).

Definition on (s : nat) (rs : list role) : list (nat * role) := (fun r => (s, r)) <$> rs.

(** Rules that do not read the slot: what is given up, what is gained, the
    change of the free permits. *)
Inductive trade (sh lt : bool) : list role -> list role -> Z -> mem_op -> room_op -> Prop :=
| tr_register : sh = false -> trade sh lt [Creator] [Pre] 0 MKeep RKeep
| tr_abandon : sh = true -> trade sh lt [Creator] [] 0 MKeep RKeep
| tr_abandon_wake : sh = true -> trade sh lt [Wakes] [] 0 MKeep RKeep
| tr_pre_clean : trade sh lt [Pre] [Clean] 0 MKeep RKeep
| tr_take_permit : trade sh lt [Pre] [Pre; Permit] (-1) MKeep RKeep
| tr_reserve b : trade sh lt [Boot] [Boot; Mem b] 0 (MReserve b) RKeep
| tr_boot_clean : trade sh lt [Boot] [Clean] 0 MKeep RKeep
| tr_boot_clean_mem b : trade sh lt [Boot; Mem b] [Clean] 0 (MDrop b) RKeep
| tr_spawn_fail b : trade sh lt [Boot; Mem b] [Boot] 0 (MDrop b) RKeep
| tr_retire_permit : trade sh lt [Retires; Permit] [Retires] 1 MKeep RKeep
| tr_wake_permit : trade sh lt [Wakes; Permit] [Wakes] 1 MKeep RKeep
| tr_remove k : trade sh lt [Removes] [] 0 MKeep (RDelete k)
| tr_cancel_remove : trade sh lt [Removes] [] 0 MKeep RKeep
| tr_cancel_note g : trade sh lt [Noted g] [] 0 MKeep RKeep
| tr_cancel_wait g : trade sh lt [Waiting g] [] 0 MKeep RKeep
| tr_wait_note g : lt = true -> trade sh lt [Noted g] [Waiting g] 0 MKeep RKeep.

(** Rules under the slot's lock, or on what the slot shares with its actor. *)
Inductive move (sh lt : bool) : slot -> slot -> list role -> list role -> Z -> mem_op -> room_op -> Prop :=
| mv_touch x at_ nw :
    sphase x = Live at_ -> move sh lt x (set_phase (Live nw) x) [] [] 0 MKeep RKeep
| mv_lease x at_ :
    sphase x = Live at_ -> move sh lt x (add_lease 1 x) [] [Lease] 0 MKeep RKeep
| mv_lease_note x at_ g :
    sphase x = Live at_ -> move sh lt x (add_lease 1 x) [Noted g] [Lease] 0 MKeep RKeep
| mv_touch_lease x at_ nw :
    sphase x = Live at_ -> move sh lt x (add_lease 1 (set_phase (Live nw) x)) [] [Lease] 0 MKeep RKeep
| mv_unlease x : move sh lt x (add_lease (-1) x) [Lease] [] 0 MKeep RKeep
| mv_note x : move sh lt x x [] [Noted (ready x)] 0 MKeep RKeep
| mv_wait x g :
    sphase x = Starting \/ sphase x = Booting \/ sphase x = Closing -> move sh lt x x [Noted g] [Waiting g] 0 MKeep RKeep
| mv_woken x g : g < ready x -> move sh lt x x [Waiting g] [] 0 MKeep RKeep
| mv_clean_starting x r :
    r = Creator \/ r = Clean -> sphase x = Starting -> move sh lt x (set_phase Failed x) [r] [Wakes] 0 MKeep RKeep
| mv_clean_booting x r :
    r = Creator \/ r = Clean -> sphase x = Booting ->
    move sh lt x (set_phase Failed x) [r] [Wakes; Permit] 0 MKeep RKeep
| mv_clean_done x r :
    r = Creator \/ r = Clean -> sphase x <> Starting -> sphase x <> Booting -> move sh lt x x [r] [] 0 MKeep RKeep
| mv_boot x :
    sphase x = Starting -> move sh lt x (set_phase Booting x) [Pre; Permit] [Boot] 0 MKeep RKeep
| mv_boot_lost x : sphase x <> Starting -> move sh lt x x [Pre; Permit] [] 1 MKeep RKeep
| mv_spawn x b :
    move sh lt x (set_reserved b (set_actor ARunning x)) [Boot; Mem b] [Run] 0 MKeep RKeep
| mv_stopped x b : sactor x = ADone b -> move sh lt x x [Run] [Clean] 0 MKeep RKeep
| mv_publish x nw :
    sphase x = Booting ->
    move sh lt x (notify_waiters (add_lease 1 (set_phase (Live nw) x))) [Run] [Lease] 0 MKeep RKeep
| mv_unpublish x : sphase x <> Booting -> move sh lt x (set_phase Failed x) [Run] [Unpublished] 0 MKeep RKeep
| mv_unpublished x b : sactor x = ADone b -> move sh lt x (notify_waiters x) [Unpublished] [] 0 MKeep RKeep
| mv_take x at_ : sphase x = Live at_ -> move sh lt x (set_phase Closing x) [] [Waits; Permit] 0 MKeep RKeep
| mv_take_note x at_ g :
    sphase x = Live at_ -> move sh lt x (set_phase Closing x) [Noted g] [Waits; Permit] 0 MKeep RKeep
| mv_waited x b : sactor x = ADone b -> move sh lt x x [Waits; Permit] [Retires; Permit] 0 MKeep RKeep
| mv_retire x : move sh lt x (set_phase Failed x) [Retires] [Wakes] 0 MKeep RKeep
| mv_retire_again x : move sh lt x (set_phase Failed x) [Wakes] [Wakes] 0 MKeep RKeep
| mv_wake x k : move sh lt x (notify_waiters x) [Wakes] [] 0 MKeep (RDelete k)
| mv_see_failed x : sphase x = Failed -> move sh lt x x [] [Removes] 0 MKeep RKeep
| mv_force x :
    lt = true -> sphase x = Starting \/ sphase x = Closing \/ sphase x = Failed ->
    move sh lt x (set_phase Closing x) [] [Retires] 0 MKeep RKeep
| mv_force_booting x :
    lt = true -> sphase x = Booting -> move sh lt x (set_phase Closing x) [] [Retires; Permit] 0 MKeep RKeep
| mv_actor_close x : sactor x = ARunning -> move sh lt x (set_actor AClosed x) [] [] 0 MKeep RKeep
| mv_actor_done x b :
    move sh lt x (set_reserved 0 (set_actor (ADone b) x)) [] [] 0 (MDrop (reserved x)) RKeep
| mv_loaded x : move sh lt x (set_reserved 0 x) [] [] 0 (MDrop (reserved x)) RKeep
| mv_conns x n : move sh lt x (set_conns n x) [] [] 0 MKeep RKeep.

Definition mem_rel (m : mem_op) (l l' : MemoryLedger) : Prop :=
  match m with
  | MKeep => l' = l
  | MReserve b =>
    exists p rss, is_u64 p /\ is_u64 rss /\ try_reserve_against p rss l = (Some b, l')
  | MDrop b => l' = drop_reservation b l
  end.

Definition room_rel (o : room_op) (s : nat) (h h' : hub) : Prop :=
  match o with RKeep => rooms h' = rooms h | RDelete k => rooms h' = rooms (remove_same k s h) end.

(** The owners give up [lose] and gain [gain]; the rest stays. *)
Definition swaps (h h' : hub) (s : nat) (lose gain : list role) : Prop :=
  exists rest, held h ≡ₚ on s lose ++ rest /\ held h' ≡ₚ on s gain ++ rest.

(** One step of the system, seen from the owners. *)
Inductive effect (h h' : hub) : Prop :=
| eff_quiet :
    slots h' = slots h -> held h' ≡ₚ held h -> permits h' = permits h -> ledger h' = ledger h -> rooms h' = rooms h ->
    effect h h'
| eff_clear :
    late h = true -> slots h' = slots h -> held h' ≡ₚ held h -> permits h' = permits h -> ledger h' = ledger h ->
    rooms h' = ∅ -> TShutdown (HLeftover []) ∈ tasks h -> effect h h'
| eff_create k :
    rooms h !! k = None -> Z.of_nat (size (rooms h)) < max_rooms (config h) ->
    slots h' = slots h ++ [new_slot k] -> held h' ≡ₚ (length (slots h), Creator) :: held h ->
    permits h' = permits h -> ledger h' = ledger h -> rooms h' = <[k := length (slots h)]> (rooms h) ->
    effect h h'
| eff_trade s lose gain dp m o :
    trade (shutting h) (late h) lose gain dp m o ->
    slots h' = slots h -> swaps h h' s lose gain -> permits h' = permits h + dp ->
    (dp < 0 -> 0 < permits h) -> mem_rel m (ledger h) (ledger h') -> room_rel o s h h' -> effect h h'
| eff_move s x x' lose gain dp m o :
    slots h !! s = Some x -> move (shutting h) (late h) x x' lose gain dp m o ->
    slots h' = <[s := x']> (slots h) -> swaps h h' s lose gain -> permits h' = permits h + dp ->
    mem_rel m (ledger h) (ledger h') -> room_rel o s h h' -> effect h h'.

End facts.
