(* ===== verification/HubEffect.v ===== *)
(** * Every step of the room table follows the ownership protocol *)

From stdpp Require Import base list numbers strings gmap relations.
From Stdlib Require Import ZArith Lia.
From S2P Require Import Prelude Text Uuid Wire EngineLimits Admission Hub HubStep HubFacts.

(** Case analysis of a step, innermost matches first. *)
Ltac case_inner H :=
  repeat match type of H with
  | context [match ?x with _ => _ end] =>
    lazymatch x with context [match _ with _ => _ end] => fail | _ => idtac end;
    destruct x eqn:?; try discriminate H; simpl in H
  end.

Ltac open_step H :=
  unfold task_step, caller_step, keep_caller, wait_step, reserve_step, reclaim_step, create_step, use_step,
    touch_step, start_step, prepare_step, reserve, idle_step, move_step, shutdown_step,
    outcome, read_entries, remove_same, after_gone, reclaimable_at_cap,
    borrow_live_phase, take_idle_evictable, take_dead_live, is_live, mbind, option_bind in H;
  case_inner H; simplify_eq; bool_to_prop.

#[local] Arguments close_step : simpl never.
#[local] Arguments cleanup_step : simpl never.

Section effects.
Context {U : UuidLib}.

(** ** Ownership when a task changes *)

Lemma held_split (l : list task) i t : l !! i = Some t ->
  exists rest, (l ≫= roles_of) ≡ₚ roles_of t ++ rest /\
    forall t' ts, (<[i := t']> (l ++ ts) ≫= roles_of) ≡ₚ (roles_of t' ++ (ts ≫= roles_of)) ++ rest.
Proof.
  revert i. induction l as [|u l IH]; intros [|i] Hi; simplify_eq/=.
  - exists (l ≫= roles_of). split; [done|]. intros t' ts. rewrite bind_app. solve_Permutation.
  - destruct (IH i Hi) as (rest & E & F). exists (roles_of u ++ rest). rewrite E. split; [solve_Permutation|].
    intros t' ts. rewrite F. solve_Permutation.
Qed.

(** The task gives up [lose] of what it owned and keeps [R]. *)
Lemma swap_tasks R h h' i t t' ts s lose gain :
  tasks h !! i = Some t -> tasks h' = <[i := t']> (tasks h ++ ts) ->
  roles_of t ≡ₚ on s lose ++ R -> roles_of t' ++ (ts ≫= roles_of) ≡ₚ on s gain ++ R -> swaps h h' s lose gain.
Proof.
  intros Hi E P Q. destruct (held_split _ _ _ Hi) as (rest & H1 & H2). exists (R ++ rest). unfold held.
  rewrite E, H1, (H2 t' ts), P, Q. split; solve_Permutation.
Qed.

Lemma swap_task R h h' i t t' s lose gain :
  tasks h !! i = Some t -> tasks h' = <[i := t']> (tasks h) ->
  roles_of t ≡ₚ on s lose ++ R -> roles_of t' ≡ₚ on s gain ++ R -> swaps h h' s lose gain.
Proof. intros Hi E P Q. apply (swap_tasks R h h' i t t' []); simpl; by rewrite ?app_nil_r. Qed.

(** The task gives up all that it owned. *)
Lemma swap_all h h' i t t' s lose gain :
  tasks h !! i = Some t -> tasks h' = <[i := t']> (tasks h) ->
  roles_of t = on s lose -> roles_of t' = on s gain -> swaps h h' s lose gain.
Proof. intros Hi E P Q. apply (swap_task [] h h' i t t'); rewrite ?app_nil_r, ?P, ?Q; done. Qed.

Lemma swap_spawn h h' i t t' u s lose gain :
  tasks h !! i = Some t -> tasks h' = <[i := t']> (tasks h ++ [u]) ->
  roles_of t = on s lose -> roles_of t' ++ roles_of u = on s gain -> swaps h h' s lose gain.
Proof. intros Hi E P Q. apply (swap_tasks [] h h' i t t' [u]); simpl; rewrite ?app_nil_r, ?P, ?Q; done. Qed.

Lemma quiet_held h h' i t t' ts : tasks h !! i = Some t -> tasks h' = <[i := t']> (tasks h ++ ts) ->
  roles_of t ≡ₚ roles_of t' ++ (ts ≫= roles_of) -> held h' ≡ₚ held h.
Proof.
  intros Hi E P. destruct (held_split _ _ _ Hi) as (rest & H1 & H2). unfold held. by rewrite E, H1, (H2 t' ts), P.
Qed.

Lemma quiet_held0 h h' i t t' : tasks h !! i = Some t -> tasks h' = <[i := t']> (tasks h) ->
  roles_of t ≡ₚ roles_of t' -> held h' ≡ₚ held h.
Proof. intros Hi E P. apply (quiet_held h h' i t t' []); [done|by rewrite app_nil_r|by rewrite app_nil_r]. Qed.

(** A caller takes the reply of its start task. *)
Lemma reply_held h h' i j t u t' u' : tasks h !! i = Some t -> tasks h !! j = Some u -> i <> j ->
  tasks h' = <[i := t']> (<[j := u']> (tasks h)) ->
  roles_of t ++ roles_of u ≡ₚ roles_of t' ++ roles_of u' -> held h' ≡ₚ held h.
Proof.
  intros Hi Hj Hn E P. destruct (held_split _ _ _ Hj) as (rest & H1 & H2). unfold held. rewrite E, H1.
  assert (Hi' : <[j := u']> (tasks h) !! i = Some t) by (by rewrite list_lookup_insert_ne).
  destruct (held_split _ _ _ Hi') as (rest' & H3 & H4). specialize (H2 u' []). specialize (H4 t' []).
  rewrite !app_nil_r in H2, H4. rewrite H4. simpl. rewrite ?app_nil_r in *.
  apply (Permutation_app_inv_l (roles_of u')).
  trans ((roles_of t' ++ roles_of u') ++ rest'); [solve_Permutation|]. rewrite <- P.
  trans (roles_of u ++ roles_of t ++ rest'); [solve_Permutation|]. rewrite <- H3, H2. solve_Permutation.
Qed.

Lemma late_here h i t : tasks h !! i = Some t -> late_task t = true -> late h = true.
Proof.
  intros Hi Ht. apply existsb_exists. exists t. split; [|done]. apply list_elem_of_In. by eapply list_elem_of_lookup_2.
Qed.

(** A rule that reads the slot without changing it. *)
Lemma eff_still h h' s x lose gain dp m o :
  slots h !! s = Some x -> move (shutting h) (late h) x x lose gain dp m o ->
  slots h' = slots h -> swaps h h' s lose gain -> permits h' = permits h + dp ->
  mem_rel m (ledger h) (ledger h') -> room_rel o s h h' -> effect h h'.
Proof. intros Hx ? E. eapply eff_move; eauto. by rewrite E, list_insert_id. Qed.

(** ** One rule per step *)

Ltac held_tac Hi :=
  first [ eapply (swap_all _ _ _ _ _ _ _ _ Hi); reflexivity | eapply (swap_spawn _ _ _ _ _ _ _ _ _ Hi); reflexivity ].
Ltac held_slow Hi :=
  first [ eapply (swap_task [_] _ _ _ _ _ _ _ _ Hi); [reflexivity|simpl; solve_Permutation..]
        | eapply (swap_task [_; _] _ _ _ _ _ _ _ _ Hi); [reflexivity|simpl; reflexivity..] ].
Ltac side Hi :=
  first [eassumption | reflexivity | eapply (late_here _ _ _ Hi); reflexivity
        | left; eassumption | left; reflexivity | right; reflexivity | right; left; eassumption | right; right; eassumption
        | congruence].
Ltac mem_tac := simpl; first [reflexivity | eassumption].
Ltac room_tac :=
  unfold room_rel, remove_same; simpl;
  first [ reflexivity | rewrite bool_decide_eq_true_2 by done; reflexivity
        | rewrite bool_decide_eq_false_2 by done; reflexivity ].
Ltac quiet_tac Hi :=
  apply eff_quiet; simpl;
  [reflexivity
  |first [eapply (quiet_held0 _ _ _ _ _ Hi); reflexivity | eapply (quiet_held _ _ _ _ _ [_] Hi); reflexivity]
  |reflexivity..].
Ltac trade_with Hi R :=
  eapply eff_trade; [eapply R; side Hi|reflexivity|held_tac Hi|simpl; lia|lia|mem_tac|room_tac].
Ltac trade_tac Hi :=
  eapply eff_trade; [econstructor; side Hi|reflexivity|held_tac Hi|simpl; lia|lia|mem_tac|room_tac].
Ltac still_tac Hi :=
  eapply eff_still; [eassumption|econstructor; side Hi|reflexivity|held_tac Hi|simpl; lia|mem_tac|room_tac].
Ltac move_tac Hi :=
  eapply eff_move; [eassumption|econstructor; side Hi|reflexivity|held_tac Hi|simpl; lia|mem_tac|room_tac].
Ltac move_with Hi R :=
  eapply eff_move; [eassumption|eapply R; side Hi|reflexivity|held_slow Hi|simpl; lia|mem_tac|room_tac].

(** [finish_owned_room_cleanup], whoever runs it. *)
Lemma close_effect h i t t' k s l h' l' :
  tasks h !! i = Some t -> roles_of t = close_roles s l -> roles_of t' = close_roles s l' ->
  close_step k s h l = Some (h', l') -> effect h (set_tasks (<[i := t']> (tasks h')) h').
Proof.
  intros Hi E E' H.
  assert (K : forall g lose gain, tasks g = <[i := t']> (tasks h) -> close_roles s l = on s lose ->
    close_roles s l' = on s gain -> swaps h g s lose gain).
  { intros g lose gain Eg L G. by apply (swap_task [] h g i t t'); rewrite ?app_nil_r, ?E, ?E', ?L, ?G. }
  unfold close_step, retire_failed, retire_remove, remove_same, mbind, option_bind in H. case_inner H; simplify_eq; simpl in *; bool_to_prop.
  1-2: eapply eff_still; [eassumption|eapply mv_waited; eassumption|reflexivity|by apply K|simpl; lia|reflexivity..].
  - eapply (eff_trade _ _ s); [apply tr_retire_permit|reflexivity|by apply K|reflexivity|lia|reflexivity..].
  - eapply eff_move; [eassumption|apply mv_retire|reflexivity|by apply K|simpl; lia|reflexivity..].
  - eapply eff_move; [eassumption|apply (mv_wake _ _ _ k)|reflexivity|by apply K|simpl; lia|reflexivity|room_tac].
  - eapply eff_move; [eassumption|apply (mv_wake _ _ _ k)|reflexivity|by apply K|simpl; lia|reflexivity|room_tac].
Qed.

(** [cleanup_starting], by a start task or by the caller that created the
    slot. *)
Lemma cleanup_effect r h i t t' k s q h' q' :
  r = Creator \/ r = Clean ->
  tasks h !! i = Some t -> roles_of t = clean_roles r s q -> roles_of t' = clean_roles r s q' ->
  cleanup_step k s h q = Some (h', q') -> effect h (set_tasks (<[i := t']> (tasks h')) h').
Proof.
  intros Hr Hi E E' H.
  assert (K : forall g lose gain, tasks g = <[i := t']> (tasks h) -> clean_roles r s q = on s lose ->
    clean_roles r s q' = on s gain -> swaps h g s lose gain).
  { intros g lose gain Eg L G. by apply (swap_task [] h g i t t'); rewrite ?app_nil_r, ?E, ?E', ?L, ?G. }
  unfold cleanup_step, retire_failed, retire_remove, remove_same, mbind, option_bind in H. case_inner H; simplify_eq; simpl in *; bool_to_prop.
  - eapply eff_move; [eassumption|by apply (mv_clean_starting _ _ _ r)|reflexivity|by apply K|simpl; lia|reflexivity..].
  - eapply eff_move; [eassumption|by apply (mv_clean_booting _ _ _ r)|reflexivity|by apply K|simpl; lia|reflexivity..].
  - eapply eff_still; [eassumption|apply (mv_clean_done _ _ _ r); [done|congruence..]|reflexivity|by apply K|simpl; lia|reflexivity..].
  - eapply eff_still; [eassumption|apply (mv_clean_done _ _ _ r); [done|congruence..]|reflexivity|by apply K|simpl; lia|reflexivity..].
  - eapply eff_still; [eassumption|apply (mv_clean_done _ _ _ r); [done|congruence..]|reflexivity|by apply K|simpl; lia|reflexivity..].
  - eapply (eff_trade _ _ s); [apply tr_wake_permit|reflexivity|by apply K|reflexivity|lia|reflexivity..].
  - eapply eff_move; [eassumption|apply mv_retire_again|reflexivity|by apply K|simpl; lia|reflexivity..].
  - eapply eff_move; [eassumption|apply (mv_wake _ _ _ k)|reflexivity|by apply K|simpl; lia|reflexivity|room_tac].
  - eapply eff_move; [eassumption|apply (mv_wake _ _ _ k)|reflexivity|by apply K|simpl; lia|reflexivity|room_tac].
Qed.

Lemma caller_effect c i h w pc h' w' pc' :
  tasks h !! i = Some (TCaller w pc) -> caller_step c w h pc = Some (h', (w', pc')) ->
  effect h (set_tasks (<[i := TCaller w' pc']> (tasks h')) h').
Proof.
  intros Hi H. open_step H.
  all: try quiet_tac Hi.
  all: try solve [trade_tac Hi | still_tac Hi | move_tac Hi].
  all: try solve [eapply (cleanup_effect Creator); [by left|exact Hi| | |eassumption]; reflexivity].
  all: try solve [move_with Hi @mv_touch | move_with Hi @mv_take | move_with Hi @mv_unlease].
  1: { apply (eff_create _ _ (w_key w')); simpl; [done| |done| |done..].
    { unfold unresolved in *. lia. }
    destruct (held_split _ _ _ Hi) as (rest & H1 & H2). specialize (H2 (TCaller w' (GRegister (length (slots h)))) []).
    rewrite app_nil_r in H2. unfold held. simpl. by rewrite H2, H1. }
  all: apply eff_quiet; simpl; [done|eapply (reply_held _ _ i j _ _ _ _ Hi Heqo); [congruence|done..]|done..].
Qed.

Lemma refused_same p rss l l' : try_reserve_against p rss l = (None, l') -> l' = l.
Proof. unfold try_reserve_against. cbv zeta. case_match; congruence. Qed.

Lemma start_effect c i h k s b pc h' pc' :
  tasks h !! i = Some (TStart k s b pc) -> start_step c i k s b h pc = Some (h', pc') ->
  effect h (set_tasks (<[i := TStart k s b pc']> (tasks h')) h').
Proof.
  intros Hi H. open_step H.
  all: try quiet_tac Hi.
  all: try solve [trade_tac Hi | still_tac Hi | move_tac Hi].
  all: try solve [eapply (cleanup_effect Clean); [by right|exact Hi| | |eassumption]; reflexivity].
  all: try (eapply (eff_trade _ _ s); [apply tr_reserve|reflexivity|held_tac Hi|simpl; lia|lia| |reflexivity];
    match goal with E : try_reserve_against ?p ?r _ = (Some _, _) |- _ => exists p, r; split_and!; first [done|exact E] end).
  all: match goal with E : try_reserve_against _ _ _ = (None, _) |- _ => apply refused_same in E as -> end;
    trade_tac Hi.
Qed.

Lemma idle_effect c i h pc h' pc' :
  tasks h !! i = Some (TIdle pc) -> idle_step c h pc = Some (h', pc') ->
  effect h (set_tasks (<[i := TIdle pc']> (tasks h')) h').
Proof.
  intros Hi H. open_step H.
  all: try quiet_tac Hi.
  all: try solve [trade_tac Hi | move_tac Hi].
  all: eapply close_effect; [exact Hi| | |eassumption]; reflexivity.
Qed.

Lemma move_effect i h pc h' pc' :
  tasks h !! i = Some (TMove pc) -> move_step h pc = Some (h', pc') ->
  effect h (set_tasks (<[i := TMove pc']> (tasks h')) h').
Proof.
  intros Hi H. open_step H.
  all: try quiet_tac Hi.
  all: solve [trade_tac Hi | still_tac Hi | move_tac Hi].
Qed.

Lemma shutdown_effect c i h pc h' pc' :
  tasks h !! i = Some (TShutdown pc) -> shutdown_step c h pc = Some (h', pc') ->
  effect h (set_tasks (<[i := TShutdown pc']> (tasks h')) h').
Proof.
  intros Hi H. open_step H.
  all: try quiet_tac Hi.
  all: try solve [trade_tac Hi | still_tac Hi | move_tac Hi].
  all: try solve [eapply close_effect; [exact Hi| | |eassumption]; reflexivity].
  - eapply eff_move; [eassumption|by eapply mv_take|reflexivity| |simpl; lia|reflexivity..].
    eapply (swap_task (acc ≫= fun e => close_roles e.2 LWait) _ _ _ _ _ _ _ _ Hi); [reflexivity|done|].
    simpl. rewrite bind_app. simpl. solve_Permutation.
  - apply eff_quiet; [done| |done..].
    eapply (quiet_held _ _ _ _ _ (map (fun e => TClose e.1 e.2 LWait) acc) Hi); [done|]. simpl.
    clear Hi. induction acc as [|e acc IH]; simpl; [done|]. by rewrite IH.
  - apply eff_clear; [by eapply late_here|done|by eapply (quiet_held0 _ _ _ _ _ Hi)|done..|by eapply list_elem_of_lookup_2].
Qed.

Lemma task_effect c i h t h' t' :
  tasks h !! i = Some t -> task_step c i h t = Some (h', t') -> effect h (set_tasks (<[i := t']> (tasks h')) h').
Proof.
  intros Hi H. destruct t as [w pc|k s b pc|k s l|pc|pc|pc]; cbn [task_step] in H;
    unfold mbind, option_bind in H; case_inner H; simplify_eq.
  - by eapply caller_effect.
  - by eapply start_effect.
  - by eapply close_effect.
  - by eapply idle_effect.
  - by eapply move_effect.
  - by eapply shutdown_effect.
Qed.

(** Tasks that only exist after shutdown began. *)
Definition flagged (t : task) : bool :=
  match t with
  | TShutdown HFlag => false
  | TShutdown _ | TCaller _ (GClean _ _) => true
  | _ => false
  end.

Definition flag_ok (h : hub) : Prop := shutting h = true \/ forall t, t ∈ tasks h -> flagged t = false.

Lemma late_flagged t : late_task t = true -> flagged t = true.
Proof. by destruct t as [| | | | |[]]. Qed.

Lemma late_shutting h : flag_ok h -> late h = true -> shutting h = true.
Proof.
  intros [|F] L; [done|]. apply existsb_exists in L as (t & Ht & Hl).
  apply list_elem_of_In in Ht. apply late_flagged in Hl. by rewrite (F t Ht) in Hl.
Qed.

Lemma cancel_effect i h w pc h' :
  flag_ok h -> tasks h !! i = Some (TCaller w pc) -> cancel_step h pc = Some h' ->
  effect h (set_tasks (<[i := TCaller w CCancelled]> (tasks h')) h').
Proof.
  intros Hc Hi H.
  assert (Hs : flagged (TCaller w pc) = true -> shutting h = true).
  { destruct Hc as [|Hc]; [done|]. rewrite (Hc _ (list_elem_of_lookup_2 _ _ _ Hi)). done. }
  unfold cancel_step, mbind, option_bind in H. destruct pc; simpl in H; try discriminate H;
    case_inner H; simplify_eq; try quiet_tac Hi.
  all: solve [trade_tac Hi | move_tac Hi
    | trade_with Hi @tr_cancel_note | trade_with Hi @tr_cancel_wait | trade_with Hi @tr_cancel_remove
    | eapply (eff_trade _ _ s); [apply tr_abandon; by apply Hs|reflexivity|held_tac Hi|simpl; lia|lia|reflexivity..]
    | eapply (eff_trade _ _ s); [apply tr_abandon_wake; by apply Hs|reflexivity|held_tac Hi|simpl; lia|lia|reflexivity..]].
Qed.

Lemma exec_effect e h h' : flag_ok h -> exec e h = Some h' -> effect h h'.
Proof.
  intros Hc H. destruct e as [c i|o k|i|ks| |s a|s|s n|s|d]; cbn [exec] in H; unfold mbind, option_bind in H;
    case_inner H; simplify_eq; bool_to_prop.
  all: try by eapply task_effect.
  all: try by eapply cancel_effect.
  all: try (apply eff_quiet; simpl; [done|unfold held; simpl; rewrite ?bind_app; simpl; by rewrite ?app_nil_r|done..]).
  1: { apply eff_quiet; simpl; [done| |done..]. unfold held; simpl. rewrite bind_app. destruct o; simpl; by rewrite app_nil_r. }
  all: try (destruct (sactor _) eqn:?; simpl in *; try done).
  all: solve [eapply eff_move; [eassumption|by econstructor|reflexivity|by exists (held h)|simpl; lia|reflexivity..]].
Qed.

(** ** The flags *)

Definition is_start (t : task) : bool := match t with TStart _ _ _ _ => true | _ => false end.

Lemma late_not_start t : late_task t = true -> is_start t = false.
Proof. by destruct t. Qed.

(** What a task's step does to the flags and to the other tasks. *)
Record flag_step (h h' : hub) (t t' : task) : Prop := {
  fs_config : config h' = config h;
  fs_shutting : shutting h = true -> shutting h' = true;
  fs_flagged : flagged t' = true -> flagged t = true \/ shutting h' = true;
  fs_late : late_task t = true -> late_task t' = true;
  fs_joined : late_task t' = true ->
    late_task t = true \/ existsb unjoined (tasks h) = false /\ tasks h' = tasks h;
  fs_others : forall u, u ∈ tasks h' -> u ∈ tasks h \/ flagged u = false;
  fs_kept : forall j u, tasks h !! j = Some u -> is_start u = false -> tasks h' !! j = Some u;
}.

Lemma flag_same h h' t t' :
  config h' = config h -> shutting h' = shutting h -> tasks h' = tasks h ->
  (flagged t' = true -> flagged t = true \/ shutting h' = true) -> (late_task t = true -> late_task t' = true) ->
  (late_task t' = true -> late_task t = true \/ existsb unjoined (tasks h) = false) -> flag_step h h' t t'.
Proof.
  intros E1 E2 E3 F L J. split; [done|by rewrite E2|done|done| | |].
  - intros Hl. destruct (J Hl); auto.
  - rewrite E3. auto.
  - by rewrite E3.
Qed.

Lemma flag_spawn ts h h' t t' :
  config h' = config h -> shutting h' = shutting h -> tasks h' = tasks h ++ ts -> (forall u, u ∈ ts -> flagged u = false) ->
  (flagged t' = true -> flagged t = true \/ shutting h' = true) -> late_task t = false -> late_task t' = false ->
  flag_step h h' t t'.
Proof.
  intros E1 E2 E3 Hts F L J. split; [done|by rewrite E2|done|by rewrite L|by rewrite J| |]; rewrite E3.
  - intros u [?|?]%elem_of_app; auto.
  - intros j u Hj _. by apply lookup_app_l_Some.
Qed.

Lemma flag_reply j k s b r h w pc pc' :
  tasks h !! j = Some (TStart k s b (SReply r)) -> flagged (TCaller w pc') = false ->
  flag_step h (set_tasks (<[j := TStart k s b SEnd]> (tasks h)) h) (TCaller w pc) (TCaller w pc').
Proof.
  intros Hj F. split; [done|done|by rewrite F|done|done| |]; cbn [tasks set_tasks].
  - intros u [->|Hu]%elem_of_insert_inv; auto.
  - intros j' u Hu Hl. destruct (decide (j' = j)) as [->|Hn]; [|by rewrite list_lookup_insert_ne].
    by simplify_eq.
Qed.

Lemma close_frame k s h l h' l' : close_step k s h l = Some (h', l') ->
  config h' = config h /\ shutting h' = shutting h /\ tasks h' = tasks h.
Proof.
  intros H. unfold close_step, retire_failed, retire_remove, remove_same, mbind, option_bind in H.
  case_inner H; by simplify_eq.
Qed.
Lemma cleanup_frame k s h q h' q' : cleanup_step k s h q = Some (h', q') ->
  config h' = config h /\ shutting h' = shutting h /\ tasks h' = tasks h.
Proof.
  intros H. unfold cleanup_step, retire_failed, retire_remove, remove_same, mbind, option_bind in H.
  case_inner H; by simplify_eq.
Qed.

Lemma task_flags c i h t h' t' :
  tasks h !! i = Some t -> task_step c i h t = Some (h', t') -> flag_step h h' t t'.
Proof.
  intros Hi H. open_step H.
  all: try (match goal with
    | E : close_step _ _ _ _ = Some _ |- _ => apply close_frame in E as (? & ? & ?)
    | E : cleanup_step _ _ _ _ = Some _ |- _ => apply cleanup_frame in E as (? & ? & ?)
    end).
  all: try (apply flag_same; simpl; auto; fail).
  all: try (eapply flag_spawn; simpl; [done|done|reflexivity|by intros ? ->%list_elem_of_singleton|done..]).
  - by eapply flag_reply.
  - by eapply flag_reply.
  - split; simpl; auto.
  - eapply flag_spawn; simpl; [done|done|reflexivity| |by auto..].
    intros u Hu. apply list_elem_of_fmap in Hu as (e & -> & _). done.
Qed.

Lemma late_elem h : late h = true <-> exists u, u ∈ tasks h /\ late_task u = true.
Proof. unfold late. rewrite existsb_exists. by setoid_rewrite list_elem_of_In. Qed.

(** The flags over a step of the system. *)
Record flags_step (h h' : hub) : Prop := {
  fx_config : config h' = config h;
  fx_flags : flag_ok h';
  fx_shutting : shutting h = true -> shutting h' = true;
  fx_late : late h = true -> late h' = true;
  fx_joined : late h = false -> late h' = true -> existsb unjoined (tasks h') = false;
}.

Lemma flags_task h h' i t t' : tasks h !! i = Some t -> flag_ok h -> flag_step h h' t t' ->
  flags_step h (set_tasks (<[i := t']> (tasks h')) h').
Proof.
  intros Hi F [Hc Hs Hf Hl Hj Ho Hk]. split; cbn [config shutting set_tasks].
  - done.
  - unfold flag_ok; cbn [tasks shutting set_tasks]. destruct F as [|F]; [left; auto|].
    destruct (shutting h') eqn:E; [by left|right].
    assert (Ht : flagged t = false) by (apply F; by eapply list_elem_of_lookup_2).
    intros u [->|Hu]%elem_of_insert_inv.
    + destruct (flagged t') eqn:E'; [|done]. destruct (Hf eq_refl); congruence.
    + destruct (Ho u Hu) as [Hu'|]; auto.
  - done.
  - rewrite !late_elem. intros (u & [j Hu]%list_elem_of_lookup & Hul). cbn [tasks set_tasks].
    pose proof (Hk j u Hu (late_not_start _ Hul)) as Hu'. destruct (decide (j = i)) as [->|Hn].
    + simplify_eq. exists t'. split; [|auto]. apply list_elem_of_insert. by eapply lookup_lt_Some.
    + exists u. split; [|done]. eapply (list_elem_of_lookup_2 _ j). by rewrite list_lookup_insert_ne.
  - intros L. rewrite late_elem. intros (u & [->|Hu]%elem_of_insert_inv & Hul).
    + destruct (Hj Hul) as [Ht|[J E]]; [by rewrite (late_here _ _ _ Hi Ht) in L|]. cbn [tasks set_tasks]. rewrite E.
      apply not_true_iff_false. intros (u & Hu & Huj)%existsb_exists. apply list_elem_of_In in Hu.
      apply elem_of_insert_inv in Hu as [->|Hu]; [by destruct t' as [| | | | |[]]|].
      apply not_true_iff_false in J. apply J, existsb_exists. exists u. by rewrite <- list_elem_of_In.
    + destruct (Ho u Hu) as [[j Hu']%list_elem_of_lookup|Hu'].
      * by rewrite (late_here _ _ _ Hu' Hul) in L.
      * apply late_flagged in Hul. congruence.
Qed.

(** Events that only add tasks or change slots, time and records. *)
Lemma flags_spawn h h' ts : config h' = config h -> shutting h' = shutting h -> tasks h' = tasks h ++ ts ->
  (forall u, u ∈ ts -> flagged u = false) -> flag_ok h -> flags_step h h'.
Proof.
  intros E1 E2 E3 Hts F. split; [done| |by rewrite E2| |].
  - destruct F as [F|F]; [left; by rewrite E2|right]. rewrite E3. intros t [?|?]%elem_of_app; auto.
  - rewrite !late_elem, E3. intros (u & Hu & Hl). exists u. rewrite elem_of_app. auto.
  - intros L. rewrite late_elem, E3. intros (u & [Hu|Hu]%elem_of_app & Hl).
    + assert (late h = true) by (apply late_elem; eauto). congruence.
    + apply late_flagged in Hl. rewrite (Hts u Hu) in Hl. done.
Qed.

Lemma exec_flags e h h' : flag_ok h -> exec e h = Some h' -> flags_step h h'.
Proof.
  intros F H. destruct e as [c i|o k|i|ks| |s a|s|s n|s|d]; cbn [exec] in H; unfold mbind, option_bind in H;
    case_inner H; simplify_eq.
  all: try (eapply (flags_spawn _ _ []); [reflexivity|reflexivity|simpl; by rewrite app_nil_r|by intros ? ?%elem_of_nil|done]).
  all: try (eapply flags_spawn; [reflexivity|reflexivity|reflexivity|by intros ? ->%list_elem_of_singleton|done]).
  - eapply flags_task; [eassumption|done|]. by eapply task_flags.
  - eapply flags_spawn; [reflexivity|reflexivity|reflexivity| |done]. intros ? ->%list_elem_of_singleton. by destruct o.
  - eapply flags_task; [eassumption|done|].
    assert (config h0 = config h /\ shutting h0 = shutting h /\ tasks h0 = tasks h) as (? & ? & ?).
    { unfold cancel_step, mbind, option_bind in *. match goal with E : _ = Some h0 |- _ => case_inner E end; by simplify_eq. }
    by apply flag_same.
Qed.
End effects.
