(* ===== verification/HubInvariant.v ===== *)
(** * Invariants of the room table

    What the tasks own of a slot determines what its phase and its actor can
    be.  [slot_ok] is preserved by every rule of the ownership protocol, so it
    holds in every reachable state. *)

From stdpp Require Import base list numbers strings gmap relations.
From Stdlib Require Import ZArith Lia.
From S2P Require Import Prelude Text Uuid Wire EngineLimits Admission Hub HubStep HubFacts HubEffect.

Section invariant.
Context {U : UuidLib}.

Definition in_starting (x : slot) : Z := match sphase x with Starting => 1 | _ => 0 end.
Definition in_booting (x : slot) : Z := match sphase x with Booting => 1 | _ => 0 end.
Definition in_live (x : slot) : Z := match sphase x with Live _ => 1 | _ => 0 end.
Definition in_closing (x : slot) : Z := match sphase x with Closing => 1 | _ => 0 end.
Definition in_failed (x : slot) : Z := match sphase x with Failed => 1 | _ => 0 end.
Definition running (x : slot) : Z := Z.b2z (unfinished x).
Definition actorless (x : slot) : Z := match sactor x with ANone => 1 | _ => 0 end.

(** How often a role is owned; [n] below counts the owners of one slot. *)
Definition count (r : role) (rs : list role) : Z := total (fun r' => if decide (r' = r) then 1 else 0) rs.

Definition starters (n : role -> Z) : Z := n Pre + n Boot + n Run + n Clean.

(** The part that holds even while shutdown forces slots. *)
Definition slot_base (sh : bool) (x : slot) (n : role -> Z) : Prop :=
  joining x = n Lease /\ n Unpublished = 0 /\
  running x <= n Run + in_live x + n Waits /\
  in_booting x <= n Boot + n Run + n Clean /\
  in_closing x <= n Waits + n Retires /\
  (0 < in_live x -> n Creator + starters n + n Waits + n Retires + n Wakes + n Removes = 0) /\
  (0 < n Creator + n Pre + n Boot -> reserved x = 0) /\
  (0 < n Run + in_live x + n Waits -> actorless x = 0) /\
  (sh = false -> in_starting x <= n Creator + n Pre + n Clean).

(** Before shutdown has joined the hub's tasks, every owner is the only one
    and the phase says which kind it is. *)
Definition slot_early (x : slot) (n : role -> Z) : Prop :=
  n Creator + starters n <= in_starting x + in_booting x /\
  n Creator + n Pre <= in_starting x /\
  n Boot + n Run <= in_booting x /\
  n Waits + n Retires <= in_closing x /\
  (0 < n Wakes + n Removes -> in_failed x = 1).

Definition slot_ok (sh lt : bool) (x : slot) (n : role -> Z) : Prop :=
  slot_base sh x n /\ if lt then starters n = 0 else slot_early x n.

(** Owners: [m] of the others, plus the roles of the task that steps. *)
Definition plus (m : role -> Z) (rs : list role) : role -> Z := fun r => m r + count r rs.

End invariant.

Ltac role_facts m P :=
  pose proof (P Lease); pose proof (P Creator); pose proof (P Pre); pose proof (P Boot); pose proof (P Run);
  pose proof (P Clean); pose proof (P Waits); pose proof (P Retires); pose proof (P Wakes); pose proof (P Removes); pose proof (P Unpublished);
  clear P.

Ltac slot_lia :=
  unfold slot_ok, slot_base, slot_early, starters, in_starting, in_booting, in_live, in_closing, in_failed, running,
    unfinished, actorless, plus, count in *; simpl in *; lia.

(** Each rule, for both values of the flags and each phase it applies to. *)
Ltac rule_cases T sh lt Hl x :=
  destruct T; try (match goal with H : ?r = Creator \/ _ |- _ => destruct H as [->| ->] end);
  destruct sh, lt; try done; try (specialize (Hl eq_refl); done); clear Hl;
  let p := fresh "p" in destruct x as [? p ? ? ? ? ?]; destruct p; simpl in *; try congruence;
  try (exfalso; match goal with H : _ \/ _ |- _ => destruct H as [?|[?|?]]; congruence end); subst.

Section preservation.
Context {U : UuidLib}.

Lemma trade_ok sh lt lose gain dp mo o x m :
  trade sh lt lose gain dp mo o -> (lt = true -> sh = true) -> (forall r, 0 <= m r) ->
  slot_ok sh lt x (plus m lose) -> slot_ok sh lt x (plus m gain).
Proof. intros T Hl P I. role_facts m P. rule_cases T sh lt Hl x; slot_lia. Qed.

Lemma move_ok sh lt lose gain dp mo o x x' m :
  move sh lt x x' lose gain dp mo o -> (lt = true -> sh = true) -> (forall r, 0 <= m r) ->
  slot_ok sh lt x (plus m lose) -> slot_ok sh lt x' (plus m gain).
Proof. intros T Hl P I. role_facts m P. rule_cases T sh lt Hl x; slot_lia. Qed.

(** ** Counting the owners *)

Definition owned (h : hub) (s : nat) (r : role) : Z :=
  total (fun e => if decide (e = (s, r)) then 1 else 0) (held h).

#[global] Instance slot_ok_proper sh lt x : Proper (pointwise_relation role eq ==> iff) (slot_ok sh lt x).
Proof.
  intros n n' E. unfold slot_ok, slot_base, slot_early, starters, pointwise_relation in *.
  by rewrite (E Lease), (E Creator), (E Pre), (E Boot), (E Run), (E Clean), (E Waits), (E Retires), (E Wakes),
    (E Removes), (E Unpublished).
Qed.

Lemma owned_nonneg h s r : 0 <= owned h s r.
Proof. apply total_nonneg. intros e _. case_decide; lia. Qed.

Lemma owned_elem h s r : 0 < owned h s r <-> (s, r) ∈ held h.
Proof.
  unfold owned. split.
  - intros H. destruct (decide ((s, r) ∈ held h)) as [|Hn]; [done|]. exfalso.
    rewrite total_eq_zero in H; [lia|]. intros e He. rewrite decide_False; [done|]. by intros ->.
  - intros [j Hj]%list_elem_of_lookup.
    assert (P : forall e, e ∈ held h -> 0 <= if decide (e = (s, r)) then 1 else 0) by (intros; case_decide; lia).
    pose proof (total_ge _ _ j _ P Hj) as H. cbv beta in H. rewrite decide_True in H by done. lia.
Qed.

Lemma owned_perm h h' s r : held h' ≡ₚ held h -> owned h' s r = owned h s r.
Proof. intros E. unfold owned. by apply total_perm. Qed.

Lemma count_on s s' r rs :
  total (fun e => if decide (e = (s', r)) then 1 else 0) (on s rs) = if decide (s' = s) then count r rs else 0.
Proof.
  unfold count. induction rs as [|r' rs IH]; simpl; [by case_decide|]. unfold total, on in *. simpl. rewrite IH.
  repeat case_decide; naive_solver lia.
Qed.

(** The others, before and after a swap. *)
Lemma owned_swap h h' s lose gain : swaps h h' s lose gain ->
  exists m : nat -> role -> Z, (forall s' r, 0 <= m s' r) /\
    (forall r, owned h s r = plus (m s) lose r) /\ (forall r, owned h' s r = plus (m s) gain r) /\
    (forall s' r, s' <> s -> owned h' s' r = owned h s' r).
Proof.
  intros (rest & E & E'). exists (fun s' r => total (fun e => if decide (e = (s', r)) then 1 else 0) rest).
  split_and!.
  - intros. apply total_nonneg. intros e _. case_decide; lia.
  - intros r. unfold owned, plus. rewrite (total_perm _ _ _ E), total_app, count_on, decide_True by done. lia.
  - intros r. unfold owned, plus. rewrite (total_perm _ _ _ E'), total_app, count_on, decide_True by done. lia.
  - intros s' r Hn. unfold owned.
    by rewrite (total_perm _ _ _ E), (total_perm _ _ _ E'), !total_app, !count_on, !decide_False.
Qed.

Lemma owned_new h h' s r : held h' ≡ₚ (s, r) :: held h ->
  forall s' r', owned h' s' r' = owned h s' r' + if decide ((s, r) = (s', r')) then 1 else 0.
Proof. intros E s' r'. unfold owned. rewrite (total_perm _ _ _ E). simpl. lia. Qed.

(** A trade gives something up, so its slot exists. *)
Lemma trade_owned sh lt lose gain dp mo o m :
  trade sh lt lose gain dp mo o -> (forall r, 0 <= m r) -> ~ forall r, plus m lose r = 0.
Proof.
  intros T P H. assert (exists r rs, lose = r :: rs) as (r & rs & ->) by (destruct T; eauto).
  specialize (H r). specialize (P r). unfold plus, count in H. simpl in H. rewrite decide_True in H by done.
  assert (0 <= total (fun r' => if decide (r' = r) then 1 else 0) rs).
  { apply total_nonneg. intros. case_decide; lia. }
  unfold total in *. lia.
Qed.

Lemma new_slot_ok sh lt k : slot_ok sh lt (new_slot k) (plus (fun _ => 0) [Creator]).
Proof. destruct lt, sh; slot_lia. Qed.

(** Induction over an effect for a property of single slots. *)
Lemma effect_slots_ind (Q : slot -> (role -> Z) -> Prop) h h' :
  (forall x n n', (forall r, n' r = n r) -> Q x n -> Q x n') ->
  (forall x m lose gain dp mo o, trade (shutting h) (late h) lose gain dp mo o -> (forall r, 0 <= m r) ->
     Q x (plus m lose) -> Q x (plus m gain)) ->
  (forall x x' m lose gain dp mo o, move (shutting h) (late h) x x' lose gain dp mo o -> (forall r, 0 <= m r) ->
     Q x (plus m lose) -> Q x' (plus m gain)) ->
  (forall k, Q (new_slot k) (plus (fun _ => 0) [Creator])) ->
  effect h h' -> (forall s r, slots h !! s = None -> owned h s r = 0) ->
  (forall s x, slots h !! s = Some x -> Q x (owned h s)) -> forall s x, slots h' !! s = Some x -> Q x (owned h' s).
Proof.
  intros QP Qt Qm Qn Eff Z I s x Hx.
  destruct Eff as [Es Eh _ _ _|_ Es Eh _ _ _|k Hk _ Es Eh _ _ _|s0 lose gain dp m o T Es Sw _ _ _ _
                  |s0 y y' lose gain dp m o Hy T Es Sw _ _ _]; rewrite Es in Hx.
  1-2: eapply QP; [|by apply I]; intros r; by rewrite (owned_perm h h').
  - pose proof (owned_new _ _ _ _ Eh) as En. apply lookup_app_Some in Hx as [Hx|[Hl Hx]].
    + eapply QP; [|by apply I]. intros r. rewrite En, decide_False; [lia|]. intros [= E].
      apply lookup_lt_Some in Hx. lia.
    + apply list_lookup_singleton_Some in Hx as [E <-]. assert (s = length (slots h)) as -> by lia.
      eapply QP; [|apply Qn]. intros r. rewrite En, Z by (by apply lookup_ge_None_2). unfold plus, count. simpl.
      repeat case_decide; naive_solver lia.
  - destruct (owned_swap _ _ _ _ _ Sw) as (n & P & E & E' & Eo). destruct (decide (s = s0)) as [->|Hn].
    + eapply QP; [exact E'|]. eapply Qt; [exact T|apply P|]. eapply QP; [|by apply I]. intros r. by rewrite E.
    + eapply QP; [|by apply I]. intros r. by apply Eo.
  - destruct (owned_swap _ _ _ _ _ Sw) as (n & P & E & E' & Eo). destruct (decide (s = s0)) as [->|Hn].
    + rewrite list_lookup_insert_eq in Hx by (by eapply lookup_lt_Some). simplify_eq.
      eapply QP; [exact E'|]. eapply Qm; [exact T|apply P|]. eapply QP; [|by apply I]. intros r. by rewrite E.
    + rewrite list_lookup_insert_ne in Hx by done. eapply QP; [|by apply I]. intros r. by apply Eo.
Qed.

(** Slots that do not exist have no owners. *)
Lemma fresh_effect h h' : effect h h' -> (forall s r, slots h !! s = None -> owned h s r = 0) ->
  forall s r, slots h' !! s = None -> owned h' s r = 0.
Proof.
  intros Eff Z s r Hs. destruct Eff as [Es Eh _ _ _|_ Es Eh _ _ _|k Hk _ Es Eh _ _ _|s0 lose gain dp m o T Es Sw _ _ _ _
                  |s0 y y' lose gain dp m o Hy T Es Sw _ _ _]; rewrite Es in Hs.
  1-2: rewrite (owned_perm h h') by done; auto.
  - apply lookup_ge_None in Hs. rewrite length_app in Hs. simpl in Hs.
    rewrite (owned_new _ _ _ _ Eh), Z, decide_False; [done|intros [= ]; lia|apply lookup_ge_None; lia].
  - destruct (owned_swap _ _ _ _ _ Sw) as (n & P & E & E' & Eo). destruct (decide (s = s0)) as [->|Hn]; [|rewrite Eo; auto].
    destruct (trade_owned _ _ _ _ _ _ _ _ T (P s0)). intros r'. rewrite <- E. auto.
  - destruct (owned_swap _ _ _ _ _ Sw) as (n & P & E & E' & Eo). apply lookup_ge_None in Hs. rewrite length_insert in Hs.
    apply lookup_lt_Some in Hy as Hlt. rewrite Eo by lia. apply Z. by apply lookup_ge_None.
Qed.

Definition slot_at (sh lt : bool) (x : option slot) (n : role -> Z) : Prop :=
  match x with Some x => slot_ok sh lt x n | None => forall r, n r = 0 end.

#[global] Instance slot_at_proper sh lt x : Proper (pointwise_relation role eq ==> iff) (slot_at sh lt x).
Proof.
  intros n n' E. destruct x as [x|]; simpl; [by apply slot_ok_proper|].
  split; intros H r; [rewrite <- (E r)|rewrite (E r)]; apply H.
Qed.

Definition slots_inv (h : hub) : Prop := forall s, slot_at (shutting h) (late h) (slots h !! s) (owned h s).

Lemma slots_effect h h' : flag_ok h -> effect h h' -> slots_inv h ->
  forall s, slot_at (shutting h) (late h) (slots h' !! s) (owned h' s).
Proof.
  intros F Eff I s. pose proof (late_shutting h F) as Hl.
  assert (Z : forall s r, slots h !! s = None -> owned h s r = 0).
  { intros s' r Hs. pose proof (I s') as Is. rewrite Hs in Is. apply Is. }
  destruct (slots h' !! s) as [x|] eqn:Hx; simpl; [|intros r; by eapply fresh_effect].
  revert s x Hx. apply (effect_slots_ind (slot_ok (shutting h) (late h)) h); [..|done|done|].
  - intros x n n' E. apply slot_ok_proper. intros r. by rewrite E.
  - intros. by eapply trade_ok.
  - intros. by eapply move_ok.
  - intros. apply new_slot_ok.
  - intros s x Hx. pose proof (I s) as Is. by rewrite Hx in Is.
Qed.

(** Only start tasks that have not ended are starters. *)
Definition is_starter (r : role) : bool := match r with Pre | Boot | Run | Clean => true | _ => false end.

Lemma starter_unjoined s r t : (s, r) ∈ roles_of t -> is_starter r = true -> unjoined t = true.
Proof.
  intros H E. destruct (unjoined t) eqn:J; [done|].
  assert (F : forallb (fun e => negb (is_starter e.2)) (roles_of t) = true).
  { destruct t as [w pc|k s' b pc|k s' l|pc|pc|pc]; simpl in *.
    - destruct pc; try done. by destruct q.
    - destruct pc; try done; match goal with o : option JoinError |- _ => by destruct o | q : cleanup_pc |- _ => by destruct q end.
    - by destruct l.
    - by destruct pc.
    - by destruct pc as [[]| | | | |].
    - destruct pc; try done; [| |by destruct l].
      all: clear; induction acc as [|e acc IH]; done. }
  rewrite forallb_forall in F. specialize (F _ (proj1 (list_elem_of_In _ _) H)). simpl in F. by rewrite E in F.
Qed.

(** All registered start tasks have ended. *)
Lemma joined_starters h s : existsb unjoined (tasks h) = false -> starters (owned h s) = 0.
Proof.
  intros J. assert (Z : forall r, r ∈ [Pre; Boot; Run; Clean] -> owned h s r = 0).
  { intros r Hr. apply total_eq_zero. intros e He. case_decide as E; [|done]. exfalso. subst e.
    apply list_elem_of_bind in He as (t & Ht & Hin). apply not_true_iff_false in J. apply J, existsb_exists.
    exists t. rewrite <- list_elem_of_In. split; [done|].
    apply (starter_unjoined s r); [done|]. set_unfold in Hr. naive_solver. }
  unfold starters. rewrite !Z by set_solver. done.
Qed.

Lemma slots_step e h h' : flag_ok h -> slots_inv h -> exec e h = Some h' -> slots_inv h'.
Proof.
  intros F I H. pose proof (slots_effect h h' F (exec_effect e h h' F H) I) as J.
  destruct (exec_flags e h h' F H) as [_ _ Hs Hl Hj]. intros s. specialize (J s).
  destruct (slots h' !! s) as [x|]; [|done]. simpl in *. destruct J as [B L].
  assert (B' : slot_base (shutting h') x (owned h' s)).
  { unfold slot_base in *. destruct_and! B. split_and!; auto. intros E. destruct (shutting h); [by rewrite Hs in E|auto]. }
  split; [done|]. destruct (late h) eqn:E; [by rewrite Hl|]. destruct (late h') eqn:E'; [|done].
  by apply joined_starters, Hj.
Qed.

End preservation.
