(* ===== verification/HubAccount.v ===== *)
(** * The map, the permits and the memory of the room table

    Consequences of the ownership protocol for the shared tables: the map
    holds exactly the slots that are in use, permits are conserved, and the
    ledger is the sum of the reservations that are owned. *)

From stdpp Require Import base list numbers strings gmap relations.
From Stdlib Require Import ZArith Lia.
From S2P Require Import Prelude Text Uuid Wire EngineLimits Admission Hub HubStep HubFacts HubEffect HubInvariant.

Section account.
Context {U : UuidLib}.

(** ** The map *)

Definition rooms_inv (h : hub) : Prop :=
  forall k s, rooms h !! k = Some s -> exists x, slots h !! s = Some x /\ skey x = k.

Definition mapped_inv (h : hub) : Prop :=
  late h = false -> forall s x, slots h !! s = Some x -> sphase x <> Failed -> rooms h !! skey x = Some s.

Lemma move_key sh lt x x' lose gain dp m o : move sh lt x x' lose gain dp m o -> skey x' = skey x.
Proof. by destruct 1. Qed.

Lemma move_failed sh x x' lose gain dp m o :
  move sh false x x' lose gain dp m o -> sphase x = Failed -> sphase x' = Failed.
Proof. destruct 1; simpl; intros; try done; try congruence; by destruct_or!. Qed.

(** Only a failed slot leaves the map. *)
Lemma trade_delete sh lt lose gain dp m k : trade sh lt lose gain dp m (RDelete k) -> Removes ∈ lose.
Proof. inversion 1; set_solver. Qed.
Lemma move_delete sh lt x x' lose gain dp m k : move sh lt x x' lose gain dp m (RDelete k) -> Wakes ∈ lose /\ sphase x' = sphase x.
Proof. inversion 1; subst; split; [set_solver|done]. Qed.

Lemma plus_lose m r lose : (forall r, 0 <= m r) -> r ∈ lose -> 0 < plus m lose r.
Proof.
  intros P [i Hi]%list_elem_of_lookup. unfold plus, count. specialize (P r).
  pose proof (total_ge (fun r' => if decide (r' = r) then 1 else 0) lose i r) as H. cbv beta in H.
  rewrite decide_True in H by done. specialize (H ltac:(intros; case_decide; lia) Hi). lia.
Qed.

Lemma plus_nonneg m lose r : (forall r, 0 <= m r) -> 0 <= plus m lose r.
Proof.
  intros P. unfold plus, count. specialize (P r).
  assert (0 <= total (fun r' => if decide (r' = r) then 1 else 0) lose); [|lia].
  apply total_nonneg. intros. case_decide; lia.
Qed.

Lemma early_failed x m lose r : slot_early x (plus m lose) -> (forall r, 0 <= m r) -> r ∈ lose ->
  r = Wakes \/ r = Removes -> sphase x = Failed.
Proof.
  intros (_ & _ & _ & _ & H) P Hr Er. pose proof (plus_lose m r lose P Hr) as H1.
  pose proof (fun r' => plus_nonneg m lose r' P) as H2.
  pose proof (H2 Wakes). pose proof (H2 Removes). unfold in_failed in H.
  destruct Er as [-> | ->]; destruct (sphase x); try done; specialize (H ltac:(lia)); done.
Qed.

Lemma lookup_removed h k s k' s' : rooms (remove_same k s h) !! k' = Some s' -> rooms h !! k' = Some s'.
Proof. unfold remove_same. case_bool_decide; simpl; [|done]. intros [_ ?]%lookup_delete_Some. done. Qed.

Lemma kept_removed h k s k' s' : rooms h !! k' = Some s' -> s' <> s -> rooms (remove_same k s h) !! k' = Some s'.
Proof.
  intros H Hn. unfold remove_same. case_bool_decide; simpl; [|done]. rewrite lookup_delete_ne; congruence.
Qed.

Lemma rooms_lookup o s h h' k s' : room_rel o s h h' -> rooms h' !! k = Some s' -> rooms h !! k = Some s'.
Proof. destruct o as [|k']; simpl; intros ->; [done|]. apply lookup_removed. Qed.

Lemma rooms_effect h h' : effect h h' -> rooms_inv h -> rooms_inv h'.
Proof.
  intros Eff I k s Hk. destruct Eff as [Es _ _ _ Er|_ Es _ _ _ Er|k0 Hn _ Es _ _ _ Er|s0 lose gain dp m o T Es _ _ _ _ Er
                  |s0 x x' lose gain dp m o Hx T Es _ _ _ Er].
  - rewrite Es. rewrite Er in Hk. auto.
  - by rewrite Er in Hk.
  - rewrite Es. rewrite Er in Hk. apply lookup_insert_Some in Hk as [[-> <-]|[_ Hk]].
    + exists (new_slot k). split; [|done]. by rewrite lookup_app_r, Nat.sub_diag.
    + destruct (I k s Hk) as (x & Hx & Hkx). exists x. split; [by apply lookup_app_l_Some|done].
  - rewrite Es. apply (rooms_lookup _ _ _ _ _ _ Er) in Hk. auto.
  - rewrite Es. apply (rooms_lookup _ _ _ _ _ _ Er) in Hk. destruct (I k s Hk) as (y & Hy & Hky).
    destruct (decide (s = s0)) as [->|]; [|exists y; by rewrite list_lookup_insert_ne].
    exists x'. rewrite list_lookup_insert_eq by (by eapply lookup_lt_Some). split; [done|].
    rewrite (move_key _ _ _ _ _ _ _ _ _ T). congruence.
Qed.

Lemma mapped_effect h h' :
  late h = false -> slots_inv h -> rooms_inv h -> mapped_inv h -> effect h h' ->
  forall s x, slots h' !! s = Some x -> sphase x <> Failed -> rooms h' !! skey x = Some s.
Proof.
  intros L I R M Eff s y Hy Hp. specialize (M L).
  destruct Eff as [Es _ _ _ Er|C Es _ _ _ Er|k0 Hn _ Es _ _ _ Er|s0 lose gain dp m o T Es Sw _ _ _ Er
                  |s0 x x' lose gain dp m o Hx T Es Sw _ _ Er].
  - rewrite Er. rewrite Es in Hy. auto.
  - congruence.
  - rewrite Er. rewrite Es in Hy. apply lookup_app_Some in Hy as [Hy|[Hl Hy]].
    + rewrite lookup_insert_ne; [auto|]. intros ->. rewrite (M s y Hy Hp) in Hn. done.
    + apply list_lookup_singleton_Some in Hy as [E <-]. simpl. rewrite lookup_insert_eq. f_equal. lia.
  - rewrite Es in Hy. pose proof (M s y Hy Hp) as Hr. destruct o as [|k]; simpl in Er; rewrite Er; [done|].
    apply kept_removed; [done|]. intros ->. apply trade_delete in T.
    destruct (owned_swap _ _ _ _ _ Sw) as (n & P & E & _). pose proof (I s0) as Is.
    apply (slot_at_proper _ _ _ _ _ E) in Is. rewrite Hy, L in Is. destruct Is as [_ Is].
    apply Hp. by apply (early_failed y (n s0) lose Removes Is (P s0) T); right.
  - destruct (owned_swap _ _ _ _ _ Sw) as (n & P & E & _). pose proof (I s0) as Is.
    apply (slot_at_proper _ _ _ _ _ E) in Is. rewrite Hx, L in Is. destruct Is as [_ Is]. rewrite L in T.
    rewrite Es in Hy. destruct (decide (s = s0)) as [->|Hns].
    + rewrite list_lookup_insert_eq in Hy by (by eapply lookup_lt_Some). simplify_eq.
      assert (Hpx : sphase x <> Failed) by (intros E'; apply Hp; by eapply move_failed).
      rewrite (move_key _ _ _ _ _ _ _ _ _ T). pose proof (M s0 x Hx Hpx) as Hr.
      destruct o as [|k]; simpl in Er; rewrite Er; [done|]. exfalso. apply move_delete in T as [T _].
      apply Hpx. by apply (early_failed x (n s0) lose Wakes Is (P s0) T); left.
    + rewrite list_lookup_insert_ne in Hy by done. pose proof (M s y Hy Hp) as Hr.
      destruct o as [|k]; simpl in Er; rewrite Er; [done|]. by apply kept_removed.
Qed.

Lemma size_effect h h' : effect h h' -> Z.of_nat (size (rooms h)) <= max_rooms (config h) -> 0 <= max_rooms (config h) ->
  Z.of_nat (size (rooms h')) <= max_rooms (config h).
Proof.
  intros Eff I P. destruct Eff as [_ _ _ _ Er|_ _ _ _ _ Er|k0 Hn Hs _ _ _ _ Er|s0 lose gain dp m o _ _ _ _ _ _ Er
                  |s0 x x' lose gain dp m o _ _ _ _ _ _ Er].
  - by rewrite Er.
  - by rewrite Er, map_size_empty.
  - rewrite Er, map_size_insert_None by done. lia.
  - destruct o as [|k]; simpl in Er; rewrite Er; [done|]. unfold remove_same. case_bool_decide; simpl; [|done].
    rewrite map_size_delete_Some by done. lia.
  - destruct o as [|k]; simpl in Er; rewrite Er; [done|]. unfold remove_same. case_bool_decide; simpl; [|done].
    rewrite map_size_delete_Some by done. lia.
Qed.

(** ** Permits and memory *)

Definition occupied (x : slot) : Z := in_booting x + in_live x.

Definition permit_role (r : role) : Z := match r with Permit => 1 | _ => 0 end.
Definition mem_role (r : role) : Z := match r with Mem b => b | _ => 0 end.

(** Permits and bytes in the hands of tasks. *)
Definition held_permits (h : hub) : Z := total (fun e => permit_role e.2) (held h).
Definition held_bytes (h : hub) : Z := total (fun e => mem_role e.2) (held h).
Definition slot_permits (h : hub) : Z := total occupied (slots h).
Definition slot_bytes (h : hub) : Z := total reserved (slots h).

Lemma total_on (f : role -> Z) s rs : total (fun e => f e.2) (on s rs) = total f rs.
Proof. induction rs as [|r rs IH]; simpl; [done|]. unfold total, on in *. simpl. by rewrite IH. Qed.

(** Sums over what is owned, before and after a swap. *)
Lemma swap_total (f : role -> Z) h h' s lose gain : swaps h h' s lose gain ->
  total (fun e => f e.2) (held h') = total (fun e => f e.2) (held h) - total f lose + total f gain.
Proof.
  intros (rest & E & E'). rewrite (total_perm _ _ _ E), (total_perm _ _ _ E'), !total_app, !total_on. lia.
Qed.

(** Each rule conserves the permits. *)
Lemma trade_permits sh lt lose gain dp m o :
  trade sh lt lose gain dp m o -> dp = total permit_role lose - total permit_role gain.
Proof. destruct 1; reflexivity. Qed.

Lemma move_permits sh lt lose gain dp mo o x x' m :
  move sh lt x x' lose gain dp mo o -> (lt = true -> sh = true) -> (forall r, 0 <= m r) -> slot_ok sh lt x (plus m lose) ->
  dp = total permit_role lose - total permit_role gain + occupied x - occupied x'.
Proof.
  intros T Hl P I. role_facts m P. rule_cases T sh lt Hl x; unfold occupied; slot_lia.
Qed.

(** Each rule changes the memory as its ledger operation says. *)
Definition mem_delta (mo : mem_op) : Z := match mo with MKeep => 0 | MReserve b => b | MDrop b => - b end.

Lemma trade_bytes sh lt lose gain dp m o :
  trade sh lt lose gain dp m o -> mem_delta m = total mem_role gain - total mem_role lose.
Proof. destruct 1; simpl; lia. Qed.

Lemma move_bytes sh lt lose gain dp mo o x x' m :
  move sh lt x x' lose gain dp mo o -> (forall r, 0 <= m r) -> slot_ok sh lt x (plus m lose) ->
  mem_delta mo = total mem_role gain - total mem_role lose + reserved x' - reserved x.
Proof.
  intros T P I. pose proof (P Creator). pose proof (P Pre). pose proof (P Boot). clear P.
  destruct T; try (match goal with H : ?r = Creator \/ _ |- _ => destruct H as [->| ->] end); simpl; try lia.
  slot_lia.
Qed.

Lemma permits_effect h h' : flag_ok h -> slots_inv h -> effect h h' ->
  permits h' + held_permits h' + slot_permits h' = permits h + held_permits h + slot_permits h.
Proof.
  intros F I Eff. pose proof (late_shutting h F) as Hl. unfold held_permits, slot_permits.
  destruct Eff as [Es Eh Ep _ _|_ Es Eh Ep _ _|k0 _ _ Es Eh Ep _ _|s0 lose gain dp m o T Es Sw Ep _ _ _
                  |s0 x x' lose gain dp m o Hx T Es Sw Ep _ _]; rewrite Es, Ep.
  1-2: rewrite (total_perm _ _ _ Eh); lia.
  - rewrite (total_perm _ _ _ Eh), total_app.
    change (total occupied [new_slot k0]) with 0. simpl. unfold total. lia.
  - rewrite (swap_total permit_role _ _ _ _ _ Sw), (trade_permits _ _ _ _ _ _ _ T). lia.
  - rewrite (swap_total permit_role _ _ _ _ _ Sw), (total_insert _ _ _ _ _ Hx).
    destruct (owned_swap _ _ _ _ _ Sw) as (n & P & E & _). pose proof (I s0) as Is.
    apply (slot_at_proper _ _ _ _ _ E) in Is. rewrite Hx in Is.
    rewrite (move_permits _ _ _ _ _ _ _ _ _ _ T Hl (P s0) Is). lia.
Qed.

Lemma permits_free h h' : effect h h' -> 0 <= permits h -> 0 <= permits h'.
Proof.
  intros Eff P. destruct Eff as [_ _ Ep _ _|_ _ _ Ep _ _|k0 _ _ _ _ Ep _ _|s0 lose gain dp m o T _ _ Ep Hd _ _
                  |s0 x x' lose gain dp m o _ T _ _ Ep _ _]; rewrite Ep; try done; destruct T; lia.
Qed.

(** Memory: exact sums of non-negative parts, within the budget. *)
Record bytes_inv (h : hub) : Prop := {
  by_exact : outstanding_bytes (ledger h) = held_bytes h + slot_bytes h;
  by_held : forall e, e ∈ held h -> 0 <= mem_role e.2;
  by_slots : forall x, x ∈ slots h -> 0 <= reserved x;
  by_budget : outstanding_bytes (ledger h) <= budget_bytes (ledger h) < u64_max;
}.

Lemma mem_rel_delta mo l l' : mem_rel mo l l' ->
  0 <= outstanding_bytes l -> outstanding_bytes l <= budget_bytes l < u64_max ->
  (forall b, mo = MDrop b -> 0 <= b <= outstanding_bytes l) ->
  outstanding_bytes l' = outstanding_bytes l + mem_delta mo /\ budget_bytes l' = budget_bytes l /\
  outstanding_bytes l' <= budget_bytes l' /\ (forall b, mo = MReserve b -> 0 <= b).
Proof.
  intros R H0 Hb Hn. destruct mo as [|b|b]; simpl in *.
  - subst. split_and!; [lia|done|lia|done].
  - destruct R as (p & rss & Hp & Hr & E). unfold try_reserve_against in E. cbv zeta in E. case_hyp E; [done|].
    injection E as <- <-. bool_to_prop. pose proof (reservation_bounds p Hp) as Hbd.
    unfold sat_add_u64, is_u64, MIN_ROOM_MEMORY_RESERVATION_BYTES in *. simpl.
    split_and!; [lia|done|lia|]. intros b [= <-]. lia.
  - subst. specialize (Hn b eq_refl). unfold drop_reservation, sat_sub_u64. simpl. split_and!; [lia|done|lia|done].
Qed.

Lemma swap_elem h h' s lose gain e : swaps h h' s lose gain -> e ∈ held h' -> e ∈ held h \/ exists r, r ∈ gain /\ e = (s, r).
Proof.
  intros (rest & E & E') He. rewrite E' in He. rewrite E. apply elem_of_app in He as [He|He]; [right|left; set_solver].
  unfold on in He. apply list_elem_of_fmap in He as (r & -> & Hr). eauto.
Qed.

Lemma swap_lost h h' s lose gain r : swaps h h' s lose gain -> r ∈ lose -> (s, r) ∈ held h.
Proof.
  intros (rest & E & _) Hr. rewrite E. apply elem_of_app. left. unfold on. apply list_elem_of_fmap. eauto.
Qed.

(** What a rule gains was reserved now or owned before. *)
Lemma trade_mem sh lt lose gain dp mo o b :
  trade sh lt lose gain dp mo o -> Mem b ∈ gain -> Mem b ∈ lose \/ mo = MReserve b.
Proof. destruct 1; set_solver. Qed.
Lemma move_mem sh lt x x' lose gain dp mo o b : move sh lt x x' lose gain dp mo o -> Mem b ∉ gain.
Proof. destruct 1; set_solver. Qed.
Lemma trade_drop sh lt lose gain dp b o : trade sh lt lose gain dp (MDrop b) o -> Mem b ∈ lose.
Proof. inversion 1; set_solver. Qed.
Lemma move_reserved sh lt x x' lose gain dp mo o : move sh lt x x' lose gain dp mo o ->
  reserved x' = reserved x \/ reserved x' = 0 \/ Mem (reserved x') ∈ lose.
Proof. destruct 1; simpl; auto. right; right. set_solver. Qed.
Lemma move_drop sh lt x x' lose gain dp b o : move sh lt x x' lose gain dp (MDrop b) o -> b = reserved x.
Proof. by inversion 1. Qed.

Lemma bytes_nonneg h : bytes_inv h -> 0 <= held_bytes h /\ 0 <= slot_bytes h.
Proof. intros [_ H1 H2 _]. split; apply total_nonneg; auto. Qed.

Lemma bytes_effect h h' : slots_inv h -> effect h h' -> bytes_inv h -> bytes_inv h'.
Proof.
  intros I Eff B. pose proof (bytes_nonneg h B) as [N1 N2]. destruct B as [B1 B2 B3 B4].
  destruct Eff as [Es Eh _ El _|_ Es Eh _ El _|k0 _ _ Es Eh _ El _|s0 lose gain dp m o T Es Sw _ _ Em _
                  |s0 x x' lose gain dp m o Hx T Es Sw _ Em _].
  - split; rewrite ?El; [|intros e; rewrite Eh; auto|by rewrite Es|done].
    unfold held_bytes, slot_bytes in *. by rewrite Es, (total_perm _ _ _ Eh).
  - split; rewrite ?El; [|intros e; rewrite Eh; auto|by rewrite Es|done].
    unfold held_bytes, slot_bytes in *. by rewrite Es, (total_perm _ _ _ Eh).
  - split; rewrite ?El; [| | |done].
    + unfold held_bytes, slot_bytes in *. rewrite Es, (total_perm _ _ _ Eh), total_app.
      change (total reserved [new_slot k0]) with 0. simpl. unfold total in *. lia.
    + intros e. rewrite Eh. intros [->|He]%elem_of_cons; [done|auto].
    + intros x. rewrite Es. intros [Hx| ->%list_elem_of_singleton]%elem_of_app; [auto|done].
  - pose proof (swap_total mem_role _ _ _ _ _ Sw) as St. pose proof (trade_bytes _ _ _ _ _ _ _ T) as Td.
    assert (Hd : forall b, m = MDrop b -> 0 <= b <= outstanding_bytes (ledger h)).
    { intros b ->. apply trade_drop in T. pose proof (swap_lost _ _ _ _ _ _ Sw T) as [j Hj]%list_elem_of_lookup.
      pose proof (total_ge (fun e => mem_role e.2) (held h) j _ B2 Hj) as Hge. simpl in Hge.
      pose proof (B2 _ (list_elem_of_lookup_2 _ _ _ Hj)). simpl in *. unfold held_bytes in *. lia. }
    destruct (mem_rel_delta m (ledger h) (ledger h') Em ltac:(lia) B4 Hd) as (E1 & E2 & E3 & E4).
    split; [|intros e He|by rewrite Es|lia].
    + unfold held_bytes, slot_bytes in *. rewrite Es, St. lia.
    + destruct (swap_elem _ _ _ _ _ _ Sw He) as [He'|(r & Hr & ->)]; [auto|]. destruct r; simpl; try lia.
      destruct (trade_mem _ _ _ _ _ _ _ _ T Hr) as [Hl|Hm]; [|auto]. apply (B2 (s0, Mem b)). by eapply swap_lost.
  - pose proof (swap_total mem_role _ _ _ _ _ Sw) as St.
    destruct (owned_swap _ _ _ _ _ Sw) as (n & P & E & _). pose proof (I s0) as Is.
    apply (slot_at_proper _ _ _ _ _ E) in Is. rewrite Hx in Is.
    pose proof (move_bytes _ _ _ _ _ _ _ _ _ _ T (P s0) Is) as Td.
    assert (Hd : forall b, m = MDrop b -> 0 <= b <= outstanding_bytes (ledger h)).
    { intros b ->. apply move_drop in T as ->. pose proof (total_ge reserved (slots h) s0 _ B3 Hx).
      pose proof (B3 _ (list_elem_of_lookup_2 _ _ _ Hx)). unfold slot_bytes in *. lia. }
    destruct (mem_rel_delta m (ledger h) (ledger h') Em ltac:(lia) B4 Hd) as (E1 & E2 & E3 & E4).
    split; [|intros e He|rewrite Es; intros y Hy|lia].
    + unfold held_bytes, slot_bytes in *. rewrite Es, St, (total_insert _ _ _ _ _ Hx). lia.
    + destruct (swap_elem _ _ _ _ _ _ Sw He) as [He'|(r & Hr & ->)]; [auto|]. destruct r; simpl; try lia.
      by destruct (move_mem _ _ _ _ _ _ _ _ _ _ T Hr).
    + apply elem_of_insert_inv in Hy as [->|Hy]; [|auto].
      assert (0 <= reserved x) by (apply B3; by eapply list_elem_of_lookup_2).
      destruct (move_reserved _ _ _ _ _ _ _ _ _ T) as [->|[->|Hm]]; [done|done|].
      apply (B2 (s0, Mem (reserved x'))). by eapply swap_lost.
Qed.

End account.
