(* ===== verification/HubTheorems.v ===== *)
(** * Theorems on the room table ([src/collab/hub.rs]) *)

From stdpp Require Import base list numbers strings gmap relations.
From Stdlib Require Import ZArith Lia.
From S2P Require Import Prelude Text Uuid Wire EngineLimits Admission Hub HubStep HubFacts HubEffect HubInvariant HubAccount.

Section theorems.
Context {U : UuidLib}.

(** At most one actor that has not finished per room. *)
Definition writer_inv (h : hub) : Prop :=
  forall s s' x x', slots h !! s = Some x -> slots h !! s' = Some x' -> skey x = skey x' ->
    unfinished x = true -> unfinished x' = true -> s = s'.

Record hub_inv (h : hub) : Prop := {
  hi_flags : flag_ok h;
  hi_slots : slots_inv h;
  hi_rooms : rooms_inv h;
  hi_mapped : mapped_inv h;
  hi_cap : 0 <= max_rooms (config h);
  hi_size : Z.of_nat (size (rooms h)) <= max_rooms (config h);
  hi_permits : permits h + held_permits h + slot_permits h = max_rooms (config h);
  hi_free : 0 <= permits h;
  hi_bytes : bytes_inv h;
  hi_writer : writer_inv h;
}.

Definition reachable (cfg : HubConfig) (budget : Z) (h : hub) : Prop := rtc hub_step (build cfg budget) h.

Lemma inv_slot h s x : hub_inv h -> slots h !! s = Some x -> slot_ok (shutting h) (late h) x (owned h s).
Proof. intros I Hx. pose proof (hi_slots h I s) as H. by rewrite Hx in H. Qed.

(** Early, an unfinished actor is in the hands of its start task, of a live
    room, or of a closer that waits for it; so its slot has not failed. *)
Lemma unfinished_in_use sh x n : slot_ok sh false x n -> (forall r, 0 <= n r) -> unfinished x = true -> sphase x <> Failed.
Proof.
  intros [B E] P Hu F. role_facts n P.
  unfold slot_base, slot_early, starters, running, in_starting, in_booting, in_live, in_closing, in_failed in *.
  rewrite F, Hu in *. simpl in *. lia.
Qed.

(** No actor starts once shutdown has joined the start tasks. *)
Lemma late_move sh x x' lose gain dp mo o m :
  move sh true x x' lose gain dp mo o -> (forall r, 0 <= m r) -> starters (plus m lose) = 0 ->
  unfinished x' = true -> unfinished x = true.
Proof.
  intros T P S. pose proof (P Pre). pose proof (P Boot). pose proof (P Run). pose proof (P Clean).
  destruct T; unfold unfinished in *; simpl; auto.
  - exfalso. unfold starters, plus, count in S. simpl in S. lia.
  - by rewrite H3.
  - done.
Qed.

Lemma late_effect h h' s x' : late h = true -> slots_inv h -> effect h h' ->
  slots h' !! s = Some x' -> unfinished x' = true ->
  exists x, slots h !! s = Some x /\ skey x = skey x' /\ unfinished x = true.
Proof.
  intros L I Eff Hx' Hu. destruct Eff as [Es _ _ _ _|_ Es _ _ _ _|k _ _ Es _ _ _ _|s0 lose gain dp m o _ Es _ _ _ _ _
                  |s0 x y lose gain dp m o Hx T Es Sw _ _ _]; rewrite Es in Hx'.
  1,2,4: eauto.
  - apply lookup_app_Some in Hx' as [Hx'|[_ Hx']]; [eauto|]. apply list_lookup_singleton_Some in Hx' as [_ <-]. done.
  - destruct (decide (s = s0)) as [->|Hn]; [|rewrite list_lookup_insert_ne in Hx' by done; eauto].
    rewrite list_lookup_insert_eq in Hx' by (by eapply lookup_lt_Some). simplify_eq. exists x.
    split_and!; [done|by rewrite (move_key _ _ _ _ _ _ _ _ _ T)|].
    destruct (owned_swap _ _ _ _ _ Sw) as (n & P & E & _). pose proof (I s0) as Is.
    apply (slot_at_proper _ _ _ _ _ E) in Is. rewrite Hx, L in Is. rewrite L in T.
    eapply late_move; [exact T|exact (P s0)|exact (proj2 Is)|done].
Qed.

Lemma writer_step e h h' : hub_inv h -> exec e h = Some h' -> writer_inv h'.
Proof.
  intros I H. pose proof (exec_effect e h h' (hi_flags h I) H) as Eff.
  intros s s' x x' Hx Hx' Hk Hu Hu'. destruct (late h) eqn:L.
  - destruct (late_effect h h' s x L (hi_slots h I) Eff Hx Hu) as (y & Hy & Ek & Ey).
    destruct (late_effect h h' s' x' L (hi_slots h I) Eff Hx' Hu') as (y' & Hy' & Ek' & Ey').
    apply (hi_writer h I s s' y y'); congruence.
  - pose proof (slots_effect h h' (hi_flags h I) Eff (hi_slots h I)) as J. rewrite L in J.
    pose proof (mapped_effect h h' L (hi_slots h I) (hi_rooms h I) (hi_mapped h I) Eff) as M.
    assert (F : forall s x, slots h' !! s = Some x -> unfinished x = true -> rooms h' !! skey x = Some s).
    { intros t y Hy Ey. apply M; [done|]. specialize (J t). rewrite Hy in J.
      eapply unfinished_in_use; [exact J|intros; apply owned_nonneg|done]. }
    pose proof (F s x Hx Hu). pose proof (F s' x' Hx' Hu'). congruence.
Qed.

Lemma hub_inv_step h h' : hub_step h h' -> hub_inv h -> hub_inv h'.
Proof.
  intros [e H] I. pose proof (exec_effect e h h' (hi_flags h I) H) as Eff.
  pose proof (exec_flags e h h' (hi_flags h I) H) as [Ec Ef _ El _].
  split.
  - done.
  - by eapply slots_step; try apply I.
  - eapply rooms_effect; [done|apply I].
  - intros L. apply (mapped_effect h h'); [|apply I..|done]. destruct (late h); [by rewrite El in L|done].
  - rewrite Ec. apply I.
  - rewrite Ec. eapply size_effect; [done|apply I..].
  - rewrite Ec, <- (hi_permits h I). apply permits_effect; [apply I..|done].
  - eapply permits_free; [done|apply I].
  - eapply bytes_effect; [apply I|done|apply I].
  - by eapply writer_step.
Qed.

Lemma hub_inv_build cfg budget : 0 <= max_rooms cfg -> 0 <= budget < u64_max -> hub_inv (build cfg budget).
Proof.
  intros H0 Hb. split; simpl; try done.
  - right. by intros t ->%list_elem_of_singleton.
  - unfold held_permits, slot_permits. simpl. lia.
  - split; simpl; try done; try set_solver.
Qed.

Lemma budget_effect h h' : effect h h' -> budget_bytes (ledger h') = budget_bytes (ledger h).
Proof.
  intros Eff. assert (R : forall m, mem_rel m (ledger h) (ledger h') -> budget_bytes (ledger h') = budget_bytes (ledger h)).
  { intros [|b|b]; simpl; [by intros ->| |by intros ->]. intros (p & rss & _ & _ & E).
    unfold try_reserve_against in E. cbv zeta in E. case_hyp E; [done|]. by injection E as _ <-. }
  destruct Eff as [_ _ _ El _|_ _ _ _ El _|k _ _ _ _ _ El _|s0 lose gain dp m o _ _ _ _ _ Em _
                  |s0 x y lose gain dp m o _ _ _ _ _ Em _]; first [by rewrite El|by apply (R m)].
Qed.

Lemma hub_inv_reachable cfg budget h :
  0 <= max_rooms cfg -> 0 <= budget < u64_max -> reachable cfg budget h ->
  hub_inv h /\ config h = cfg /\ budget_bytes (ledger h) = budget.
Proof.
  intros H0 Hb R. revert R.
  apply (rtc_ind_r (fun h => hub_inv h /\ config h = cfg /\ budget_bytes (ledger h) = budget)).
  - split; [by apply hub_inv_build|done].
  - intros h1 h2 _ S (I & E & B). split; [by eapply hub_inv_step|]. destruct S as [e S].
    rewrite (fx_config _ _ (exec_flags e h1 h2 (hi_flags h1 I) S)).
    by rewrite (budget_effect h1 h2 (exec_effect e h1 h2 (hi_flags h1 I) S)).
Qed.

(** ** Accounting *)

(** C14: over every interleaving of joins, borrows, starts, evictions, moves,
    cancellations and shutdowns: the free room permits, those in the hands of
    tasks and those of booting and live rooms are together the room cap; a
    room's joining counter is the number of leases that exist for it; the
    ledger is the memory reserved by starts and actors, within the budget; and
    the map never holds more rooms than the cap. *)
Theorem room_accounting (cfg : HubConfig) (budget : Z) (h : hub) :
  0 <= max_rooms cfg -> 0 <= budget < u64_max -> reachable cfg budget h ->
  permits h + held_permits h + slot_permits h = max_rooms cfg /\ 0 <= permits h /\
  (forall s x, slots h !! s = Some x -> joining x = owned h s Lease /\ 0 <= joining x) /\
  outstanding_bytes (ledger h) = held_bytes h + slot_bytes h /\ outstanding_bytes (ledger h) <= budget /\
  Z.of_nat (size (rooms h)) <= max_rooms cfg.
Proof.
  intros H0 Hb R. destruct (hub_inv_reachable cfg budget h H0 Hb R) as (I & E & B).
  pose proof (hi_bytes h I) as [By _ _ Bb]. rewrite <- E, <- B.
  split_and!; [apply (hi_permits h I)|apply (hi_free h I)| |done|lia|apply (hi_size h I)].
  intros s x Hx. destruct (inv_slot h s x I Hx) as [[-> _] _]. split; [done|apply owned_nonneg].
Qed.

(** A task that waits for an actor holds the room's permit. *)
Definition waits_role (r : role) : Z := match r with Waits => 1 | _ => 0 end.

Lemma waits_permits h : total (fun e => waits_role e.2) (held h) <= held_permits h.
Proof.
  unfold held_permits, held. rewrite !total_bind. apply total_le. intros t _.
  assert (C : forall s l, total (fun e => waits_role e.2) (close_roles s l) <= total (fun e => permit_role e.2) (close_roles s l))
    by (intros ? []; simpl; lia).
  destruct t as [w pc|k s b pc|k s l|pc|pc|pc]; simpl; try apply C.
  - destruct pc; simpl; try lia. destruct q; simpl; lia.
  - destruct pc; simpl; try lia; match goal with o : option JoinError |- _ => destruct o | q : cleanup_pc |- _ => destruct q end;
      simpl; lia.
  - destruct pc; simpl; try lia. apply C.
  - destruct pc; simpl; lia.
  - destruct pc; simpl; try lia; try apply C; rewrite !total_bind; apply total_le; intros; simpl; lia.
Qed.

Lemma owned_sum h n : total (fun s => owned h s Waits) (seq 0 n) <= total (fun e => waits_role e.2) (held h).
Proof.
  unfold owned. induction (held h) as [|[s r] L IH]; simpl; [by rewrite total_zero|].
  rewrite total_add. assert (total (fun s' => if decide ((s, r) = (s', Waits)) then 1 else 0) (seq 0 n) <= waits_role r).
  { destruct (decide (r = Waits)) as [->|Hr].
    - simpl. rewrite <- (total_seq_indicator 0 n s). apply total_le. intros s' _. repeat case_decide; naive_solver lia.
    - rewrite total_eq_zero; [by destruct r|]. intros s' _. rewrite decide_False; [done|congruence]. }
  unfold total in *. lia.
Qed.

(** At every moment of every interleaving the actors that have not finished
    (running rooms, rooms being started or closed, shutdown included) are no
    more than the room cap. *)
Theorem actors_bounded (cfg : HubConfig) (budget : Z) (h : hub) :
  0 <= max_rooms cfg -> 0 <= budget < u64_max -> reachable cfg budget h ->
  total running (slots h) <= max_rooms cfg - permits h <= max_rooms cfg.
Proof.
  intros H0 Hb R. destruct (hub_inv_reachable cfg budget h H0 Hb R) as (I & E & _). rewrite <- E.
  pose proof (hi_permits h I). pose proof (hi_free h I).
  assert (total running (slots h) <= slot_permits h + total (fun s => owned h s Waits) (seq 0 (length (slots h)))).
  { apply total_index_from. intros s x Hx. simpl. destruct (inv_slot h s x I Hx) as [B L].
    pose proof (owned_nonneg h s) as P. role_facts (owned h s) P. unfold occupied.
    unfold slot_base, slot_early, starters, in_starting, in_booting, in_live, in_closing, in_failed in *.
    destruct (late h), (sphase x); lia. }
  pose proof (owned_sum h (length (slots h))). pose proof (waits_permits h). lia.
Qed.

(** C2: a room never has two actors at once: two unfinished actors for the same
    key are the same actor, whatever interleaves, shutdown included. *)
Theorem single_writer (cfg : HubConfig) (budget : Z) (h : hub) (s s' : nat) (x x' : slot) :
  0 <= max_rooms cfg -> 0 <= budget < u64_max -> reachable cfg budget h ->
  slots h !! s = Some x -> slots h !! s' = Some x' -> skey x = skey x' ->
  unfinished x = true -> unfinished x' = true -> s = s'.
Proof. intros H0 Hb R. destruct (hub_inv_reachable cfg budget h H0 Hb R) as (I & _). by apply hi_writer. Qed.

End theorems.
