(* ===== verification/HubLife.v ===== *)
(** * The lifecycle of a room

    The room table refines a specification with four states per key: absent,
    opening, open, ending.  Everything else (slots, permits, waiters, retries)
    is invisible to it. *)

From stdpp Require Import base list numbers strings gmap relations.
From Stdlib Require Import ZArith Lia.
From S2P Require Import Prelude Text Uuid Wire EngineLimits Admission Hub HubStep HubFacts HubEffect HubInvariant HubAccount.
From S2P Require Import HubTheorems.

(** ** Specification *)

Inductive life := Absent | Opening | Open | Ending.

#[export] Instance life_eq_dec : EqDecision life.
Proof. solve_decision. Defined.

Inductive life_step : life -> life -> Prop :=
| life_start : life_step Absent Opening
| life_publish : life_step Opening Open
| life_abandon : life_step Opening Absent
| life_close : life_step Open Ending
| life_gone : life_step Ending Absent.

Section life.
Context {U : UuidLib}.

(** One room at a time changes its state. *)
Definition table : Type := RoomKey -> life.
Definition table_set (k : RoomKey) (l : life) (a : table) : table := fun k' => if decide (k' = k) then l else a k'.

Inductive table_step : table -> table -> Prop :=
| table_room a k l : life_step (a k) l -> table_step a (table_set k l a).

Definition empty_table : table := fun _ => Absent.

(** ** Abstraction *)

Definition life_of (x : slot) : life :=
  match sphase x with Starting | Booting => Opening | Live _ => Open | Closing => Ending | Failed => Absent end.

Definition abs (h : hub) (k : RoomKey) : life :=
  match rooms h !! k ≫= fun s => slots h !! s with Some x => life_of x | None => Absent end.

Lemma move_life sh lose gain dp mo o x x' m :
  move sh false x x' lose gain dp mo o -> (forall r, 0 <= m r) -> slot_ok sh false x (plus m lose) ->
  life_of x' = life_of x \/ life_step (life_of x) (life_of x').
Proof.
  intros T P I. destruct T; unfold life_of; simpl; try (by left); try done;
    repeat match goal with H : sphase _ = _ |- _ => rewrite H end; try (by left); try (right; constructor).
  all: role_facts m P; destruct x as [? [] ? ? ? ? ?]; simpl in *; try (by left); try (right; constructor); exfalso;
    slot_lia.
Qed.

(** ** Refinement *)

(** A slot that keeps its state is replaced unseen. *)
Lemma abs_insert (l : list slot) s x x' (o : option nat) :
  l !! s = Some x -> life_of x' = life_of x ->
  match o ≫= fun s' => <[s := x']> l !! s' with Some y => life_of y | None => Absent end =
  match o ≫= fun s' => l !! s' with Some y => life_of y | None => Absent end.
Proof.
  intros Hx E. destruct o as [s'|]; simpl; [|done]. destruct (decide (s = s')) as [<-|Hn].
  - rewrite list_lookup_insert_eq by (by eapply lookup_lt_Some). by rewrite Hx.
  - by rewrite list_lookup_insert_ne.
Qed.

Lemma abs_delete h k s k' :
  (forall x, slots h !! s = Some x -> life_of x = Absent) ->
  match rooms (remove_same k s h) !! k' ≫= fun s => slots h !! s with Some x => life_of x | None => Absent end = abs h k'.
Proof.
  intros F. unfold abs, remove_same. case_bool_decide as E; simpl; [|done].
  destruct (decide (k = k')) as [<-|Hn]; [|by rewrite lookup_delete_ne].
  rewrite lookup_delete_eq, E. simpl. destruct (slots h !! s) as [x|] eqn:Hx; [|done]. by rewrite (F x).
Qed.

(** One step: the table of rooms stutters or one room takes one step. *)
Lemma life_effect h h' : late h = false -> hub_inv h -> effect h h' ->
  (forall k, abs h' k = abs h k) \/
  exists k l, life_step (abs h k) l /\ forall k', abs h' k' = table_set k l (abs h) k'.
Proof.
  intros L I Eff. destruct Eff as [Es _ _ _ Er|C _ _ _ _ _|k0 Hn _ Es _ _ _ Er|s0 lose gain dp m o T Es Sw _ _ _ Er
                  |s0 x x' lose gain dp m o Hx T Es Sw _ _ Er].
  - left. intros k. unfold abs. by rewrite Es, Er.
  - congruence.
  - right. exists k0, Opening. split; [unfold abs; rewrite Hn; constructor|]. intros k. unfold table_set.
    unfold abs. rewrite Es, Er. case_decide as E.
    + subst. rewrite lookup_insert_eq. simpl. by rewrite lookup_app_r, Nat.sub_diag.
    + rewrite lookup_insert_ne by done. destruct (rooms h !! k) as [s|] eqn:Hk; simpl; [|done].
      destruct (hi_rooms h I k s Hk) as (y & Hy & _). by rewrite (lookup_app_l_Some _ _ _ _ Hy), Hy.
  - left. intros k. destruct o as [|kd]; simpl in Er; unfold abs at 1; rewrite Es, Er; [done|].
    apply abs_delete. intros y Hy. destruct (owned_swap _ _ _ _ _ Sw) as (n & P & E & _).
    pose proof (hi_slots h I s0) as Is. apply (slot_at_proper _ _ _ _ _ E) in Is. rewrite Hy, L in Is.
    unfold life_of. by rewrite (early_failed y (n s0) lose Removes (proj2 Is) (P s0) (trade_delete _ _ _ _ _ _ _ T) (or_intror eq_refl)).
  - destruct (owned_swap _ _ _ _ _ Sw) as (n & P & E & _).
    pose proof (hi_slots h I s0) as Is. apply (slot_at_proper _ _ _ _ _ E) in Is. rewrite Hx, L in Is. rewrite L in T.
    assert (Hdel : forall k, o = RDelete k -> life_of x = Absent /\ life_of x' = life_of x).
    { intros k ->. apply move_delete in T as [Tw Tp]. unfold life_of. rewrite Tp.
      by rewrite (early_failed x (n s0) lose Wakes (proj2 Is) (P s0) Tw (or_introl eq_refl)). }
    destruct (move_life _ _ _ _ _ _ _ _ _ T (P s0) Is) as [Hlife|Hlife].
    + left. intros k. unfold abs at 1. rewrite Es, (abs_insert _ _ _ _ _ Hx Hlife).
      destruct o as [|kd]; simpl in Er; rewrite Er; [done|]. apply abs_delete. intros y Hy. simplify_eq. by apply (Hdel kd).
    + right. assert (Hp : sphase x <> Failed).
      { intros F. pose proof (move_failed _ _ _ _ _ _ _ _ T F) as F'. unfold life_of in Hlife. rewrite F, F' in Hlife.
        inversion Hlife. }
      pose proof (hi_mapped h I L s0 x Hx Hp) as Hr. destruct o as [|kd]; simpl in Er.
      2: { destruct (Hdel kd eq_refl) as [E1 E2]. rewrite E2, E1 in Hlife. inversion Hlife. }
      exists (skey x), (life_of x'). split; [unfold abs; rewrite Hr; simpl; by rewrite Hx|].
      intros k. unfold table_set, abs. rewrite Es, Er. case_decide as Ek.
      * subst k. rewrite Hr. simpl. by rewrite list_lookup_insert_eq by (by eapply lookup_lt_Some).
      * destruct (rooms h !! k) as [s|] eqn:Hk; simpl; [|done]. rewrite list_lookup_insert_ne; [done|].
        intros <-. destruct (hi_rooms h I k s0 Hk) as (y & Hy & <-). congruence.
Qed.

End life.

(** * Rooms in use are not closed

    Idle eviction, the reclaim at the room cap and the reclaim of dead rooms
    only close a room whose actor has stopped, or one without leases and
    connections that has been quiet for long enough. *)

#[local] Arguments close_step : simpl never.
#[local] Arguments cleanup_step : simpl never.

Section safe.
Context {U : UuidLib}.

(** Not a MOVE and not a shutdown, which close rooms on purpose. *)
Definition polite (t : task) : bool := match t with TMove _ | TShutdown _ => false | _ => true end.

Lemma insert_cases (l : list slot) s s0 x y y0 : l !! s = Some x -> <[s0 := y0]> l !! s = Some y ->
  s = s0 /\ y = y0 \/ y = x.
Proof.
  intros Hx Hy. destruct (decide (s = s0)) as [->|Hn].
  - rewrite list_lookup_insert_eq in Hy by (by eapply lookup_lt_Some). left. split; congruence.
  - rewrite list_lookup_insert_ne in Hy by done. right. congruence.
Qed.

Lemma close_phase k s0 h l h' l' s x x' : close_step k s0 h l = Some (h', l') ->
  slots h !! s = Some x -> slots h' !! s = Some x' -> sphase x' = sphase x \/ sphase x' = Failed.
Proof.
  intros H Hx Hx'. unfold close_step, retire_failed, retire_remove, remove_same, mbind, option_bind in H.
  case_inner H; simplify_eq; simpl in *; try (left; congruence).
  all: destruct (insert_cases _ _ _ _ _ _ Hx Hx') as [[-> ->]| ->]; simplify_eq; simpl; auto.
Qed.

Lemma cleanup_phase k s0 h q h' q' s x x' : cleanup_step k s0 h q = Some (h', q') ->
  slots h !! s = Some x -> slots h' !! s = Some x' -> sphase x' = sphase x \/ sphase x' = Failed.
Proof.
  intros H Hx Hx'. unfold cleanup_step, retire_failed, retire_remove, remove_same, mbind, option_bind in H.
  case_inner H; simplify_eq; simpl in *; try (left; congruence).
  all: destruct (insert_cases _ _ _ _ _ _ Hx Hx') as [[-> ->]| ->]; simplify_eq; simpl; auto.
Qed.

Definition may_close (h : hub) (x : slot) (at_ : Z) : Prop :=
  is_closed x = true \/ joining x <= 0 /\ conns x <= 0 /\ reclaim_grace (config h) <= elapsed (now h) at_.

Lemma idle_would_evict h x at_ :
  idle_evict_decision_for (now h) (idle_evict_ms (config h)) at_ x = WouldEvict -> may_close h x at_.
Proof.
  unfold idle_evict_decision_for, may_close. repeat case_match; try done; intros _; [by left|right]. bool_to_prop.
  unfold reclaim_grace. lia.
Qed.

Lemma closing_guarded c i h t h' t' s x x' at_ :
  polite t = true -> tasks h !! i = Some t -> task_step c i h t = Some (h', t') ->
  slots h !! s = Some x -> sphase x = Live at_ -> slots h' !! s = Some x' -> sphase x' = Closing -> may_close h x at_.
Proof.
  intros Hp Hi H Hx Hl Hx' Hc. open_step H; simpl in *; try discriminate Hp; try congruence.
  all: try (match goal with
    | E : close_step _ _ _ _ = Some _ |- _ => destruct (close_phase _ _ _ _ _ _ _ _ _ E Hx Hx'); congruence
    | E : cleanup_step _ _ _ _ = Some _ |- _ => destruct (cleanup_phase _ _ _ _ _ _ _ _ _ E Hx Hx'); congruence
    end).
  all: try (destruct (insert_cases _ _ _ _ _ _ Hx Hx') as [[-> ->]| ->]; [|congruence]; simplify_eq; simpl in *; try congruence).
  1: { rewrite (lookup_app_l_Some _ _ _ _ Hx) in Hx'. congruence. }
  all: try by left.
  all: match goal with E : sphase ?x = Live ?a, Hl : sphase ?x = Live ?b |- _ => 
      lazymatch a with b => fail | _ => assert (a = b) as -> by congruence end end.
  - unfold may_close. destruct Heqb0 as [?|E]; [by left|]. bool_to_prop. right. lia.
  - by apply idle_would_evict.
Qed.

(** A live room becomes closing or stays live. *)
Lemma live_move sh lt lose gain dp mo o x x' m at_ :
  move sh lt x x' lose gain dp mo o -> (lt = true -> sh = true) -> (forall r, 0 <= m r) -> slot_ok sh lt x (plus m lose) ->
  sphase x = Live at_ -> sphase x' = Closing \/ exists at', sphase x' = Live at'.
Proof.
  intros T Hl P I E. destruct T; simpl; try (by left); try (right; by eauto); try congruence.
  all: exfalso; role_facts m P; destruct lt; slot_lia || (unfold slot_ok, slot_base, slot_early, in_live in I; rewrite E in I; slot_lia).
Qed.

Lemma live_effect h h' s x at_ : hub_inv h -> effect h h' -> slots h !! s = Some x -> sphase x = Live at_ ->
  exists x', slots h' !! s = Some x' /\ (sphase x' = Closing \/ exists at', sphase x' = Live at').
Proof.
  intros I Eff Hx E. destruct Eff as [Es _ _ _ _|_ Es _ _ _ _|k _ _ Es _ _ _ _|s0 lose gain dp m o _ Es _ _ _ _ _
                  |s0 y y' lose gain dp m o Hy T Es Sw _ _ _]; rewrite Es.
  1,2,4: exists x; eauto.
  - exists x. split; [by apply lookup_app_l_Some|eauto].
  - destruct (decide (s = s0)) as [->|Hn]; [|exists x; rewrite list_lookup_insert_ne by done; eauto].
    assert (y = x) as -> by congruence. exists y'. rewrite list_lookup_insert_eq by (by eapply lookup_lt_Some). split; [done|].
    destruct (owned_swap _ _ _ _ _ Sw) as (n & P & Eo & _). pose proof (hi_slots h I s0) as Is.
    apply (slot_at_proper _ _ _ _ _ Eo) in Is. rewrite Hx in Is.
    eapply live_move; [exact T|exact (late_shutting h (hi_flags h I))|exact (P s0)|exact Is|exact E].
Qed.

(** C17: a live room whose actor takes commands is not closed under anyone who
    uses it: while a caller holds a lease on it (between the return of the
    room and the end of its join or borrowed operation) or it has connections,
    no step of a join, borrow, start, eviction or reclaim moves it out of
    Live; only a MOVE of its resource and shutdown do. *)
Theorem leased_room_kept (cfg : HubConfig) (budget : Z) (h h' : hub) (c : choice) (i : nat) (t : task) (s : nat) (x : slot)
    (at_ : Z) :
  0 <= max_rooms cfg -> 0 <= budget < u64_max -> reachable cfg budget h ->
  tasks h !! i = Some t -> polite t = true -> exec (EStep c i) h = Some h' ->
  slots h !! s = Some x -> sphase x = Live at_ -> is_closed x = false ->
  (exists u, u ∈ tasks h /\ (s, Lease) ∈ roles_of u) \/ 0 < conns x ->
  exists x' at', slots h' !! s = Some x' /\ sphase x' = Live at'.
Proof.
  intros H0 Hb R Hi Hp S Hx E Hc Hu. destruct (hub_inv_reachable cfg budget h H0 Hb R) as (I & _ & _).
  destruct (live_effect h h' s x at_ I (exec_effect _ h h' (hi_flags h I) S) Hx E) as (x' & Hx' & [Hcl|[at' Hl]]);
    [exfalso|by exists x', at'].
  simpl in S. rewrite Hi in S. simpl in S. destruct (task_step c i h t) as [[h1 t1]|] eqn:St; [|done]. simpl in S.
  injection S as <-. simpl in Hx'.
  destruct (closing_guarded c i h t h1 t1 s x x' at_ Hp Hi St Hx E Hx' Hcl) as [Hm|(Hj & Hn & _)]; [congruence|].
  destruct Hu as [(u & Hu & Hr)|Hu]; [|lia].
  destruct (inv_slot h s x I Hx) as [[Ej _] _]. assert (0 < owned h s Lease); [|lia].
  apply owned_elem. unfold held. apply list_elem_of_bind. eauto.
Qed.
End safe.
