(* ===== verification/HubLive.v ===== *)
(** * No waiter is forgotten

    A caller that waits for a room ([wait_for_live_or_retry]) registers for a
    wake-up before it reads the phase.  While it waits, some task owns the slot
    and will wake it; the owner needs a bounded number of its own steps,
    whatever else happens in between. *)

From stdpp Require Import base list numbers strings gmap relations.
From Stdlib Require Import ZArith Lia.
From S2P Require Import Prelude Text Uuid Wire EngineLimits Admission Hub HubStep HubFacts HubEffect HubInvariant HubAccount.
From S2P Require Import HubTheorems.

#[local] Arguments close_step : simpl never.
#[local] Arguments cleanup_step : simpl never.
#[local] Arguments reserve : simpl never.

Section live.
Context {U : UuidLib}.

(** ** Waiters have an owner *)

Definition wait_ok (sh : bool) (x : slot) (n : role -> Z) : Prop :=
  (forall g, 0 < n (Noted g) -> g <= ready x) /\
  (forall g, 0 < n (Waiting g) -> g <= ready x) /\
  (sh = false -> forall g, 0 < n (Waiting g) -> ready x <= g ->
     0 < in_starting x + in_booting x + in_closing x + n Wakes).

Lemma trade_wait sh lt lose gain dp mo o x m :
  trade sh lt lose gain dp mo o -> (lt = true -> sh = true) -> (forall r, 0 <= m r) ->
  wait_ok sh x (plus m lose) -> wait_ok sh x (plus m gain).
Proof.
  intros T Hl P (H1 & H2 & H3). pose proof (P Wakes). split_and!.
  - intros g Hg. specialize (H1 g). specialize (H2 g). pose proof (P (Noted g)). pose proof (P (Waiting g)).
    destruct T; unfold plus, count in *; simpl in *; repeat case_decide; simplify_eq; try lia.
  - intros g Hg. specialize (H1 g). specialize (H2 g). pose proof (P (Noted g)). pose proof (P (Waiting g)).
    destruct T; unfold plus, count in *; simpl in *; repeat case_decide; simplify_eq; try lia.
  - intros E g Hg Hr. specialize (H3 E g). pose proof (P (Noted g)). pose proof (P (Waiting g)).
    destruct T; unfold plus, count in *; simpl in *; repeat case_decide; simplify_eq; try lia; try (specialize (Hl eq_refl); congruence).
Qed.

Lemma move_wait sh lt lose gain dp mo o x x' m :
  move sh lt x x' lose gain dp mo o -> (lt = true -> sh = true) -> (forall r, 0 <= m r) -> slot_ok sh lt x (plus m lose) ->
  wait_ok sh x (plus m lose) -> wait_ok sh x' (plus m gain).
Proof.
  intros T Hl P I (H1 & H2 & H3). pose proof (P Wakes). split_and!.
  - intros g Hg. specialize (H1 g). pose proof (P (Noted g)).
    destruct T; try (match goal with H : ?r = Creator \/ _ |- _ => destruct H as [->| ->] end);
      unfold plus, count in *; simpl in *; repeat case_decide; simplify_eq; lia.
  - intros g Hg. specialize (H1 g). specialize (H2 g). pose proof (P (Noted g)). pose proof (P (Waiting g)).
    destruct T; try (match goal with H : ?r = Creator \/ _ |- _ => destruct H as [->| ->] end);
      unfold plus, count in *; simpl in *; repeat case_decide; simplify_eq; lia.
  - intros E g Hg Hr. specialize (H2 g). specialize (H3 E g). pose proof (P (Noted g)). pose proof (P (Waiting g)).
    assert (lt = false) as -> by (destruct lt; [by rewrite Hl in E|done]). subst sh. role_facts m P.
    destruct T; try (match goal with H : ?r = Creator \/ _ |- _ => destruct H as [->| ->] end);
      unfold plus, count in *; simpl in *; repeat case_decide; simplify_eq; try lia.
    all: clear H1; destruct x as [? [] ? ? ? ? ?]; simpl in *; try congruence;
      try (exfalso; match goal with H : _ \/ _ |- _ => destruct H as [?|[?|?]]; congruence end); slot_lia.
Qed.

Definition waits_inv (h : hub) : Prop := forall s x, slots h !! s = Some x -> wait_ok (shutting h) x (owned h s).

Lemma wait_ok_ext sh x n n' : (forall r, n' r = n r) -> wait_ok sh x n -> wait_ok sh x n'.
Proof.
  intros E (H1 & H2 & H3). split_and!; intros; rewrite ?E in *; eauto.
Qed.

Lemma waits_step e h h' : hub_inv h -> waits_inv h -> exec e h = Some h' -> waits_inv h'.
Proof.
  intros I W H. pose proof (hi_flags h I) as F. pose proof (late_shutting h F) as Hl.
  assert (J : forall s x, slots h' !! s = Some x -> slot_ok (shutting h) (late h) x (owned h' s) /\ wait_ok (shutting h) x (owned h' s)).
  { apply (effect_slots_ind (fun x n => slot_ok (shutting h) (late h) x n /\ wait_ok (shutting h) x n) h).
    - intros x n n' E [A B]. split; [eapply slot_ok_proper; [|exact A]; intros r; apply E|by eapply wait_ok_ext].
    - intros x m lose gain dp mo o T P [A B]. split; [by eapply trade_ok|by eapply trade_wait].
    - intros x x' m lose gain dp mo o T P [A B]. split; [by eapply move_ok|by eapply move_wait].
    - intros k. split; [by apply new_slot_ok|]. split_and!; intros; unfold plus, count in *; simpl in *; lia.
    - by eapply exec_effect.
    - intros s r Hs. pose proof (hi_slots h I s) as Z. rewrite Hs in Z. apply Z.
    - intros s x Hx. split; [by apply inv_slot|by apply W]. }
  intros s x Hx. destruct (J s x Hx) as [_ (A & B & C)]. split_and!; [done|done|]. intros E. apply C.
  destruct (shutting h) eqn:Es; [|done]. by rewrite (fx_shutting _ _ (exec_flags e h h' F H) Es) in E.
Qed.

(** ** What is left to do for the owner *)

Definition close_work (l : close_pc) : Z :=
  match l with LWait => 4 | LPermit => 3 | LRetire => 2 | LRemove => 1 | LDone => 0 end.
Definition clean_work (q : cleanup_pc) : Z :=
  match q with QLock => 4 | QPermit => 3 | QRetire => 2 | QRemove => 1 | QDone => 0 end.
Definition start_work (pc : start_pc) : Z :=
  match pc with
  | SBegin => 20 | SPermit => 19 | SBoot => 18 | SCheck => 17
  | SPool | SFamily => 16 | SPooled => 15 | SEstimate => 14 | SGuard _ => 13 | SGuarded _ => 12 | SResource _ => 11
  | SFamPend _ => 15 | SFamAcquire _ => 14
  | SReady _ => 10 | SSpawn _ => 9 | SSpawned _ => 8 | SStop | SPublish => 7
  | SClean q _ => clean_work q
  | SUnpub | SReply _ | SEnd => 0
  end.

Definition here (s s' : nat) (w : Z) : Z := if decide (s' = s) then w else 0.

(** Steps until the owner [t] wakes the waiters of slot [s]. *)
Definition work (s : nat) (t : task) : Z :=
  match t with
  | TCaller _ (GRegister s') => here s s' 21
  | TCaller _ (GClean s' q) => here s s' (clean_work q)
  | TCaller _ (CDead s') => here s s' 6
  | TCaller _ (CSpawn s') | TCaller _ (XSpawn _ s') | TMove (MSpawn _ s' _) => here s s' 5
  | TStart _ s' _ pc => here s s' (start_work pc)
  | TClose _ s' l | TIdle (IClose _ s' l _) | TShutdown (HClose _ s' l _) => here s s' (close_work l)
  | TShutdown (HTake _ acc) => total (fun e => here s e.2 6) acc
  | TShutdown (HSpawn acc) => total (fun e => here s e.2 5) acc
  | TShutdown (HForcePermit _ s' _) => here s s' 3
  | _ => 0
  end.

Definition total_work (h : hub) (s : nat) : Z := total (work s) (tasks h).

Lemma here_nonneg s s' w : 0 <= w -> 0 <= here s s' w.
Proof. unfold here. case_decide; lia. Qed.

Lemma work_nonneg s t : 0 <= work s t.
Proof.
  assert (L : forall l, 0 <= close_work l) by (intros []; simpl; lia).
  assert (Q : forall q, 0 <= clean_work q) by (intros []; simpl; lia).
  destruct t as [w pc|k s' b pc|k s' l|pc|pc|pc]; simpl; auto using here_nonneg.
  - destruct pc; simpl; try apply here_nonneg; auto; lia.
  - apply here_nonneg. destruct pc; simpl; auto; lia.
  - destruct pc; simpl; try apply here_nonneg; auto; lia.
  - destruct pc; simpl; try apply here_nonneg; auto; lia.
  - destruct pc; simpl; try apply here_nonneg; auto; try lia; apply total_nonneg; intros; apply here_nonneg; lia.
Qed.

Lemma close_work_step k s h l h' l' : close_step k s h l = Some (h', l') -> close_work l' < close_work l.
Proof.
  intros H. unfold close_step, retire_failed, retire_remove, remove_same, mbind, option_bind in H.
  case_inner H; simplify_eq; simpl; lia.
Qed.
Lemma clean_work_step k s h q h' q' : cleanup_step k s h q = Some (h', q') -> clean_work q' < clean_work q.
Proof.
  intros H. unfold cleanup_step, retire_failed, retire_remove, remove_same, mbind, option_bind in H.
  case_inner H; simplify_eq; simpl; lia.
Qed.

Ltac dead_live :=
  exfalso;
  match goal with
  | E : slots ?h !! ?a = Some ?y, Hx : slots ?h !! ?a = Some ?x, Hp : forall a, sphase ?x <> Live a |- _ =>
    assert (y = x) as -> by congruence; eapply Hp; eassumption
  end.

(** Each step of an owner brings the wake-up closer; no other step adds work
    for a slot that is not live. *)
Lemma work_step c i h t h' t' s x :
  flagged t = false -> slots h !! s = Some x -> (forall a, sphase x <> Live a) ->
  tasks h !! i = Some t -> task_step c i h t = Some (h', t') ->
  total (work s) (<[i := t']> (tasks h')) <= total_work h s - (if decide (0 < work s t) then 1 else 0).
Proof.
  intros L Hx Hp Hi H. unfold total_work. open_step H; try discriminate L.
  all: try (match goal with
    | E : close_step _ _ _ _ = Some _ |- _ => pose proof (close_work_step _ _ _ _ _ _ E); apply close_frame in E as (_ & _ & Et); simpl; rewrite Et
    | E : cleanup_step _ _ _ _ = Some _ |- _ => pose proof (clean_work_step _ _ _ _ _ _ E); apply cleanup_frame in E as (_ & _ & Et); simpl; rewrite Et
    end).
  all: simpl; first [rewrite (total_insert _ _ _ _ _ Hi)|rewrite (total_insert_app _ _ _ _ _ _ Hi)|rewrite (total_insert2 _ _ _ _ _ _ _ _ Hi Heqo) by congruence].
  all: try (simpl; unfold here; repeat case_decide; simpl in *; lia).
  all: try (simpl; unfold here; case_decide; [subst; dead_live|simpl; lia]).
  apply lookup_lt_Some in Hx. simpl. unfold here. rewrite decide_False by lia. lia.
Qed.

(** Whether the event is a step of an owner of the slot. *)
Definition owner_event (s : nat) (e : event) (h : hub) : Z :=
  match e with
  | EStep _ i => match tasks h !! i with Some t => if decide (0 < work s t) then 1 else 0 | None => 0 end
  | _ => 0
  end.

Lemma exec_work e h h' s x :
  shutting h = false -> flag_ok h -> slots h !! s = Some x -> (forall a, sphase x <> Live a) -> exec e h = Some h' ->
  total_work h' s <= total_work h s - owner_event s e h.
Proof.
  intros E F Hx Hp H. destruct F as [F|F]; [congruence|].
  destruct e as [c i|o k|i|ks| |s' a|s'|s' n|s'|d]; cbn [exec] in H; unfold mbind, option_bind in H; simpl.
  - case_inner H; simplify_eq. eapply work_step; [|exact Hx|done|eassumption|eassumption].
    eapply F, list_elem_of_lookup_2. eassumption.
  - simplify_eq. unfold total_work. simpl. rewrite total_app. destruct o; simpl; lia.
  - case_inner H; simplify_eq. unfold total_work. simpl.
    match goal with E : cancel_step _ _ = Some ?g |- _ => assert (tasks g = tasks h) as ->
      by (unfold cancel_step, mbind, option_bind in E; case_inner E; by simplify_eq) end.
    match goal with E : tasks h !! i = Some ?t |- _ => rewrite (total_insert _ _ _ _ _ E); pose proof (work_nonneg s t) end.
    rewrite (eq_refl : work s (TCaller _ CCancelled) = 0). lia.
  - simplify_eq. unfold total_work. simpl. rewrite total_app. simpl. lia.
  - simplify_eq. unfold total_work. simpl. rewrite total_app. simpl. lia.
  - case_inner H; simplify_eq; unfold total_work; simpl; lia.
  - case_inner H; simplify_eq; unfold total_work; simpl; lia.
  - case_inner H; simplify_eq; unfold total_work; simpl; lia.
  - case_inner H; simplify_eq; unfold total_work; simpl; lia.
  - case_inner H; simplify_eq; unfold total_work; simpl; lia.
Qed.

(** The roles of an owner. *)
Definition owner_role (r : role) : bool :=
  match r with Creator | Pre | Boot | Run | Clean | Waits | Retires | Wakes => true | _ => false end.

Lemma role_work s r t : flagged t = false -> (s, r) ∈ roles_of t -> owner_role r = true -> 0 < work s t.
Proof.
  intros F H E.
  assert (G : forallb (fun e => negb (owner_role e.2) || bool_decide (0 < work e.1 t)) (roles_of t) = true).
  { destruct t as [w pc|k s' b pc|k s' l|pc|pc|pc]; simpl in F |- *.
    - destruct pc; try done; simpl; unfold here; rewrite ?decide_True by done; done.
    - destruct pc; simpl; unfold here; rewrite ?decide_True by done; try done;
        match goal with o : option JoinError |- _ => destruct o | q : cleanup_pc |- _ => destruct q end;
        simpl; rewrite ?decide_True by done; done.
    - destruct l; simpl; unfold here; rewrite ?decide_True by done; done.
    - destruct pc; simpl; try done. destruct l; simpl; unfold here; rewrite ?decide_True by done; done.
    - destruct pc; simpl; unfold here; rewrite ?decide_True by done; done.
    - by destruct pc. }
  rewrite forallb_forall in G. specialize (G _ (proj1 (list_elem_of_In _ _) H)). simpl in G. rewrite E in G.
  by apply bool_decide_eq_true in G.
Qed.

Lemma owned_work h s r : shutting h = false -> flag_ok h -> 0 < owned h s r -> owner_role r = true -> 0 < total_work h s.
Proof.
  intros E [F|F] Ho Hr; [congruence|]. apply owned_elem in Ho. unfold held in Ho.
  apply list_elem_of_bind in Ho as (t & Hin & Ht). apply list_elem_of_lookup in Ht as [i Hi].
  pose proof (role_work s r t (F t (list_elem_of_lookup_2 _ _ _ Hi)) Hin Hr).
  pose proof (total_ge (work s) (tasks h) i t ltac:(intros; apply work_nonneg) Hi). unfold total_work. lia.
Qed.

(** A waiter that has not been woken has an owner. *)
Lemma waiter_owner h s x g : hub_inv h -> waits_inv h -> shutting h = false -> slots h !! s = Some x ->
  (s, Waiting g) ∈ held h -> ready x <= g -> 0 < total_work h s /\ forall a, sphase x <> Live a.
Proof.
  intros I W E Hx Hw Hr. pose proof (hi_flags h I) as F. destruct (W s x Hx) as (_ & _ & H3).
  specialize (H3 E g (proj2 (owned_elem h s _) Hw) Hr).
  pose proof (inv_slot h s x I Hx) as [B L]. pose proof (owned_nonneg h s) as P.
  assert (late h = false) as Hl.
  { destruct (late h) eqn:Hl; [|done]. pose proof (late_shutting h F Hl). congruence. }
  rewrite Hl, E in *. split.
  - assert (exists r, owner_role r = true /\ 0 < owned h s r) as (r & Hor & Hown).
    { destruct (decide (0 < owned h s Creator)); [by exists Creator|]. destruct (decide (0 < owned h s Pre)); [by exists Pre|].
      destruct (decide (0 < owned h s Boot)); [by exists Boot|]. destruct (decide (0 < owned h s Run)); [by exists Run|].
      destruct (decide (0 < owned h s Clean)); [by exists Clean|]. destruct (decide (0 < owned h s Waits)); [by exists Waits|].
      destruct (decide (0 < owned h s Retires)); [by exists Retires|]. exists Wakes. split; [done|].
      unfold slot_base in B. destruct B as (_ & _ & _ & B1 & B2 & _ & _ & _ & B3). specialize (B3 eq_refl). lia. }
    by eapply owned_work.
  - intros a Ha. role_facts (owned h s) P. unfold slot_base, starters, in_starting, in_booting, in_closing, in_live in *.
    rewrite Ha in *. lia.
Qed.

(** ** The waiter's own task *)

(** A task changes by its own step or by cancellation only. *)
Lemma kept_step e h h' j t : exec e h = Some h' -> tasks h !! j = Some t -> is_start t = false ->
  tasks h' !! j = Some t \/ (exists c r, task_step c j h t = Some r) \/
  exists w pc h1, t = TCaller w pc /\ cancel_step h pc = Some h1 /\ tasks h' !! j = Some (TCaller w CCancelled).
Proof.
  intros H Hj Ht. destruct e as [c i|o k|i|ks| |s' a|s'|s' n|s'|d]; cbn [exec] in H; unfold mbind, option_bind in H.
  - case_inner H; simplify_eq. destruct (decide (i = j)) as [->|Hn]; [right; left; simplify_eq; eauto|left].
    simpl. rewrite list_lookup_insert_ne by done.
    match goal with E : task_step _ _ _ _ = Some _, Ei : tasks h !! i = Some _ |- _ =>
      by apply (fs_kept _ _ _ _ (task_flags _ _ _ _ _ _ Ei E)) end.
  - simplify_eq. left. by apply lookup_app_l_Some.
  - case_inner H; simplify_eq.
    match goal with E : cancel_step _ _ = Some ?g |- _ => assert (Eg : tasks g = tasks h)
      by (unfold cancel_step, mbind, option_bind in E; case_inner E; by simplify_eq) end.
    destruct (decide (i = j)) as [->|Hn].
    + right; right. simplify_eq. eexists _, _, _. split_and!; [done|eassumption|]. simpl. rewrite Eg.
      apply list_lookup_insert_eq. by eapply lookup_lt_Some.
    + left. simpl. by rewrite Eg, list_lookup_insert_ne.
  - simplify_eq. left. by apply lookup_app_l_Some.
  - simplify_eq. left. by apply lookup_app_l_Some.
  - case_inner H; simplify_eq; by left.
  - case_inner H; simplify_eq; by left.
  - case_inner H; simplify_eq; by left.
  - case_inner H; simplify_eq; by left.
  - case_inner H; simplify_eq; by left.
Qed.

(** A waiting task is blocked until the wake-up. *)
Lemma waiting_cases s g t : (s, Waiting g) ∈ roles_of t ->
  (exists w ct, t = TCaller w (WWait s ct g)) \/ (exists k ks, t = TMove (MWait k s g ks)) \/
  exists k rest, t = TShutdown (HOwnerWait k s g rest).
Proof.
  intros H. apply list_elem_of_In in H. destruct t as [w pc|k s' b pc|k s' l|pc|pc|pc]; simpl in H.
  - destruct pc; simpl in H; try (match goal with q : cleanup_pc |- _ => destruct q end); simpl in H;
      destruct_or?; simplify_eq; eauto.
  - destruct pc; simpl in H; try (match goal with q : cleanup_pc |- _ => destruct q end);
      try (match goal with o : option JoinError |- _ => destruct o end); simpl in H; destruct_or?; simplify_eq.
  - destruct l; simpl in H; destruct_or?; simplify_eq.
  - destruct pc; try done. destruct l; simpl in H; destruct_or?; simplify_eq.
  - destruct pc; simpl in H; destruct_or?; simplify_eq; eauto.
  - destruct pc; simpl in H; try done; try (destruct l; simpl in H); destruct_or?; simplify_eq; eauto.
    all: apply list_elem_of_In, list_elem_of_bind in H as (e & He & _); apply list_elem_of_In in He; simpl in He;
      destruct_or?; simplify_eq.
Qed.

Lemma waiting_blocked c i h s g t x r : (s, Waiting g) ∈ roles_of t -> slots h !! s = Some x -> ready x <= g ->
  task_step c i h t = Some r -> False.
Proof.
  intros H Hx Hg. destruct (waiting_cases s g t H) as [(w & ct & ->)|[(k & ks & ->)|(k & rest & ->)]]; simpl;
    rewrite Hx; simpl; by rewrite (proj2 (Z.ltb_ge _ _)).
Qed.

(** A task that waits keeps waiting, is woken, or is cancelled. *)
Lemma waiting_step e h h' j t s g x :
  exec e h = Some h' -> tasks h !! j = Some t -> (s, Waiting g) ∈ roles_of t -> slots h !! s = Some x -> ready x <= g ->
  tasks h' !! j = Some t \/ exists w, tasks h' !! j = Some (TCaller w CCancelled).
Proof.
  intros H Hj Hw Hx Hg. destruct (kept_step e h h' j t H Hj) as [?|[(c & r & Hs)|(w & pc & h1 & _ & _ & ?)]]; [|by left| |by eauto].
  - by destruct (waiting_cases s g t Hw) as [(w & ct & ->)|[(k & ks & ->)|(k & rest & ->)]].
  - by destruct (waiting_blocked c j h s g t x r).
Qed.

Lemma cancelled_step e h h' j w : exec e h = Some h' -> tasks h !! j = Some (TCaller w CCancelled) ->
  tasks h' !! j = Some (TCaller w CCancelled).
Proof.
  intros H Hj. destruct (kept_step e h h' j _ H Hj eq_refl) as [?|[(c & r & Hs)|(w' & pc & h1 & [= <- <-] & Hc & ?)]]; [done..|].
  done.
Qed.

(** Wake-ups are only counted up. *)
Lemma ready_step e h h' s x : flag_ok h -> exec e h = Some h' -> slots h !! s = Some x ->
  exists x', slots h' !! s = Some x' /\ ready x <= ready x'.
Proof.
  intros F H Hx. destruct (exec_effect e h h' F H) as [Es _ _ _ _|_ Es _ _ _ _|k _ _ Es _ _ _ _|s0 lose gain dp m o _ Es _ _ _ _ _
                  |s0 y y' lose gain dp m o Hy T Es _ _ _ _]; rewrite Es.
  1,2,4: by exists x.
  - exists x. split; [by apply lookup_app_l_Some|done].
  - destruct (decide (s = s0)) as [->|Hn]; [|exists x; by rewrite list_lookup_insert_ne].
    exists y'. rewrite list_lookup_insert_eq by (by eapply lookup_lt_Some). split; [done|].
    assert (y = x) as -> by congruence. destruct T; simpl; lia.
Qed.

(** Steps of owners of [s] along a run. *)
Fixpoint owner_steps (s : nat) (es : list event) (h : hub) : Z :=
  match es with
  | [] => 0
  | e :: es => owner_event s e h + match exec e h with Some h' => owner_steps s es h' | None => 0 end
  end.

Lemma run_cons e es h h' : run (e :: es) h = Some h' -> exists h1, exec e h = Some h1 /\ run es h1 = Some h'.
Proof.
  unfold run. simpl. destruct (exec e h) as [h1|]; [by eauto|]. simpl. intros H. exfalso.
  revert H. induction es as [|e' es IH]; simpl; [done|]. apply IH.
Qed.

Lemma woken_run es h h' s x g :
  hub_inv h -> run es h = Some h' -> slots h !! s = Some x -> g < ready x ->
  exists x', slots h' !! s = Some x' /\ g < ready x'.
Proof.
  revert h x. induction es as [|e es IH]; intros h x I R Hx Hg.
  - injection R as <-. eauto.
  - destruct (run_cons _ _ _ _ R) as (h1 & H1 & R1).
    destruct (ready_step e h h1 s x (hi_flags h I) H1 Hx) as (x1 & Hx1 & Hle).
    apply (IH h1 x1); [|done|done|lia]. eapply hub_inv_step; [by exists e|done].
Qed.

(** ** Owners can step *)

(** An environment that answers every request. *)
Definition kind_choice : choice := Choice [] None 0 0 (Replied None) FamClaimed true false.

Lemma close_enabled k s h l x : slots h !! s = Some x -> l <> LDone -> (l = LWait -> actorless x = 0) ->
  unfinished x = true \/ exists r, close_step k s h l = Some r.
Proof.
  intros Hx Hl Ha. destruct l; try done; unfold close_step, retire_failed, retire_remove; rewrite ?Hx; simpl; eauto.
  specialize (Ha eq_refl). unfold actorless, unfinished in *. destruct (sactor x) as [| | |[]]; eauto. done.
Qed.

Lemma clean_enabled k s h q x : slots h !! s = Some x -> q <> QDone -> exists r, cleanup_step k s h q = Some r.
Proof.
  intros Hx Hq. destruct q; try done; unfold cleanup_step, retire_failed, retire_remove; rewrite ?Hx; simpl; eauto.
  destruct (sphase x); eauto.
Qed.

Lemma reserve_kind h : exists r, reserve kind_choice h = Some r.
Proof. unfold reserve. simpl. case_match. eauto. Qed.

(** An owner can take its next step, unless it waits for a room permit or for
    the actor to finish. *)
Lemma owner_enabled h i t s x : hub_inv h -> flagged t = false -> tasks h !! i = Some t -> 0 < work s t ->
  slots h !! s = Some x ->
  (exists c r, task_step c i h t = Some r) \/ (exists k b, t = TStart k s b SPermit /\ permits h = 0) \/ unfinished x = true.
Proof.
  intros I F Hi Hw Hx. pose proof (inv_slot h s x I Hx) as [B _].
  assert (Hrun : forall r, (s, r) ∈ roles_of t -> r = Run \/ r = Waits -> actorless x = 0).
  { intros r Hr Er. assert (0 < owned h s r).
    { apply owned_elem. apply list_elem_of_bind. exists t. split; [done|]. by eapply list_elem_of_lookup_2. }
    destruct B as (_ & _ & _ & _ & _ & _ & _ & B & _). apply B. pose proof (owned_nonneg h s Run).
    pose proof (owned_nonneg h s Waits). assert (0 <= in_live x) by (unfold in_live; case_match; lia).
    destruct Er as [-> | ->]; lia. }
  assert (Hcl : forall k l, roles_of t = close_roles s l -> 0 < close_work l ->
            unfinished x = true \/ exists r, close_step k s h l = Some r).
  { intros k l Er Hl. apply (close_enabled k s h l x Hx); [by intros ->|]. intros ->. apply (Hrun Waits); [|by right].
    rewrite Er. simpl. set_solver. }
  assert (Hh : forall s' w, 0 < here s s' w -> s' = s /\ 0 < w) by (intros s' w; unfold here; case_decide; [done|lia]).
  destruct t as [w pc|k s' b pc|k s' l|pc|pc|pc]; simpl in F, Hw; try done.
  - destruct pc; try done; try (apply Hh in Hw as [-> Hw]); left; exists kind_choice; simpl; rewrite ?Hx; simpl; eauto.
    case_match; simpl; eauto.
  - apply Hh in Hw as [-> Hw].
    destruct pc; simpl in Hw; try lia; try (left; exists kind_choice; simpl; rewrite ?Hx; simpl; repeat (case_match; simpl); try done; by eauto).
    + destruct (Z.ltb_spec 0 (permits h)) as [Hlt|Hge].
      * left. exists kind_choice. simpl. rewrite (proj2 (Z.ltb_lt _ _) Hlt). simpl. eauto.
      * right; left. exists k, b. split; [done|]. pose proof (hi_free h I). lia.
    + left. exists kind_choice. destruct (reserve_kind h) as ([h' b'] & Er).
      simpl. unfold prepare_step. simpl. rewrite Er. simpl. eauto.
    + left. exists kind_choice. simpl. unfold prepare_step. simpl. destruct (shutting h); simpl; eauto.
    + left. exists kind_choice. destruct (reserve_kind h) as ([h' b'] & Er). simpl. unfold prepare_step. simpl.
      destruct b; simpl; [|eauto]. destruct (family_timings _); simpl; [|eauto]. rewrite Er. simpl. eauto.
    + specialize (Hrun Run ltac:(simpl; set_solver) ltac:(by left)). unfold actorless, unfinished in *.
      destruct (sactor x) eqn:Ea; try done; auto. left. exists kind_choice. simpl. rewrite Hx. simpl. rewrite Ea. simpl. eauto.
    + left. exists kind_choice. destruct (clean_enabled k s h q x Hx) as [[h' q'] Hq]; [by intros ->|].
      simpl. destruct q; try done; rewrite Hq; simpl; eauto.
  - apply Hh in Hw as [-> Hw]. destruct (Hcl k l eq_refl Hw) as [?|[[h' l'] Hr]]; [auto|]. left. exists kind_choice.
    simpl. rewrite Hr. simpl. eauto.
  - destruct pc; try done. apply Hh in Hw as [-> Hw]. destruct (Hcl k l eq_refl Hw) as [?|[[h' l'] Hr]]; [auto|].
    left. exists kind_choice. simpl. destruct l; try done; rewrite Hr; simpl; eauto.
  - destruct pc; try done. left. exists kind_choice. simpl. eauto.
  - by destruct pc.
Qed.

(** ** The theorem *)

Lemma live_inv_reachable cfg budget h :
  0 <= max_rooms cfg -> 0 <= budget < u64_max -> reachable cfg budget h -> hub_inv h /\ waits_inv h.
Proof.
  intros H0 Hb R. split; [by destruct (hub_inv_reachable cfg budget h H0 Hb R)|].
  revert R. apply (rtc_ind_r waits_inv); [by intros s x Hx|].
  intros h1 h2 R1 [e S] W. eapply waits_step; [|exact W|exact S]. by destruct (hub_inv_reachable cfg budget h1 H0 Hb R1).
Qed.

Lemma shutting_run es h h' : hub_inv h -> run es h = Some h' -> shutting h' = false -> shutting h = false.
Proof.
  revert h. induction es as [|e es IH]; intros h I R E; [by injection R as <-|].
  destruct (run_cons _ _ _ _ R) as (h1 & H1 & R1).
  assert (I1 : hub_inv h1) by (eapply hub_inv_step; [by exists e|done]).
  pose proof (IH h1 I1 R1 E) as E1. destruct (shutting h) eqn:Es; [|done].
  by rewrite (fx_shutting _ _ (exec_flags e h h1 (hi_flags h I) H1) Es) in E1.
Qed.

Lemma cancelled_run es h h' j w : run es h = Some h' -> tasks h !! j = Some (TCaller w CCancelled) ->
  tasks h' !! j = Some (TCaller w CCancelled).
Proof.
  revert h. induction es as [|e es IH]; intros h R Hj; [by injection R as <-|].
  destruct (run_cons _ _ _ _ R) as (h1 & H1 & R1). eapply IH; [exact R1|]. by eapply cancelled_step.
Qed.

Lemma woken_after es h h' j t s x g :
  hub_inv h -> waits_inv h -> tasks h !! j = Some t -> (s, Waiting g) ∈ roles_of t -> slots h !! s = Some x ->
  run es h = Some h' -> shutting h' = false -> total_work h s <= owner_steps s es h -> tasks h' !! j = Some t ->
  exists x', slots h' !! s = Some x' /\ g < ready x'.
Proof.
  revert h x. induction es as [|e es IH]; intros h x I W Hj Hw Hx R E Hs Hj'.
  all: pose proof (shutting_run _ _ _ I R E) as Es; destruct (Z.ltb_spec g (ready x)) as [Hg|Hg]; [by eapply woken_run|].
  all: assert (Hh : (s, Waiting g) ∈ held h) by (apply list_elem_of_bind; exists t; split; [done|by eapply list_elem_of_lookup_2]).
  all: destruct (waiter_owner h s x g I W Es Hx Hh Hg) as [Ho Hp].
  - simpl in Hs. lia.
  - destruct (run_cons _ _ _ _ R) as (h1 & H1 & R1). simpl in Hs. rewrite H1 in Hs.
    pose proof (exec_work e h h1 s x Es (hi_flags h I) Hx Hp H1) as Hwk.
    destruct (ready_step e h h1 s x (hi_flags h I) H1 Hx) as (x1 & Hx1 & _).
    destruct (waiting_step e h h1 j t s g x H1 Hj Hw Hx Hg) as [Hk|[w Hc]].
    + apply (IH h1 x1); try done; [eapply hub_inv_step; [by exists e|done]|by eapply waits_step|lia].
    + pose proof (cancelled_run es h1 h' j w R1 Hc) as Hc'. rewrite Hj' in Hc'. injection Hc' as ->. by apply elem_of_nil in Hw.
Qed.

(** C19: no waiter is forgotten.  While the hub is not shutting down, a task that
    waits for a slot and has not been woken has an owner at work on the slot;
    every owner can take its next step unless it waits for a room permit or
    for the room's actor to finish; and whatever else happens in between, the
    owners take fewer steps than were left to do ([total_work]) before the
    waiter is woken or cancelled. *)
Theorem waiters_woken (cfg : HubConfig) (budget : Z) (h : hub) (j : nat) (t : task) (s : nat) (x : slot) (g : Z) :
  0 <= max_rooms cfg -> 0 <= budget < u64_max -> reachable cfg budget h -> shutting h = false ->
  tasks h !! j = Some t -> (s, Waiting g) ∈ roles_of t -> slots h !! s = Some x ->
  (ready x <= g -> exists i u, tasks h !! i = Some u /\ 0 < work s u) /\
  (forall i u, tasks h !! i = Some u -> 0 < work s u ->
     (exists c r, task_step c i h u = Some r) \/ (exists k b, u = TStart k s b SPermit /\ permits h = 0) \/ unfinished x = true) /\
  (forall es h' x', run es h = Some h' -> shutting h' = false -> tasks h' !! j = Some t -> slots h' !! s = Some x' ->
     ready x' <= g -> owner_steps s es h < total_work h s).
Proof.
  intros H0 Hb R E Hj Hw Hx. destruct (live_inv_reachable cfg budget h H0 Hb R) as [I W]. split_and!.
  - intros Hg. assert (Hh : (s, Waiting g) ∈ held h).
    { apply list_elem_of_bind. exists t. split; [done|]. by eapply list_elem_of_lookup_2. }
    destruct (waiter_owner h s x g I W E Hx Hh Hg) as [Ho _]. unfold total_work in Ho.
    destruct (decide (Exists (fun u => 0 < work s u) (tasks h))) as [Hex|Hn].
    + apply Exists_exists in Hex as (u & Hu & Hwu). apply list_elem_of_lookup in Hu as [i Hi]. eauto.
    + exfalso. apply not_Exists_Forall in Hn; [|apply _]. rewrite Forall_forall in Hn.
      rewrite total_eq_zero in Ho; [lia|]. intros u Hu. specialize (Hn u Hu). pose proof (work_nonneg s u). simpl in Hn. lia.
  - intros i u Hi Hwu. eapply owner_enabled; try done. destruct (hi_flags h I) as [F|F]; [congruence|].
    apply F. by eapply list_elem_of_lookup_2.
  - intros es h' x' Hr E' Hj' Hx' Hg. destruct (Z.ltb_spec (owner_steps s es h) (total_work h s)) as [|Hs]; [done|].
    destruct (woken_after es h h' j t s x g I W Hj Hw Hx Hr E' Hs Hj') as (y & Hy & Hl). simplify_eq. lia.
Qed.

End live.

(** * Shutdown of the room table *)

#[local] Arguments close_step : simpl never.
#[local] Arguments cleanup_step : simpl never.

Section shutdown.
Context {U : UuidLib}.

Definition live_at (h : hub) (s : nat) : Prop := exists x a, slots h !! s = Some x /\ sphase x = Live a.

(** Live rooms are in the map, also while shutdown forces slots. *)
Definition live_mapped (h : hub) : Prop :=
  forall s x a, slots h !! s = Some x -> sphase x = Live a -> rooms h !! skey x = Some s.

(** The slots a shutdown has still to look at, once it has read the map. *)
Definition remaining (t : task) : option (list nat) :=
  match t with
  | TShutdown (HLeftover rest) | TShutdown (HOwner _ _ rest) | TShutdown (HOwnerLock _ _ _ rest)
  | TShutdown (HOwnerMap _ _ _ rest) | TShutdown (HOwnerWait _ _ _ rest) | TShutdown (HForcePermit _ _ rest)
  | TShutdown (HClose _ _ _ rest) => Some rest.*2
  | TShutdown (HForce _ s rest) => Some (s :: rest.*2)
  | TShutdown HEnd => Some []
  | _ => None
  end.

Definition remaining_inv (h : hub) : Prop :=
  forall t l s, t ∈ tasks h -> remaining t = Some l -> live_at h s -> s ∈ l.

Lemma remaining_late t l : remaining t = Some l -> late_task t = true.
Proof. destruct t as [| | | | |[]]; simpl; by intros. Qed.

(** Rooms become live only by their start task. *)
Lemma live_back h h' s : hub_inv h -> effect h h' -> late h = true -> live_at h' s -> live_at h s.
Proof.
  intros I Eff L (x' & a & Hx' & Hl). destruct Eff as [Es _ _ _ _|_ Es _ _ _ _|k _ _ Es _ _ _ _|s0 lose gain dp m o _ Es _ _ _ _ _
                  |s0 x y lose gain dp m o Hx T Es Sw _ _ _]; rewrite Es in Hx'.
  1,2,4: by exists x', a.
  - apply lookup_app_Some in Hx' as [Hx'|[_ Hx']]; [by exists x', a|]. by apply list_lookup_singleton_Some in Hx' as [_ <-].
  - destruct (decide (s = s0)) as [->|Hn]; [|rewrite list_lookup_insert_ne in Hx' by done; by exists x', a].
    rewrite list_lookup_insert_eq in Hx' by (by eapply lookup_lt_Some). assert (y = x') as -> by congruence.
    destruct (owned_swap _ _ _ _ _ Sw) as (n & P & E & _). pose proof (hi_slots h I s0) as Is.
    apply (slot_at_proper _ _ _ _ _ E) in Is. rewrite Hx, L in Is. destruct Is as [_ Is]. specialize (P s0).
    pose proof (P Pre). pose proof (P Boot). pose proof (P Run). pose proof (P Clean).
    destruct T; simpl in Hl; try discriminate Hl; try (by exists x; eauto); try (eexists _, _; by eauto).
    exfalso. unfold starters, plus, count in Is. simpl in Is. lia.
Qed.

(** Nobody wakes or removes a live room. *)
Lemma live_no_owner sh lt x m lose a r : slot_ok sh lt x (plus m lose) -> (forall r, 0 <= m r) -> sphase x = Live a ->
  r ∈ lose -> r = Wakes \/ r = Removes -> False.
Proof.
  intros [B _] P Hl Hr Er. pose proof (plus_lose m r lose P Hr) as H1.
  pose proof (fun r' => plus_nonneg m lose r' P) as H2. role_facts (plus m lose) H2.
  unfold slot_base, starters, in_live in B. rewrite Hl in B. destruct Er as [-> | ->]; lia.
Qed.

Lemma key_effect h h' s x x' : effect h h' -> slots h !! s = Some x -> slots h' !! s = Some x' -> skey x' = skey x.
Proof.
  intros Eff Hx Hx'. destruct Eff as [Es _ _ _ _|_ Es _ _ _ _|k _ _ Es _ _ _ _|s0 lose gain dp m o _ Es _ _ _ _ _
                  |s0 y y' lose gain dp m o Hy T Es _ _ _ _]; rewrite Es in Hx'.
  1,2,4: congruence.
  - rewrite (lookup_app_l_Some _ _ _ _ Hx) in Hx'. congruence.
  - destruct (decide (s = s0)) as [->|Hn]; [|rewrite list_lookup_insert_ne in Hx' by done; congruence].
    rewrite list_lookup_insert_eq in Hx' by (by eapply lookup_lt_Some). apply move_key in T. congruence.
Qed.

(** Late, the map loses no live room. *)
Lemma late_rooms h h' s x a : hub_inv h -> remaining_inv h -> effect h h' -> late h = true ->
  slots h !! s = Some x -> sphase x = Live a -> rooms h !! skey x = Some s -> rooms h' !! skey x = Some s.
Proof.
  intros I Rm Eff L Hx Hl Hr. destruct Eff as [Es _ _ _ Er|_ _ _ _ _ _ Ht|k0 Hn _ Es _ _ _ Er|s0 lose gain dp m o T Es Sw _ _ _ Er
                  |s0 y y' lose gain dp m o Hy T Es Sw _ _ Er].
  - by rewrite Er.
  - exfalso. pose proof (Rm _ [] s Ht eq_refl ltac:(by exists x, a)). set_solver.
  - rewrite Er, lookup_insert_ne; [done|]. intros ->. congruence.
  - destruct o as [|k]; simpl in Er; rewrite Er; [done|]. apply kept_removed; [done|]. intros ->.
    apply trade_delete in T. destruct (owned_swap _ _ _ _ _ Sw) as (n & P & E & _). pose proof (hi_slots h I s0) as Is.
    apply (slot_at_proper _ _ _ _ _ E) in Is. rewrite Hx in Is. by apply (live_no_owner _ _ _ _ _ _ Removes Is (P s0) Hl T); right.
  - destruct o as [|k]; simpl in Er; rewrite Er; [done|]. apply kept_removed; [done|]. intros ->.
    apply move_delete in T as [T _]. destruct (owned_swap _ _ _ _ _ Sw) as (n & P & E & _). pose proof (hi_slots h I s0) as Is.
    apply (slot_at_proper _ _ _ _ _ E) in Is. rewrite Hx in Is. by apply (live_no_owner _ _ _ _ _ _ Wakes Is (P s0) Hl T); left.
Qed.

Lemma live_mapped_step e h h' : hub_inv h -> remaining_inv h -> live_mapped h -> exec e h = Some h' -> live_mapped h'.
Proof.
  intros I Rm M H s x' a Hx' Hl. pose proof (exec_effect e h h' (hi_flags h I) H) as Eff. destruct (late h) eqn:L.
  - destruct (live_back h h' s I Eff L) as (x & b & Hx & Hb); [by exists x', a|].
    rewrite (key_effect h h' s x x' Eff Hx Hx'). eapply late_rooms; try done. by apply (M s x b).
  - eapply mapped_effect; [exact L|apply I..|done|done|congruence].
Qed.
(** The step of a shutdown task itself. *)
Lemma remaining_own c i h pc h' pc' l s :
  hub_inv h -> remaining_inv h -> live_mapped h -> tasks h !! i = Some (TShutdown pc) ->
  shutdown_step c h pc = Some (h', pc') -> remaining (TShutdown pc') = Some l -> live_at h' s -> live_at h s -> s ∈ l.
Proof.
  intros I Rm M Hi H Hr Hl' Hl. pose proof (fun l => Rm _ l s (list_elem_of_lookup_2 _ _ _ Hi)) as R0.
  open_step H; simpl in *; simplify_eq; try (by apply R0); try done.
  1: { destruct Hl as (x & a & Hx & Ha). apply list_elem_of_fmap. exists (skey x, s). split; [done|].
    match goal with E : _ ≡ₚ _ |- _ => rewrite E end. apply elem_of_map_to_list. by eapply M. }
  1: { destruct (proj1 (elem_of_cons _ _ _) (R0 _ eq_refl Hl)) as [->|]; [|done]. destruct Hl as (x & a & Hx & Ha). congruence. }
  all: destruct (proj1 (elem_of_cons _ _ _) (R0 _ eq_refl Hl)) as [->|]; [|done].
  all: destruct Hl' as (x & a & Hx & Ha); simpl in Hx; rewrite list_lookup_insert_eq in Hx by (by eapply lookup_lt_Some).
  all: by simplify_eq.
Qed.

Lemma remaining_was_late c h pc h' pc' l :
  shutdown_step c h pc = Some (h', pc') -> remaining (TShutdown pc') = Some l -> late_task (TShutdown pc) = true.
Proof. intros H Hr. open_step H; simpl in *; done. Qed.

Lemma shutdown_tasks e h h' t : flag_ok h -> exec e h = Some h' -> t ∈ tasks h' -> late_task t = true ->
  t ∈ tasks h \/ exists c i pc h1 pc', e = EStep c i /\ tasks h !! i = Some (TShutdown pc) /\
    shutdown_step c h pc = Some (h1, pc') /\ t = TShutdown pc' /\ slots h' = slots h1.
Proof.
  intros F H Ht Hl. destruct e as [c i|o k|i|ks| |s' a|s'|s' n|s'|d]; cbn [exec] in H; unfold mbind, option_bind in H.
  - destruct (tasks h !! i) as [u|] eqn:Ei; [|done]. destruct (task_step c i h u) as [[h1 u']|] eqn:Es; [|done].
    injection H as <-. simpl in Ht. pose proof (task_flags _ _ _ _ _ _ Ei Es) as Fs.
    apply elem_of_insert_inv in Ht as [->|Ht].
    + right. destruct u as [w pc|k s b pc|k s l|pc|pc|pc]; cbn [task_step] in Es; unfold mbind, option_bind in Es;
        case_inner Es; simplify_eq; try done. eauto 10.
    + destruct (fs_others _ _ _ _ Fs t Ht) as [|Hf]; [by left|]. apply late_flagged in Hl. congruence.
  - simplify_eq. simpl in Ht. apply elem_of_app in Ht as [|Ht]; [by left|]. by apply list_elem_of_singleton in Ht as ->.
  - case_inner H; simplify_eq. simpl in Ht. apply elem_of_insert_inv in Ht as [->|Ht]; [done|left].
    match goal with E : cancel_step _ _ = Some ?g |- _ => assert (Eg : tasks g = tasks h)
      by (unfold cancel_step, mbind, option_bind in E; case_inner E; by simplify_eq) end. by rewrite Eg in Ht.
  - simplify_eq. simpl in Ht. apply elem_of_app in Ht as [|Ht]; [by left|]. by apply list_elem_of_singleton in Ht as ->.
  - simplify_eq. simpl in Ht. apply elem_of_app in Ht as [|Ht]; [by left|]. by apply list_elem_of_singleton in Ht as ->.
  - case_inner H; simplify_eq; by left.
  - case_inner H; simplify_eq; by left.
  - case_inner H; simplify_eq; by left.
  - case_inner H; simplify_eq; by left.
  - case_inner H; simplify_eq; by left.
Qed.

Lemma remaining_step e h h' : hub_inv h -> remaining_inv h -> live_mapped h -> exec e h = Some h' -> remaining_inv h'.
Proof.
  intros I Rm M H t l s Ht Hr Hl'. pose proof (exec_effect e h h' (hi_flags h I) H) as Eff.
  destruct (shutdown_tasks e h h' t (hi_flags h I) H Ht (remaining_late t l Hr)) as [Ht0|(c & i & pc & h1 & pc' & -> & Hi & Hs & -> & Es)].
  - apply (Rm t l s Ht0 Hr). eapply live_back; try done. apply late_elem. exists t. split; [done|by eapply remaining_late].
  - assert (Hl1 : live_at h1 s) by (destruct Hl' as (x & a & Hx & Ha); exists x, a; by rewrite <- Es).
    eapply remaining_own; try done. eapply live_back; try done.
    eapply late_here; [exact Hi|]. by eapply remaining_was_late.
Qed.
(** C18: when shutdown ends, no room is booting or live, and no actor is
    abandoned: each one that has not finished still has a task that waits for
    it.  This holds for every interleaving of joins, starts, evictions, moves
    and cancellations with any number of shutdowns. *)
Theorem shutdown_drains (cfg : HubConfig) (budget : Z) (h : hub) :
  0 <= max_rooms cfg -> 0 <= budget < u64_max -> reachable cfg budget h -> TShutdown HEnd ∈ tasks h ->
  forall s x, slots h !! s = Some x ->
    sphase x <> Booting /\ (forall a, sphase x <> Live a) /\
    (unfinished x = true -> exists i t, tasks h !! i = Some t /\ (s, Waits) ∈ roles_of t).
Proof.
  intros H0 Hb R Ht s x Hx.
  assert (J : hub_inv h /\ live_mapped h /\ remaining_inv h).
  { revert R. apply (rtc_ind_r (fun h => hub_inv h /\ live_mapped h /\ remaining_inv h)).
    - split_and!; [by apply hub_inv_build|done|]. intros t l s' ->%list_elem_of_singleton. done.
    - intros h1 h2 _ [e S] (I & M & Rm). split_and!.
      + eapply hub_inv_step; [by exists e|done].
      + by eapply live_mapped_step.
      + by eapply remaining_step. }
  destruct J as (I & M & Rm). destruct (inv_slot h s x I Hx) as [B L].
  assert (late h = true) as El by (apply late_elem; eauto). rewrite El in L.
  assert (Hnl : forall a, sphase x <> Live a).
  { intros a Ha. pose proof (Rm _ [] s Ht eq_refl ltac:(by exists x, a)). set_solver. }
  pose proof (owned_nonneg h s) as P. role_facts (owned h s) P.
  unfold slot_base, starters, in_booting, in_live, running in *.
  split_and!; [intros E; rewrite E in *; lia|done|]. intros Hu.
  assert (0 < owned h s Waits) as Hw.
  { rewrite Hu in B. destruct (sphase x) eqn:E; simpl in B; try lia. by destruct (Hnl last_activity). }
  apply owned_elem in Hw. apply list_elem_of_bind in Hw as (t & Hin & Ht'). apply list_elem_of_lookup in Ht' as [i Hi]. eauto.
Qed.
End shutdown.

(** * The room table at work: concrete executions

    Short runs of the interleaving semantics on concrete keys.  They apply the
    theorems at reachable states, and one shows how shutdown can end before an
    actor has finished. *)

From S2P Require Import HubLife.

Definition w_cfg : HubConfig :=
  {| max_rooms := 2; idle_evict_ms := 60000; rpc_timeout_ms := 5000; family := false; family_timings := false |}.
Definition w_room : RoomKey := (default (Uuid128 0 eq_refl) (uuid128_of 1), default (Uuid128 0 eq_refl) (uuid128_of 2), Document).
Definition w_hub0 : hub := build w_cfg 100000000.

(** The next [n] steps of task [i]. *)
Definition steps (n i : nat) : list event := replicate n (EStep kind_choice i).

Definition after (es : list event) : hub := default w_hub0 (run es w_hub0).

Lemma run_reachable es h h' : run es h = Some h' -> rtc hub_step h h'.
Proof.
  revert h. induction es as [|e es IH]; intros h R; [by injection R as <-|].
  destruct (run_cons _ _ _ _ R) as (h1 & H1 & R1). eapply rtc_l; [by exists e|by apply IH].
Qed.

Lemma after_reachable es : match run es w_hub0 with Some _ => true | None => false end = true ->
  reachable w_cfg 100000000 (after es).
Proof. unfold after. destruct (run es w_hub0) eqn:E; [|done]. intros _. by apply (run_reachable es). Qed.

(** A join creates a room: its caller is task 1, the start task is 2; after
    the start the room is live and the caller uses it. *)
Definition w_create : list event := ECall OJoin w_room :: steps 9 1.
Definition w_live : list event := w_create ++ steps 14 2 ++ steps 2 1.

(** A second caller (task 3) waits for the start. *)
Definition w_wait : list event := w_create ++ ECall (OBorrow true) w_room :: steps 5 3.

Lemma w_live_reachable : reachable w_cfg 100000000 (after w_live).
Proof. apply after_reachable. vm_compute. reflexivity. Qed.
Lemma w_wait_reachable : reachable w_cfg 100000000 (after w_wait).
Proof. apply after_reachable. vm_compute. reflexivity. Qed.
Lemma w_cap : 0 <= max_rooms w_cfg.
Proof. by vm_compute. Qed.
Lemma w_budget : 0 <= 100000000 < u64_max.
Proof. by vm_compute. Qed.

Lemma room_accounting_witness :
  permits (after w_live) + held_permits (after w_live) + slot_permits (after w_live) = max_rooms w_cfg.
Proof. exact (proj1 (room_accounting w_cfg 100000000 (after w_live) w_cap w_budget w_live_reachable)). Defined.

Lemma actors_bounded_witness :
  total running (slots (after w_live)) <= max_rooms w_cfg - permits (after w_live) <= max_rooms w_cfg.
Proof. exact (actors_bounded w_cfg 100000000 (after w_live) w_cap w_budget w_live_reachable). Defined.

(** The first slot and the tasks of a reached state. *)
Definition w_slot (es : list event) : slot := default (new_slot w_room) (slots (after es) !! 0%nat).
Definition w_task (es : list event) (i : nat) : task := default (TIdle IEnd) (tasks (after es) !! i).

Lemma w_slot_at es : (0 <? length (slots (after es)))%nat = true -> slots (after es) !! 0%nat = Some (w_slot es).
Proof. intros H%Nat.ltb_lt. unfold w_slot. by destruct (slots (after es)) eqn:E; [simpl in H; lia|]. Qed.
Lemma w_task_at es i : (i <? length (tasks (after es)))%nat = true -> tasks (after es) !! i = Some (w_task es i).
Proof. intros [t H]%Nat.ltb_lt%lookup_lt_is_Some_2. unfold w_task. by rewrite H. Qed.

Lemma w_slot_live : slots (after w_live) !! 0%nat = Some (w_slot w_live).
Proof. apply w_slot_at. vm_compute. reflexivity. Qed.
Lemma w_slot_unfinished : unfinished (w_slot w_live) = true.
Proof. vm_compute. reflexivity. Qed.

Lemma single_writer_witness : unfinished (w_slot w_live) = true /\ 0%nat = 0%nat.
Proof.
  split; [exact w_slot_unfinished|].
  exact (single_writer w_cfg 100000000 (after w_live) 0 0 (w_slot w_live) (w_slot w_live) w_cap w_budget w_live_reachable
    w_slot_live w_slot_live eq_refl w_slot_unfinished w_slot_unfinished).
Defined.

Lemma w_live_early : late (after w_live) = false.
Proof. vm_compute. reflexivity. Qed.


(** The idle loop (task 0) looks at the room an hour later: it is leased. *)
Definition w_scan : list event :=
  w_live ++ [ETime 3600000; EStep kind_choice 0;
             EStep (Choice [(w_room, 0%nat)] None 0 0 (Replied None) FamClaimed true false) 0; EStep kind_choice 0].

Lemma run_app es es' h h' : run es h = Some h' -> run (es ++ es') h = run es' h'.
Proof. unfold run. rewrite foldl_app. by intros ->. Qed.

Lemma after_run es es' : match run es w_hub0 with Some h => match run es' h with Some _ => true | None => false end | None => false end = true ->
  run es' (after es) = Some (after (es ++ es')).
Proof.
  unfold after. destruct (run es w_hub0) as [h|] eqn:E; [|done]. rewrite (run_app es _ _ h E). simpl.
  destruct (run es' h) eqn:E'; [|done]. by intros _.
Qed.

Lemma after_step es e :
  match run es w_hub0 with Some h => match run [e] h with Some _ => true | None => false end | None => false end = true ->
  exec e (after es) = Some (after (es ++ [e])).
Proof. exact (after_run es [e]). Qed.

Lemma leased_room_kept_witness :
  exists x' at', slots (after (w_scan ++ [EStep kind_choice 0])) !! 0%nat = Some x' /\ sphase x' = Live at'.
Proof.
  refine (leased_room_kept w_cfg 100000000 (after w_scan) (after (w_scan ++ [EStep kind_choice 0])) kind_choice 0
    (w_task w_scan 0) 0 (w_slot w_scan) 0 w_cap w_budget _ _ _ _ _ _ _ _).
  - apply after_reachable. vm_compute. reflexivity.
  - apply w_task_at. vm_compute. reflexivity.
  - vm_compute. reflexivity.
  - apply after_step. vm_compute. reflexivity.
  - apply w_slot_at. vm_compute. reflexivity.
  - vm_compute. reflexivity.
  - vm_compute. reflexivity.
  - left. exists (w_task w_scan 1). split; [apply (list_elem_of_lookup_2 _ 1), w_task_at; vm_compute; reflexivity|by_decide].
Defined.

Lemma waiters_woken_witness :
  owner_steps 0 (steps 5 2) (after w_wait) = 5 /\ owner_steps 0 (steps 5 2) (after w_wait) < total_work (after w_wait) 0.
Proof.
  split; [vm_compute; reflexivity|].
  refine (proj2 (proj2 (waiters_woken w_cfg 100000000 (after w_wait) 3 (w_task w_wait 3)
    0 (w_slot w_wait) 0 w_cap w_budget w_wait_reachable _ _ _ _)) (steps 5 2) (after (w_wait ++ steps 5 2))
    (w_slot (w_wait ++ steps 5 2)) _ _ _ _ _).
  - vm_compute. reflexivity.
  - apply w_task_at. vm_compute. reflexivity.
  - by_decide.
  - apply w_slot_at. vm_compute. reflexivity.
  - apply after_run. vm_compute. reflexivity.
  - vm_compute. reflexivity.
  - rewrite w_task_at by (vm_compute; reflexivity). by f_equal.
  - apply w_slot_at. vm_compute. reflexivity.
  - vm_compute. discriminate.
Defined.

(** Shutdown (task 3) begins while the start task is about to publish the
    room; the room comes up after shutdown looked for live rooms, its actor
    stops, and the first caller claims it between shutdown's look at the phase
    and [force_close_slot]. *)
Definition w_order : choice := Choice [(w_room, 0%nat)] None 0 0 (Replied None) FamClaimed true false.

Definition w_race : list event :=
  w_create ++ steps 13 2 ++ EShutdown :: steps 2 3 ++ EStep w_order 3 :: steps 3 3 ++
  steps 1 2 ++ steps 1 1 ++ EActor 0 AClosed :: steps 1 0 ++ steps 1 3 ++ EStep w_order 3 :: steps 1 3 ++ steps 1 1 ++ steps 5 3.

Definition is_dead (t : task) : bool := match t with TCaller _ (CDead 0) => true | _ => false end.

(** Shutdown can end while an actor has not finished: it neither waits for the
    closer that took the room in between nor closes the room itself.  The
    closer still runs. *)
Lemma shutdown_race :
  reachable w_cfg 100000000 (after w_race) /\ w_task w_race 3 = TShutdown HEnd /\
  unfinished (w_slot w_race) = true /\ is_dead (w_task w_race 1) = true.
Proof.
  split; [apply after_reachable; vm_compute; reflexivity|]. split; [exact (eq_refl (w_task w_race 3) <: w_task w_race 3 = TShutdown HEnd)|].
  split; vm_compute; reflexivity.
Qed.

Lemma shutdown_drains_witness : sphase (w_slot w_race) <> Booting.
Proof.
  refine (proj1 (shutdown_drains w_cfg 100000000 (after w_race) w_cap w_budget _ _ 0 (w_slot w_race) _)).
  - apply after_reachable. vm_compute. reflexivity.
  - rewrite <- (proj1 (proj2 shutdown_race)). apply (list_elem_of_lookup_2 _ 3), w_task_at. vm_compute. reflexivity.
  - apply w_slot_at. vm_compute. reflexivity.
Defined.
