(* ===== verification/HubSockets.v ===== *)
(** * Socket permits and shutdown reports ([src/collab/hub.rs])

    A WebSocket owns one permit of a global semaphore and one count of its
    session.  [try_acquire_socket] runs under the mutex of the counts; dropping
    the permit first updates the count and then returns the semaphore permit,
    two steps that other requests may interleave. *)

From stdpp Require Import base list numbers gmap relations.
From Stdlib Require Import ZArith Lia.
From S2P Require Import Prelude Uuid.

(** [ShutdownStatus] and [is_clean]. *)
Record ShutdownStatus := Status {
  idle_task_failed : bool;
  start_task_failures : Z;
  actor_failures : Z;
}.

Definition is_clean (s : ShutdownStatus) : bool :=
  negb (idle_task_failed s) && (start_task_failures s =? 0) && (actor_failures s =? 0).

(** [rooms] is [None] when the map's lock is busy. *)
Record ShutdownProgress := Progress { rooms_left : option Z; sockets_held : Z }.

Section sockets.
Context {U : UuidLib}.

(** [SessionSocketTracker] with the semaphore and the shutdown flag. *)
Record sockets := Sockets {
  counts : gmap uuid Z;
  max_per_session : Z;
  max_collab_sockets : Z;
  socket_permits : Z;
  sockets_stopped : bool;
}.

Definition sockets_new (per all : Z) : sockets := Sockets ∅ per all all false.

Definition count_of (x : uuid) (h : sockets) : Z := default 0 (counts h !! x).

(** [try_acquire_socket]: [None] refuses. *)
Definition try_acquire_socket (x : uuid) (h : sockets) : option sockets :=
  if sockets_stopped h then None
  else if max_per_session h <=? count_of x h then None
  else if socket_permits h <=? 0 then None
  else Some (Sockets (<[x := count_of x h + 1]> (counts h)) (max_per_session h) (max_collab_sockets h)
               (socket_permits h - 1) (sockets_stopped h)).

(** [Drop for CollabSocketPermit]. *)
Definition drop_count (x : uuid) (h : sockets) : sockets :=
  match counts h !! x with
  | Some n =>
    let n' := Z.max 0 (n - 1) in
    Sockets (if n' =? 0 then delete x (counts h) else <[x := n']> (counts h))
      (max_per_session h) (max_collab_sockets h) (socket_permits h) (sockets_stopped h)
  | None => h
  end.

(** The fields of the permit are dropped after it. *)
Definition drop_global (h : sockets) : sockets :=
  Sockets (counts h) (max_per_session h) (max_collab_sockets h) (socket_permits h + 1) (sockets_stopped h).

Definition stop_sockets (h : sockets) : sockets :=
  Sockets (counts h) (max_per_session h) (max_collab_sockets h) (socket_permits h) true.

(** [shutdown_progress], with the room count when the lock was free. *)
Definition shutdown_progress (rooms : option Z) (h : sockets) : ShutdownProgress :=
  Progress rooms (Z.max 0 (max_collab_sockets h - socket_permits h)).

(** ** Interleaved sockets *)

Inductive socket := Open (x : uuid) | Uncounted (x : uuid) | Gone.

#[export] Instance socket_eq_dec : EqDecision socket.
Proof. solve_decision. Defined.

Inductive socket_event := SOpen (x : uuid) | SDrop (i : nat) | SStopAll.

Definition socket_exec (e : socket_event) (s : sockets * list socket) : option (sockets * list socket) :=
  match e with
  | SOpen x => h ← try_acquire_socket x s.1; Some (h, s.2 ++ [Open x])
  | SDrop i =>
    match s.2 !! i with
    | Some (Open x) => Some (drop_count x s.1, <[i := Uncounted x]> s.2)
    | Some (Uncounted _) => Some (drop_global s.1, <[i := Gone]> s.2)
    | _ => None
    end
  | SStopAll => Some (stop_sockets s.1, s.2)
  end.

Definition socket_step (s s' : sockets * list socket) : Prop := exists e, socket_exec e s = Some s'.

(** ** Facts *)

Definition opened (x : uuid) (q : socket) : Z :=
  match q with Open y => if decide (x = y) then 1 else 0 | _ => 0 end.
Definition permit (q : socket) : Z := match q with Gone => 0 | _ => 1 end.

Definition sockets_inv (per all : Z) (s : sockets * list socket) : Prop :=
  max_per_session s.1 = per /\ max_collab_sockets s.1 = all /\
  (forall x, count_of x s.1 = total (opened x) s.2 /\ count_of x s.1 <= per /\ counts s.1 !! x <> Some 0) /\
  socket_permits s.1 = all - total permit s.2 /\ 0 <= socket_permits s.1.

Lemma opened_nonneg x l : 0 <= total (opened x) l.
Proof. apply total_nonneg. intros [] _; simpl; [case_decide|..]; lia. Qed.

Lemma permit_nonneg l : 0 <= total permit l.
Proof. apply total_nonneg. intros [] _; simpl; lia. Qed.

Lemma opened_pos x l : 0 < total (opened x) l <-> exists i, l !! i = Some (Open x).
Proof.
  induction l as [|q l IH]; [split; [simpl; lia|by intros [? ?]]|].
  pose proof (opened_nonneg x l) as H0. change (total (opened x) (q :: l)) with (opened x q + total (opened x) l).
  destruct (decide (q = Open x)) as [->|Hq].
  - simpl. rewrite decide_True by done. split; [by exists 0%nat|lia].
  - replace (opened x q) with 0 by (destruct q; simpl; [case_decide; congruence|done..]).
    rewrite Z.add_0_l, IH. split; [intros [i Hi]; by exists (S i)|].
    intros [[|i] Hi]; simplify_eq/=. by exists i.
Qed.

Lemma drop_count_of x h y :
  count_of x h = 0 \/ counts h !! x <> Some 0 ->
  count_of y (drop_count x h) = (if decide (x = y) then Z.max 0 (count_of x h - 1) else count_of y h) /\
  (counts h !! y <> Some 0 -> counts (drop_count x h) !! y <> Some 0).
Proof.
  intros Hx. unfold drop_count, count_of. destruct (counts h !! x) as [n|] eqn:E; simpl.
  - destruct (Z.eqb_spec (Z.max 0 (n - 1)) 0) as [E0|E0]; (case_decide; [subst y|]);
      rewrite ?lookup_delete_eq, ?lookup_delete_ne, ?lookup_insert_eq, ?lookup_insert_ne by done; simpl; split;
      try done; try lia; congruence.
  - case_decide; [subst; rewrite E|]; done.
Qed.

Lemma sockets_inv_step per all s s' : socket_step s s' -> sockets_inv per all s -> sockets_inv per all s'.
Proof.
  destruct s as [h l]. intros [e He] (Ep & Ea & Hc & Hg & Hn). simpl in *.
  destruct e as [x|i|]; simpl in He.
  - unfold try_acquire_socket in He. destruct (sockets_stopped h); [done|].
    destruct (Z.leb_spec (max_per_session h) (count_of x h)); [done|].
    destruct (Z.leb_spec (socket_permits h) 0); [done|]. simplify_eq/=.
    unfold sockets_inv; simpl. rewrite total_app; simpl. split_and!; [done|done| |lia|lia].
    intros y. rewrite total_app. destruct (Hc x) as (E1 & _ & _), (Hc y) as (E2 & E3 & E4).
    pose proof (opened_nonneg x l). unfold count_of in *; simpl.
    case_decide; [subst y; rewrite lookup_insert_eq|rewrite lookup_insert_ne by done]; simpl;
      (split_and!; [lia|lia|first [done | intros [= ?]; lia]]).
  - destruct (l !! i) as [[x|x|]|] eqn:Ei; simplify_eq/=.
    + unfold sockets_inv; simpl.
      rewrite (total_insert permit l i (Open x) (Uncounted x) Ei); simpl.
      assert (Hd : max_per_session (drop_count x h) = max_per_session h /\
                   max_collab_sockets (drop_count x h) = max_collab_sockets h /\
                   socket_permits (drop_count x h) = socket_permits h).
      { unfold drop_count. by case_match. }
      destruct Hd as (-> & -> & ->). split_and!; [done|done| |lia|lia].
      intros y. rewrite (total_insert (opened y) l i (Open x) (Uncounted x) Ei); simpl.
      destruct (Hc x) as (E1 & E1' & E1''), (Hc y) as (E2 & E3 & E4).
      destruct (drop_count_of x h y (or_intror E1'')) as [-> Hz].
      assert (0 < total (opened x) l) by (apply opened_pos; by exists i).
      split_and!; [| |auto]; repeat case_decide; simplify_eq; lia.
    + unfold sockets_inv; simpl. rewrite (total_insert permit l i (Uncounted x) Gone Ei); simpl.
      split_and!; [done|done| |lia|lia].
      intros y. rewrite (total_insert (opened y) l i (Uncounted x) Gone Ei); simpl.
      destruct (Hc y) as (E2 & E3 & E4). unfold count_of in *. simpl. split_and!; [lia|lia|done].
  - simplify_eq/=. done.
Qed.

Lemma sockets_inv_reach per all s s' : rtc socket_step s s' -> sockets_inv per all s -> sockets_inv per all s'.
Proof. induction 1; [done|]. eauto using sockets_inv_step. Qed.

(** ** Theorem *)

(** Over every interleaving of sockets that open and close, a session never
    has more than its maximum and all sessions together never more than theirs;
    the counts are exact and keep no entry for a session without sockets; the
    permits reported as held during shutdown are those of the sockets not fully
    closed; and a session gets a socket exactly when the hub is not shutting
    down, the session is below its maximum and a permit is free. *)
Theorem socket_accounting (per all : Z) (s : sockets * list socket) :
  0 <= per -> 0 <= all -> rtc socket_step (sockets_new per all, []) s ->
  (forall x, count_of x s.1 = total (opened x) s.2 /\ total (opened x) s.2 <= per /\
             (is_Some (counts s.1 !! x) <-> exists i, s.2 !! i = Some (Open x))) /\
  total permit s.2 <= all /\
  (forall r, sockets_held (shutdown_progress r s.1) = total permit s.2) /\
  (forall x, is_Some (try_acquire_socket x s.1) <->
             sockets_stopped s.1 = false /\ total (opened x) s.2 < per /\ total permit s.2 < all).
Proof.
  intros Hp Ha Hr. destruct (sockets_inv_reach per all _ _ Hr) as (Ep & Ea & Hc & Hg & Hn).
  { unfold sockets_inv; simpl. split_and!; try done; lia. }
  pose proof (permit_nonneg s.2). split_and!; [| |intros r; simpl|].
  - intros x. destruct (Hc x) as (E1 & E2 & E3). split_and!; [done|lia|]. split.
    + intros [n En]. apply opened_pos. pose proof (opened_nonneg x s.2). unfold count_of in *.
      rewrite En in *. simpl in *. assert (n <> 0) by congruence. lia.
    + intros Hi%opened_pos. unfold count_of in *. destruct (counts s.1 !! x); simpl in *; [by eexists|lia].
  - lia.
  - lia.
  - intros x. destruct (Hc x) as (E1 & _). unfold try_acquire_socket. rewrite Ep.
    destruct (sockets_stopped s.1); [split; [by intros []|by intros [? _]]|].
    destruct (Z.leb_spec per (count_of x s.1)); [split; [by intros []|lia]|].
    destruct (Z.leb_spec (socket_permits s.1) 0); [split; [by intros []|lia]|].
    split; [intros _; split_and!; [done|lia|lia]|by eexists].
Qed.

End sockets.

(** One socket of a session that may have one: it is counted, and the session
    gets no second. *)
Definition w_session : uuid := default (Uuid128 0 eq_refl) (uuid128_of 7).
Definition w_socket : sockets * list socket :=
  default (sockets_new 1 2, []) (socket_exec (SOpen w_session) (sockets_new 1 2, [])).

Lemma socket_accounting_witness :
  total permit w_socket.2 = 1 /\ total permit w_socket.2 <= 2 /\ sockets_held (shutdown_progress None w_socket.1) = 1.
Proof.
  assert (H : rtc socket_step (sockets_new 1 2, []) w_socket).
  { apply rtc_once. exists (SOpen w_session). unfold w_socket, socket_exec, try_acquire_socket. simpl. done. }
  destruct (socket_accounting 1 2 w_socket ltac:(done) ltac:(done) H) as (_ & Hb & Hs & _).
  split_and!; [by vm_compute|exact Hb|]. rewrite (Hs None). by vm_compute.
Defined.
