(* ===== verification/RoomTypes.v ===== *)
(** * The room actor: data, environment and effects ([src/collab/room.rs])

    One actor owns an open room: the connections, the committed document state
    it has loaded, the engine child ("primary") that holds the document in
    memory, the presence registry and the database guard.  It handles one
    command at a time; everything else it touches is outside: the database, the
    engine child, the clock, and the transports that empty the queues of the
    connections while the actor runs.

    The outside is an adversary.  [Query] lists what the actor asks, [ans] the
    type of each answer, and an environment is any function from the number of
    the question to answers.  At every question the transports may also move.
    The world records what was asked, answered and queued. *)

From stdpp Require Import base list numbers strings gmap.
From Stdlib Require Import ZArith Lia.
From S2P Require Import Prelude Text Uuid Json Wire YSync Awareness Hub.

(** ** Libraries and other components *)

(** [base64], SHA-256, and what [derived_body.rs] and [revision.rs] make of a
    projected document. *)
Class RoomLib := {
  b64_decode : str -> option (list byte);
  sha256 : list byte -> list byte;
  content : Type;
  prepared_body : Type;
  prepare_derived_body : content -> option prepared_body;
  prepare_revision_text : content -> option str;
}.

(** [Uuid::nil], the default identifier. *)
Class UuidNil {UL : UuidLib} := nil_uuid : uuid.

(** ** The engine ([crates/collab-engine], [engine_bridge.rs]) *)

Inductive LimitKind := LInput | LOutput | LFrame | LOps | LTime | LMemory | LStack.

#[export] Instance LimitKind_eq_dec : EqDecision LimitKind.
Proof. solve_decision. Defined.

(** The requests the actor sends, all with encoding 1. *)
Inductive Request :=
| RLoad (snapshot : list byte) (tail : list (list byte))
| RApply (update : list byte)
| RSync (state_vector : list byte)
| RSnapshot
| RInspect
| RProject
| RRevisionSnapshot
| RRevisionSnapshotsEqual (lft rgt : list byte)
| RRestoreFromSnapshot (snap : list byte)
| RReplaceFromUpdate (update : list byte).

Section status.
Context {RL : RoomLib}.

Inductive EngineStatus :=
| EOk (applied : bool) (update_b64 state_vector_b64 : option str) (content_json : option content)
| EMalformed | EUnsupported | EResourceLimit (kind : LimitKind) | EWorkerFailure.

Definition is_applied_ok (s : EngineStatus) : bool := match s with EOk true _ _ _ => true | _ => false end.

End status.

Inductive RecycleError := RDead | RSpawn (slot_cap : bool).

Inductive BundleValidation := VOk | VRejected | VCapacityPressure | VEngineUnavailable.

#[export] Instance BundleValidation_eq_dec : EqDecision BundleValidation.
Proof. solve_decision. Defined.

Definition admission_resource_limit (k : LimitKind) : BundleValidation :=
  match k with
  | LInput | LOutput | LFrame | LMemory | LStack => VRejected
  | LTime | LOps => VEngineUnavailable
  end.

Definition classify_admission_load {RL : RoomLib} (s : EngineStatus) : result BundleValidation unit :=
  match s with
  | EOk true _ _ _ => Ok tt
  | EOk false _ _ _ => Err VRejected
  | EMalformed | EUnsupported => Err VRejected
  | EResourceLimit k => Err (admission_resource_limit k)
  | EWorkerFailure => Err VEngineUnavailable
  end.

(** ** The database *)

Inductive Backend := Postgres | Sqlite | LibsqlRemote.

#[export] Instance Backend_eq_dec : EqDecision Backend.
Proof. solve_decision. Defined.

Inductive CollabDbError :=
| DNotFound | DForbidden | DStaleWriter | DPayloadTooLarge | DOpIdConflict | DStaleCutoff | DInvalidCutoff | DStateBudgetExceeded.

(** [sqlx::Error]; what matters is [restore_reply_lost_after_finish]. *)
Record SqlxError := Sqlx { reply_lost_after_finish : bool }.

(** A database call fails, or is answered with a refusal or a value. *)
Definition db (A : Type) : Type := result SqlxError (result CollabDbError A).

Inductive AppendCollabResult := Committed (seq : Z) | DuplicateAck (seq : Z).
Definition result_seq (r : AppendCollabResult) : Z := match r with Committed s | DuplicateAck s => s end.

Inductive DeliveryAdmission := Allowed (read_only : bool) | Denied.
Inductive ProjectDerivedBodyResult := PUpdated | PUnchanged | PSkippedSeed.

Section actor.
Context {UL : UuidLib} {RL : RoomLib}.

Record CollabUpdateRow := Row { row_seq : Z; row_op_id : uuid; row_payload : list byte }.

Record CollabLoadState := Load {
  l_snapshot : list byte; l_tail : list CollabUpdateRow; l_writer_generation : Z; l_snapshot_cutoff_seq : Z; l_tail_seq : Z }.

Record ClaimWriterResult := Claim { cl_writer_generation : Z; cl_load : CollabLoadState }.

(** [FamilyNativeRoomFence], [FamilyNativeConsumerProof]. *)
Record Fence := MkFence { f_kind : CollabKind; f_workspace : uuid; f_resource : uuid; f_owner : uuid; f_sequence : Z }.

Definition fence_matches (f : Fence) (k : CollabKind) (workspace resource : uuid) : bool :=
  bool_decide (f_kind f = k) && bool_decide (f_workspace f = workspace) && bool_decide (f_resource f = resource).
Definition with_owner (f : Fence) (owner : uuid) : Fence := MkFence (f_kind f) (f_workspace f) (f_resource f) owner (f_sequence f).

#[export] Instance Fence_eq_dec : EqDecision Fence.
Proof. solve_decision. Defined.

Record ConsumerProof := Proof_ { p_room : Fence; p_generation : Z; p_tail : Z }.

(** [BackendRoomGuard]. *)
Inductive BackendRoomGuard := GPostgres | GFamily (original current : Fence) (writer_owner : uuid).

Definition family_fence (g : BackendRoomGuard) : option Fence :=
  match g with GPostgres => None | GFamily _ current _ => Some current end.
Definition delivery_fence (g : BackendRoomGuard) : option (Fence * uuid) :=
  match g with GPostgres => None | GFamily original _ owner => Some (original, owner) end.

Record AppendCollabInput := AppendIn {
  a_actor_user_id : uuid; a_session_id : uuid; a_writer_generation : Z; a_expected_tail_seq : Z; a_op_id : uuid;
  a_payload : list byte }.

Record RestoreRevisionInput := RestoreIn { r_source_revision_id : uuid; r_correlation_id : uuid; r_expected_tail_seq : Z }.

Record CapturedRevision := Captured { y_snapshot : list byte; content_json : content }.

Record RestoreRevisionAppend := RestoreAp {
  ra_intent : RestoreRevisionInput; ra_revision_id : uuid; ra_y_snapshot : list byte; ra_prepared : prepared_body }.

Record DurableCollab := Durable { d_snapshot : list byte; d_tail : list (list byte); d_tail_seq : Z; d_snapshot_cutoff_seq : Z }.

Inductive RevisionDbError := VStaleRevisionHead | VRestoreConflict | VOther.

(** Who asks: the user and the session (or token). *)
Definition who : Type := uuid * uuid.

(** ** Questions *)

Inductive Query :=
| QNow
| QUuid
| QOrder (keys : list uuid)                                  (** the order a hash map is iterated in *)
| QCancelled                                                 (** [session_cancel_rx] *)
| QBridge                                                    (** the bridge's thread answers *)
| QSpawn                                                     (** spawning a fresh child *)
| QCall (r : Request)                                        (** a call of a child *)
| QEngineBin
| QDelivery (w : who) (f : option (Fence * uuid))            (** [check_delivery_admission_kind_backend] *)
| QAdmission (w : who)                                       (** [resolve_collab_admission_kind_backend] *)
| QClaim (w : who)                                           (** [claim_writer_and_load_kind_backend] *)
| QActivate (w : who) (f : Fence) (owner : uuid)             (** [activate_family_*_writer] *)
| QLoad (w : who) (f : option Fence)                         (** [load_room_collab_readonly] *)
| QAppend (f : option Fence) (i : AppendCollabInput)
| QRestore (f : option Fence) (i : AppendCollabInput) (r : RestoreRevisionAppend)
| QVerify (w : who) (op : uuid) (length : Z) (digest : list byte) (p : option ConsumerProof)
| QNative (w : who) (p : option ConsumerProof)               (** [verify_room_native_consumer] *)
| QProject (w : who) (generation seq : Z) (b : prepared_body) (f : option Fence)
| QCompact (w : who) (generation cutoff : Z) (snapshot : list byte) (f : option Fence)
| QBundle (snapshot : list byte) (tail : list (list byte)) (candidate : list byte)   (** [validate_recovery_bundle] *)
| QSnapshotOnly (snapshot : list byte)                       (** [validate_snapshot_only] *)
| QOffline (snapshot : list byte) (tail : list (list byte))  (** [capture_revision_offline] *)
| QRestored (w : who) (i : RestoreRevisionInput)             (** [lookup_restored_revision_backend] *)
| QDurable (f : option Fence)                                (** [load_durable_collab_for_room_backend] *)
| QLatest (f : option Fence)                                 (** [latest_revision_y_snapshot_for_room_backend] *)
| QCreate (c : CapturedRevision) (text : str) (generation : Z) (head : option (uuid * list byte)) (f : option Fence)
| QTimeout
| QRenew (f : Fence)
| QRelease (f : option Fence)
| QStop.

Definition ans (q : Query) : Type :=
  match q with
  | QNow => Z
  | QUuid => uuid
  | QOrder keys => { l : list uuid | l ≡ₚ keys }
  | QCancelled | QBridge | QEngineBin | QSnapshotOnly _ | QTimeout | QStop => bool
  | QSpawn => result bool unit
  | QCall _ => EngineStatus
  | QDelivery _ _ => result SqlxError DeliveryAdmission
  | QAdmission _ => db bool
  | QClaim _ => db ClaimWriterResult
  | QActivate _ _ _ => db (Fence * ClaimWriterResult)
  | QLoad _ _ => db CollabLoadState
  | QAppend _ _ => db AppendCollabResult
  | QRestore _ _ _ => db (AppendCollabResult * uuid)
  | QVerify _ _ _ _ _ => db Z
  | QNative _ _ => db unit
  | QProject _ _ _ _ _ => db ProjectDerivedBodyResult
  | QCompact _ _ _ _ _ => db CollabLoadState
  | QBundle _ _ _ => BundleValidation
  | QOffline _ _ => option CapturedRevision
  | QRestored _ _ => result SqlxError (result RevisionDbError (option uuid))
  | QDurable _ => result SqlxError (result RevisionDbError DurableCollab)
  | QLatest _ => result SqlxError (option (uuid * list byte))
  | QCreate _ _ _ _ _ => result SqlxError (result RevisionDbError unit)
  | QRenew _ => result SqlxError bool
  | QRelease _ => result SqlxError bool
  end.

(** ** Channels to the transports *)

Inductive OutboundKind := Control | Data.

(** [OutboundDeliveryPermit]: the budget and the bytes it holds. *)
Record Permit := MkPermit { p_budget : nat; p_bytes : Z }.

Inductive RoomClientEvent :=
| Outbound (bytes : list byte) (kind : OutboundKind) (permit : option Permit)
| Close (code : Z) (reason : str).

(** The queue of a transport, the event it is sending, and its cancel watch
    (if it has one) with the last value. *)
Record Channel := Chan {
  queue : list RoomClientEvent; capacity : nat; closed : bool; sending : option RoomClientEvent;
  has_cancel : bool; cancelled : option (Z * str) }.

(** [ConnectionOutboundBudget]. *)
Record Budget := Bud { frames_free : Z; queued_bytes : Z; max_bytes : Z }.

(** What a transport does. *)
Inductive transport_act :=
| TRecv (ch : nat)                             (** takes the next event to send it *)
| TSent (ch : nat)                             (** has sent it *)
| TClose (ch : nat)                            (** drops its receiver *)
| TOther (ch : nat) (e : RoomClientEvent).     (** another sender queues an event without a permit *)

(** ** The actor *)

Record CollabSession := Session {
  session_id : uuid; user_id : uuid; given_name : str; family_name : option str; locale : str }.

Definition session_who (s : CollabSession) : who := (user_id s, session_id s).

Record CollabConfig := Config {
  max_connections_per_room : nat; max_pending_bytes_per_connection : Z; max_outbound_frames_per_connection : Z;
  max_outbound_bytes_per_connection : Z; client_id_ttl_ms : Z; revision_session_snapshot : bool; engine_max_ops : Z }.

Record CommittedBundle := Bundle {
  snapshot : list byte; tail_payloads : list (list byte); tail_seq : Z; snapshot_cutoff_seq : Z }.

Record PersistBarrier := Barrier { request_id : uuid; prefix_fifo : Z }.

Record ConnectionState := ConnSt {
  session : CollabSession; conn_client_id : Z; read_only : bool; routing_key : str; events : nat; outbound_budget : nat;
  conn_generation : Z; pending_bytes : Z; poisoned : bool; pending_persist : list PersistBarrier; in_flight : bool }.

(** [RoomJoin] with its [AuthenticatedConnection]; [j_events] is the channel. *)
Record RoomJoin := Join {
  j_conn_id : uuid; j_session : CollabSession; j_client_id : Z; j_read_only : bool; j_routing_key : str; j_events : nat }.

Record UserRejectBudget := RejBud { rejects : list Z; cooldown_until : option Z }.

Record PendingLeaseDrop := LeaseDrop { ld_conn_id : uuid; ld_generation : Z; ld_queued_commands : Z }.

Record SessionRevisionState := SessRev { sr_generation : Z; sr_captured : option CapturedRevision; sr_head_retries : Z }.

(** [EngineBridge] with the child it may hold. *)
Record EngineBridge := Bridge { child : bool; ops_used : Z }.

Record RoomActor := Actor {
  workspace_id : uuid; document_id : uuid; kind : CollabKind; config : CollabConfig; backend : Backend; engine :
  EngineBridge; room_guard : option BackendRoomGuard; guard_cleanup_failed : bool; writer_generation : option Z;
  committed : CommittedBundle; committed_writer_generation : Z; connections : gmap uuid ConnectionState;
  pending_lease_drops : list PendingLeaseDrop; live_conns : nat; awareness : AwarenessRegistry; fifo_seq : Z;
  compact_unhealthy : bool; compact_retry_at_tail_len : option Z; primary_loaded : bool; committed_loaded :
  bool; primary_dirty : bool; client_id_owner : gmap Z (uuid * Z); pending_awareness : list (list byte);
  flushing_awareness : bool; fence_lost : bool; user_reject_budgets : gmap uuid UserRejectBudget;
  session_revision : option SessionRevisionState; admission_reservation : bool }.

Definition set_engine (v : EngineBridge) (a : RoomActor) : RoomActor := Actor (workspace_id a) (document_id a) (kind
  a) (config a) (backend a) v (room_guard a) (guard_cleanup_failed a) (writer_generation a) (committed a)
  (committed_writer_generation a) (connections a) (pending_lease_drops a) (live_conns a) (awareness a) (fifo_seq a)
  (compact_unhealthy a) (compact_retry_at_tail_len a) (primary_loaded a) (committed_loaded a) (primary_dirty a)
  (client_id_owner a) (pending_awareness a) (flushing_awareness a) (fence_lost a) (user_reject_budgets a)
  (session_revision a) (admission_reservation a).
Definition set_room_guard (v : option BackendRoomGuard) (a : RoomActor) : RoomActor := Actor (workspace_id a)
  (document_id a) (kind a) (config a) (backend a) (engine a) v (guard_cleanup_failed a) (writer_generation a)
  (committed a) (committed_writer_generation a) (connections a) (pending_lease_drops a) (live_conns a) (awareness a)
  (fifo_seq a) (compact_unhealthy a) (compact_retry_at_tail_len a) (primary_loaded a) (committed_loaded a)
  (primary_dirty a) (client_id_owner a) (pending_awareness a) (flushing_awareness a) (fence_lost a)
  (user_reject_budgets a) (session_revision a) (admission_reservation a).
Definition set_guard_cleanup_failed (v : bool) (a : RoomActor) : RoomActor := Actor (workspace_id a) (document_id a)
  (kind a) (config a) (backend a) (engine a) (room_guard a) v (writer_generation a) (committed a)
  (committed_writer_generation a) (connections a) (pending_lease_drops a) (live_conns a) (awareness a) (fifo_seq a)
  (compact_unhealthy a) (compact_retry_at_tail_len a) (primary_loaded a) (committed_loaded a) (primary_dirty a)
  (client_id_owner a) (pending_awareness a) (flushing_awareness a) (fence_lost a) (user_reject_budgets a)
  (session_revision a) (admission_reservation a).
Definition set_writer_generation (v : option Z) (a : RoomActor) : RoomActor := Actor (workspace_id a) (document_id a)
  (kind a) (config a) (backend a) (engine a) (room_guard a) (guard_cleanup_failed a) v (committed a)
  (committed_writer_generation a) (connections a) (pending_lease_drops a) (live_conns a) (awareness a) (fifo_seq a)
  (compact_unhealthy a) (compact_retry_at_tail_len a) (primary_loaded a) (committed_loaded a) (primary_dirty a)
  (client_id_owner a) (pending_awareness a) (flushing_awareness a) (fence_lost a) (user_reject_budgets a)
  (session_revision a) (admission_reservation a).
Definition set_committed (v : CommittedBundle) (a : RoomActor) : RoomActor := Actor (workspace_id a) (document_id a)
  (kind a) (config a) (backend a) (engine a) (room_guard a) (guard_cleanup_failed a) (writer_generation a) v
  (committed_writer_generation a) (connections a) (pending_lease_drops a) (live_conns a) (awareness a) (fifo_seq a)
  (compact_unhealthy a) (compact_retry_at_tail_len a) (primary_loaded a) (committed_loaded a) (primary_dirty a)
  (client_id_owner a) (pending_awareness a) (flushing_awareness a) (fence_lost a) (user_reject_budgets a)
  (session_revision a) (admission_reservation a).
Definition set_committed_writer_generation (v : Z) (a : RoomActor) : RoomActor := Actor (workspace_id a) (document_id
  a) (kind a) (config a) (backend a) (engine a) (room_guard a) (guard_cleanup_failed a) (writer_generation a)
  (committed a) v (connections a) (pending_lease_drops a) (live_conns a) (awareness a) (fifo_seq a) (compact_unhealthy
  a) (compact_retry_at_tail_len a) (primary_loaded a) (committed_loaded a) (primary_dirty a) (client_id_owner a)
  (pending_awareness a) (flushing_awareness a) (fence_lost a) (user_reject_budgets a) (session_revision a)
  (admission_reservation a).
Definition set_connections (v : gmap uuid ConnectionState) (a : RoomActor) : RoomActor := Actor (workspace_id a)
  (document_id a) (kind a) (config a) (backend a) (engine a) (room_guard a) (guard_cleanup_failed a)
  (writer_generation a) (committed a) (committed_writer_generation a) v (pending_lease_drops a) (live_conns a)
  (awareness a) (fifo_seq a) (compact_unhealthy a) (compact_retry_at_tail_len a) (primary_loaded a) (committed_loaded
  a) (primary_dirty a) (client_id_owner a) (pending_awareness a) (flushing_awareness a) (fence_lost a)
  (user_reject_budgets a) (session_revision a) (admission_reservation a).
Definition set_pending_lease_drops (v : list PendingLeaseDrop) (a : RoomActor) : RoomActor := Actor (workspace_id a)
  (document_id a) (kind a) (config a) (backend a) (engine a) (room_guard a) (guard_cleanup_failed a)
  (writer_generation a) (committed a) (committed_writer_generation a) (connections a) v (live_conns a) (awareness a)
  (fifo_seq a) (compact_unhealthy a) (compact_retry_at_tail_len a) (primary_loaded a) (committed_loaded a)
  (primary_dirty a) (client_id_owner a) (pending_awareness a) (flushing_awareness a) (fence_lost a)
  (user_reject_budgets a) (session_revision a) (admission_reservation a).
Definition set_live_conns (v : nat) (a : RoomActor) : RoomActor := Actor (workspace_id a) (document_id a) (kind a)
  (config a) (backend a) (engine a) (room_guard a) (guard_cleanup_failed a) (writer_generation a) (committed a)
  (committed_writer_generation a) (connections a) (pending_lease_drops a) v (awareness a) (fifo_seq a)
  (compact_unhealthy a) (compact_retry_at_tail_len a) (primary_loaded a) (committed_loaded a) (primary_dirty a)
  (client_id_owner a) (pending_awareness a) (flushing_awareness a) (fence_lost a) (user_reject_budgets a)
  (session_revision a) (admission_reservation a).
Definition set_awareness (v : AwarenessRegistry) (a : RoomActor) : RoomActor := Actor (workspace_id a) (document_id a)
  (kind a) (config a) (backend a) (engine a) (room_guard a) (guard_cleanup_failed a) (writer_generation a) (committed
  a) (committed_writer_generation a) (connections a) (pending_lease_drops a) (live_conns a) v (fifo_seq a)
  (compact_unhealthy a) (compact_retry_at_tail_len a) (primary_loaded a) (committed_loaded a) (primary_dirty a)
  (client_id_owner a) (pending_awareness a) (flushing_awareness a) (fence_lost a) (user_reject_budgets a)
  (session_revision a) (admission_reservation a).
Definition set_fifo_seq (v : Z) (a : RoomActor) : RoomActor := Actor (workspace_id a) (document_id a) (kind a) (config
  a) (backend a) (engine a) (room_guard a) (guard_cleanup_failed a) (writer_generation a) (committed a)
  (committed_writer_generation a) (connections a) (pending_lease_drops a) (live_conns a) (awareness a) v
  (compact_unhealthy a) (compact_retry_at_tail_len a) (primary_loaded a) (committed_loaded a) (primary_dirty a)
  (client_id_owner a) (pending_awareness a) (flushing_awareness a) (fence_lost a) (user_reject_budgets a)
  (session_revision a) (admission_reservation a).
Definition set_compact_unhealthy (v : bool) (a : RoomActor) : RoomActor := Actor (workspace_id a) (document_id a)
  (kind a) (config a) (backend a) (engine a) (room_guard a) (guard_cleanup_failed a) (writer_generation a) (committed
  a) (committed_writer_generation a) (connections a) (pending_lease_drops a) (live_conns a) (awareness a) (fifo_seq a)
  v (compact_retry_at_tail_len a) (primary_loaded a) (committed_loaded a) (primary_dirty a) (client_id_owner a)
  (pending_awareness a) (flushing_awareness a) (fence_lost a) (user_reject_budgets a) (session_revision a)
  (admission_reservation a).
Definition set_compact_retry_at_tail_len (v : option Z) (a : RoomActor) : RoomActor := Actor (workspace_id a)
  (document_id a) (kind a) (config a) (backend a) (engine a) (room_guard a) (guard_cleanup_failed a)
  (writer_generation a) (committed a) (committed_writer_generation a) (connections a) (pending_lease_drops a)
  (live_conns a) (awareness a) (fifo_seq a) (compact_unhealthy a) v (primary_loaded a) (committed_loaded a)
  (primary_dirty a) (client_id_owner a) (pending_awareness a) (flushing_awareness a) (fence_lost a)
  (user_reject_budgets a) (session_revision a) (admission_reservation a).
Definition set_primary_loaded (v : bool) (a : RoomActor) : RoomActor := Actor (workspace_id a) (document_id a) (kind
  a) (config a) (backend a) (engine a) (room_guard a) (guard_cleanup_failed a) (writer_generation a) (committed a)
  (committed_writer_generation a) (connections a) (pending_lease_drops a) (live_conns a) (awareness a) (fifo_seq a)
  (compact_unhealthy a) (compact_retry_at_tail_len a) v (committed_loaded a) (primary_dirty a) (client_id_owner a)
  (pending_awareness a) (flushing_awareness a) (fence_lost a) (user_reject_budgets a) (session_revision a)
  (admission_reservation a).
Definition set_committed_loaded (v : bool) (a : RoomActor) : RoomActor := Actor (workspace_id a) (document_id a) (kind
  a) (config a) (backend a) (engine a) (room_guard a) (guard_cleanup_failed a) (writer_generation a) (committed a)
  (committed_writer_generation a) (connections a) (pending_lease_drops a) (live_conns a) (awareness a) (fifo_seq a)
  (compact_unhealthy a) (compact_retry_at_tail_len a) (primary_loaded a) v (primary_dirty a) (client_id_owner a)
  (pending_awareness a) (flushing_awareness a) (fence_lost a) (user_reject_budgets a) (session_revision a)
  (admission_reservation a).
Definition set_primary_dirty (v : bool) (a : RoomActor) : RoomActor := Actor (workspace_id a) (document_id a) (kind a)
  (config a) (backend a) (engine a) (room_guard a) (guard_cleanup_failed a) (writer_generation a) (committed a)
  (committed_writer_generation a) (connections a) (pending_lease_drops a) (live_conns a) (awareness a) (fifo_seq a)
  (compact_unhealthy a) (compact_retry_at_tail_len a) (primary_loaded a) (committed_loaded a) v (client_id_owner a)
  (pending_awareness a) (flushing_awareness a) (fence_lost a) (user_reject_budgets a) (session_revision a)
  (admission_reservation a).
Definition set_client_id_owner (v : gmap Z (uuid * Z)) (a : RoomActor) : RoomActor := Actor (workspace_id a)
  (document_id a) (kind a) (config a) (backend a) (engine a) (room_guard a) (guard_cleanup_failed a)
  (writer_generation a) (committed a) (committed_writer_generation a) (connections a) (pending_lease_drops a)
  (live_conns a) (awareness a) (fifo_seq a) (compact_unhealthy a) (compact_retry_at_tail_len a) (primary_loaded a)
  (committed_loaded a) (primary_dirty a) v (pending_awareness a) (flushing_awareness a) (fence_lost a)
  (user_reject_budgets a) (session_revision a) (admission_reservation a).
Definition set_pending_awareness (v : list (list byte)) (a : RoomActor) : RoomActor := Actor (workspace_id a)
  (document_id a) (kind a) (config a) (backend a) (engine a) (room_guard a) (guard_cleanup_failed a)
  (writer_generation a) (committed a) (committed_writer_generation a) (connections a) (pending_lease_drops a)
  (live_conns a) (awareness a) (fifo_seq a) (compact_unhealthy a) (compact_retry_at_tail_len a) (primary_loaded a)
  (committed_loaded a) (primary_dirty a) (client_id_owner a) v (flushing_awareness a) (fence_lost a)
  (user_reject_budgets a) (session_revision a) (admission_reservation a).
Definition set_flushing_awareness (v : bool) (a : RoomActor) : RoomActor := Actor (workspace_id a) (document_id a)
  (kind a) (config a) (backend a) (engine a) (room_guard a) (guard_cleanup_failed a) (writer_generation a) (committed
  a) (committed_writer_generation a) (connections a) (pending_lease_drops a) (live_conns a) (awareness a) (fifo_seq a)
  (compact_unhealthy a) (compact_retry_at_tail_len a) (primary_loaded a) (committed_loaded a) (primary_dirty a)
  (client_id_owner a) (pending_awareness a) v (fence_lost a) (user_reject_budgets a) (session_revision a)
  (admission_reservation a).
Definition set_fence_lost (v : bool) (a : RoomActor) : RoomActor := Actor (workspace_id a) (document_id a) (kind a)
  (config a) (backend a) (engine a) (room_guard a) (guard_cleanup_failed a) (writer_generation a) (committed a)
  (committed_writer_generation a) (connections a) (pending_lease_drops a) (live_conns a) (awareness a) (fifo_seq a)
  (compact_unhealthy a) (compact_retry_at_tail_len a) (primary_loaded a) (committed_loaded a) (primary_dirty a)
  (client_id_owner a) (pending_awareness a) (flushing_awareness a) v (user_reject_budgets a) (session_revision a)
  (admission_reservation a).
Definition set_user_reject_budgets (v : gmap uuid UserRejectBudget) (a : RoomActor) : RoomActor := Actor (workspace_id
  a) (document_id a) (kind a) (config a) (backend a) (engine a) (room_guard a) (guard_cleanup_failed a)
  (writer_generation a) (committed a) (committed_writer_generation a) (connections a) (pending_lease_drops a)
  (live_conns a) (awareness a) (fifo_seq a) (compact_unhealthy a) (compact_retry_at_tail_len a) (primary_loaded a)
  (committed_loaded a) (primary_dirty a) (client_id_owner a) (pending_awareness a) (flushing_awareness a) (fence_lost
  a) v (session_revision a) (admission_reservation a).
Definition set_session_revision (v : option SessionRevisionState) (a : RoomActor) : RoomActor := Actor (workspace_id
  a) (document_id a) (kind a) (config a) (backend a) (engine a) (room_guard a) (guard_cleanup_failed a)
  (writer_generation a) (committed a) (committed_writer_generation a) (connections a) (pending_lease_drops a)
  (live_conns a) (awareness a) (fifo_seq a) (compact_unhealthy a) (compact_retry_at_tail_len a) (primary_loaded a)
  (committed_loaded a) (primary_dirty a) (client_id_owner a) (pending_awareness a) (flushing_awareness a) (fence_lost
  a) (user_reject_budgets a) v (admission_reservation a).
Definition set_admission_reservation (v : bool) (a : RoomActor) : RoomActor := Actor (workspace_id a) (document_id a)
  (kind a) (config a) (backend a) (engine a) (room_guard a) (guard_cleanup_failed a) (writer_generation a) (committed
  a) (committed_writer_generation a) (connections a) (pending_lease_drops a) (live_conns a) (awareness a) (fifo_seq a)
  (compact_unhealthy a) (compact_retry_at_tail_len a) (primary_loaded a) (committed_loaded a) (primary_dirty a)
  (client_id_owner a) (pending_awareness a) (flushing_awareness a) (fence_lost a) (user_reject_budgets a)
  (session_revision a) v.

Definition set_pending_bytes (v : Z) (c : ConnectionState) : ConnectionState := ConnSt (session c) (conn_client_id c)
  (read_only c) (routing_key c) (events c) (outbound_budget c) (conn_generation c) v (poisoned c) (pending_persist c)
  (in_flight c).
Definition set_poisoned (v : bool) (c : ConnectionState) : ConnectionState := ConnSt (session c) (conn_client_id c)
  (read_only c) (routing_key c) (events c) (outbound_budget c) (conn_generation c) (pending_bytes c) v
  (pending_persist c) (in_flight c).
Definition set_pending_persist (v : list PersistBarrier) (c : ConnectionState) : ConnectionState := ConnSt (session c)
  (conn_client_id c) (read_only c) (routing_key c) (events c) (outbound_budget c) (conn_generation c) (pending_bytes
  c) (poisoned c) v (in_flight c).
Definition set_in_flight (v : bool) (c : ConnectionState) : ConnectionState := ConnSt (session c) (conn_client_id c)
  (read_only c) (routing_key c) (events c) (outbound_budget c) (conn_generation c) (pending_bytes c) (poisoned c)
  (pending_persist c) v.

(** ** The world and its monad *)

(** The commands of a room; [Leased] is a connection's lease that was dropped,
    with the number of commands still in the mailbox. *)
Inductive RoomCommand :=
| CJoin (j : RoomJoin)
| CLeave (conn_id : uuid)
| CFrame (conn_id : uuid) (bytes : list byte)
| CCapture (w : who)
| CRestore (w : who) (snap : list byte) (intent : RestoreRevisionInput)
| CReplaceBody (w : who) (seed : list byte) (expected_tail_seq : option Z)
| CProjectLive (w : who)
| CShutdown.

(** What happened: a command was taken up, a question was answered, a frame was
    queued for a connection, a load was adopted as the committed state, an
    update was added to it. *)
Inductive Event :=
| Started (c : RoomCommand)
| Asked (q : Query) (a : ans q)
| Delivered (conn_id : uuid) (f : WireFrame)
| Adopted (b : CommittedBundle)
| Extended (seq : Z) (payload : list byte).

Record World := MkWorld { self : RoomActor; chans : gmap nat Channel; budgets : gmap nat Budget; trace : list Event; tick : nat }.

Definition Env : Type := nat -> forall q : Query, ans q.

(** The transports' moves at each question. *)
Record Outside := MkOutside { answers : Env; moves : nat -> list transport_act }.

Definition M (A : Type) : Type := Outside -> World -> A * World.

#[export] Instance M_ret : MRet M := fun A a _ w => (a, w).
#[export] Instance M_bind : MBind M := fun A B f m o w => let '(a, w) := m o w in f a o w.

Definition get {A} (f : RoomActor -> A) : M A := fun _ w => (f (self w), w).
Definition modify (f : RoomActor -> RoomActor) : M unit := fun _ w =>
  (tt, MkWorld (f (self w)) (chans w) (budgets w) (trace w) (tick w)).
Definition log (e : Event) : M unit := fun _ w => (tt, MkWorld (self w) (chans w) (budgets w) (trace w ++ [e]) (tick w)).

(** *** Transports *)

Definition set_queue (q : list RoomClientEvent) (c : Channel) : Channel :=
  Chan q (capacity c) (closed c) (sending c) (has_cancel c) (cancelled c).
Definition set_cancelled (v : option (Z * str)) (c : Channel) : Channel :=
  Chan (queue c) (capacity c) (closed c) (sending c) (has_cancel c) v.

(** Dropping an event drops its permit. *)
Definition drop_permit (p : Permit) (bs : gmap nat Budget) : gmap nat Budget :=
  match bs !! p_budget p with
  | Some b => <[p_budget p := Bud (frames_free b + 1) (queued_bytes b - p_bytes p) (max_bytes b)]> bs
  | None => bs
  end.
Definition event_permit (e : RoomClientEvent) : list Permit := match e with Outbound _ _ (Some p) => [p] | _ => [] end.
Definition drop_events (es : list RoomClientEvent) (bs : gmap nat Budget) : gmap nat Budget :=
  foldr drop_permit bs (es ≫= event_permit).

Definition transport_step (t : transport_act) (s : gmap nat Channel * gmap nat Budget) : gmap nat Channel * gmap nat Budget :=
  let '(cs, bs) := s in
  match t with
  | TRecv ch =>
    match cs !! ch with
    | Some (Chan (e :: q) cap cl None hc cv) => (<[ch := Chan q cap cl (Some e) hc cv]> cs, bs)
    | _ => s
    end
  | TSent ch =>
    match cs !! ch with
    | Some (Chan q cap cl (Some e) hc cv) => (<[ch := Chan q cap cl None hc cv]> cs, drop_events [e] bs)
    | _ => s
    end
  | TClose ch =>
    match cs !! ch with
    | Some c => (<[ch := Chan [] (capacity c) true (sending c) (has_cancel c) (cancelled c)]> cs, drop_events (queue c) bs)
    | None => s
    end
  | TOther ch e =>
    match cs !! ch, event_permit e with
    | Some c, [] =>
      if negb (closed c) && (length (queue c) <? capacity c)%nat then (<[ch := set_queue (queue c ++ [e]) c]> cs, bs) else s
    | _, _ => s
    end
  end.

(** One question: the answer, and the moves of the transports meanwhile. *)
Definition ask (q : Query) : M (ans q) := fun o w =>
  let a := answers o (tick w) q in
  let '(cs, bs) := foldl (fun s t => transport_step t s) (chans w, budgets w) (moves o (tick w)) in
  (a, MkWorld (self w) cs bs (trace w ++ [Asked q a]) (S (tick w))).

(** The keys of a map in the order of this iteration. *)
Definition keys_of {A} (m : gmap uuid A) : M (list uuid) :=
  l ← ask (QOrder (map_to_list m).*1); mret (`l).

Fixpoint for_each {A} (f : A -> M unit) (l : list A) : M unit :=
  match l with [] => mret tt | x :: l => _ ← f x; for_each f l end.

(** A fallible step: the first error ends the function. *)
Definition try_ {E A B} (m : M (result E A)) (k : A -> M (result E B)) : M (result E B) :=
  r ← m; match r with Ok a => k a | Err e => mret (Err e) end.

End actor.

Notation "x ←? m ; k" := (try_ m (fun x => k)) (at level 20, m at level 100, k at level 200, only parsing).
