(* ===== verification/Room.v ===== *)
(** * The room actor: connections, queues and the primary engine ([src/collab/room.rs])

    The operations the handlers share: queueing frames and closes, presence
    broadcasts, evictions, the engine bridge, the database guard, and the
    terminal failures. *)

From stdpp Require Import base list numbers strings gmap.
From Stdlib Require Import ZArith Lia.
From S2P Require Import Prelude Text Uuid Json Wire YSync Awareness Hub RoomTypes.

Definition MAX_REJECTED_CANDIDATES_PER_USER : Z := 8.
Definition REJECTED_CANDIDATE_WINDOW : Z := 30000.
Definition USER_REJECT_COOLDOWN : Z := 30000.
Definition OUTBOUND_FRAME_OVERHEAD : Z := 48.

Inductive CloseOrder := Preempt | AfterQueued.
Inductive LockingAuth := LAllow | LDeny | LDbError.
Inductive send_result := Sent | SFull | SClosed.

#[export] Instance send_result_eq_dec : EqDecision send_result.
Proof. solve_decision. Defined.

Section room.
Context {UL : UuidLib} {RL : RoomLib} {J : SerdeJson}.

(** ** Channels *)

(** The transports move. *)
Definition yield : M unit := fun o w =>
  let '(cs, bs) := foldl (fun s t => transport_step t s) (chans w, budgets w) (moves o (tick w)) in
  (tt, MkWorld (self w) cs bs (trace w) (S (tick w))).

Definition set_chan (ch : nat) (c : Channel) : M unit := fun _ w =>
  (tt, MkWorld (self w) (<[ch := c]> (chans w)) (budgets w) (trace w) (tick w)).
Definition set_budget (b : nat) (v : Budget) : M unit := fun _ w =>
  (tt, MkWorld (self w) (chans w) (<[b := v]> (budgets w)) (trace w) (tick w)).
Definition get_chan (ch : nat) : M (option Channel) := fun _ w => (chans w !! ch, w).
Definition get_budget (b : nat) : M (option Budget) := fun _ w => (budgets w !! b, w).

(** An event that was not queued is dropped, with its permit. *)
Definition drop_event (e : RoomClientEvent) : M unit := fun _ w =>
  (tt, MkWorld (self w) (chans w) (drop_events [e] (budgets w)) (trace w) (tick w)).

(** [mpsc::Sender::try_send]. *)
Definition try_send (ch : nat) (e : RoomClientEvent) : M send_result :=
  c ← get_chan ch;
  match c with
  | None => _ ← drop_event e; mret SClosed
  | Some c =>
    if closed c then _ ← drop_event e; mret SClosed
    else if (capacity c <=? length (queue c))%nat then _ ← drop_event e; mret SFull
    else _ ← set_chan ch (set_queue (queue c ++ [e]) c); mret Sent
  end.

Definition signal_cancel (ch : nat) (code : Z) (reason : str) : M unit :=
  c ← get_chan ch;
  match c with
  | Some c => if has_cancel c then set_chan ch (set_cancelled (Some (code, reason)) c) else mret tt
  | None => mret tt
  end.

Definition enqueue_close (ch : nat) (code : Z) (reason : str) : M unit :=
  _ ← signal_cancel ch code reason;
  _ ← yield;
  _ ← try_send ch (Close code reason);
  mret tt.

Definition enqueue_close_ordered (ch : nat) (code : Z) (reason : str) : M unit :=
  r ← try_send ch (Close code reason);
  if bool_decide (r = Sent) then mret tt else enqueue_close ch code reason.

(** ** The session revision's schedule *)

Definition session_revision_scheduling_blocked (a : RoomActor) : bool :=
  fence_lost a || negb (bool_decide (connections a = ∅)) || negb (committed_loaded a).

Definition try_schedule_session_revision : M unit := modify (fun a =>
  if negb (revision_session_snapshot (config a)) then a
  else if bool_decide (is_Some (session_revision a)) then a
  else if session_revision_scheduling_blocked a then a
  else match writer_generation a with
       | Some g => set_session_revision (Some (SessRev g None 0)) a
       | None => a
       end).

Definition abort_session_revision_work : M unit := modify (set_session_revision None).

Definition publish_live_conns : M unit := modify (fun a => set_live_conns (size (connections a)) a).

(** ** Evictions and deliveries *)

Definition evict_connection (conn_id : uuid) (code : Z) (reason : str) (order : CloseOrder) : M (option (list byte)) :=
  c ← get (fun a => connections a !! conn_id);
  match c with
  | None => mret None
  | Some c =>
    r ← get awareness;
    let '(tombstone, r) := remove_client (conn_client_id c) (conn_generation c) r in
    _ ← modify (fun a => set_connections (delete conn_id (connections a)) (set_awareness r a));
    _ ← match order with
        | Preempt => enqueue_close (events c) code reason
        | AfterQueued => enqueue_close_ordered (events c) code reason
        end;
    mret tombstone
  end.

Definition push_awareness (encoded : list byte) : M unit :=
  modify (fun a => set_pending_awareness (pending_awareness a ++ [encoded]) a).

Definition evict_for_backpressure (conn_id : uuid) : M unit :=
  t ← evict_connection conn_id 1009 (bs "outbound queue full") Preempt;
  _ ← match t with Some encoded => push_awareness encoded | None => mret tt end;
  try_schedule_session_revision.

(** [Semaphore::try_acquire_owned] on the frames of a budget. *)
Definition try_acquire_frame (b : nat) : M bool :=
  v ← get_budget b;
  match v with
  | Some v => if 0 <? frames_free v then _ ← set_budget b (Bud (frames_free v - 1) (queued_bytes v) (max_bytes v)); mret true else mret false
  | None => mret false
  end.

Definition add_queued (b : nat) (n : Z) : M unit :=
  v ← get_budget b;
  match v with Some v => set_budget b (Bud (frames_free v) (queued_bytes v + n) (max_bytes v)) | None => mret tt end.

(** [deliver_outbound]; [what] is the frame the bytes encode. *)
Definition deliver_outbound (conn_id : uuid) (bytes : list byte) (what : WireFrame) (k : OutboundKind) : M unit :=
  _ ← yield;
  c ← get (fun a => connections a !! conn_id);
  match c with
  | None => mret tt
  | Some c =>
    ch ← get_chan (events c);
    if match ch with Some ch => closed ch | None => true end then mret tt
    else
    let accounted := sat_add_u64 (len bytes) OUTBOUND_FRAME_OVERHEAD in
    let b := outbound_budget c in
    _ ← yield;
    v ← get_budget b;
    match v with
    | None => mret tt
    | Some v =>
      if max_bytes v <? accounted then evict_for_backpressure conn_id
      else if max_bytes v <? queued_bytes v + accounted then evict_for_backpressure conn_id
      else
      _ ← yield;
      permit ← try_acquire_frame b;
      if negb permit then evict_for_backpressure conn_id
      else
      _ ← add_queued b accounted;
      _ ← yield;
      r ← try_send (events c) (Outbound bytes k (Some (MkPermit b accounted)));
      match r with
      | SFull => evict_for_backpressure conn_id
      | Sent => log (Delivered conn_id what)
      | SClosed => mret tt
      end
    end
  end.

(** [encode(..).unwrap_or_default()]. *)
Definition encode_or_empty (f : WireFrame) : list byte := match encode f with Ok b => b | Err _ => [] end.

Definition awareness_frame (rk : str) (encoded : list byte) : WireFrame := FDocument rk None (DAwareness encoded).

(** To every connection, in the order of this iteration. *)
Definition to_all (f : str -> WireFrame) : M unit :=
  conns ← get connections;
  keys ← keys_of conns;
  for_each (fun conn_id =>
    match conns !! conn_id with
    | Some c => let f := f (routing_key c) in deliver_outbound conn_id (encode_or_empty f) f Data
    | None => mret tt
    end) keys.

Fixpoint flush_loop (fuel : nat) : M unit :=
  pending ← get pending_awareness;
  match fuel, pending with
  | S fuel, encoded :: rest =>
    _ ← modify (set_pending_awareness rest);
    _ ← to_all (fun rk => awareness_frame rk encoded);
    flush_loop fuel
  | _, _ => mret tt
  end.

(** Every turn takes one pending update, and can only add one for each
    connection it evicts. *)
Definition flush_fuel (a : RoomActor) : nat := length (pending_awareness a) + 2 * size (connections a).

Definition flush_pending_awareness : M unit :=
  flushing ← get flushing_awareness;
  if flushing : bool then mret tt
  else
  _ ← modify (set_flushing_awareness true);
  fuel ← get flush_fuel;
  _ ← flush_loop fuel;
  modify (set_flushing_awareness false).

Definition broadcast_awareness (encoded : list byte) : M unit :=
  _ ← push_awareness encoded; flush_pending_awareness.

Definition close_connection_in_order (conn_id : uuid) (code : Z) (reason : str) (order : CloseOrder) : M unit :=
  t ← evict_connection conn_id code reason order;
  _ ← match t with Some encoded => push_awareness encoded | None => mret tt end;
  _ ← flush_pending_awareness;
  try_schedule_session_revision.

Definition close_connection (conn_id : uuid) (code : Z) (reason : str) : M unit := close_connection_in_order conn_id code reason Preempt.
Definition close_connection_ordered (conn_id : uuid) (code : Z) (reason : str) : M unit :=
  close_connection_in_order conn_id code reason AfterQueued.

Definition close_each (code : Z) (reason : str) (order : CloseOrder) : M unit :=
  conns ← get connections;
  keys ← keys_of conns;
  for_each (fun conn_id => close_connection_in_order conn_id code reason order) keys.

Definition close_all_connections (code : Z) (reason : str) : M unit := close_each code reason Preempt.

(** [connections.drain()] with a preemptive close of each. *)
Definition drain_connections (code : Z) (reason : str) : M unit :=
  conns ← get connections;
  keys ← keys_of conns;
  _ ← modify (set_connections ∅);
  for_each (fun conn_id => match conns !! conn_id with Some c => enqueue_close (events c) code reason | None => mret tt end) keys.

Definition deliver_document_message (conn_id : uuid) (rk : str) (m : DocumentMessage) : M unit :=
  let f := FDocument rk None m in
  match encode f with
  | Ok bytes => _ ← deliver_outbound conn_id bytes f Data; flush_pending_awareness
  | Err _ => mret tt
  end.

Definition send_sync_status (conn_id : uuid) (rk : str) (applied : bool) : M unit :=
  deliver_document_message conn_id rk (DSyncStatus applied).

Definition send_stateless (conn_id : uuid) (payload : str) : M unit :=
  c ← get (fun a => connections a !! conn_id);
  match c with Some c => deliver_document_message conn_id (routing_key c) (DStateless payload) | None => mret tt end.

Definition broadcast_update (y : list byte) : M unit :=
  _ ← to_all (fun rk => FDocument rk None (DSync {| step := Update; y_protocol := y |}));
  flush_pending_awareness.

(** A change of one connection, if it is there. *)
Definition on_connection (conn_id : uuid) (f : ConnectionState -> ConnectionState) : M unit :=
  modify (fun a => match connections a !! conn_id with
                   | Some c => set_connections (<[conn_id := f c]> (connections a)) a
                   | None => a
                   end).

(** ** The guard ([guard.rs]) *)

Definition release (g : BackendRoomGuard) : M (result SqlxError unit) :=
  match g with
  | GPostgres =>
    r ← ask (QRelease None);
    mret (match r with Ok true => Ok tt | Ok false => Err (Sqlx false) | Err e => Err e end)
  | GFamily original current owner =>
    r ← ask (QRelease (Some current));
    match r with
    | Err e => mret (Err e)
    | Ok true => mret (Ok tt)
    | Ok false =>
      let activated := with_owner original owner in
      if bool_decide (activated = current) then mret (Ok tt)
      else r ← ask (QRelease (Some activated)); mret (match r with Ok _ => Ok tt | Err e => Err e end)
    end
  end.

Definition release_bounded (g : BackendRoomGuard) : M (result SqlxError unit) :=
  late ← ask QTimeout;
  if late : bool then mret (Err (Sqlx false)) else release g.

(** [renew]; the new guard is kept by the caller. *)
Definition renew (g : BackendRoomGuard) : M (result SqlxError bool * BackendRoomGuard) :=
  match g with
  | GPostgres => mret (Ok true, g)
  | GFamily original current owner =>
    r ← ask (QRenew current);
    match r with
    | Err e => mret (Err e, g)
    | Ok true => mret (Ok true, g)
    | Ok false =>
      let activated := with_owner original owner in
      if bool_decide (activated = current) then mret (Ok false, g)
      else
      r ← ask (QRenew activated);
      mret (match r with
            | Err e => (Err e, g)
            | Ok true => (Ok true, GFamily original activated owner)
            | Ok false => (Ok false, g)
            end)
    end
  end.

Definition guard_claim_writer (g : BackendRoomGuard) (w : who) : M (db ClaimWriterResult) :=
  match g with
  | GPostgres => ask (QClaim w)
  | GFamily original current owner =>
    ids ← get (fun a => (kind a, workspace_id a, document_id a));
    let '(k, ws, doc) := ids in
    if negb (fence_matches original k ws doc) then mret (Ok (Err DStaleWriter))
    else
    r ← ask (QActivate w original owner);
    match r with
    | Ok (Ok (f, c)) => _ ← modify (set_room_guard (Some (GFamily original f owner))); mret (Ok (Ok c))
    | Ok (Err e) => mret (Ok (Err e))
    | Err e => mret (Err e)
    end
  end.

Definition guard_append (g : BackendRoomGuard) (i : AppendCollabInput) : M (db AppendCollabResult) :=
  match g with
  | GPostgres => ask (QAppend None i)
  | GFamily original current owner =>
    ids ← get (fun a => (kind a, workspace_id a, document_id a));
    let '(k, ws, doc) := ids in
    if negb (fence_matches current k ws doc) then mret (Ok (Err DStaleWriter)) else ask (QAppend (Some current) i)
  end.

Definition guard_restore (g : BackendRoomGuard) (i : AppendCollabInput) (r : RestoreRevisionAppend) : M (db (AppendCollabResult * uuid)) :=
  ask (QRestore (family_fence g) i r).

Definition room_fence (a : RoomActor) : option Fence := g ← room_guard a; family_fence g.
Definition room_delivery_fence (a : RoomActor) : option (Fence * uuid) := g ← room_guard a; delivery_fence g.

(** ** Terminal failures *)

Definition is_remote_task_room (a : RoomActor) : bool := bool_decide (kind a = Task) && bool_decide (backend a = LibsqlRemote).

Definition fence_gone (a : RoomActor) : RoomActor :=
  set_session_revision None (set_primary_dirty true (set_primary_loaded false (set_writer_generation None (set_fence_lost true a)))).

Definition fatal_remote_write_unconfirmed : M unit :=
  _ ← modify (fun a => set_guard_cleanup_failed true (fence_gone a));
  _ ← drain_connections 1013 (bs "try again later");
  _ ← modify (set_pending_awareness []);
  _ ← publish_live_conns;
  modify (set_room_guard None).

Definition fatal_fence_lost : M unit :=
  _ ← modify fence_gone;
  _ ← drain_connections 1013 (bs "try again later");
  _ ← modify (set_pending_awareness []);
  _ ← publish_live_conns;
  g ← get room_guard;
  _ ← modify (set_room_guard None);
  match g with
  | None => mret tt
  | Some g =>
    r ← release_bounded g;
    match r with Ok _ => mret tt | Err _ => modify (set_guard_cleanup_failed true) end
  end.

(** ** The primary engine *)

(** [EngineBridge::call]; [None] is a dead bridge. *)
Definition engine_call (r : Request) : M (option EngineStatus) :=
  alive ← ask QBridge;
  if negb alive then mret None
  else
  b ← get engine;
  if child b
  then s ← ask (QCall r); _ ← modify (fun a => set_engine (Bridge true (wrap 32 (ops_used (engine a) + 1))) a); mret (Some s)
  else mret (Some EWorkerFailure).

(** [EngineBridge::recycle]. *)
Definition recycle : M (result RecycleError unit) :=
  alive ← ask QBridge;
  if negb alive then mret (Err RDead)
  else
  _ ← modify (fun a => set_engine (Bridge false (ops_used (engine a))) a);
  s ← ask QSpawn;
  match s with
  | Ok _ => _ ← modify (set_engine (Bridge true 0)); mret (Ok tt)
  | Err cap => mret (Err (RSpawn cap))
  end.

Definition needs_recycle (a : RoomActor) : bool :=
  let max := engine_max_ops (config a) in (0 <? max) && (max - 1 <=? ops_used (engine a)).

Definition load_engine_primary : M (result JoinError unit) :=
  c ← get committed;
  r ← engine_call (RLoad (snapshot c) (tail_payloads c));
  mret (match r with Some s => if is_applied_ok s then Ok tt else Err EngineUnavailable | None => Err EngineUnavailable end).

Definition primary_failed (a : RoomActor) : RoomActor := set_primary_dirty true (set_primary_loaded false a).

Definition reload_primary_from_committed : M (result JoinError unit) :=
  r ← recycle;
  match r with
  | Err e =>
    _ ← modify primary_failed;
    mret (Err (match e with RSpawn true => CapacityRetry | _ => EngineUnavailable end))
  | Ok _ =>
    r ← load_engine_primary;
    match r with
    | Ok _ => _ ← modify (fun a => set_admission_reservation false (set_primary_dirty false (set_primary_loaded true a))); mret (Ok tt)
    | Err e => _ ← modify primary_failed; mret (Err e)
    end
  end.

Definition reload_primary_or_close_room : M bool :=
  stuck ← get (fun a => is_remote_task_room a && guard_cleanup_failed a);
  if stuck : bool then mret false
  else
  r ← reload_primary_from_committed;
  match r with Ok _ => mret true | Err _ => _ ← fatal_fence_lost; mret false end.

Definition recover_primary_after_engine_fault : M bool :=
  _ ← modify primary_failed;
  r ← reload_primary_from_committed;
  loaded ← get primary_loaded;
  mret (is_ok r && loaded).

Definition ensure_primary_capacity : M (result JoinError unit) :=
  reload ← get (fun a => negb (primary_loaded a) || primary_dirty a || needs_recycle a);
  if reload : bool then reload_primary_from_committed else mret (Ok tt).

Definition apply_primary (payload : list byte) : M bool :=
  r ← engine_call (RApply payload);
  mret (match r with Some s => is_applied_ok s | None => false end).

Definition integrate_committed_update (payload : list byte) (admission_applied : bool) : M (result JoinError unit) :=
  full ← get needs_recycle;
  if full : bool then reload_primary_from_committed
  else if admission_applied then _ ← modify (fun a => set_primary_loaded true (set_primary_dirty false a)); mret (Ok tt)
  else
  _ ← modify (set_primary_dirty true);
  ok ← apply_primary payload;
  if ok : bool then _ ← modify (set_primary_dirty false); mret (Ok tt) else reload_primary_from_committed.

Definition validate_candidate_on_primary (payload : list byte) : M BundleValidation :=
  if bool_decide (payload = []) then mret VRejected
  else
  bin ← ask QEngineBin;
  if negb bin then mret VEngineUnavailable
  else
  r ← engine_call (RApply payload);
  match r with
  | None => _ ← reload_primary_or_close_room; mret VEngineUnavailable
  | Some s =>
    outcome ← match classify_admission_load s with
              | Ok _ => _ ← modify (set_primary_dirty true); mret VOk
              | Err v => mret v
              end;
    if bool_decide (outcome = VOk) then mret VOk
    else ok ← reload_primary_or_close_room; mret (if ok : bool then outcome else VEngineUnavailable)
  end.

(** ** The committed state *)

Definition load_bundle (l : CollabLoadState) : CommittedBundle :=
  Bundle (l_snapshot l) (row_payload <$> l_tail l) (l_tail_seq l) (l_snapshot_cutoff_seq l).

Definition adopt (b : CommittedBundle) : M unit :=
  _ ← modify (fun a => set_committed_loaded true (set_committed b a)); log (Adopted b).

Definition set_committed_from_load (l : CollabLoadState) : M unit :=
  _ ← modify (set_committed_writer_generation (l_writer_generation l)); adopt (load_bundle l).

(** A committed update joins the tail. *)
Definition extend_committed (seq : Z) (payload : list byte) : M unit :=
  _ ← modify (fun a =>
    let c := committed a in
    let t := if tail_seq c <? seq then tail_payloads c ++ [payload] else tail_payloads c in
    set_fifo_seq (fifo_seq a + 1) (set_committed (Bundle (snapshot c) t seq (snapshot_cutoff_seq c)) a));
  log (Extended seq payload).

Definition load_readonly (w : who) : M (db CollabLoadState) :=
  f ← get room_fence; ask (QLoad w f).

(** ** Failures that keep or close the room *)

Definition fatal_writer_stale (order : CloseOrder) : M unit :=
  b ← get backend;
  if negb (bool_decide (b = Postgres)) then fatal_fence_lost
  else
  _ ← modify (fun a => set_committed_loaded false (set_writer_generation None a));
  close_each 1008 (bs "writer stale") order.

Definition adopt_current (w : who) : M unit :=
  l ← load_readonly w;
  match l with
  | Ok (Ok l) => _ ← set_committed_from_load l; _ ← reload_primary_from_committed; mret tt
  | _ => mret tt
  end.

Definition fatal_room_divergence (w : who) : M unit :=
  b ← get backend;
  if negb (bool_decide (b = Postgres)) then fatal_fence_lost
  else
  _ ← adopt_current w;
  _ ← modify (set_writer_generation None);
  close_all_connections 1011 (bs "room state diverged").

Definition fatal_primary_unhealthy (w : who) : M unit :=
  _ ← adopt_current w;
  close_each 1011 (bs "primary engine unhealthy") AfterQueued.

(** ** Rejected updates *)

Definition budget_of (u : uuid) (a : RoomActor) : UserRejectBudget := default (RejBud [] None) (user_reject_budgets a !! u).

Definition recent (now : Z) (l : list Z) : list Z := filter (fun t => now - t < REJECTED_CANDIDATE_WINDOW) l.

(** The verdict and the budget afterwards. *)
Definition reject_blocked (now : Z) (b : UserRejectBudget) : bool * UserRejectBudget :=
  match cooldown_until b with
  | Some until => if now <? until then (true, b) else (false, RejBud (recent now []) None)
  | None => (false, RejBud (recent now (rejects b)) None)
  end.

Definition reject_record (now : Z) (b : UserRejectBudget) : UserRejectBudget :=
  let l := recent now (rejects b) ++ [now] in
  if MAX_REJECTED_CANDIDATES_PER_USER <=? len l then RejBud [] (Some (now + USER_REJECT_COOLDOWN)) else RejBud l (cooldown_until b).

Definition set_user_budget (u : uuid) (b : UserRejectBudget) (a : RoomActor) : RoomActor :=
  set_user_reject_budgets (<[u := b]> (user_reject_budgets a)) a.

Definition user_write_reject_blocked (u : uuid) : M bool :=
  now ← ask QNow;
  b ← get (budget_of u);
  let '(blocked, b) := reject_blocked now b in
  _ ← modify (set_user_budget u b);
  mret blocked.

Definition record_user_rejected_candidate (u : uuid) : M unit :=
  now ← ask QNow;
  modify (fun a => set_user_budget u (reject_record now (budget_of u a)) a).

Definition is_definite_append_rejection (e : CollabDbError) : bool :=
  match e with
  | DForbidden | DNotFound | DOpIdConflict | DPayloadTooLarge | DStateBudgetExceeded | DInvalidCutoff => true
  | DStaleWriter | DStaleCutoff => false
  end.

(** A dirty primary is reloaded; [false] ends the function. *)
Definition settle_primary : M bool :=
  dirty ← get primary_dirty;
  if dirty : bool then reload_primary_or_close_room else mret true.

Definition reject_candidate_engine_unavailable (conn_id : uuid) : M unit :=
  ok ← settle_primary;
  if negb ok then mret tt
  else
  _ ← on_connection conn_id (set_in_flight false);
  close_connection conn_id 1011 (bs "engine unavailable").

Definition reject_candidate (conn_id : uuid) (rk : str) : M unit :=
  u ← get (fun a => (fun c => user_id (session c)) <$> connections a !! conn_id);
  _ ← match u with Some u => record_user_rejected_candidate u | None => mret tt end;
  ok ← settle_primary;
  if negb ok then mret tt
  else
  _ ← on_connection conn_id (fun c => set_poisoned true (set_in_flight false c));
  _ ← send_sync_status conn_id rk false;
  close_connection_ordered conn_id 1008 (bs "update rejected").

(** ** Authority *)

Definition locking_session_auth_by_ids (w : who) (ro : bool) : M LockingAuth :=
  r ← ask (QAdmission w);
  mret (match r with
        | Ok (Ok admission_ro) => if ro || negb admission_ro then LAllow else LDeny
        | Ok (Err _) => LDeny
        | Err _ => LDbError
        end).

Definition locking_write_still_allowed (w : who) (ro : bool) : M bool :=
  r ← locking_session_auth_by_ids w ro; mret (match r with LAllow => true | _ => false end).

(** [check_delivery_admission_kind_backend]: what is left of the authority. *)
Inductive still := Still | Revoked | Unknown.

Definition delivery_admission (w : who) (ro : bool) : M still :=
  f ← get room_delivery_fence;
  r ← ask (QDelivery w f);
  mret (match r with
        | Ok (Allowed admission_ro) => if ro || negb admission_ro then Still else Revoked
        | Ok Denied => Revoked
        | Err _ => Unknown
        end).

Definition poll_one (s : uuid * (who * bool)) : M (list uuid) :=
  let '(conn_id, (w, ro)) := s in
  r ← delivery_admission w ro;
  mret (match r with Revoked => [conn_id] | Still | Unknown => [] end).

Fixpoint poll_each (l : list (uuid * (who * bool))) : M (list uuid) :=
  match l with [] => mret [] | s :: l => c ← poll_one s; cs ← poll_each l; mret (c ++ cs) end.

Definition poll_acl : M unit :=
  conns ← get connections;
  keys ← keys_of conns;
  let snapshots := omap (fun k => (fun c => (k, (session_who (session c), read_only c))) <$> conns !! k) keys in
  to_close ← poll_each snapshots;
  for_each (fun conn_id => close_connection conn_id 1008 (bs "permission revoked")) to_close.

(** [claim_writer]. *)
Definition claim_writer (w : who) : M (db ClaimWriterResult) :=
  g ← get room_guard;
  match g with
  | None => mret (Ok (Err DStaleWriter))
  | Some g =>
    r ← guard_claim_writer g w;
    remote ← get is_remote_task_room;
    match r with
    | Err e => if remote : bool then _ ← fatal_remote_write_unconfirmed; mret (Err (Sqlx false)) else mret (Err e)
    | r => mret r
    end
  end.

Definition native_consumer_proof (a : RoomActor) : option ConsumerProof :=
  f ← room_fence a; Some (Proof_ f (committed_writer_generation a) (tail_seq (committed a))).

(** [check_cached_native_consumer]. *)
Definition check_cached_native_consumer (w : who) : M (result unit (option ConsumerProof)) :=
  proof ← get native_consumer_proof;
  r ← ask (QNative w proof);
  remote ← get is_remote_task_room;
  match r with
  | Ok (Ok _) => mret (Ok proof)
  | Err _ => _ ← (if remote : bool then fatal_remote_write_unconfirmed else fatal_fence_lost); mret (Err tt)
  | Ok (Err _) => _ ← fatal_fence_lost; mret (Err tt)
  end.

(** ** Client identifiers *)

Definition reserve_client_id (cid : Z) (u : uuid) : M bool :=
  now ← ask QNow;
  a ← get id;
  let live := (fun kv : uuid * ConnectionState => conn_client_id kv.2) <$> map_to_list (connections a) in
  let owners := filter (fun kv : Z * (uuid * Z) => kv.1 ∈ live \/ now - kv.2.2 < client_id_ttl_ms (config a)) (client_id_owner a) in
  _ ← modify (set_client_id_owner owners);
  if existsb (fun kv => bool_decide (conn_client_id kv.2 = cid) && negb (bool_decide (user_id (session kv.2) = u))) (map_to_list (connections a))
  then mret false
  else if match owners !! cid with Some (owner, _) => negb (bool_decide (owner = u)) | None => false end then mret false
  else _ ← modify (set_client_id_owner (<[cid := (u, now)]> owners)); mret true.

End room.
