(* ===== verification/RoomSync.v ===== *)
(** * The room actor: joins and frames ([src/collab/room.rs])

    Joining, the frames of a connection, updates with their commit, the
    projected body, manual persistence and compaction. *)

From stdpp Require Import base list numbers strings gmap.
From Stdlib Require Import ZArith Lia.
From S2P Require Import Prelude Text Uuid Json Wire YSync Awareness Hub RoomTypes Room.

Inductive ProjectDerivedOutcome :=
| Projected | Unchanged | SkippedSeed | DeterministicSkip | PrimaryNotReady | StaleCutoffOutcome | PermissionDenied
| StaleWriterOutcome | EngineFailed | DbFailed.

#[export] Instance ProjectDerivedOutcome_eq_dec : EqDecision ProjectDerivedOutcome.
Proof. solve_decision. Defined.

Definition is_deterministic_project_limit (k : LimitKind) : bool := bool_decide (k = LOutput).

Definition manual_persist_derived_ok (o : ProjectDerivedOutcome) : bool :=
  match o with Projected | Unchanged | SkippedSeed | DeterministicSkip => true | _ => false end.
Definition manual_persist_projection_failed (o : ProjectDerivedOutcome) : bool := negb (manual_persist_derived_ok o).

Section room.
Context {UL : UuidLib} {UN : UuidNil} {RL : RoomLib} {J : SerdeJson}.

(** ** The projected body *)

Definition project_write (w : who) (g seq : Z) (prepared : prepared_body) (preemptive : bool) : M ProjectDerivedOutcome :=
  f ← get room_fence;
  r ← ask (QProject w g seq prepared f);
  match r with
  | Ok (Ok PUpdated) => mret Projected
  | Ok (Ok PUnchanged) => mret Unchanged
  | Ok (Ok PSkippedSeed) => mret SkippedSeed
  | Ok (Err DStaleWriter) => _ ← (if preemptive then fatal_writer_stale Preempt else mret tt); mret StaleWriterOutcome
  | Ok (Err DStaleCutoff) => mret StaleCutoffOutcome
  | Ok (Err (DForbidden | DNotFound)) => mret PermissionDenied
  | Ok (Err _) => mret DbFailed
  | Err _ =>
    remote ← get is_remote_task_room;
    _ ← (if remote : bool then fatal_remote_write_unconfirmed else mret tt);
    mret DbFailed
  end.

Definition maybe_project_derived_body (seq : Z) (w : who) (preemptive_stale_close : bool) : M ProjectDerivedOutcome :=
  if seq <? 1 then mret SkippedSeed
  else
  g ← get writer_generation;
  match g with
  | None => mret EngineFailed
  | Some g =>
    ready ← get (fun a => primary_loaded a && negb (primary_dirty a));
    if negb ready then mret PrimaryNotReady
    else
    r ← ensure_primary_capacity;
    if negb (is_ok r) then mret EngineFailed
    else
    r ← engine_call RProject;
    match r with
    | Some (EOk _ _ _ (Some json)) =>
      match prepare_derived_body json with
      | Some prepared => project_write w g seq prepared preemptive_stale_close
      | None => mret DeterministicSkip
      end
    | Some (EResourceLimit k) =>
      _ ← recover_primary_after_engine_fault;
      mret (if is_deterministic_project_limit k then DeterministicSkip else EngineFailed)
    | _ => _ ← recover_primary_after_engine_fault; mret EngineFailed
    end
  end.

(** ** Joining *)

(** The writer is claimed, or a reader loads the state, when the room has no
    writer yet. *)
Definition join_load (w : who) (ro : bool) : M (result JoinError unit) :=
  g ← get writer_generation;
  match g with
  | Some _ => mret (Ok tt)
  | None =>
    if negb ro then
      r ← claim_writer w;
      match r with
      | Err _ => mret (Err DbError)
      | Ok (Err DStaleWriter) => mret (Err WriterStale)
      | Ok (Err _) => mret (Err AdmissionDenied)
      | Ok (Ok claim) =>
        _ ← set_committed_from_load (cl_load claim);
        r ← reload_primary_from_committed;
        match r with
        | Err e => _ ← close_all_connections 1011 (bs "engine reload failed"); mret (Err e)
        | Ok _ => _ ← modify (set_writer_generation (Some (cl_writer_generation claim))); mret (Ok tt)
        end
      end
    else
      r ← load_readonly w;
      match r with
      | Err _ =>
        remote ← get is_remote_task_room;
        _ ← (if remote : bool then fatal_remote_write_unconfirmed else mret tt);
        mret (Err DbError)
      | Ok (Err _) => mret (Err AdmissionDenied)
      | Ok (Ok l) =>
        _ ← set_committed_from_load l;
        r ← reload_primary_from_committed;
        match r with
        | Err e => _ ← close_all_connections 1011 (bs "engine reload failed"); mret (Err e)
        | Ok _ => mret (Ok tt)
        end
      end
  end.

(** The body is brought up to the committed tail for a writer. *)
Definition join_catch_up (w : who) (ro : bool) : M (result JoinError unit) :=
  a ← get id;
  if negb ro && bool_decide (is_Some (writer_generation a)) && (1 <=? tail_seq (committed a)) then
    o ← maybe_project_derived_body (tail_seq (committed a)) w true;
    mret (if bool_decide (o = StaleWriterOutcome) then Err WriterStale else Ok tt)
  else mret (Ok tt).

(** A budget for a new connection. *)
Definition new_budget : M nat := fun _ w =>
  let c := config (self w) in
  let b := fresh (dom (budgets w)) in
  (b, MkWorld (self w) (chans w)
        (<[b := Bud (max_outbound_frames_per_connection c) 0 (max_outbound_bytes_per_connection c)]> (budgets w)) (trace w) (tick w)).

(** The connection is entered and told who is there; the result is its
    generation. *)
Definition join_insert (j : RoomJoin) (ro : bool) : M Z :=
  r ← get awareness;
  let '(g, r) := connection_generation r in
  _ ← modify (set_awareness (claim_connection_client (j_client_id j) g r));
  b ← new_budget;
  _ ← modify (fun a => set_connections
        (<[j_conn_id j := ConnSt (j_session j) (j_client_id j) ro (j_routing_key j) (j_events j) b g 0 false [] false]> (connections a)) a);
  _ ← publish_live_conns;
  r ← get awareness;
  let encoded := encode_all r in
  _ ← (if bool_decide (encoded = []) then mret tt
       else
       let f := awareness_frame (j_routing_key j) encoded in
       match encode f with Ok bytes => deliver_outbound (j_conn_id j) bytes f Data | Err _ => mret tt end);
  _ ← flush_pending_awareness;
  mret g.

Definition handle_join (j : RoomJoin) : M (result JoinError Z) :=
  a ← get id;
  if fence_lost a then mret (Err EngineUnavailable)
  else if (max_connections_per_room (config a) <=? size (connections a))%nat then mret (Err RoomFull)
  else
  let w := session_who (j_session j) in
  r ← ask (QAdmission w);
  match r with
  | Err _ => mret (Err DbError)
  | Ok (Err _) => mret (Err AdmissionDenied)
  | Ok (Ok admission_ro) =>
    let ro := j_read_only j || admission_ro in
    _ ←? join_load w ro;
    _ ←? ensure_primary_capacity;
    _ ←? join_catch_up w ro;
    loaded ← get primary_loaded;
    if negb loaded then mret (Err EngineUnavailable)
    else
    reserved ← reserve_client_id (j_client_id j) (user_id (j_session j));
    if negb reserved then mret (Err AdmissionDenied)
    else g ← join_insert j ro; mret (Ok g)
  end.

Definition handle_leave (conn_id : uuid) : M unit :=
  there ← get (fun a => bool_decide (is_Some (connections a !! conn_id)));
  if negb there then mret tt else close_connection conn_id 1000 (bs "client leave").

(** ** Persistence and compaction *)

Definition persist_failed (id : uuid) : str := bs "persist-failed:" ++ hyphenated id.
Definition persisted (id : uuid) : str := bs "persisted:" ++ hyphenated id.

Definition compact_failed : M unit :=
  modify (fun a => set_compact_retry_at_tail_len (Some (len (tail_payloads (committed a)))) (set_compact_unhealthy true a)).

(** The compaction of a validated snapshot. *)
Definition persist_compact (w : who) (id : uuid) (snap : list byte) : M str :=
  a ← get RoomTypes.writer_generation;
  match a with
  | None => mret (persist_failed id)
  | Some g =>
    cutoff ← get (fun a => tail_seq (committed a));
    f ← get room_fence;
    r ← ask (QCompact w g cutoff snap f);
    match r with
    | Ok (Ok l) =>
      _ ← modify (fun a => set_compact_retry_at_tail_len None (set_compact_unhealthy false a));
      _ ← set_committed_from_load l;
      full ← get needs_recycle;
      ok ← (if full : bool then r ← reload_primary_from_committed; mret (is_ok r) else mret true);
      if negb ok then _ ← compact_failed; mret (persist_failed id)
      else
      o ← maybe_project_derived_body (l_tail_seq l) w true;
      if manual_persist_projection_failed o then _ ← compact_failed; mret (persist_failed id) else mret (persisted id)
    | Ok (Err (DStaleCutoff | DStaleWriter)) => _ ← fatal_room_divergence w; mret (persist_failed id)
    | Ok (Err _) => _ ← compact_failed; mret (persist_failed id)
    | Err _ =>
      remote ← get is_remote_task_room;
      _ ← (if remote : bool then fatal_remote_write_unconfirmed else compact_failed);
      mret (persist_failed id)
    end
  end.

Definition run_persist_steps (conn_id : uuid) (id : uuid) : M str :=
  c ← get (fun a => connections a !! conn_id);
  match c with
  | None => mret (persist_failed id)
  | Some c =>
    if poisoned c || in_flight c then mret (persist_failed id)
    else
    let w := session_who (session c) in
    ok ← locking_write_still_allowed w (read_only c);
    if negb ok then mret (persist_failed id)
    else if read_only c then mret (persisted id)
    else
    r ← ensure_primary_capacity;
    loaded ← get primary_loaded;
    if negb (is_ok r) || negb loaded then _ ← compact_failed; mret (persist_failed id)
    else
    r ← engine_call RSnapshot;
    match r with
    | Some (EOk _ (Some b64) _ _) =>
      match b64_decode b64 with
      | None => _ ← compact_failed; mret (persist_failed id)
      | Some snap =>
        valid ← ask (QSnapshotOnly snap);
        if negb valid then _ ← compact_failed; mret (persist_failed id)
        else persist_compact w id snap
      end
    | _ => _ ← compact_failed; mret (persist_failed id)
    end
  end.

Definition flush_connection_persist (conn_id : uuid) (current_fifo : Z) : M unit :=
  c ← get (fun a => connections a !! conn_id);
  match c with
  | None => mret tt
  | Some c =>
    let ready := request_id <$> filter (fun b => prefix_fifo b <= current_fifo) (pending_persist c) in
    for_each (fun id =>
      _ ← on_connection conn_id (fun c => set_pending_persist (filter (fun b => request_id b <> id) (pending_persist c)) c);
      result ← run_persist_steps conn_id id;
      send_stateless conn_id result) ready
  end.

Definition handle_stateless (conn_id : uuid) (payload : str) : M unit :=
  match strip_prefix (bs "persist:") payload with
  | None => mret tt
  | Some id =>
    match try_parse id with
    | None => mret tt
    | Some id =>
      prefix ← get fifo_seq;
      _ ← on_connection conn_id (fun c => set_pending_persist (pending_persist c ++ [Barrier id prefix]) c);
      flush_connection_persist conn_id prefix
    end
  end.

Definition find_key (m : gmap uuid ConnectionState) (keys : list uuid) (f : ConnectionState -> bool) : option uuid :=
  head (filter (fun k => match m !! k with Some c => f c | None => false end = true) keys).

Definition maybe_compact : M unit :=
  a ← get id;
  if existsb (fun kv => negb (bool_decide (pending_persist kv.2 = []))) (map_to_list (connections a)) then mret tt
  else
  let n := len (tail_payloads (committed a)) in
  let due :=
    if compact_unhealthy a then match compact_retry_at_tail_len a with Some at_ => sat_add_u64 at_ 8 <=? n | None => false end
    else 32 <=? n in
  if negb due then mret tt
  else
  keys ← keys_of (connections a);
  let writer f := find_key (connections a) keys (fun c => negb (read_only c) && f c) in
  let conn_id := match writer (fun c => negb (bool_decide (pending_persist c = []))) with
                 | Some k => Some k
                 | None => writer (fun _ => true)
                 end in
  match conn_id with
  | None => mret tt
  | Some conn_id => id ← ask QUuid; _ ← run_persist_steps conn_id id; mret tt
  end.

(** ** Updates *)

Definition reconcile_ambiguous_append (w : who) (op_id : uuid) (expected_tail : Z) (payload : list byte) : M (option AppendCollabResult) :=
  proof ← get native_consumer_proof;
  r ← ask (QVerify w op_id (len payload) (sha256 payload) proof);
  remote ← get is_remote_task_room;
  match r with
  | Ok (Ok seq) => mret (Some (DuplicateAck seq))
  | Ok (Err DNotFound) =>
    l ← load_readonly w;
    match l with
    | Ok (Ok l) =>
      if existsb (fun r => bool_decide (row_op_id r = op_id)) (l_tail l) || (expected_tail <? l_tail_seq l)
      then _ ← fatal_room_divergence w; mret None
      else mret None
    | Ok (Err _) => _ ← fatal_room_divergence w; mret None
    | Err _ => _ ← (if remote : bool then fatal_remote_write_unconfirmed else fatal_room_divergence w); mret None
    end
  | Ok (Err _) => _ ← fatal_room_divergence w; mret None
  | Err _ => _ ← (if remote : bool then fatal_remote_write_unconfirmed else fatal_room_divergence w); mret None
  end.

(** The update is committed: it joins the tail, the primary, the other
    connections and the body. *)
Definition finish_update (conn_id : uuid) (rk : str) (y payload : list byte) (w : who) (seq : Z) : M unit :=
  _ ← extend_committed seq payload;
  op_prefix ← get fifo_seq;
  r ← integrate_committed_update payload true;
  if negb (is_ok r) then
    _ ← send_sync_status conn_id rk true;
    _ ← on_connection conn_id (set_in_flight false);
    fatal_primary_unhealthy w
  else
  _ ← broadcast_update y;
  _ ← on_connection conn_id (set_in_flight false);
  _ ← send_sync_status conn_id rk true;
  o ← maybe_project_derived_body seq w false;
  loaded ← get primary_loaded;
  if bool_decide (o = StaleWriterOutcome) then fatal_writer_stale AfterQueued
  else if negb loaded then fatal_primary_unhealthy w
  else
  _ ← flush_connection_persist conn_id op_prefix;
  maybe_compact.

(** After a refused or failed append: reload, or end with the room. *)
Definition reload_and_reject (conn_id : uuid) (rk : str) : M unit :=
  ok ← reload_primary_or_close_room;
  if negb ok then mret tt else reject_candidate conn_id rk.

(** What follows an append: the update is finished, unless it was refused or is
    not the next one. *)
Definition settle_append (conn_id : uuid) (rk : str) (y payload : list byte) (w : who) (expected_tail : Z)
    (committed : option AppendCollabResult) : M unit :=
  match committed with
  | None => reload_and_reject conn_id rk
  | Some c =>
    if negb (result_seq c =? expected_tail + 1) then
      ok ← reload_primary_or_close_room;
      if negb ok then mret tt else _ ← fatal_room_divergence w; reject_candidate conn_id rk
    else finish_update conn_id rk y payload w (result_seq c)
  end.

(** The append of a validated update, and what follows each answer. *)
Definition append_update (conn_id : uuid) (rk : str) (y payload : list byte) (g : Z) : M unit :=
  w ← get (fun a => match connections a !! conn_id with Some c => session_who (session c) | None => (nil_uuid, nil_uuid) end);
  guard ← get room_guard;
  match guard with
  | None => fatal_fence_lost
  | Some guard =>
    op_id ← ask QUuid;
    expected_tail ← get (fun a => tail_seq (committed a));
    r ← guard_append guard (AppendIn w.1 w.2 g expected_tail op_id payload);
    remote ← get is_remote_task_room;
    match r with
    | Err _ => if remote : bool then fatal_remote_write_unconfirmed else fatal_fence_lost
    | Ok (Err DStaleWriter) => _ ← fatal_writer_stale Preempt; reject_candidate conn_id rk
    | Ok append =>
      committed ← match append with
                  | Ok c => mret (Some c)
                  | Err e => if is_definite_append_rejection e then mret None else reconcile_ambiguous_append w op_id expected_tail payload
                  end;
      settle_append conn_id rk y payload w expected_tail committed
    end
  end.

Definition handle_update (conn_id : uuid) (rk : str) (ro : bool) (y payload : list byte) : M unit :=
  if bool_decide (payload = []) then
    ok ← settle_primary;
    if negb ok then mret tt
    else
    _ ← on_connection conn_id (fun c => set_poisoned true (set_in_flight false c));
    send_sync_status conn_id rk false
  else if ro && negb (is_empty_update payload) then
    _ ← on_connection conn_id (set_poisoned true);
    send_sync_status conn_id rk false
  else if is_empty_update payload then send_sync_status conn_id rk true
  else
  c ← get (fun a => connections a !! conn_id);
  if match c with Some c => poisoned c || in_flight c | None => true end then send_sync_status conn_id rk false
  else
  blocked ← match c with Some c => user_write_reject_blocked (user_id (session c)) | None => mret false end;
  if blocked : bool then close_connection_ordered conn_id 1008 (bs "update rejected")
  else
  _ ← on_connection conn_id (set_in_flight true);
  r ← ensure_primary_capacity;
  if negb (is_ok r) then
    _ ← on_connection conn_id (set_in_flight false);
    close_connection conn_id 1011 (bs "engine unavailable")
  else
  g ← get writer_generation;
  match g with
  | None => reject_candidate conn_id rk
  | Some g =>
    v ← validate_candidate_on_primary payload;
    match v with
    | VEngineUnavailable => reject_candidate_engine_unavailable conn_id
    | VRejected | VCapacityPressure => reject_candidate conn_id rk
    | VOk => append_update conn_id rk y payload g
    end
  end.

(** ** Sync requests *)

Definition sync_failed (conn_id : uuid) (code : Z) (reason : str) : M unit :=
  _ ← recover_primary_after_engine_fault; close_connection conn_id code reason.

Definition b64_or_empty (s : str) : list byte := default [] (b64_decode s).

Definition handle_step1 (conn_id : uuid) (rk : str) (state_vector : list byte) : M unit :=
  r ← ensure_primary_capacity;
  if negb (is_ok r) then close_connection conn_id 1011 (bs "engine unavailable")
  else
  r ← engine_call (RSync state_vector);
  match r with
  | Some (EOk _ update _ _) =>
    _ ← match update with
        | Some u => deliver_document_message conn_id rk (DSync {| step := Step2; y_protocol := encode_sync_payload Step2 (b64_or_empty u) |})
        | None => mret tt
        end;
    r ← engine_call RInspect;
    match r with
    | Some (EOk _ _ sv _) =>
      match sv with
      | Some sv => deliver_document_message conn_id rk (DSync {| step := Step1; y_protocol := encode_sync_payload Step1 (b64_or_empty sv) |})
      | None => mret tt
      end
    | _ => sync_failed conn_id 1011 (bs "sync failed")
    end
  | Some EMalformed => sync_failed conn_id 1008 (bs "invalid state vector")
  | _ => sync_failed conn_id 1011 (bs "sync failed")
  end.

Definition handle_sync (conn_id : uuid) (rk : str) (ro : bool) (m : SyncMessage) : M unit :=
  match parse_sync_payload (y_protocol m) (max_binary_payload_bytes DEFAULT) with
  | Err _ => mret tt
  | Ok (Step1, payload) => handle_step1 conn_id rk payload
  | Ok (_, payload) => handle_update conn_id rk ro (y_protocol m) payload
  end.

(** ** Frames *)

Definition handle_awareness (cid : Z) (s : CollabSession) (g : Z) (payload : list byte) : M unit :=
  let updates := match decode_awareness payload with Ok us => us | Err _ => [] end in
  let display := display_name (given_name s) (family_name s) (locale s) in
  let color := user_color (user_id s) in
  r ← get awareness;
  let '(encoded, r) := apply_connection_updates cid updates (hyphenated (user_id s)) display color g r in
  _ ← modify (set_awareness r);
  match encoded with Some encoded => broadcast_awareness encoded | None => mret tt end.

Definition handle_auth (conn_id : uuid) (rk : str) (ro : bool) (m : AuthMessage) : M unit :=
  match m with
  | Token _ _ => deliver_document_message conn_id rk (DAuth (Authenticated (if ro then bs "readonly" else bs "read-write")))
  | _ => mret tt
  end.

(** The admission of a frame: [true] goes on, otherwise the connection was
    closed. *)
Definition still_admitted (conn_id : uuid) (w : who) (ro : bool) : M bool :=
  r ← delivery_admission w ro;
  match r with
  | Still => mret true
  | Revoked => _ ← close_connection conn_id 1008 (bs "permission revoked"); mret false
  | Unknown => _ ← close_connection conn_id 1011 (bs "internal error"); mret false
  end.

Definition handle_document_message (conn_id : uuid) (c : ConnectionState) (m : DocumentMessage) : M unit :=
  let rk := routing_key c in
  let ro := read_only c in
  match m with
  | DAuth auth => handle_auth conn_id rk ro auth
  | DSync sync => handle_sync conn_id rk ro sync
  | DAwareness payload =>
    ok ← still_admitted conn_id (session_who (session c)) ro;
    if ok : bool then handle_awareness (conn_client_id c) (session c) (conn_generation c) payload else mret tt
  | DQueryAwareness =>
    r ← get awareness;
    let encoded := encode_all r in
    if bool_decide (encoded = []) then mret tt else deliver_document_message conn_id rk (DAwareness encoded)
  | DStateless payload => handle_stateless conn_id payload
  | DClose _ => close_connection conn_id 1000 (bs "client close")
  | DSyncStatus _ => mret tt
  end.

Definition handle_connection_ping (conn_id : uuid) : M unit :=
  let pong := FConnection CPong in
  there ← get (fun a => bool_decide (is_Some (connections a !! conn_id)));
  if negb there then mret tt
  else _ ← deliver_outbound conn_id (encode_or_empty pong) pong Control; flush_pending_awareness.

Definition done_bytes (conn_id : uuid) (n : Z) : M unit :=
  on_connection conn_id (fun c => set_pending_bytes (sat_sub_u64 (pending_bytes c) n) c).

Definition handle_frame (conn_id : uuid) (bytes : list byte) : M unit :=
  c ← get (fun a => connections a !! conn_id);
  max ← get (fun a => max_pending_bytes_per_connection (config a));
  match c with
  | None => mret tt
  | Some c =>
    if max <? pending_bytes c + len bytes then close_connection conn_id 1009 (bs "pending bytes exceeded")
    else
    _ ← on_connection conn_id (fun c => set_pending_bytes (pending_bytes c + len bytes) c);
    match decode bytes with
    | Err _ => close_connection conn_id 1003 (bs "invalid frame")
    | Ok (FConnection _) => _ ← handle_connection_ping conn_id; done_bytes conn_id (len bytes)
    | Ok (FDocument key room message) =>
      if negb (bool_decide (key = routing_key c)) then done_bytes conn_id (len bytes)
      else if bool_decide (room = None) then close_connection conn_id 1008 (bs "invalid room")
      else
      ok ← still_admitted conn_id (session_who (session c)) (read_only c);
      if negb ok then mret tt
      else _ ← handle_document_message conn_id c message; done_bytes conn_id (len bytes)
    end
  end.

End room.
