(* ===== verification/RoomLoop.v ===== *)
(** * The room actor: forward writes, revisions and the loop ([src/collab/room.rs])

    Body writes and restores through the actor, captured revisions, the session
    revision when the last connection leaves, the loop over the mailbox with
    its timers, and the teardown. *)

From stdpp Require Import base list numbers strings gmap.
From Stdlib Require Import ZArith Lia.
From S2P Require Import Prelude Text Uuid Json Wire YSync Awareness Hub RoomTypes Room RoomSync.

Definition SYSTEM_REVISION_HEAD_RETRIES : Z := 2.

Inductive RevisionCaptureError := CaptureUnavailable.
Inductive RevisionRestoreError := RestoreRejected | RestoreUnavailable | RestoreConflict.
Inductive ForwardWriteError := FRejected | FUnavailable | FConflict | FEngineLimit | FEngineMalformed | FAppendTooLarge.
Inductive RoomExit := Clean | Panicked.

#[export] Instance ForwardWriteError_eq_dec : EqDecision ForwardWriteError.
Proof. solve_decision. Defined.

Section room.
Context {UL : UuidLib} {UN : UuidNil} {RL : RoomLib} {J : SerdeJson}.

(** ** Forward writes *)

Definition claim_for_write (w : who) : M (result ForwardWriteError unit) :=
  r ← claim_writer w;
  match r with
  | Err _ => mret (Err FUnavailable)
  | Ok (Err (DForbidden | DNotFound)) => mret (Err FRejected)
  | Ok (Err _) => mret (Err FUnavailable)
  | Ok (Ok claim) =>
    _ ← set_committed_from_load (cl_load claim);
    r ← reload_primary_from_committed;
    match r with
    | Err _ => mret (Err FUnavailable)
    | Ok _ => _ ← modify (set_writer_generation (Some (cl_writer_generation claim))); mret (Ok tt)
    end
  end.

Definition prepare_forward_writer (w : who) : M (result ForwardWriteError unit) :=
  g ← get writer_generation;
  _ ←? match g with
       | None => claim_for_write w
       | Some _ => r ← ensure_primary_capacity; mret (match r with Ok _ => Ok tt | Err _ => Err FUnavailable end)
       end;
  auth ← locking_session_auth_by_ids w false;
  match auth with
  | LAllow => r ← check_cached_native_consumer w; mret (match r with Ok _ => Ok tt | Err _ => Err FUnavailable end)
  | LDeny => mret (Err FRejected)
  | LDbError => mret (Err FUnavailable)
  end.

(** The update the engine computes for a request. *)
Definition forward_payload (r : Request) : M (result ForwardWriteError (list byte)) :=
  s ← engine_call r;
  mret (match s with
        | Some (EOk true (Some b64) _ _) => match b64_decode b64 with Some p => Ok p | None => Err FUnavailable end
        | Some (EResourceLimit _) => Err FEngineLimit
        | Some EMalformed => Err FEngineMalformed
        | _ => Err FUnavailable
        end).

(** What a restore commits with the update. *)
Definition forward_capture (restore : option RestoreRevisionInput) (payload : list byte)
  : M (result ForwardWriteError (option RestoreRevisionAppend)) :=
  match restore with
  | None => mret (Ok None)
  | Some intent =>
    c ← get committed;
    r ← ask (QOffline (snapshot c) (tail_payloads c ++ [payload]));
    match r with
    | None => mret (Err FUnavailable)
    | Some captured =>
      match prepare_derived_body (content_json captured) with
      | None => mret (Err FEngineMalformed)
      | Some prepared => id ← ask QUuid; mret (Ok (Some (RestoreAp intent id (y_snapshot captured) prepared)))
      end
    end
  end.

Definition forward_append (i : AppendCollabInput) (capture : option RestoreRevisionAppend)
  : M (db (AppendCollabResult * option uuid)) :=
  g ← get room_guard;
  match g with
  | None => mret (Ok (Err DStaleWriter))
  | Some g =>
    match capture with
    | Some c =>
      r ← guard_restore g i c;
      mret (match r with Ok (Ok (a, id)) => Ok (Ok (a, Some id)) | Ok (Err e) => Ok (Err e) | Err e => Err e end)
    | None =>
      r ← guard_append g i;
      mret (match r with Ok (Ok a) => Ok (Ok (a, None)) | Ok (Err e) => Ok (Err e) | Err e => Err e end)
    end
  end.

(** The answer of the append: the result, the revision, and whether it was our
    own receipt that was found. *)
Definition forward_settle (w : who) (i : AppendCollabInput) (restore : option RestoreRevisionInput)
    (capture : option RestoreRevisionAppend) (r : db (AppendCollabResult * option uuid))
  : M (result ForwardWriteError (AppendCollabResult * option uuid * bool)) :=
  b ← get backend;
  let reconcile :=
    r ← reconcile_ambiguous_append w (a_op_id i) (a_expected_tail_seq i) (a_payload i);
    mret (match r with
          | Some a => Ok (a, ra_revision_id <$> capture, true)
          | None => Err FUnavailable
          end) in
  match r with
  | Ok (Ok (a, id)) => mret (Ok (a, id, false))
  | Ok (Err DStaleWriter) => _ ← fatal_writer_stale Preempt; mret (Err FUnavailable)
  | Ok (Err (DPayloadTooLarge | DStateBudgetExceeded)) => mret (Err FAppendTooLarge)
  | Ok (Err e) =>
    if match e with DOpIdConflict | DStaleCutoff => bool_decide (is_Some restore) | _ => false end then mret (Err FConflict)
    else if is_definite_append_rejection e then mret (Err FRejected)
    else reconcile
  | Err e =>
    if bool_decide (b = LibsqlRemote) && negb (reply_lost_after_finish e)
    then _ ← fatal_remote_write_unconfirmed; mret (Err FUnavailable)
    else reconcile
  end.

(** The committed update joins the room. *)
Definition forward_finish (w : who) (i : AppendCollabInput) (restore : option RestoreRevisionInput)
    (a : AppendCollabResult) (id : option uuid) (own : bool) : M (result ForwardWriteError (option Z * option uuid)) :=
  let payload := a_payload i in
  if negb (result_seq a =? a_expected_tail_seq i + 1) then _ ← fatal_room_divergence w; mret (Err FUnavailable)
  else
  let seq := result_seq a in
  _ ← extend_committed seq payload;
  r ← integrate_committed_update payload false;
  if negb (is_ok r) then _ ← fatal_primary_unhealthy w; mret (Err FUnavailable)
  else
  _ ← broadcast_update (encode_sync_payload Update payload);
  match restore with
  | Some intent =>
    if own then
      r ← ask (QRestored w intent);
      mret (match r with
            | Err _ => Err FUnavailable
            | Ok (Err _) => Err FRejected
            | Ok (Ok recovered) => if bool_decide (recovered = id) then Ok (Some seq, id) else Err FUnavailable
            end)
    else mret (Ok (Some seq, id))
  | None => mret (Ok (Some seq, id))
  end.

(** A replay that was found before our append: its bytes are loaded. *)
Definition forward_replay (w : who) (seq : Z) (id : option uuid) : M (result ForwardWriteError (option Z * option uuid)) :=
  l ← load_readonly w;
  match l with
  | Err _ => mret (Err FUnavailable)
  | Ok (Err _) => mret (Err FRejected)
  | Ok (Ok l) =>
    _ ← set_committed_from_load l;
    r ← reload_primary_from_committed;
    mret (match r with Ok _ => Ok (Some seq, id) | Err _ => Err FUnavailable end)
  end.

Definition apply_forward_write (w : who) (request : Request) (expected_tail_seq : option Z) (restore : option RestoreRevisionInput)
  : M (result ForwardWriteError (option Z * option uuid)) :=
  _ ←? prepare_forward_writer w;
  tail ← get (fun a => tail_seq (committed a));
  if match expected_tail_seq with Some e => negb (e =? tail) | None => false end then mret (Err FConflict)
  else
  payload ←? forward_payload request;
  if is_empty_update payload && bool_decide (restore = None) then
    r ← check_cached_native_consumer w;
    mret (match r with Ok _ => Ok (None, None) | Err _ => Err FUnavailable end)
  else
  c ← get committed;
  v ← ask (QBundle (snapshot c) (tail_payloads c) payload);
  match v with
  | VEngineUnavailable => mret (Err FUnavailable)
  | VRejected | VCapacityPressure => mret (Err FRejected)
  | VOk =>
    g ← get writer_generation;
    match g with
    | None => mret (Err FUnavailable)
    | Some g =>
      op_id ← ask QUuid;
      expected ← get (fun a => tail_seq (committed a));
      capture ←? forward_capture restore payload;
      let i := AppendIn w.1 w.2 g expected op_id payload in
      r ← forward_append i capture;
      s ←? forward_settle w i restore capture r;
      let '(a, id, own) := s in
      match a with
      | DuplicateAck seq => if bool_decide (is_Some restore) && negb own then forward_replay w seq id else forward_finish w i restore a id own
      | Committed _ => forward_finish w i restore a id own
      end
    end
  end.

Definition to_restore_error (e : ForwardWriteError) : RevisionRestoreError :=
  match e with FRejected | FAppendTooLarge => RestoreRejected | FConflict => RestoreConflict | _ => RestoreUnavailable end.

Definition handle_restore (w : who) (snap : list byte) (intent : RestoreRevisionInput) : M (result RevisionRestoreError uuid) :=
  r ← prepare_forward_writer w;
  match r with
  | Err FRejected => mret (Err RestoreRejected)
  | Err _ => mret (Err RestoreUnavailable)
  | Ok _ =>
    r ← ask (QRestored w intent);
    match r with
    | Err _ => mret (Err RestoreUnavailable)
    | Ok (Err VRestoreConflict) => mret (Err RestoreConflict)
    | Ok (Err _) => mret (Err RestoreRejected)
    | Ok (Ok (Some id)) => mret (Ok id)
    | Ok (Ok None) =>
      applied ← apply_forward_write w (RRestoreFromSnapshot snap) (Some (r_expected_tail_seq intent)) (Some intent);
      match applied with
      | Err e => mret (Err (to_restore_error e))
      | Ok (seq, id) =>
        _ ← match seq with Some seq => _ ← maybe_project_derived_body seq w false; mret tt | None => mret tt end;
        mret (ok_or id RestoreUnavailable)
      end
    end
  end.

Definition to_body_write_error (e : ForwardWriteError) : BodyWriteError :=
  match e with
  | FRejected => Rejected | FUnavailable => Unavailable | FConflict => Conflict
  | FEngineLimit | FAppendTooLarge => TooLarge | FEngineMalformed => BodyInvalid
  end.

Definition handle_replace_body (w : who) (seed : list byte) (expected_tail_seq : option Z) : M (result BodyWriteError unit) :=
  applied ← apply_forward_write w (RReplaceFromUpdate seed) expected_tail_seq None;
  match applied with
  | Err e => mret (Err (to_body_write_error e))
  | Ok (None, _) => mret (Ok tt)
  | Ok (Some seq, _) => _ ← maybe_project_derived_body seq w false; mret (Ok tt)
  end.

Definition handle_project_live (w : who) : M (result BodyWriteError (content * Z)) :=
  r ← prepare_forward_writer w;
  match r with
  | Err FRejected => mret (Err Rejected)
  | Err _ => mret (Err Unavailable)
  | Ok _ =>
    s ← engine_call RProject;
    match s with
    | Some (EOk _ _ _ (Some json)) =>
      r ← check_cached_native_consumer w;
      tail ← get (fun a => tail_seq (committed a));
      mret (match r with Ok _ => Ok (json, tail) | Err _ => Err Unavailable end)
    | Some (EResourceLimit _) => mret (Err TooLarge)
    | _ => mret (Err Unavailable)
    end
  end.

(** ** Captured revisions *)

(** A revision of the primary: its snapshot and its projection; [stop] is asked
    in between. *)
Definition capture_primary (stop : M bool) : M (option CapturedRevision) :=
  s ← engine_call RRevisionSnapshot;
  match s with
  | Some (EOk _ (Some b64) _ _) =>
    match b64_decode b64 with
    | None => mret None
    | Some snap =>
      stopped ← stop;
      if stopped : bool then mret None
      else
      s ← engine_call RProject;
      mret (match s with Some (EOk _ _ _ (Some json)) => Some (Captured snap json) | _ => None end)
    end
  | _ => mret None
  end.

Definition capture_load (w : who) : M (result RevisionCaptureError unit) :=
  stale ← get (fun a => negb (committed_loaded a) || bool_decide (writer_generation a = None));
  if negb stale then mret (Ok tt)
  else
  l ← load_readonly w;
  match l with
  | Err _ =>
    remote ← get is_remote_task_room;
    _ ← (if remote : bool then fatal_remote_write_unconfirmed else mret tt);
    mret (Err CaptureUnavailable)
  | Ok (Err _) => mret (Err CaptureUnavailable)
  | Ok (Ok l) =>
    _ ← set_committed_from_load l;
    r ← reload_primary_from_committed;
    mret (match r with Ok _ => Ok tt | Err _ => Err CaptureUnavailable end)
  end.

Definition handle_capture_revision (w : who) : M (result RevisionCaptureError (CapturedRevision * option ConsumerProof)) :=
  _ ←? capture_load w;
  r ← ensure_primary_capacity;
  if negb (is_ok r) then mret (Err CaptureUnavailable)
  else
  r ← check_cached_native_consumer w;
  if negb (is_ok r) then mret (Err CaptureUnavailable)
  else
  c ← capture_primary (mret false);
  match c with
  | None => mret (Err CaptureUnavailable)
  | Some c =>
    r ← check_cached_native_consumer w;
    mret (match r with Ok proof => Ok (c, proof) | Err _ => Err CaptureUnavailable end)
  end.

(** ** The session revision *)

Definition session_revision_cancelled : M bool :=
  c ← ask QCancelled; lost ← get fence_lost; mret (lost || c).

Definition capture_committed_revision_primary : M (option CapturedRevision) :=
  f ← get room_fence;
  d ← ask (QDurable f);
  match d with
  | Err _ =>
    remote ← get is_remote_task_room;
    _ ← (if remote : bool then fatal_remote_write_unconfirmed else mret tt);
    mret None
  | Ok (Err _) => mret None
  | Ok (Ok d) =>
    _ ← adopt (Bundle (d_snapshot d) (d_tail d) (d_tail_seq d) (d_snapshot_cutoff_seq d));
    r ← reload_primary_from_committed;
    if negb (is_ok r) then mret None
    else
    stopped ← session_revision_cancelled;
    if stopped : bool then mret None
    else
    r ← ensure_primary_capacity;
    if negb (is_ok r) then mret None
    else
    stopped ← session_revision_cancelled;
    if stopped : bool then mret None else capture_primary session_revision_cancelled
  end.

(** [None] is a failed comparison. *)
Definition revision_snapshots_equal_primary (lft rgt : list byte) : M (option bool) :=
  if bool_decide (lft = rgt) then mret (Some true)
  else
  s ← engine_call (RRevisionSnapshotsEqual lft rgt);
  mret (match s with
        | Some (EOk _ (Some b64) _ _) => (fun d => bool_decide (head d = Some Byte.x01)) <$> b64_decode b64
        | _ => None
        end).

(** The insert of a captured revision; the result is [advance_session_revision]'s. *)
Definition session_insert (f : option Fence) (work : SessionRevisionState) (c : CapturedRevision) (latest : option (uuid * list byte)) : M bool :=
  stopped ← session_revision_cancelled;
  if stopped : bool then _ ← abort_session_revision_work; mret true
  else
  match prepare_revision_text (content_json c) with
  | None => _ ← abort_session_revision_work; mret true
  | Some text =>
    stopped ← session_revision_cancelled;
    if stopped : bool then _ ← abort_session_revision_work; mret true
    else
    r ← ask (QCreate c text (sr_generation work) latest f);
    match r with
    | Ok (Err VStaleRevisionHead) =>
      if sr_head_retries work + 1 <? SYSTEM_REVISION_HEAD_RETRIES
      then _ ← modify (set_session_revision (Some (SessRev (sr_generation work) (Some c) (sr_head_retries work + 1)))); mret false
      else _ ← abort_session_revision_work; mret true
    | Ok _ => _ ← abort_session_revision_work; mret true
    | Err _ =>
      remote ← get is_remote_task_room;
      _ ← (if remote : bool then fatal_remote_write_unconfirmed else mret tt);
      _ ← abort_session_revision_work; mret true
    end
  end.

(** The comparison with the latest revision, then the insert. *)
Definition session_compare (f : option Fence) (work : SessionRevisionState) (c : CapturedRevision) : M bool :=
  stopped ← session_revision_cancelled;
  if stopped : bool then _ ← abort_session_revision_work; mret true
  else
  latest ← ask (QLatest f);
  match latest with
  | Err _ =>
    remote ← get is_remote_task_room;
    _ ← (if remote : bool then fatal_remote_write_unconfirmed else abort_session_revision_work);
    mret true
  | Ok None => session_insert f work c None
  | Ok (Some (id, prev)) =>
    stopped ← session_revision_cancelled;
    if stopped : bool then _ ← abort_session_revision_work; mret true
    else
    same ← revision_snapshots_equal_primary prev (y_snapshot c);
    match same with
    | Some false => session_insert f work c (Some (id, prev))
    | _ => _ ← abort_session_revision_work; mret true
    end
  end.

Definition advance_session_revision : M bool :=
  stopped ← session_revision_cancelled;
  if stopped : bool then _ ← abort_session_revision_work; mret true
  else
  work ← get session_revision;
  match work with
  | None => mret true
  | Some work =>
    _ ← modify (set_session_revision None);
    f ← get room_fence;
    captured ← match sr_captured work with
               | Some c => mret (Some c)
               | None => capture_committed_revision_primary
               end;
    match captured with
    | None => _ ← abort_session_revision_work; mret true
    | Some c => session_compare f work c
    end
  end.

Fixpoint session_retries (n : nat) : M unit :=
  match n with
  | O => mret tt
  | S n =>
    work ← get session_revision;
    match work with
    | None => mret tt
    | Some _ => done_ ← advance_session_revision; if done_ : bool then mret tt else session_retries n
    end
  end.

(** ** Dropped leases *)

Definition close_dropped_connection (conn_id : uuid) (g : Z) : M unit :=
  same ← get (fun a => match connections a !! conn_id with Some c => conn_generation c =? g | None => false end);
  if same : bool then close_connection conn_id 1000 (bs "client leave") else mret tt.

Definition handle_lease_drop (conn_id : uuid) (g queued_commands : Z) : M unit :=
  if queued_commands =? 0 then close_dropped_connection conn_id g
  else modify (fun a => set_pending_lease_drops (pending_lease_drops a ++ [LeaseDrop conn_id g queued_commands]) a).

(** [Vec::swap_remove]. *)
Definition swap_remove {A} (i : nat) (l : list A) : list A :=
  match last l with
  | Some x => if (i =? length l - 1)%nat then take i l else <[i := x]> (take (length l - 1) l)
  | None => l
  end.

Definition due (d : PendingLeaseDrop) : Prop := ld_queued_commands d = 0.

Fixpoint finish_loop (fuel : nat) : M unit :=
  drops ← get pending_lease_drops;
  match fuel, list_find due drops with
  | S fuel, Some (i, d) =>
    _ ← modify (set_pending_lease_drops (swap_remove i drops));
    _ ← close_dropped_connection (ld_conn_id d) (ld_generation d);
    finish_loop fuel
  | _, _ => mret tt
  end.

Definition finish_pending_lease_drops : M unit := n ← get (fun a => length (pending_lease_drops a)); finish_loop n.

(** One command has been taken: the frozen prefixes get shorter. *)
Definition count_command : M unit := modify (fun a =>
  set_pending_lease_drops
    ((fun d => LeaseDrop (ld_conn_id d) (ld_generation d) (sat_sub_u64 (ld_queued_commands d) 1)) <$> pending_lease_drops a) a).

(** ** The loop *)

(** What one turn of the loop takes up: a command, a dropped lease with the
    commands still queued, or a timer. *)
Inductive Turn := TCommand (c : RoomCommand) | TLease (conn_id : uuid) (g queued : Z) | TAcl | TRenew | TDisconnected.

(** Whether the loop goes on after the command. *)
Definition handle_command (c : RoomCommand) : M bool :=
  _ ← count_command;
  _ ← log (Started c);
  match c with
  | CJoin j => _ ← handle_join j; mret true
  | CLeave conn_id => _ ← handle_leave conn_id; mret true
  | CFrame conn_id bytes => _ ← handle_frame conn_id bytes; mret true
  | CCapture w => _ ← handle_capture_revision w; mret true
  | CRestore w snap intent => _ ← handle_restore w snap intent; mret true
  | CReplaceBody w seed expected => _ ← handle_replace_body w seed expected; mret true
  | CProjectLive w => _ ← handle_project_live w; mret true
  | CShutdown => _ ← abort_session_revision_work; mret false
  end.

Definition handle_renew : M unit :=
  a ← get id;
  if fence_lost a then mret tt
  else
  match room_guard a with
  | None => fatal_fence_lost
  | Some GPostgres => mret tt
  | Some g =>
    late ← ask QTimeout;
    r ← (if late : bool then mret None else r ← renew g; _ ← modify (set_room_guard (Some r.2)); mret (Some r.1));
    match r with
    | Some (Ok true) => mret tt
    | Some (Ok false) => fatal_fence_lost
    | _ => if is_remote_task_room a then fatal_remote_write_unconfirmed else fatal_fence_lost
    end
  end.

(** What follows every turn; the loop ends when the fence is lost and nobody is
    connected. *)
Definition after_turn : M bool :=
  _ ← finish_pending_lease_drops;
  _ ← publish_live_conns;
  _ ← session_retries (Z.to_nat SYSTEM_REVISION_HEAD_RETRIES);
  a ← get id;
  mret (negb (fence_lost a && bool_decide (connections a = ∅))).

Definition turn (t : Turn) : M bool :=
  match t with
  | TDisconnected => mret false
  | TCommand c => go ← handle_command c; if negb go then mret false else after_turn
  | TLease conn_id g queued => _ ← handle_lease_drop conn_id g queued; after_turn
  | TAcl => _ ← poll_acl; after_turn
  | TRenew => _ ← handle_renew; after_turn
  end.

(** The turns up to the end of the loop; the rest of the list stays. *)
Fixpoint run_loop (ts : list Turn) : M (list Turn) :=
  match ts with
  | [] => mret []
  | t :: ts => go ← turn t; if negb go then mret ts else run_loop ts
  end.

(** [teardown]; the result is whether the room ended regularly. *)
Definition teardown (exit : RoomExit) : M bool :=
  let '(code, reason) := match exit with Clean => (1001, bs "server shutdown") | Panicked => (1011, bs "collab unavailable") end in
  _ ← drain_connections code reason;
  _ ← publish_live_conns;
  stopped ← ask QStop;
  g ← get room_guard;
  _ ← modify (set_room_guard None);
  failed ← get guard_cleanup_failed;
  clean ← match g with
          | Some g => r ← release_bounded g; mret (is_ok r)
          | None => mret (negb failed)
          end;
  mret (match exit with Clean => stopped && clean | Panicked => false end).

(** ** A new room *)

Definition new_actor (ws doc : uuid) (k : CollabKind) (cfg : CollabConfig) (b : Backend) (g : BackendRoomGuard) : RoomActor :=
  Actor ws doc k cfg b (Bridge false 0) (Some g) false None (Bundle [Byte.x00; Byte.x00] [] 0 0) 0 ∅ [] 0 registry_new 0
    false None false false false ∅ [] false false ∅ None true.

Definition new_world (a : RoomActor) (cs : gmap nat Channel) : World := MkWorld a cs ∅ [] 0.

(** The state a room starts with: perhaps with the state the hub has loaded. *)
Definition start_room (initial : option CollabLoadState) : M unit :=
  match initial with Some l => set_committed_from_load l | None => mret tt end.

(** [parse_client_id]. *)
Definition parse_client_id (token : str) : option Z :=
  if bool_decide (token = []) || (10 <? len token) || negb (forallb (fun b => in_range 48 57 (b2z b)) token) then None
  else v ← from_str_radix 10 u64_max token; if 0xFFFFFFFF <? v then None else Some v.

End room.
