(* ===== verification/Transport.v ===== *)
(** * The collaboration transport ([src/src/collab/transport.rs], [origin.rs])

    One socket: the upgrade request, then a loop that waits for whichever comes
    first of the authentication deadline, shutdown, an event of the room, a
    cancellation or a message of the peer.

    [Input] is the branch that [select!] takes.  What the code asks of its
    surroundings inside a branch (the database, the hub, the clock, the queue of
    events, the socket) is a [Question]; the answers come from an arbitrary
    [Env], which sees the whole history.  A handler is a program in a state
    monad over the [Socket] record and that history, and returns whether the
    loop goes on.  Deadlines appear as answers: a send that fails or times out
    is answered [false]. *)

From stdpp Require Import base list numbers strings.
From Stdlib Require Import ZArith Lia.
From S2P Require Import Prelude Text Uuid Json Wire Hub RoomTypes RoomLoop.

(** ** The upgrade request *)

(** [HeaderMap]: names in lower case, in order, with repetitions. *)
Definition headers := list (str * list byte).

Definition get_all (name : str) (h : headers) : list (list byte) :=
  omap (fun e => if bool_decide (e.1 = name) then Some e.2 else None) h.
Definition header (name : str) (h : headers) : option (list byte) := head (get_all name h).

(** [HeaderValue::to_str]: visible ASCII and tabs. *)
Definition to_str (v : list byte) : option str :=
  if forallb (fun b => in_range 32 126 (b2z b) || (b2z b =? 9)) v then Some v else None.

Definition ascii_lower (s : str) : str :=
  (fun b => if in_range 65 90 (b2z b) then z2b (b2z b + 32) else b) <$> s.

Fixpoint contains (sub s : str) : bool :=
  bool_decide (sub `prefix_of` s) || match s with [] => false | _ :: t => contains sub t end.

Definition is_ws_upgrade (h : headers) : bool :=
  let upgrade := match header (bs "upgrade") h ≫= to_str with
                 | Some v => bool_decide (ascii_lower v = bs "websocket") | None => false end in
  let connection := match header (bs "connection") h ≫= to_str with
                    | Some v => contains (bs "upgrade") (ascii_lower v) | None => false end in
  upgrade && connection.

(** [url::Url::parse] with [scheme], [host_str] and [origin]. *)
Class UrlOrigin := url_origin : str -> option (str * option str * str).

(** [http::guard::normalize_public_origin]. *)
Definition normalize_public_origin `{UrlOrigin} (origin : str) : option str :=
  '(scheme, host, serialized) ← url_origin origin;
  if negb (bool_decide (scheme = bs "http")) && negb (bool_decide (scheme = bs "https")) then None
  else match host with None => None | Some _ => Some serialized end.

Inductive CollabOriginError := OMissing | ONonUtf8 | OMultiple | OMalformed | OMismatch.

Definition validate_collab_origin `{UrlOrigin} (h : headers) (public_origin : str) : result CollabOriginError unit :=
  match get_all (bs "origin") h with
  | [] => Err OMissing
  | _ :: _ :: _ => Err OMultiple
  | [first] =>
    match trim <$> to_str first with
    | Some ((_ :: _) as origin) =>
      match normalize_public_origin public_origin with
      | None => Err OMalformed
      | Some expected =>
        match normalize_public_origin origin with
        | None => Err OMalformed
        | Some actual => if bool_decide (actual = expected) then Ok tt else Err OMismatch
        end
      end
    | _ => Err ONonUtf8
    end
  end.

(** [cookie_value]: the first part [name=value] of the cookie header. *)
Fixpoint find_cookie (name : str) (parts : list str) : option str :=
  match parts with
  | [] => None
  | part :: parts =>
    match strip_prefix name (trim part) ≫= strip_prefix (bs "=") with
    | Some v => Some (trim v)
    | None => find_cookie name parts
    end
  end.

Definition cookie_value (h : headers) (name : str) : option str :=
  (header (bs "cookie") h ≫= to_str) ≫= fun cookie => find_cookie name (split Byte.x3b cookie).

Definition SESSION_COOKIE : str := bs "fvoci_session".

Section transport.
Context {UL : UuidLib} {UO : UrlOrigin}.

(** What [collab_entry] and [collab_upgrade] answer. *)
Inductive Response :=
| RStatus (status : Z)
| ROrigin (e : CollabOriginError)                 (** 403 *)
| RUpgraded (session : CollabSession).

(** [enabled]: the hub exists; [upgradable]: the extractor found an upgrade;
    [live]: the lookup of the session by the hashed token; [permit]: the hub's
    socket permit. *)
Definition collab_entry (enabled : bool) (public_origin : str) (h : headers) (upgradable : bool)
    (live : str -> option CollabSession) (permit : uuid -> bool) : Response :=
  if negb enabled then RStatus 503
  else if negb (is_ws_upgrade h) then RStatus 426
  else match validate_collab_origin h public_origin with
       | Err e => ROrigin e
       | Ok _ =>
         if negb upgradable then RStatus 426
         else match cookie_value h SESSION_COOKIE ≫= live with
              | None => RStatus 401
              | Some session => if permit (session_id session) then RUpgraded session else RStatus 503
              end
       end.

(** ** The socket *)

(** What the transport reads of [CollabConfig]. *)
Record TransportConfig := {
  max_ws_frame_bytes : Z;
  max_ws_message_bytes : Z;
  max_pre_auth_outbound_frames : Z;
  max_inbound_messages_per_window : Z;
  inbound_message_window_ms : Z;
}.

Inductive Message := MBinary (bytes : list byte) | MClose (code : Z) (reason : str) | MPong (payload : list byte).

Inductive OutboundDeliveryAuth := Allowed (read_only : bool) | Denied | DeliveryDbError.

(** The race of the authorisation with the cancellation and the deadline. *)
Inductive DeliveryOutcome :=
| Cancelled (cancel : option (Z * str))
| TimedOut
| Answered (auth : OutboundDeliveryAuth).

(** [ConnectionLease]: what it carries for the delivery check. *)
Definition Lease := option Fence.

Definition live_who := (uuid * uuid)%type.

Inductive Question :=
| TDelivery (key : RoomKey) (user : live_who) (fence : option Fence)
| TExpired                                        (** [send_remaining.is_zero()] *)
| TSend (m : Message)
| TNow
| TAdmission (key : RoomKey) (user : live_who)
| TShuttingDown
| TQueue (bytes : list byte)                      (** [events.try_send] *)
| TJoin (key : RoomKey) (join : RoomJoin).

Definition answer (q : Question) : Type :=
  match q with
  | TDelivery _ _ _ => DeliveryOutcome
  | TExpired => bool
  | TSend _ => bool
  | TNow => Z
  | TAdmission _ _ => result unit (result unit bool)
  | TShuttingDown => bool
  | TQueue _ => bool
  | TJoin _ _ => result JoinError Lease
  end.

(** The branch that [select!] takes. *)
Inductive Input :=
| IAuthWait
| IShutdown
| IOutbound (bytes : list byte) (kind : OutboundKind)
| IClose (code : Z) (reason : str)
| IEventsEnded
| ICancel (cancel : option (Z * str))
| IBinary (bytes : list byte)
| IPing (payload : list byte)
| IEnd                                            (** a close frame or the end of the stream *)
| IOther.

Inductive Ev :=
| EIn (i : Input)
| EAsk (q : Question) (a : answer q)
| EForward (key : RoomKey) (conn : uuid) (bytes : list byte)   (** [hub.send_frame] *)
| ELeave (key : RoomKey) (conn : uuid)                         (** [hub.leave_room] *)
| EDropLease
| ECancel (code : Z) (reason : str).                           (** [cancel.send_replace] *)

Definition history := list Ev.
Definition Env := forall q, history -> answer q.

(** The variables of [handle_socket]. *)
Record Socket := Sock {
  joined_room : option (RoomKey * str * bool * bool);
  connection_lease : option Lease;
  collab_authenticated : bool;
  remaining : Z;
  window_start : Z;
  window_count : Z;
}.

Definition set_joined (j : option (RoomKey * str * bool * bool)) (s : Socket) : Socket :=
  Sock j (connection_lease s) (collab_authenticated s) (remaining s) (window_start s) (window_count s).
Definition set_authenticated (j : RoomKey * str * bool * bool) (l : Lease) (s : Socket) : Socket :=
  Sock (Some j) (Some l) true (remaining s) (window_start s) (window_count s).
Definition set_remaining (r : Z) (s : Socket) : Socket :=
  Sock (joined_room s) (connection_lease s) (collab_authenticated s) r (window_start s) (window_count s).
Definition set_window (start count : Z) (s : Socket) : Socket :=
  Sock (joined_room s) (connection_lease s) (collab_authenticated s) (remaining s) start count.

Section socket.
Context (cfg : TransportConfig) (conn_id : uuid) (live : CollabSession) (env : Env).

Definition M (A : Type) : Type := Socket -> history -> A * Socket * history.

#[local] Instance M_ret : MRet M := fun A a s h => (a, s, h).
#[local] Instance M_bind : MBind M := fun A B f m s h => let '(a, s, h) := m s h in f a s h.

Definition get : M Socket := fun s h => (s, s, h).
Definition modify (f : Socket -> Socket) : M unit := fun s h => (tt, f s, h).
Definition log (e : Ev) : M unit := fun s h => (tt, s, h ++ [e]).
Definition ask (q : Question) : M (answer q) := fun s h => let a := env q h in (a, s, h ++ [EAsk q a]).

(** ** Sending *)

Definition byte_len (m : Message) : Z :=
  match m with MBinary b => len b | MClose _ reason => len reason | MPong p => len p end.

(** [send_ws_message_until] and [send_ws_message]. *)
Definition send_ws_message (m : Message) : M bool :=
  if max_ws_frame_bytes cfg <? byte_len m then mret false else ask (TSend m).

(** [send_close], [send_cleanup_close]; the loop ends after each of them. *)
Definition send_close (code : Z) (reason : str) : M bool :=
  _ ← send_ws_message (MClose code reason); mret false.

(** [PreAuthOutboundAllowance::try_send]. *)
Definition try_send (bytes : list byte) : M bool :=
  s ← get;
  if (remaining s =? 0) || (max_ws_message_bytes cfg <? len bytes) then mret false
  else
    ok ← ask (TQueue bytes);
    if (ok : bool) then _ ← modify (set_remaining (remaining s - 1)); mret true else mret false.

Definition auth_frame (routing_key : str) (m : AuthMessage) : list byte :=
  match encode (FDocument routing_key None (DAuth m)) with Ok b => b | Err _ => [] end.

Definition send_auth_ok (routing_key scope : str) : M bool := try_send (auth_frame routing_key (Authenticated scope)).

Definition send_auth_denied (routing_key reason : str) : M bool :=
  s ← get;
  if remaining s =? 0 then mret false else try_send (auth_frame routing_key (PermissionDenied reason)).

Definition signal_pre_auth_close : M unit := log (ECancel 1013 (bs "pre-auth outbound exhausted")).

(** ** Authentication *)

Inductive AuthAttempt :=
| AJoined (read_only : bool) (lease : Lease)
| ADenied | AClosed | ARetryLater | AUnavailable | ARestarting.

(** [if !send_auth_denied(..) { signal_pre_auth_close(..); return Closed } Denied]. *)
Definition deny (routing_key reason : str) : M AuthAttempt :=
  sent ← send_auth_denied routing_key reason;
  if (sent : bool) then mret ADenied else _ ← signal_pre_auth_close; mret AClosed.

Definition room_key (r : CollabRoomName) : RoomKey := (Wire.workspace_id r, Wire.resource_id r, Wire.kind r).

(** [hub.is_shutting_down()] chooses between two outcomes. *)
Definition unless_shutdown (a : AuthAttempt) : M AuthAttempt :=
  down ← ask TShuttingDown; mret (if (down : bool) then ARestarting else a).

Definition token_of (bytes : list byte) : option str :=
  match decode bytes with Ok (FDocument _ _ (DAuth (Token token _))) => Some token | _ => None end.

Definition try_authenticate (routing_key : str) (bytes : list byte) : M AuthAttempt :=
  match token_of bytes with
  | None => mret ADenied
  | Some token =>
    match parse_client_id token with
    | None => deny routing_key (bs "unauthorized")
    | Some client_id =>
      match parse (routing_key_base routing_key) with
      | None => deny routing_key (bs "not found")
      | Some room =>
        let key := room_key room in
        admission ← ask (TAdmission key (session_who live));
        match admission with
        | Ok (Err _) => deny routing_key (bs "not found")
        | Err _ => unless_shutdown AUnavailable
        | Ok (Ok read_only) =>
          joined ← ask (TJoin key (Join conn_id live client_id read_only routing_key 0));
          match joined with
          | Ok lease =>
            sent ← send_auth_ok routing_key (if read_only then bs "readonly" else bs "read-write");
            if (sent : bool) then mret (AJoined read_only lease)
            else
              _ ← log (ELeave key conn_id);
              _ ← log EDropLease;
              _ ← signal_pre_auth_close;
              mret AClosed
          | Err AdmissionDenied => deny routing_key (bs "not found")
          | Err UnsupportedKind => deny routing_key (bs "unsupported kind")
          | Err (RoomFull | CapacityRetry) => unless_shutdown ARetryLater
          | Err (EngineUnavailable | WriterStale | DbError) => unless_shutdown AUnavailable
          end
        end
      end
    end
  end.

(** ** The first frame *)

Inductive FirstRoom :=
| FJoined (key : RoomKey) (routing : str) (read_only : bool) (lease : Lease)
| FPending (key : RoomKey) (routing : str)
| FNone | FClosed | FRetryLater | FUnavailable | FRestarting.

Definition first_room_from_frame (bytes : list byte) : M FirstRoom :=
  match decode bytes with
  | Ok (FDocument routing_key (Some room) message) =>
    let key := room_key room in
    match message with
    | DAuth (Token _ _) =>
      attempt ← try_authenticate routing_key bytes;
      mret match attempt with
           | AJoined read_only lease => FJoined key routing_key read_only lease
           | ADenied => FPending key routing_key
           | AClosed => FClosed
           | ARetryLater => FRetryLater
           | AUnavailable => FUnavailable
           | ARestarting => FRestarting
           end
    | _ => mret (FPending key routing_key)
    end
  | _ => mret FNone
  end.

(** ** The loop *)

Definition exhausted : M bool := send_close 1013 (bs "pre-auth outbound exhausted").
Definition retry_later : M bool := send_close 1013 (bs "try again later").
Definition unavailable : M bool := send_close 1011 (bs "collab unavailable").
Definition restarting : M bool := send_close 1012 (bs "service restart").

(** A data frame of an authenticated socket: authorised again before it is sent. *)
Definition deliver (key : RoomKey) (read_only : bool) (bytes : list byte) : M bool :=
  s ← get;
  outcome ← ask (TDelivery key (session_who live) (default None (connection_lease s)));
  match outcome with
  | Cancelled (Some (code, reason)) => send_close code reason
  | Cancelled None => mret false
  | TimedOut | Answered DeliveryDbError => send_close 1011 (bs "authorization unavailable")
  | Answered Denied => send_close 1008 (bs "permission revoked")
  | Answered (Allowed admission_ro) =>
    if negb (read_only || negb admission_ro) then send_close 1008 (bs "permission revoked")
    else
      expired ← ask TExpired;
      if (expired : bool) then send_close 1011 (bs "authorization unavailable")
      else send_ws_message (MBinary bytes)
  end.

Definition handle_outbound (bytes : list byte) (kind : OutboundKind) : M bool :=
  s ← get;
  match kind, joined_room s with
  | Data, Some (key, _, true, read_only) => deliver key read_only bytes
  | _, _ => send_ws_message (MBinary bytes)
  end.

(** The window of inbound messages; [false] ends the loop. *)
Definition count_inbound : M bool :=
  now ← ask TNow;
  s ← get;
  let '(start, count) :=
    if inbound_message_window_ms cfg <? Z.max 0 (now - window_start s) then (now, 0) else (window_start s, window_count s) in
  let count := count + 1 in
  _ ← modify (set_window start count);
  mret (negb (max_inbound_messages_per_window cfg <? count)).

Definition handle_frame (bytes : list byte) : M bool :=
  s ← get;
  match joined_room s with
  | Some (key, routing_key, true, _) => _ ← log (EForward key conn_id bytes); mret true
  | Some (key, routing_key, false, _) =>
    attempt ← try_authenticate routing_key bytes;
    match attempt with
    | AJoined read_only lease => _ ← modify (set_authenticated (key, routing_key, true, read_only) lease); mret true
    | ADenied => mret true
    | AClosed => exhausted
    | ARetryLater => retry_later
    | AUnavailable => unavailable
    | ARestarting => restarting
    end
  | None =>
    first ← first_room_from_frame bytes;
    match first with
    | FJoined key routing read_only lease => _ ← modify (set_authenticated (key, routing, true, read_only) lease); mret true
    | FPending key routing => _ ← modify (set_joined (Some (key, routing, false, false))); mret true
    | FNone => mret true
    | FClosed => exhausted
    | FRetryLater => retry_later
    | FUnavailable => unavailable
    | FRestarting => restarting
    end
  end.

Definition handle_binary (bytes : list byte) : M bool :=
  if max_ws_message_bytes cfg <? len bytes then mret false
  else
    go ← count_inbound;
    if (go : bool) then handle_frame bytes else mret false.

(** The guards of the branches. *)
Definition enabled (s : Socket) (i : Input) : bool :=
  match i with
  | IAuthWait => negb (collab_authenticated s)
  | IShutdown => match joined_room s with Some (_, _, true, _) => false | _ => true end
  | _ => true
  end.

(** One turn; [false] is [break]. *)
Definition turn (i : Input) : M bool :=
  _ ← log (EIn i);
  match i with
  | IAuthWait => mret false
  | IShutdown => restarting
  | IOutbound bytes kind => handle_outbound bytes kind
  | IClose code reason => send_close code reason
  | IEventsEnded => mret false
  | ICancel (Some (code, reason)) => send_close code reason
  | ICancel None => mret true
  | IBinary bytes => handle_binary bytes
  | IPing payload => if max_ws_frame_bytes cfg <? len payload then mret false else send_ws_message (MPong payload)
  | IEnd => mret false
  | IOther => mret true
  end.

(** After the loop. *)
Definition cleanup : M unit :=
  s ← get;
  _ ← match joined_room s with Some (key, _, _, _) => log (ELeave key conn_id) | None => mret tt end;
  match connection_lease s with Some _ => log EDropLease | None => mret tt end.

(** The loop on the branches taken; [true] when it ended. *)
Fixpoint serve (inputs : list Input) : M bool :=
  match inputs with
  | [] => mret false
  | i :: inputs =>
    s ← get;
    if negb (enabled s i) then serve inputs
    else
      go ← turn i;
      if (go : bool) then serve inputs else _ ← cleanup; mret true
  end.

Definition new_socket (now : Z) : Socket := Sock None None false (max_pre_auth_outbound_frames cfg) now 0.

Definition handle_socket (now : Z) (inputs : list Input) : bool * Socket * history := serve inputs (new_socket now) [].

End socket.
End transport.
