(* ===== verification/TransportTheorems.v ===== *)
(** * What a socket may do

    The rule for every event of a socket's history, given what came before
    ([ok_event]), and the theorem that every run keeps it ([socket_gate]), for
    any answers of the surroundings and any order of branches.  The handlers are
    verified with weakest preconditions ([wp]). *)

From stdpp Require Import base list numbers strings.
From Stdlib Require Import ZArith Lia.
From S2P Require Import Prelude Text Uuid Json Wire WireFacts Hub RoomTypes RoomLoop Transport.

Section gate.
Context {UL : UuidLib}.
Context (cfg : TransportConfig) (conn_id : uuid) (live : CollabSession) (env : Env).

Abbreviation M := (M (UL := UL)).
#[local] Existing Instances M_ret M_bind.

(** ** What a history holds *)

Definition event_join (e : Ev) : option (RoomKey * RoomJoin) :=
  match e with
  | EAsk q a =>
    (match q return answer q -> _ with
     | TJoin key join => fun a => match a with Ok _ => Some (key, join) | Err _ => None end
     | _ => fun _ => None
     end) a
  | _ => None
  end.

Definition event_queued (e : Ev) : option (list byte) :=
  match e with
  | EAsk q a =>
    (match q return answer q -> _ with
     | TQueue bytes => fun a : bool => if a then Some bytes else None
     | _ => fun _ => None
     end) a
  | _ => None
  end.

Definition event_leave (e : Ev) : option RoomKey := match e with ELeave key _ => Some key | _ => None end.

(** The rooms joined and left, and the frames queued by the transport itself. *)
Definition joins (h : history) : list (RoomKey * RoomJoin) := omap event_join h.
Definition leaves (h : history) : list RoomKey := omap event_leave h.
Definition queued (h : history) : Z := Z.of_nat (length (omap event_queued h)).

(** A frame of the room may be written: it is a control frame, or nothing has
    been joined, or the database has just allowed it for the joined room, with
    no less than the access the connection was given, and in time. *)
Definition writable (pre : history) (bytes : list byte) : Prop :=
  (exists pre', pre = pre' ++ [EIn (IOutbound bytes Control)]) \/
  (joins pre = [] /\ exists pre', pre = pre' ++ [EIn (IOutbound bytes Data)]) \/
  (exists pre' key join fence ro, joins pre = [(key, join)] /\
    pre = pre' ++ [EIn (IOutbound bytes Data);
                   EAsk (TDelivery key (session_who live) fence) (Answered (Allowed ro)); EAsk TExpired false] /\
    j_read_only join || negb ro = true).

(** The database has just admitted the user to the room, with this access. *)
Definition admitted (pre : history) (key : RoomKey) (read_only : bool) : Prop :=
  exists pre', pre = pre' ++ [EAsk (TAdmission key (session_who live)) (Ok (Ok read_only))].

Definition ok_event (pre : history) (e : Ev) : Prop :=
  match e with
  | EForward key conn bytes =>
    conn = conn_id /\ (exists join, joins pre = [(key, join)]) /\ leaves pre = [] /\ len bytes <= max_ws_message_bytes cfg
  | ELeave _ conn => conn = conn_id
  | EAsk q _ =>
    match q with
    | TJoin key join =>
      j_conn_id join = conn_id /\ j_session join = live /\ admitted pre key (j_read_only join) /\
      joins pre = [] /\ leaves pre = []
    | TSend m => byte_len m <= max_ws_frame_bytes cfg /\ (forall bytes, m = MBinary bytes -> writable pre bytes)
    | TQueue bytes => queued pre < max_pre_auth_outbound_frames cfg /\ len bytes <= max_ws_message_bytes cfg
    | _ => True
    end
  | _ => True
  end.

Definition gated (h : history) : Prop := forall pre e post, h = pre ++ e :: post -> ok_event pre e.

Lemma kept_nil : gated [].
Proof. intros [|x pre] e post; done. Qed.

Lemma kept_snoc h e : gated h -> ok_event h e -> gated (h ++ [e]).
Proof.
  intros Hl He pre e' post Heq. destruct post as [|x post' _] using rev_ind.
  - apply app_inj_tail in Heq as [<- <-]. done.
  - change (e' :: post' ++ [x]) with ((e' :: post') ++ [x]) in Heq. rewrite app_assoc in Heq.
    apply app_inj_tail in Heq as [-> _]. by apply (Hl pre e' post').
Qed.

Lemma joins_snoc h e : joins (h ++ [e]) = joins h ++ option_list (event_join e).
Proof. unfold joins. rewrite omap_app. simpl. by destruct (event_join e). Qed.

Lemma leaves_snoc h e : leaves (h ++ [e]) = leaves h ++ option_list (event_leave e).
Proof. unfold leaves. rewrite omap_app. simpl. by destruct (event_leave e). Qed.

Lemma queued_snoc h e : queued (h ++ [e]) = queued h + Z.of_nat (length (option_list (event_queued e))).
Proof. unfold queued. rewrite omap_app, length_app. simpl. destruct (event_queued e); simpl; lia. Qed.

(** ** Weakest preconditions *)

Definition wp {A} (m : M A) (Q : A -> Socket -> history -> Prop) (s : Socket) (h : history) : Prop :=
  let '(a, s, h) := m s h in Q a s h.

Lemma wp_bind {A B} (m : M A) (f : A -> M B) Q s h :
  wp m (fun a => wp (f a) Q) s h -> wp (m ≫= f) Q s h.
Proof. unfold wp, mbind, M_bind. by destruct (m s h) as [[a s'] h']. Qed.

Lemma wp_mono {A} (m : M A) (P Q : A -> Socket -> history -> Prop) s h :
  wp m P s h -> (forall a s h, P a s h -> Q a s h) -> wp m Q s h.
Proof. unfold wp. destruct (m s h) as [[a s'] h']. auto. Qed.

Lemma wp_ret {A} (a : A) Q s h : Q a s h -> wp (mret a) Q s h.
Proof. done. Qed.
Lemma wp_get Q s h : Q s s h -> wp get Q s h.
Proof. done. Qed.
Lemma wp_modify f Q s h : Q tt (f s) h -> wp (modify f) Q s h.
Proof. done. Qed.
Lemma wp_log e Q s h : Q tt s (h ++ [e]) -> wp (log e) Q s h.
Proof. done. Qed.
Lemma wp_ask q (Q : answer q -> Socket -> history -> Prop) s h :
  (forall a, Q a s (h ++ [EAsk q a])) -> wp (ask env q) Q s h.
Proof. intros HQ. apply HQ. Qed.

(** ** The invariant *)

(** The history is gated, nothing is left, and the transport's own frames are
    accounted for. *)
Definition base (s : Socket) (h : history) : Prop :=
  gated h /\ 0 <= remaining s /\ remaining s + queued h = max_pre_auth_outbound_frames cfg.

(** A socket that goes on. *)
Definition running (s : Socket) (h : history) : Prop :=
  base s h /\ leaves h = [] /\
  match joined_room s with
  | Some (key, _, true, read_only) =>
    collab_authenticated s = true /\ is_Some (connection_lease s) /\
    exists join, joins h = [(key, join)] /\ j_read_only join = read_only
  | Some (key, routing, false, _) =>
    collab_authenticated s = false /\ connection_lease s = None /\ joins h = [] /\
    exists room, parse (routing_key_base routing) = Some room /\ key = room_key room
  | None => collab_authenticated s = false /\ connection_lease s = None /\ joins h = []
  end.

(** A socket whose loop has ended: a room it joined is left already or by
    the cleanup. *)
Definition stopped (s : Socket) (h : history) : Prop :=
  gated h /\ forall key join, (key, join) ∈ joins h ->
    key ∈ leaves h \/ exists routing auth ro, joined_room s = Some (key, routing, auth, ro).

Definition after (go : bool) (s : Socket) (h : history) : Prop := if go then running s h else stopped s h.

Lemma running_stopped s h : running s h -> stopped s h.
Proof.
  intros ((Hl & _) & _ & Hj). split; [done|]. intros key join Hin.
  destruct (joined_room s) as [[[[k r] []] ro]|].
  - destruct Hj as (_ & _ & j & Hj & _). rewrite Hj in Hin. apply list_elem_of_singleton in Hin. simplify_eq. right. eauto.
  - destruct Hj as (_ & _ & Hj & _). rewrite Hj in Hin. by apply not_elem_of_nil in Hin.
  - destruct Hj as (_ & _ & Hj). rewrite Hj in Hin. by apply not_elem_of_nil in Hin.
Qed.

Lemma running_after go s h : running s h -> after go s h.
Proof. destruct go; [done|apply running_stopped]. Qed.

(** An event that is allowed and is neither a join, a leave nor a queued frame. *)
Definition plain (e : Ev) : Prop := event_join e = None /\ event_leave e = None /\ event_queued e = None.

Lemma base_plain s h e : plain e -> ok_event h e -> base s h -> base s (h ++ [e]).
Proof.
  intros (_ & _ & Hq) He (Hl & Hr & Ha). split; [by apply kept_snoc|]. split; [done|]. rewrite queued_snoc, Hq. simpl. lia.
Qed.

Lemma running_plain s h e : plain e -> ok_event h e -> running s h -> running s (h ++ [e]).
Proof.
  intros Hp He (Hb & Hv & Hj). split; [by apply base_plain|]. destruct Hp as (Hj' & Hl' & _).
  rewrite leaves_snoc, joins_snoc, Hj', Hl', !app_nil_r. done.
Qed.

Lemma stopped_plain s h e : plain e -> ok_event h e -> stopped s h -> stopped s (h ++ [e]).
Proof.
  intros (Hj' & Hl' & _) He (Hl & Hk). split; [by apply kept_snoc|].
  rewrite leaves_snoc, joins_snoc, Hj', Hl', !app_nil_r. done.
Qed.

(** ** The handlers *)

(** The variables other than the allowance and the window are unchanged. *)
Definition same (s s' : Socket) : Prop :=
  joined_room s' = joined_room s /\ connection_lease s' = connection_lease s /\
  collab_authenticated s' = collab_authenticated s.

Lemma running_same s s' h : same s s' -> remaining s' = remaining s -> running s h -> running s' h.
Proof. intros (Hj & Hc & Ha) Hr. unfold running, base. by rewrite Hj, Hc, Ha, Hr. Qed.

Lemma send_after m s h :
  running s h -> (forall bytes, m = MBinary bytes -> writable h bytes) -> wp (send_ws_message cfg env m) after s h.
Proof.
  intros Hr Hw. unfold send_ws_message. destruct (Z.ltb_spec (max_ws_frame_bytes cfg) (byte_len m)) as [|Hle].
  - apply wp_ret. by apply running_stopped.
  - apply wp_ask. intros a. apply running_after, running_plain; [by repeat split|by split|done].
Qed.

Lemma send_close_after code reason s h : stopped s h -> wp (send_close cfg env code reason) after s h.
Proof.
  intros Hs. unfold send_close. apply wp_bind. unfold send_ws_message.
  destruct (Z.ltb_spec (max_ws_frame_bytes cfg) (byte_len (MClose code reason))).
  - apply wp_ret. by apply wp_ret.
  - apply (wp_ask (TSend (MClose code reason))). intros a. apply wp_ret. apply stopped_plain; [by repeat split|by split|done].
Qed.

(** Queueing one of the transport's own frames. *)
Definition quiet (s : Socket) (h : history) (s' : Socket) (h' : history) : Prop :=
  base s' h' /\ joins h' = joins h /\ leaves h' = leaves h /\ same s s'.

Lemma quiet_refl s h : base s h -> quiet s h s h.
Proof. intros Hb. by repeat split; try apply Hb. Qed.

Lemma try_send_quiet bytes s h : base s h -> wp (try_send cfg env bytes) (fun _ => quiet s h) s h.
Proof.
  intros Hb. unfold try_send. apply wp_bind, wp_get.
  destruct (Z.eqb_spec (remaining s) 0); simpl; [by apply wp_ret, quiet_refl|].
  destruct (Z.ltb_spec (max_ws_message_bytes cfg) (len bytes)); [by apply wp_ret, quiet_refl|].
  destruct Hb as (Hl & Hr & Ha). apply wp_bind, (wp_ask (TQueue bytes)). intros a.
  assert (gated (h ++ [EAsk (TQueue bytes) a])) as Hl' by (apply kept_snoc; [done|]; simpl; lia).
  unfold quiet, base. destruct a.
  - apply wp_bind, wp_modify, wp_ret. rewrite joins_snoc, leaves_snoc, queued_snoc. simpl. rewrite !app_nil_r.
    repeat split; [done|lia|lia].
  - apply wp_ret. rewrite joins_snoc, leaves_snoc, queued_snoc. simpl. rewrite !app_nil_r. repeat split; [done|lia|lia].
Qed.

Lemma deny_quiet r reason s h : base s h ->
  wp (deny cfg env r reason) (fun a s' h' => quiet s h s' h' /\ (a = ADenied \/ a = AClosed)) s h.
Proof.
  intros Hb. unfold deny. apply wp_bind.
  assert (wp (send_auth_denied cfg env r reason) (fun _ => quiet s h) s h) as Hd.
  { unfold send_auth_denied. apply wp_bind, wp_get. destruct (remaining s =? 0); [by apply wp_ret, quiet_refl|].
    by apply try_send_quiet. }
  eapply wp_mono; [exact Hd|]. intros [] s' h' Hq; [apply wp_ret; auto|].
  apply wp_bind, wp_log, wp_ret. split; [|auto]. destruct Hq as (Hb' & Hj & Hv & Hs).
  split; [by apply base_plain|]. by rewrite joins_snoc, leaves_snoc, !app_nil_r.
Qed.

(** What an attempt to authenticate leaves. *)
Definition attempted (routing : str) (s : Socket) (a : AuthAttempt) (s' : Socket) (h' : history) : Prop :=
  same s s' /\
  match a with
  | AJoined ro _ => base s' h' /\ leaves h' = [] /\
      exists room join, parse (routing_key_base routing) = Some room /\ joins h' = [(room_key room, join)] /\ j_read_only join = ro
  | AClosed => gated h' /\ forall key join, (key, join) ∈ joins h' -> key ∈ leaves h'
  | _ => base s' h' /\ joins h' = [] /\ leaves h' = []
  end.

Lemma attempted_quiet routing s h a s' h' :
  joins h = [] -> leaves h = [] -> quiet s h s' h' -> (forall ro l, a <> AJoined ro l) -> attempted routing s a s' h'.
Proof.
  intros Hj Hv (Hb & Hj' & Hv' & Hs) Ha. rewrite Hj in Hj'. rewrite Hv in Hv'. split; [done|].
  destruct a as [ro l| | | | |]; [by destruct (Ha ro l)|done| |done..].
  split; [apply Hb|]. rewrite Hj'. intros key join Hin. by apply not_elem_of_nil in Hin.
Qed.

Lemma attempted_denied routing s h a s' h' :
  joins h = [] -> leaves h = [] -> quiet s h s' h' /\ (a = ADenied \/ a = AClosed) -> attempted routing s a s' h'.
Proof. intros Hj Hv [Hq Ha]. apply (attempted_quiet routing s h); [done..|]. intros ro l ->. by destruct Ha. Qed.

Lemma quiet_plain s h e : base s h -> plain e -> ok_event h e -> quiet s h s (h ++ [e]).
Proof.
  intros Hb Hp He. split; [by apply base_plain|]. destruct Hp as (Hj & Hl & _).
  rewrite joins_snoc, leaves_snoc, Hj, Hl, !app_nil_r. done.
Qed.

Lemma unless_shutdown_attempted routing s h a :
  base s h -> joins h = [] -> leaves h = [] -> (forall ro l, a <> AJoined ro l) ->
  wp (unless_shutdown env a) (attempted routing s) s h.
Proof.
  intros Hb Hj Hv Ha. unfold unless_shutdown. apply wp_bind, (wp_ask TShuttingDown). intros []; apply wp_ret;
    (apply (attempted_quiet routing s h); [done|done|by apply quiet_plain|done]).
Qed.

(** The join itself, after the database has admitted the user. *)
Lemma join_attempted routing room client_id ro s h :
  base s h -> joins h = [] -> leaves h = [] -> parse (routing_key_base routing) = Some room ->
  admitted h (room_key room) ro ->
  let join := Join conn_id live client_id ro routing 0 in
  forall joined : result JoinError Lease,
  let h' := h ++ [EAsk (TJoin (room_key room) join) joined] in
  wp (match joined with
      | Ok lease =>
        sent ← send_auth_ok cfg env routing (if ro then bs "readonly" else bs "read-write");
        if (sent : bool) then mret (AJoined ro lease)
        else
          _ ← log (ELeave (room_key room) conn_id); _ ← log EDropLease; _ ← signal_pre_auth_close; mret AClosed
      | Err AdmissionDenied => deny cfg env routing (bs "not found")
      | Err UnsupportedKind => deny cfg env routing (bs "unsupported kind")
      | Err (RoomFull | CapacityRetry) => unless_shutdown env ARetryLater
      | Err (EngineUnavailable | WriterStale | DbError) => unless_shutdown env AUnavailable
      end) (attempted routing s) s h'.
Proof.
  intros Hb Hj Hv Hp Had join joined h'.
  assert (ok_event h (EAsk (TJoin (room_key room) join) joined)) as Hok by (repeat split; done).
  assert (base s h') as Hb'.
  { destruct Hb as (Hl & Hr & Ha). split; [by apply kept_snoc|]. split; [done|]. unfold h'. rewrite queued_snoc. simpl. lia. }
  assert (leaves h' = []) as Hv' by (unfold h'; by rewrite leaves_snoc, Hv).
  destruct joined as [lease|e].
  - assert (joins h' = [(room_key room, join)]) as Hj' by (unfold h'; by rewrite joins_snoc, Hj).
    apply wp_bind. eapply wp_mono; [by apply try_send_quiet|]. intros [] s1 h1 (Hb1 & Hj1 & Hv1 & Hs1).
    + apply wp_ret. split; [done|]. split; [done|]. split; [congruence|]. exists room, join. split_and!; [done|congruence|done].
    + apply wp_bind, wp_log, wp_bind, wp_log, wp_bind, wp_log, wp_ret. split; [done|]. split.
      * repeat apply kept_snoc; try done. apply Hb1.
      * rewrite !joins_snoc, !leaves_snoc. simpl. rewrite !app_nil_r, Hj1, Hj'.
        intros key j Hin%list_elem_of_singleton. simplify_eq. apply elem_of_app. right. by left.
  - assert (joins h' = []) as Hj' by (unfold h'; by rewrite joins_snoc, Hj).
    destruct e; try (by apply unless_shutdown_attempted);
      (eapply wp_mono; [by apply deny_quiet|]; intros a s1 h1; by apply attempted_denied).
Qed.

Lemma try_authenticate_attempted routing bytes s h :
  base s h -> joins h = [] -> leaves h = [] ->
  wp (try_authenticate cfg conn_id live env routing bytes) (attempted routing s) s h.
Proof.
  intros Hb Hj Hv. unfold try_authenticate.
  assert (forall r h reason, base s h -> joins h = [] -> leaves h = [] ->
    wp (deny cfg env r reason) (attempted routing s) s h) as Hdeny.
  { intros r h1 reason Hb1 Hj1 Hv1. eapply wp_mono; [by apply deny_quiet|]. intros a s' h'. by apply attempted_denied. }
  destruct (token_of bytes) as [token|].
  2: { apply wp_ret. apply (attempted_quiet routing s h); [done|done|by apply quiet_refl|done]. }
  destruct (parse_client_id token) as [client_id|]; [|by apply Hdeny].
  destruct (parse (routing_key_base routing)) as [room|] eqn:Hp; [|by apply Hdeny].
  apply wp_bind, (wp_ask (TAdmission (room_key room) (session_who live))). intros a.
  destruct (quiet_plain s h (EAsk (TAdmission (room_key room) (session_who live)) a)) as (Hb1 & Hj1 & Hv1 & _); [done..|].
  rewrite Hj in Hj1. rewrite Hv in Hv1.
  destruct a as [[ro|e]|e]; [|by apply Hdeny|by apply unless_shutdown_attempted].
  apply wp_bind, (wp_ask (TJoin (room_key room) (Join conn_id live client_id ro routing 0))). intros joined.
  apply join_attempted; [done..|]. by exists h.
Qed.

(** The end of an attempt on a socket that has joined nothing. *)
Lemma attempted_stopped routing s a s' h' :
  attempted routing s a s' h' -> (forall ro l, a <> AJoined ro l) -> stopped s' h'.
Proof.
  intros [_ Ha] Hn. destruct a as [ro l| | | | |]; [by destruct (Hn ro l)|..];
    try (destruct Ha as (Hb & Hj & _); split; [apply Hb|]; rewrite Hj; intros key join Hin; by apply not_elem_of_nil in Hin).
  destruct Ha as [Hl Hk]. split; [done|]. intros key join Hin. left. by apply (Hk key join).
Qed.

Lemma attempted_joined routing s key ro l s' h' :
  attempted routing s (AJoined ro l) s' h' -> (exists room, parse (routing_key_base routing) = Some room /\ key = room_key room) ->
  running (set_authenticated (key, routing, true, ro) l s') h'.
Proof.
  intros (_ & Hb & Hv & room & join & Hp & Hj & Hro) (room' & Hp' & ->). rewrite Hp in Hp'. injection Hp' as <-.
  split; [done|]. split; [done|]. simpl. split; [done|]. split; [by eexists|]. eauto.
Qed.

Lemma decode_room bytes r room m : decode bytes = Ok (FDocument r (Some room) m) -> parse (routing_key_base r) = Some room.
Proof. intros Hd. apply decode_Ok in Hd as [Hw _]. by destruct Hw as (_ & Hr & _). Qed.

(** What the first frame of a room leaves. *)
Definition first_seen (s : Socket) (f : FirstRoom) (s' : Socket) (h' : history) : Prop :=
  match f with
  | FJoined key r ro l => running (set_authenticated (key, r, true, ro) l s') h'
  | FPending key r => running (set_joined (Some (key, r, false, false)) s') h'
  | FNone => running s' h'
  | _ => stopped s' h'
  end.

Lemma first_room_seen bytes s h :
  running s h -> joined_room s = None -> wp (first_room_from_frame cfg conn_id live env bytes) (first_seen s) s h.
Proof.
  intros Hr Hn. pose proof Hr as (Hb & Hv & Hj). rewrite Hn in Hj. destruct Hj as (Hc & Hle & Hj).
  assert (forall s' h' key r room, base s' h' -> joins h' = [] -> leaves h' = [] -> same s s' ->
    parse (routing_key_base r) = Some room -> key = room_key room -> first_seen s (FPending key r) s' h') as Hpend.
  { intros s' h' key r room Hb' Hj' Hv' (E1 & E2 & E3) Hp ->. split; [done|]. split; [done|]. simpl.
    rewrite E2, E3, Hc, Hle. split_and!; eauto. }
  unfold first_room_from_frame. destruct (decode bytes) as [[|r [room|] m]|e] eqn:Hd; try by apply wp_ret.
  pose proof (decode_room _ _ _ _ Hd) as Hp.
  destruct m as [m|p|m| |p|p|p]; try (apply wp_ret; by apply (Hpend _ _ _ _ room)).
  destruct m as [t v| |p|p]; try (apply wp_ret; by apply (Hpend _ _ _ _ room)).
  apply wp_bind. eapply wp_mono; [by apply try_authenticate_attempted|]. intros a s' h' Ha. apply wp_ret.
  destruct a as [ro l| | | | |]; try (by eapply attempted_stopped).
  - eapply attempted_joined; eauto.
  - destruct Ha as (Hs & Hb' & Hj' & Hv'). by apply (Hpend _ _ _ _ room).
Qed.

Lemma frame_after bytes s h :
  running s h -> len bytes <= max_ws_message_bytes cfg -> wp (handle_frame cfg conn_id live env bytes) after s h.
Proof.
  intros Hr Hlen. unfold handle_frame. apply wp_bind, wp_get. pose proof Hr as (Hb & Hv & Hj).
  destruct (joined_room s) as [[[[key r] []] ro]|] eqn:Ej.
  - apply wp_bind, wp_log, wp_ret. destruct Hj as (_ & _ & join & Hj & _).
    apply running_plain; [by repeat split| |done]. simpl. eauto.
  - destruct Hj as (Hc & Hle & Hj & Hp). apply wp_bind.
    eapply wp_mono; [by apply try_authenticate_attempted|]. intros a s' h' Ha.
    destruct a as [ro' l| | | | |];
      try (apply send_close_after; by eapply attempted_stopped).
    + apply wp_bind, wp_modify, wp_ret. by eapply attempted_joined.
    + apply wp_ret. destruct Ha as ((E1 & E2 & E3) & Hb' & Hj' & Hv'). split; [done|]. split; [done|].
      rewrite E1, E2, E3, Ej. done.
  - apply wp_bind. eapply wp_mono; [by apply first_room_seen|]. intros f s' h' Hf.
    destruct f; try (apply send_close_after; exact Hf); [apply wp_bind, wp_modify..|]; apply wp_ret; exact Hf.
Qed.

Lemma binary_after bytes s h : running s h -> wp (handle_binary cfg conn_id live env bytes) after s h.
Proof.
  intros Hr. unfold handle_binary. destruct (Z.ltb_spec (max_ws_message_bytes cfg) (len bytes)).
  { apply wp_ret. by apply running_stopped. }
  apply wp_bind. unfold count_inbound. apply wp_bind, (wp_ask TNow). intros now. apply wp_bind, wp_get.
  assert (running s (h ++ [EAsk TNow now])) as Hr' by (by apply running_plain).
  destruct (if _ : bool then _ else _) as [start count]. apply wp_bind, wp_modify, wp_ret.
  assert (running (set_window start (count + 1) s) (h ++ [EAsk TNow now])) as Hr'' by (by apply (running_same s)).
  destruct (negb _); [by apply frame_after|]. apply wp_ret. by apply running_stopped.
Qed.

(** The delivery of a data frame of the joined room. *)
Lemma deliver_after bytes key r ro s h :
  running s (h ++ [EIn (IOutbound bytes Data)]) -> joined_room s = Some (key, r, true, ro) ->
  wp (deliver cfg live env key ro bytes) after s (h ++ [EIn (IOutbound bytes Data)]).
Proof.
  intros Hr Ej. unfold deliver. apply wp_bind, wp_get. set (fence := default None (connection_lease s)).
  apply wp_bind, (wp_ask (TDelivery key (session_who live) fence)). intros a.
  set (h1 := (h ++ _) ++ _). assert (running s h1) as Hr1 by (by apply running_plain).
  pose proof (running_stopped _ _ Hr1) as Hs1.
  destruct a as [[[code reason]|]| |[admission_ro| |]]; try by apply send_close_after.
  { by apply wp_ret. }
  destruct (ro || negb admission_ro) eqn:Ero; cbn [negb]; [|by apply send_close_after].
  apply wp_bind, (wp_ask TExpired). intros expired.
  assert (running s (h1 ++ [EAsk TExpired expired])) as Hr2 by (by apply running_plain).
  destruct expired; [by apply send_close_after, running_stopped|]. apply send_after; [done|].
  intros b [= <-]. right. right. destruct Hr2 as (_ & _ & Hj). rewrite Ej in Hj. destruct Hj as (_ & _ & join & Hj & Hro).
  exists h, key, join, fence, admission_ro. split; [done|]. split; [unfold h1; by rewrite <- !app_assoc|]. by rewrite Hro.
Qed.

Lemma outbound_after bytes kind s h :
  running s (h ++ [EIn (IOutbound bytes kind)]) -> wp (handle_outbound cfg live env bytes kind) after s (h ++ [EIn (IOutbound bytes kind)]).
Proof.
  intros Hr. unfold handle_outbound. apply wp_bind, wp_get. pose proof Hr as (_ & _ & Hj).
  destruct kind.
  - apply send_after; [done|]. intros b [= <-]. left. eauto.
  - destruct (joined_room s) as [[[[key r] []] ro]|] eqn:Ej; [by eapply deliver_after|..];
      (apply send_after; [done|]; intros b [= <-]; right; left; split; [apply Hj|eauto]).
Qed.

Lemma turn_after i s h : running s h -> wp (turn cfg conn_id live env i) after s h.
Proof.
  intros Hr. unfold turn. apply wp_bind, wp_log. set (h1 := h ++ [EIn i]).
  assert (running s h1) as Hr1 by (by apply running_plain). pose proof (running_stopped _ _ Hr1) as Hs1.
  destruct i as [| |bytes kind|code reason| |[[code reason]|]|bytes|payload| |];
    try (by apply wp_ret); try (by apply send_close_after).
  - by apply outbound_after.
  - by apply binary_after.
  - destruct (max_ws_frame_bytes cfg <? len payload); [by apply wp_ret|]. apply send_after; [done|]. intros b [=].
Qed.

(** Every room that was joined has been left. *)
Definition released (h : history) : Prop := forall key join, (key, join) ∈ joins h -> key ∈ leaves h.

Lemma cleanup_released s h : stopped s h -> wp (cleanup conn_id) (fun _ _ h' => gated h' /\ released h') s h.
Proof.
  intros [Hl Hk]. unfold cleanup. apply wp_bind, wp_get, wp_bind.
  assert (forall h', gated h' /\ released h' ->
    wp (match connection_lease s with Some _ => log EDropLease | None => mret tt end) (fun _ _ h' => gated h' /\ released h') s h') as Hd.
  { intros h' [Hl' Hr']. destruct (connection_lease s); [apply wp_log|by apply wp_ret].
    split; [by apply kept_snoc|]. unfold released. by rewrite joins_snoc, leaves_snoc, !app_nil_r. }
  destruct (joined_room s) as [[[[key r] a] ro]|].
  - apply wp_log, Hd. split; [by apply kept_snoc|]. intros k j. rewrite joins_snoc, leaves_snoc. simpl. rewrite app_nil_r.
    intros Hin. apply elem_of_app. destruct (Hk k j Hin) as [?|(? & ? & ? & [= -> _ _ _])]; [by left|right; by left].
  - apply wp_ret, Hd. split; [done|]. intros k j Hin. by destruct (Hk k j Hin) as [?|(? & ? & ? & [=])].
Qed.

Lemma serve_gate inputs s h : running s h ->
  wp (serve cfg conn_id live env inputs) (fun ended s' h' => gated h' /\ (ended = true -> released h')) s h.
Proof.
  revert s h. induction inputs as [|i inputs IH]; intros s h Hr; cbn [serve].
  { apply wp_ret. split; [apply Hr|done]. }
  apply wp_bind, wp_get. destruct (enabled s i); cbn [negb]; [|by apply IH].
  apply wp_bind. eapply wp_mono; [by apply turn_after|]. intros [] s' h' Ha; [by apply IH|].
  apply wp_bind. eapply wp_mono; [by apply cleanup_released|]. intros _ s2 h2 [Hl Hr2]. by apply wp_ret.
Qed.

End gate.

(** C4: what a collaboration socket does, for every order of its branches and
    whatever the database, the hub, the clock and the peer answer.  It joins one
    room at most, as the session it was opened with, just after the database
    admitted that user, and with the access the database gave.  It forwards
    frames only to the room it joined, and of bounded size.  A data frame of the
    room is written only when the database has just allowed the user to read the
    room, with the access the connection was given, and in time.  Before it is
    authenticated it queues no more frames than the allowance.  When its loop
    has ended, the room it joined has been left. *)
Theorem socket_gate {UL : UuidLib} cfg conn_id live env now inputs :
  0 <= max_pre_auth_outbound_frames cfg ->
  let '(ended, _, h) := handle_socket cfg conn_id live env now inputs in
  gated cfg conn_id live h /\ (ended = true -> released h).
Proof.
  intros Hm. apply (serve_gate cfg conn_id live env inputs). split_and!; [split_and!|..]; try done.
  - apply kept_nil.
  - unfold queued. simpl. lia.
Qed.


(** An upgrade is granted only to one matching browser origin with a live
    session that holds a socket permit. *)
Theorem entry_checked {UL : UuidLib} {UO : UrlOrigin} on public_origin h upgradable live permit session :
  collab_entry on public_origin h upgradable live permit = RUpgraded session ->
  on = true /\ is_ws_upgrade h = true /\ upgradable = true /\ permit (session_id session) = true /\
  (exists token, cookie_value h SESSION_COOKIE = Some token /\ live token = Some session) /\
  exists origin text, get_all (bs "origin") h = [origin] /\ to_str origin = Some text /\
    is_Some (normalize_public_origin public_origin) /\ normalize_public_origin (trim text) = normalize_public_origin public_origin.
Proof.
  unfold collab_entry. destruct on; [|done]. destruct (is_ws_upgrade h); [|done]. cbn [negb].
  destruct (validate_collab_origin h public_origin) as [[]|e] eqn:Ev; [|done]. destruct upgradable; [|done]. cbn [negb].
  destruct (cookie_value h SESSION_COOKIE) as [token|]; cbn [mbind option_bind]; [|done]. destruct (live token) as [s|] eqn:El; [|done].
  destruct (permit (session_id s)) eqn:Ep; [|done]. intros [= <-]. split_and!; eauto.
  unfold validate_collab_origin in Ev. destruct (get_all (bs "origin") h) as [|origin [|? ?]]; [done| |done].
  exists origin. destruct (to_str origin) as [text|]; cbn [fmap option_fmap option_map] in Ev; [|done]. exists text. split_and!; [done|done|..];
    (destruct (trim text) as [|b t]; [done|]; destruct (normalize_public_origin public_origin) as [expected|]; [|done];
     destruct (normalize_public_origin (b :: t)) as [actual|]; [|done]; case_bool_decide; [|done]).
  - by eexists.
  - by subst.
Qed.

(** ** A run *)

Definition w_transport : TransportConfig :=
  {| max_ws_frame_bytes := 4096; max_ws_message_bytes := 4096; max_pre_auth_outbound_frames := 4;
     max_inbound_messages_per_window := 16; inbound_message_window_ms := 1000 |}.

Definition w_live : CollabSession := Session (Uuid128 7 eq_refl) (Uuid128 8 eq_refl) [] None [].

Definition w_routing : str := Wire.routing_key {| Wire.workspace_id := Uuid128 1 eq_refl; Wire.kind := Document; Wire.resource_id := Uuid128 2 eq_refl |}.

Definition w_token : list byte :=
  match encode (FDocument w_routing None (DAuth (Token (bs "5") None))) with Ok b => b | Err _ => [] end.

(** Surroundings that admit, join, allow and send. *)
Definition w_env : Env := fun q _ =>
  match q return answer q with
  | TDelivery _ _ _ => Answered (Allowed false)
  | TExpired => false
  | TSend _ => true
  | TNow => 0
  | TAdmission _ _ => Ok (Ok false)
  | TShuttingDown => false
  | TQueue _ => true
  | TJoin _ _ => Ok None
  end.

Definition w_run : bool * Socket * history :=
  handle_socket w_transport (Uuid128 9 eq_refl) w_live w_env 0 [IBinary w_token; IOutbound [Byte.x01] Data; IBinary [Byte.x02]; IEnd].

Lemma socket_gate_witness :
  length (joins w_run.2) = 1%nat /\ w_run.1.1 = true /\
  gated w_transport (Uuid128 9 eq_refl) w_live w_run.2 /\ released w_run.2.
Proof.
  pose proof (socket_gate w_transport (Uuid128 9 eq_refl) w_live w_env 0
    [IBinary w_token; IOutbound [Byte.x01] Data; IBinary [Byte.x02]; IEnd] ltac:(by vm_compute)) as H.
  assert (length (joins w_run.2) = 1%nat /\ w_run.1.1 = true) as [H1 H2] by (by vm_compute).
  split; [done|]. split; [done|]. unfold w_run in *. destruct (handle_socket _ _ _ _ _ _) as [[ended s] h].
  destruct H as [Hl Hr]. split; [done|]. by apply Hr.
Defined.
