(* ===== verification/RoomFacts.v ===== *)
(** * What the room actor's operations do

    Every operation is a sequence of small effects ([eff]): each changes one
    part of the world, under the condition the code has established when it
    gets there.  The handlers are shown to be such sequences once; the
    invariants of the room then follow by induction over the effects. *)

From stdpp Require Import base list numbers strings gmap relations.
From Stdlib Require Import ZArith Lia.
From S2P Require Import Prelude Text Uuid Json Wire YSync Awareness AwarenessFacts Hub.
From S2P Require Import RoomTypes Room RoomSync RoomLoop.

Section facts.
Context {UL : UuidLib} {UN : UuidNil} {RL : RoomLib} {J : SerdeJson}.

(** ** Histories *)

(** The command a history is in, and what happened since it was taken up. *)
Definition since (s : list Event) (e : Event) : list Event := match e with Started _ => [] | _ => s ++ [e] end.
Definition segment (tr : list Event) : list Event := foldl since [] tr.

Definition is_started (e : Event) : bool := match e with Started _ => true | _ => false end.

Lemma segment_snoc tr e : segment (tr ++ [e]) = since (segment tr) e.
Proof. unfold segment. by rewrite foldl_app. Qed.

Lemma segment_app tr t : Forall (fun e => is_started e = false) t -> segment (tr ++ t) = segment tr ++ t.
Proof.
  revert tr. induction t as [|e t IH]; intros tr H; [by rewrite !app_nil_r|]. inversion_clear H as [|? ? He Ht].
  rewrite (cons_middle e tr t), (app_assoc tr), (IH _ Ht), segment_snoc. unfold since. destruct e; [done|..]; by rewrite <- app_assoc.
Qed.

(** The database has acknowledged [p] at [seq]: the append was answered, or its
    receipt was found. *)
Definition attempt (e : Event) : option AppendCollabInput :=
  match e with Asked (QAppend _ i) _ => Some i | Asked (QRestore _ i _) _ => Some i | _ => None end.

Definition append_answer (e : Event) : option (AppendCollabInput * Z) :=
  match e with
  | Asked q a =>
    match q return ans q -> _ with
    | QAppend _ i => fun a => match a with Ok (Ok r) => Some (i, result_seq r) | _ => None end
    | QRestore _ i _ => fun a => match a with Ok (Ok (r, _)) => Some (i, result_seq r) | _ => None end
    | _ => fun _ => None
    end a
  | _ => None
  end.

Definition receipt (e : Event) : option (uuid * Z * list byte * Z) :=
  match e with
  | Asked q a =>
    match q return ans q -> _ with
    | QVerify _ op n digest _ => fun a => match a with Ok (Ok seq) => Some (op, n, digest, seq) | _ => None end
    | _ => fun _ => None
    end a
  | _ => None
  end.

Definition acked (s : list Event) (p : list byte) (seq : Z) : Prop :=
  (exists e i, e ∈ s /\ append_answer e = Some (i, seq) /\ a_payload i = p) \/
  (exists e e' i, e ∈ s /\ e' ∈ s /\ attempt e = Some i /\ a_payload i = p /\ receipt e' = Some (a_op_id i, len p, sha256 p, seq)).

(** The user may write, as the database has just said. *)
Definition grant (e : Event) : option who :=
  match e with
  | Asked q a =>
    match q return ans q -> _ with
    | QDelivery w _ => fun a => match a with Ok (Allowed false) => Some w | _ => None end
    | QAdmission w => fun a => match a with Ok (Ok false) => Some w | _ => None end
    | _ => fun _ => None
    end a
  | _ => None
  end.
Definition granted (s : list Event) (w : who) : Prop := exists e, e ∈ s /\ grant e = Some w.

(** The engine has taken the update on top of the committed state. *)
Definition admits (e : Event) : option (list byte) :=
  match e with
  | Asked q a =>
    match q return ans q -> _ with
    | QCall (RApply p) => fun a => if is_applied_ok a then Some p else None
    | QBundle _ _ p => fun a => match a with VOk => Some p | _ => None end
    | _ => fun _ => None
    end a
  | _ => None
  end.
Definition admitted (s : list Event) (p : list byte) : Prop := exists e, e ∈ s /\ admits e = Some p.

(** The generations the database has granted this room. *)
Definition generation (e : Event) : option Z :=
  match e with
  | Asked q a =>
    match q return ans q -> _ with
    | QClaim _ => fun a => match a with Ok (Ok c) => Some (cl_writer_generation c) | _ => None end
    | QActivate _ _ _ => fun a => match a with Ok (Ok (_, c)) => Some (cl_writer_generation c) | _ => None end
    | _ => fun _ => None
    end a
  | _ => None
  end.
Definition claimed (tr : list Event) (g : Z) : Prop := exists e, e ∈ tr /\ generation e = Some g.

(** The committed state a history leads to. *)
Definition extend (c : CommittedBundle) (seq : Z) (p : list byte) : CommittedBundle :=
  Bundle (snapshot c) (tail_payloads c ++ [p]) seq (snapshot_cutoff_seq c).
Definition replay_step (c : CommittedBundle) (e : Event) : CommittedBundle :=
  match e with Adopted b => b | Extended seq p => extend c seq p | _ => c end.
Definition initial_bundle : CommittedBundle := Bundle [Byte.x00; Byte.x00] [] 0 0.
Definition replay (tr : list Event) : CommittedBundle := foldl replay_step initial_bundle tr.

Lemma replay_snoc tr e : replay (tr ++ [e]) = replay_step (replay tr) e.
Proof. unfold replay. by rewrite foldl_app. Qed.

(** An update in a sync message. *)
Definition carries (y p : list byte) : Prop :=
  y = encode_sync_payload Update p \/ exists st, parse_sync_payload y (max_binary_payload_bytes DEFAULT) = Ok (st, p).

(** The update of the frame being handled. *)
Definition frame_payload (bytes : list byte) : option (list byte) :=
  match decode bytes with
  | Ok (FDocument _ _ (DSync m)) =>
    match parse_sync_payload (y_protocol m) (max_binary_payload_bytes DEFAULT) with Ok (_, p) => Some p | Err _ => None end
  | _ => None
  end.

Definition current (tr : list Event) : option RoomCommand :=
  foldl (fun c e => match e with Started c => Some c | _ => c end) None tr.

Lemma current_snoc tr e : current (tr ++ [e]) = match e with Started c => Some c | _ => current tr end.
Proof. unfold current. rewrite foldl_app. by destruct e. Qed.

(** What may be queued at this point: an update only once it is durable, a
    positive status only for the frame in hand, if its update is durable or
    empty. *)
Definition may_send (tr : list Event) (conn_id : uuid) (f : WireFrame) : Prop :=
  match f with
  | FDocument _ _ (DSync m) =>
    match step m with Update => exists p seq, carries (y_protocol m) p /\ acked (segment tr) p seq | _ => True end
  | FDocument _ _ (DSyncStatus true) =>
    exists bytes p, current tr = Some (CFrame conn_id bytes) /\ frame_payload bytes = Some p /\
      (is_empty_update p = true \/ exists seq, acked (segment tr) p seq)
  | _ => True
  end.

(** What an append needs at this point. *)
Definition may_append (tr : list Event) (a : RoomActor) (i : AppendCollabInput) : Prop :=
  granted (segment tr) (a_actor_user_id i, a_session_id i) /\ admitted (segment tr) (a_payload i) /\
  writer_generation a = Some (a_writer_generation i) /\ a_expected_tail_seq i = tail_seq (committed a) /\
  is_Some (room_guard a).

(** ** Budgets *)

(** The permits in the channels. *)
Definition chan_permits (c : Channel) : list Permit := (queue c ++ option_list (sending c)) ≫= event_permit.
Definition all_permits (cs : gmap nat Channel) : list Permit := (map_to_list cs).*2 ≫= chan_permits.
Definition held (b : nat) (ps : list Permit) : list Permit := filter (fun p => p_budget p = b) ps.
Definition bytes_of (ps : list Permit) : Z := total p_bytes ps.

(** Every budget accounts exactly for the permits [ps] that are out. *)
Definition balanced (cfg : CollabConfig) (ps : list Permit) (bs : gmap nat Budget) : Prop :=
  Forall (fun p => 0 <= p_bytes p /\ is_Some (bs !! p_budget p)) ps /\
  forall b v, bs !! b = Some v ->
    frames_free v = max_outbound_frames_per_connection cfg - len (held b ps) /\ 0 <= frames_free v /\
    queued_bytes v = bytes_of (held b ps) /\ queued_bytes v <= max_bytes v /\ max_bytes v = max_outbound_bytes_per_connection cfg.

#[export] Instance bytes_of_Proper : Proper ((≡ₚ) ==> eq) bytes_of.
Proof. induction 1; unfold bytes_of, total in *; simpl; lia. Qed.

#[export] Instance len_Proper {A} : Proper ((≡ₚ) ==> eq) (@len A).
Proof. intros l k H. unfold len. by rewrite H. Qed.

#[export] Instance balanced_Proper cfg : Proper ((≡ₚ) ==> eq ==> iff) (balanced cfg).
Proof.
  intros l k H bs ? <-. unfold balanced, held. rewrite H. split; intros [? Hb]; (split; [done|]); intros b v Hv.
  - rewrite <- H. by apply Hb.
  - rewrite H. by apply Hb.
Qed.

Lemma held_cons_eq b p ps : p_budget p = b -> held b (p :: ps) = p :: held b ps.
Proof. intros H. unfold held. by rewrite filter_cons_True. Qed.
Lemma held_cons_ne b p ps : p_budget p <> b -> held b (p :: ps) = held b ps.
Proof. intros H. unfold held. by rewrite filter_cons_False. Qed.

Lemma bytes_of_nonneg cfg b ps bs : balanced cfg ps bs -> 0 <= bytes_of (held b ps).
Proof.
  intros [H _]. unfold held, bytes_of. induction H as [|p ps [Hp _] _ IH]; [done|].
  rewrite filter_cons. case_decide; simpl; unfold total in *; lia.
Qed.

(** A permit is given back. *)
Lemma balanced_drop cfg p ps bs : balanced cfg (p :: ps) bs -> balanced cfg ps (drop_permit p bs).
Proof.
  intros HB. pose proof (bytes_of_nonneg cfg (p_budget p) ps bs) as Hn. destruct HB as [H Hb].
  inversion_clear H as [|? ? [Hp [v Hv]] Hps]. unfold drop_permit. rewrite Hv. split.
  - eapply Forall_impl; [exact Hps|]. intros q [? [u Hu]]. split; [done|]. rewrite lookup_insert_is_Some'. right. by eexists.
  - intros b u Hu. destruct (decide (b = p_budget p)) as [->|Hne].
    + rewrite lookup_insert_eq in Hu. injection Hu as <-. destruct (Hb _ _ Hv) as (F & F0 & Q & Q1 & M).
      rewrite held_cons_eq, len_cons in F by done. rewrite held_cons_eq in Q by done.
      unfold bytes_of in *. simpl in *. unfold total in *. split_and!; try done; try lia.
    + rewrite lookup_insert_ne in Hu by done. destruct (Hb _ _ Hu) as (F & F0 & Q & Q1 & M).
      rewrite held_cons_ne in F, Q by done. done.
Qed.

Lemma balanced_drops cfg qs ps bs : balanced cfg (qs ++ ps) bs -> balanced cfg ps (foldr drop_permit bs qs).
Proof.
  revert ps. induction qs as [|q qs IH]; intros ps H; simpl; [done|]. apply balanced_drop, IH. by rewrite <- Permutation_middle.
Qed.

(** A frame and its bytes are taken from a budget. *)
Lemma balanced_take cfg b n v ps bs :
  balanced cfg ps bs -> bs !! b = Some v -> 0 < frames_free v -> queued_bytes v + n <= max_bytes v -> 0 <= n ->
  balanced cfg (MkPermit b n :: ps) (<[b := Bud (frames_free v - 1) (queued_bytes v + n) (max_bytes v)]> bs).
Proof.
  intros [H Hb] Hv Hf Hq Hn. split.
  - constructor; [split; [done|]; simpl; by rewrite lookup_insert_eq|]. eapply Forall_impl; [exact H|]. intros q [? Hs].
    split; [done|]. rewrite lookup_insert_is_Some'. by right.
  - intros b' u Hu. destruct (decide (b' = b)) as [->|Hne].
    + rewrite lookup_insert_eq in Hu. injection Hu as <-. destruct (Hb _ _ Hv) as (F & F0 & Q & Q1 & M).
      rewrite held_cons_eq, len_cons by done. unfold bytes_of in *. simpl. unfold total in *. split_and!; try done; lia.
    + rewrite lookup_insert_ne in Hu by done. rewrite held_cons_ne by (simpl; congruence). by apply Hb.
Qed.

(** The permits of the channels, one of them replaced. *)
Lemma all_permits_delete cs ch c : cs !! ch = Some c -> all_permits cs ≡ₚ chan_permits c ++ all_permits (delete ch cs).
Proof. intros H. unfold all_permits. by rewrite <- (map_to_list_delete cs ch c H). Qed.

Lemma all_permits_insert cs ch c : all_permits (<[ch := c]> cs) ≡ₚ chan_permits c ++ all_permits (delete ch cs).
Proof. rewrite <- insert_delete_eq. unfold all_permits. by rewrite map_to_list_insert by apply lookup_delete_eq. Qed.

Definition accounted (cfg : CollabConfig) (hand : list Permit) (cs : gmap nat Channel) (bs : gmap nat Budget) : Prop :=
  balanced cfg (hand ++ all_permits cs) bs.

(** A channel changes and loses the permits [qs], which are dropped. *)
Lemma accounted_chan cfg hand cs bs ch c c' qs :
  accounted cfg hand cs bs -> cs !! ch = Some c -> chan_permits c ≡ₚ qs ++ chan_permits c' ->
  accounted cfg hand (<[ch := c']> cs) (foldr drop_permit bs qs).
Proof.
  unfold accounted. intros H Hc Hp. apply balanced_drops. rewrite all_permits_insert, (all_permits_delete _ _ _ Hc), Hp in *.
  by rewrite <- !app_assoc, Permutation_app_swap_app in H.
Qed.

(** A permit in hand goes into a channel. *)
Lemma accounted_put cfg hand cs bs ch c c' qs :
  accounted cfg (qs ++ hand) cs bs -> cs !! ch = Some c -> chan_permits c' ≡ₚ qs ++ chan_permits c ->
  accounted cfg hand (<[ch := c']> cs) bs.
Proof.
  unfold accounted. intros H Hc Hp. rewrite all_permits_insert, Hp. rewrite (all_permits_delete _ _ _ Hc) in H.
  rewrite <- app_assoc in *. by rewrite (Permutation_app_swap_app hand qs).
Qed.

Lemma accounted_transport cfg hand t cs bs cs' bs' :
  transport_step t (cs, bs) = (cs', bs') -> accounted cfg hand cs bs -> accounted cfg hand cs' bs'.
Proof.
  intros E H. destruct t as [ch|ch|ch|ch e]; simpl in E; destruct (cs !! ch) as [c|] eqn:Hc; try by simplify_eq.
  - destruct c as [[|e q] cap cl [s|] hc cv]; simplify_eq; try done.
    eapply (accounted_chan _ _ _ _ _ _ _ []); [done..|]. unfold chan_permits. simpl. rewrite !bind_app. simpl.
    rewrite !app_nil_r. apply Permutation_app_comm.
  - destruct c as [q cap cl [s|] hc cv]; simplify_eq; try done. unfold drop_events. simpl. rewrite app_nil_r.
    eapply accounted_chan; [done..|]. unfold chan_permits. simpl. rewrite !bind_app. simpl. rewrite !app_nil_r. apply Permutation_app_comm.
  - simplify_eq. eapply accounted_chan; [done..|]. unfold chan_permits. simpl. by rewrite bind_app.
  - destruct (event_permit e) eqn:He; [|by simplify_eq]. case_match; simplify_eq; try done.
    eapply (accounted_chan _ _ _ _ _ _ _ []); [done..|]. unfold chan_permits. simpl. rewrite !bind_app. simpl. by rewrite He, !app_nil_r.
Qed.

(** What transports do to the channels and the budgets keeps every account and
    never fills a budget. *)
Definition frees (bs bs' : gmap nat Budget) : Prop :=
  forall b v, bs !! b = Some v -> exists v', bs' !! b = Some v' /\ max_bytes v' = max_bytes v /\ queued_bytes v' <= queued_bytes v.

#[export] Instance frees_PreOrder : PreOrder frees.
Proof.
  split; [by intros bs b v ?; exists v|]. intros x y z H1 H2 b v Hv. destruct (H1 b v Hv) as (u & Hu & ? & ?).
  destruct (H2 b u Hu) as (w & Hw & ? & ?). exists w. split_and!; [done|congruence|lia].
Qed.

Lemma drop_permit_frees p bs : 0 <= p_bytes p -> frees bs (drop_permit p bs).
Proof.
  intros Hp b v Hv. unfold drop_permit. destruct (bs !! p_budget p) as [u|] eqn:Hu; [|by exists v].
  destruct (decide (b = p_budget p)) as [->|]; [rewrite lookup_insert_eq|rewrite lookup_insert_ne by done; by exists v].
  eexists. split; [done|]. simplify_eq. simpl. split; [done|lia].
Qed.

Lemma drops_frees ps bs : Forall (fun p => 0 <= p_bytes p) ps -> frees bs (foldr drop_permit bs ps).
Proof. induction 1; simpl; [reflexivity|]. etrans; [done|]. by apply drop_permit_frees. Qed.

Lemma accounted_nonneg cfg hand cs bs ch c :
  accounted cfg hand cs bs -> cs !! ch = Some c -> Forall (fun p => 0 <= p_bytes p) (chan_permits c).
Proof.
  intros [H _] Hc. rewrite (all_permits_delete _ _ _ Hc), !Forall_app in H. destruct H as (_ & H & _).
  eapply Forall_impl; [exact H|]. by intros ? [].
Qed.

Lemma transport_frees cfg hand t cs bs cs' bs' :
  transport_step t (cs, bs) = (cs', bs') -> accounted cfg hand cs bs -> frees bs bs'.
Proof.
  intros E H. destruct t as [ch|ch|ch|ch e]; simpl in E; destruct (cs !! ch) as [c|] eqn:Hc; try (simplify_eq; reflexivity);
    pose proof (accounted_nonneg _ _ _ _ _ _ H Hc) as Hn; unfold chan_permits in Hn; rewrite bind_app, Forall_app in Hn; destruct Hn as [Hq Hs].
  - destruct c as [[|e q] cap cl [s|] hc cv]; simplify_eq; reflexivity.
  - destruct c as [q cap cl [s|] hc cv]; simplify_eq; try reflexivity. by apply drops_frees.
  - simplify_eq. by apply drops_frees.
  - destruct (event_permit e); [|by simplify_eq]. case_match; simplify_eq; reflexivity.
Qed.

Lemma moves_accounted cfg hand ts : forall cs bs cs' bs',
  foldl (fun s t => transport_step t s) (cs, bs) ts = (cs', bs') -> accounted cfg hand cs bs ->
  accounted cfg hand cs' bs' /\ frees bs bs'.
Proof.
  induction ts as [|t ts IH]; intros cs bs cs' bs' E H; cbn [foldl] in E; [simplify_eq; done|].
  destruct (transport_step t (cs, bs)) as [cs1 bs1] eqn:Et. destruct (IH _ _ _ _ E) as [? ?]; [by eapply accounted_transport|].
  split; [done|]. etrans; [by eapply transport_frees|done].
Qed.

End facts.
