(* ===== verification/RoomEffects.v ===== *)
(** * The effects of a room

    [eff] lists the steps an operation of the actor is made of, each with what
    the code has established when it takes it.  [under T m] says that [m] is a
    sequence of such steps wherever the history satisfies [T]. *)

From stdpp Require Import base list numbers strings gmap relations.
From Stdlib Require Import ZArith Lia.
From S2P Require Import Prelude Text Uuid Json Wire YSync Awareness AwarenessFacts Hub.
From S2P Require Import RoomTypes Room RoomSync RoomLoop RoomFacts.

Section effects.
Context {UL : UuidLib} {UN : UuidNil} {RL : RoomLib} {J : SerdeJson}.

(** ** Steps *)

(** The part of the actor the invariants are about. *)
Definition core (a : RoomActor) :=
  (config a, room_guard a, writer_generation a, committed a, connections a, reg_generation (awareness a), client_id_owner a, fence_lost a).

Definition io (cs : gmap nat Channel) (bs : gmap nat Budget) (cs' : gmap nat Channel) (bs' : gmap nat Budget) : Prop :=
  forall cfg hand, accounted cfg hand cs bs -> accounted cfg hand cs' bs'.

Lemma io_refl cs bs : io cs bs cs bs.
Proof. by intros ?. Qed.
Hint Resolve io_refl : core.

Lemma io_trans cs bs cs1 bs1 cs2 bs2 : io cs bs cs1 bs1 -> io cs1 bs1 cs2 bs2 -> io cs bs cs2 bs2.
Proof. intros H1 H2 cfg hand H. by apply H2, H1. Qed.

(** A connection keeps its owner, its client and its channel. *)
Definition same_conn (c c' : ConnectionState) : Prop :=
  session c' = session c /\ conn_client_id c' = conn_client_id c /\ read_only c' = read_only c /\ routing_key c' = routing_key c /\
  events c' = events c /\ outbound_budget c' = outbound_budget c /\ conn_generation c' = conn_generation c.

(** The owners recorded for the clients of connections are kept. *)
Definition owners_kept (a : RoomActor) (owners : gmap Z (uuid * Z)) : Prop :=
  forall k c t, connections a !! k = Some c -> client_id_owner a !! conn_client_id c = Some (user_id (session c), t) ->
    exists t', owners !! conn_client_id c = Some (user_id (session c), t').

Inductive eff : World -> World -> Prop :=
| eff_io a cs bs tr n cs' bs' n' : io cs bs cs' bs' -> eff (MkWorld a cs bs tr n) (MkWorld a cs' bs' tr n')
| eff_quiet a a' cs bs tr n : core a' = core a -> eff (MkWorld a cs bs tr n) (MkWorld a' cs bs tr n)
| eff_ask a cs bs tr n q r : attempt (Asked q r) = None -> eff (MkWorld a cs bs tr n) (MkWorld a cs bs (tr ++ [Asked q r]) n)
| eff_append a cs bs tr n q r i :
    attempt (Asked q r) = Some i -> may_append tr a i -> eff (MkWorld a cs bs tr n) (MkWorld a cs bs (tr ++ [Asked q r]) n)
| eff_deliver a cs bs tr n k f :
    may_send tr k f -> is_Some (connections a !! k) -> eff (MkWorld a cs bs tr n) (MkWorld a cs bs (tr ++ [Delivered k f]) n)
| eff_conn a cs bs tr n k c c' :
    connections a !! k = Some c -> same_conn c c' ->
    eff (MkWorld a cs bs tr n) (MkWorld (set_connections (<[k := c']> (connections a)) a) cs bs tr n)
| eff_drop a a' cs bs tr n m :
    m ⊆ connections a -> core a' = core (set_connections m a) -> eff (MkWorld a cs bs tr n) (MkWorld a' cs bs tr n)
| eff_writer a cs bs tr n g :
    claimed tr g -> is_Some (room_guard a) -> eff (MkWorld a cs bs tr n) (MkWorld (set_writer_generation (Some g) a) cs bs tr n)
| eff_unwriter a cs bs tr n : eff (MkWorld a cs bs tr n) (MkWorld (set_writer_generation None a) cs bs tr n)
| eff_guard a cs bs tr n g :
    is_Some (room_guard a) -> eff (MkWorld a cs bs tr n) (MkWorld (set_room_guard (Some g) a) cs bs tr n)
| eff_unguard a cs bs tr n : eff (MkWorld a cs bs tr n) (MkWorld (set_room_guard None a) cs bs tr n)
| eff_adopt a cs bs tr n b : eff (MkWorld a cs bs tr n) (MkWorld (set_committed b a) cs bs (tr ++ [Adopted b]) n)
| eff_extend a cs bs tr n seq p :
    acked (segment tr) p seq -> seq = tail_seq (committed a) + 1 ->
    eff (MkWorld a cs bs tr n) (MkWorld (set_committed (extend (committed a) seq p) a) cs bs (tr ++ [Extended seq p]) n)
| eff_owners a cs bs tr n owners :
    owners_kept a owners -> eff (MkWorld a cs bs tr n) (MkWorld (set_client_id_owner owners a) cs bs tr n)
| eff_fatal a a' cs bs tr n cs' bs' n' q r :
    core a' = core (set_room_guard None (set_writer_generation None (set_fence_lost true (set_connections ∅ a)))) ->
    io cs bs cs' bs' -> attempt (Asked q r) = None ->
    eff (MkWorld a cs bs tr n) (MkWorld a' cs' bs' (tr ++ [Asked q r]) n').

(** ** Histories grow *)

Lemma eff_trace w w' : eff w w' -> trace w' = trace w \/ exists e, trace w' = trace w ++ [e] /\ is_started e = false.
Proof. destruct 1; simpl; (by left) || (right; eexists; split; [reflexivity|]; by try destruct q). Qed.

(** What stays true of a history while its command runs. *)
Class Mono (T : list Event -> Prop) : Prop := mono tr e : is_started e = false -> T tr -> T (tr ++ [e]).

Lemma mono_eff T `{Mono T} w w' : rtc eff w w' -> T (trace w) -> T (trace w').
Proof.
  induction 1 as [|x y z Hxy _ IH]; [done|]. intros Hx. apply IH. destruct (eff_trace _ _ Hxy) as [->|(e & -> & He)]; [done|]. by apply mono.
Qed.

#[export] Instance Mono_True : Mono (fun _ => True).
Proof. done. Qed.
#[export] Instance Mono_and T U `{Mono T, Mono U} : Mono (fun tr => T tr /\ U tr).
Proof. intros tr e He [HT HU]. split; by apply mono. Qed.

Lemma segment_quiet tr e : is_started e = false -> segment (tr ++ [e]) = segment tr ++ [e].
Proof. intros He. rewrite segment_snoc. by destruct e. Qed.

#[export] Instance Mono_acked p seq : Mono (fun tr => acked (segment tr) p seq).
Proof. intros tr e He. rewrite (segment_quiet _ _ He). unfold acked. intros [(x & i & ? & ?)|(x & y & i & ? & ? & ?)]; [left; exists x, i|right; exists x, y, i]; set_solver. Qed.
#[export] Instance Mono_granted w : Mono (fun tr => granted (segment tr) w).
Proof. intros tr e He. rewrite (segment_quiet _ _ He). intros (x & ? & ?). exists x. set_solver. Qed.
#[export] Instance Mono_admitted p : Mono (fun tr => admitted (segment tr) p).
Proof. intros tr e He. rewrite (segment_quiet _ _ He). intros (x & ? & ?). exists x. set_solver. Qed.
#[export] Instance Mono_claimed g : Mono (fun tr => claimed tr g).
Proof. intros tr e He (x & ? & ?). exists x. set_solver. Qed.
#[export] Instance Mono_current c : Mono (fun tr => current tr = c).
Proof. intros tr e He. rewrite current_snoc. by destruct e. Qed.
#[export] Instance Mono_tried P : Mono (fun tr => exists e, e ∈ segment tr /\ P e).
Proof. intros tr e He. rewrite (segment_quiet _ _ He). intros (x & ? & ?). exists x. set_solver. Qed.

(** ** Operations as sequences of steps *)

Definition under {A} (T : list Event -> Prop) (m : M A) : Prop := forall o w, T (trace w) -> rtc eff w (m o w).2.

(** Only channels, budgets and the clock move. *)
Definition io_only {A} (m : M A) : Prop := forall o w, exists cs bs n,
  (m o w).2 = MkWorld (self w) cs bs (trace w) n /\ io (chans w) (budgets w) cs bs.

Lemma bind_run {A B} (m : M A) (k : A -> M B) o w : (m ≫= k) o w = k (m o w).1 o (m o w).2.
Proof. unfold mbind, M_bind. by destruct (m o w). Qed.

Lemma eff_once w w' : eff w w' -> rtc eff w w'.
Proof. apply rtc_once. Qed.

Section under.
Variable T : list Event -> Prop.
Context `{HT : Mono T}.

Lemma under_ret {A} (x : A) : under T (mret x).
Proof. intros o w _. apply rtc_refl. Qed.

Lemma under_bind {A B} (m : M A) (k : A -> M B) : under T m -> (forall x, under T (k x)) -> under T (m ≫= k).
Proof.
  intros Hm Hk o w Hw. rewrite bind_run. specialize (Hm o w Hw). etrans; [exact Hm|]. apply Hk. by eapply mono_eff.
Qed.

Lemma under_try {E A B} (m : M (result E A)) (k : A -> M (result E B)) :
  under T m -> (forall x, under T (k x)) -> under T (try_ m k).
Proof. intros Hm Hk. apply under_bind; [done|]. intros [x|e]; [done|apply under_ret]. Qed.

Lemma under_get {A} (f : RoomActor -> A) : under T (get f).
Proof. intros o w _. apply rtc_refl. Qed.

Lemma under_modify f : (forall a, core (f a) = core a) -> under T (modify f).
Proof. intros Hf o [a cs bs tr n] _. apply eff_once. by constructor. Qed.

Lemma under_io {A} (m : M A) : io_only m -> under T m.
Proof. intros Hm o [a cs bs tr n] _. destruct (Hm o (MkWorld a cs bs tr n)) as (cs' & bs' & n' & -> & Hio). apply eff_once. by constructor. Qed.

Lemma moves_io o n cs bs cs' bs' : foldl (fun s t => transport_step t s) (cs, bs) (moves o n) = (cs', bs') -> io cs bs cs' bs'.
Proof. intros E cfg hand H. by eapply moves_accounted. Qed.

Lemma ask_steps q o w (P : Prop) :
  (forall cs bs, eff (MkWorld (self w) cs bs (trace w) (S (tick w))) (MkWorld (self w) cs bs (trace w ++ [Asked q (answers o (tick w) q)]) (S (tick w)))) ->
  rtc eff w (ask q o w).2.
Proof.
  intros H. unfold ask. destruct (foldl _ _ _) as [cs bs] eqn:E. simpl. eapply rtc_l; [|apply eff_once, H].
  destruct w. constructor. by eapply moves_io.
Qed.

Lemma under_ask q : (forall r, attempt (Asked q r) = None) -> under T (ask q).
Proof. intros Hq o w _. apply (ask_steps q o w True). intros. by apply eff_ask. Qed.

Lemma under_for_each {A} (f : A -> M unit) l : (forall x, under T (f x)) -> under T (for_each f l).
Proof. intros Hf. induction l; simpl; [apply under_ret|]. apply under_bind; auto. Qed.

End under.

(** Weaker knowledge is enough. *)
Lemma under_weaken {A} (T U : list Event -> Prop) (m : M A) : (forall tr, U tr -> T tr) -> under T m -> under U m.
Proof. intros H Hm o w Hw. by apply Hm, H. Qed.

(** ** Channels *)

Lemma io_only_ret {A} (x : A) : io_only (mret x).
Proof. intros o [a cs bs tr n]. exists cs, bs, n. split; [done|]. by intros ?. Qed.

Lemma io_only_bind {A B} (m : M A) (k : A -> M B) : io_only m -> (forall x, io_only (k x)) -> io_only (m ≫= k).
Proof.
  intros Hm Hk o w. rewrite bind_run. destruct (Hm o w) as (cs & bs & n & -> & H1).
  destruct (Hk (m o w).1 o (MkWorld (self w) cs bs (trace w) n)) as (cs' & bs' & n' & -> & H2). simpl in *.
  exists cs', bs', n'. split; [done|]. by eapply io_trans.
Qed.

Lemma io_only_for_each {A} (f : A -> M unit) l : (forall x, io_only (f x)) -> io_only (for_each f l).
Proof. intros Hf. induction l; simpl; [apply io_only_ret|]. apply io_only_bind; auto. Qed.

Lemma io_only_yield : io_only yield.
Proof.
  intros o w. unfold yield. destruct (foldl _ _ _) as [cs bs] eqn:E. exists cs, bs, (S (tick w)). split; [done|]. by eapply moves_io.
Qed.

(** The permit of an event goes into the channel with it, or is dropped. *)
Lemma try_send_run ch e o w : exists cs bs,
  (try_send ch e o w).2 = MkWorld (self w) cs bs (trace w) (tick w) /\
  forall cfg hand, accounted cfg (event_permit e ++ hand) (chans w) (budgets w) -> accounted cfg hand cs bs.
Proof.
  destruct w as [a cs bs tr n]. unfold try_send, get_chan, mbind, M_bind. simpl.
  destruct (cs !! ch) as [c|] eqn:Hc; [destruct (closed c); [|destruct (_ <=? _)%nat]|]; simpl; do 2 eexists; (split; [done|]);
    intros cfg hand H; unfold drop_events; simpl; rewrite ?app_nil_r.
  3: { eapply accounted_put; [done..|]. unfold chan_permits. simpl. rewrite !bind_app. simpl. rewrite app_nil_r.
       rewrite <- app_assoc. apply Permutation_app_swap_app. }
  all: unfold accounted in *; rewrite <- app_assoc in H; by apply balanced_drops.
Qed.

Lemma io_only_try_send ch e : event_permit e = [] -> io_only (try_send ch e).
Proof.
  intros He o w. destruct (try_send_run ch e o w) as (cs & bs & E & H). rewrite He in H. exists cs, bs, (tick w). done.
Qed.

Lemma io_only_signal ch code reason : io_only (signal_cancel ch code reason).
Proof.
  intros o [a cs bs tr n]. unfold signal_cancel, get_chan, mbind, M_bind. simpl. destruct (cs !! ch) as [c|] eqn:Hc; simpl; [|do 3 eexists; split; [reflexivity|]; simpl; done].
  destruct (has_cancel c); simpl; [|do 3 eexists; split; [reflexivity|]; simpl; done]. do 3 eexists. split; [done|]. intros cfg hand H.
  by eapply (accounted_chan _ _ _ _ _ _ _ []).
Qed.

Lemma io_only_close ch code reason : io_only (enqueue_close ch code reason).
Proof.
  apply io_only_bind; [apply io_only_signal|]. intros _. apply io_only_bind; [apply io_only_yield|]. intros _.
  apply io_only_bind; [by apply io_only_try_send|]. intros _. apply io_only_ret.
Qed.

Lemma io_only_close_ordered ch code reason : io_only (enqueue_close_ordered ch code reason).
Proof.
  apply io_only_bind; [by apply io_only_try_send|]. intros r. case_bool_decide; [apply io_only_ret|apply io_only_close].
Qed.

(** The end of a delivery: a frame of the budget is taken, the bytes are
    counted, and the event is queued or dropped. *)
Lemma send_io o a cs bs tr n ch b v acc bytes k :
  bs !! b = Some v -> queued_bytes v + acc <= max_bytes v -> 0 <= acc ->
  let e := Outbound bytes k (Some (MkPermit b acc)) in
  let w1 := (yield o (MkWorld a cs bs tr n)).2 in
  let t := try_acquire_frame b o w1 in
  (exists cs' bs' n', t.2 = MkWorld a cs' bs' tr n' /\ t.1 = false /\ io cs bs cs' bs') \/
  exists cs' bs' n', t.1 = true /\ io cs bs cs' bs' /\
    (try_send ch e o (yield o (add_queued b acc o t.2).2).2).2 = MkWorld a cs' bs' tr n'.
Proof.
  intros Hv Hq Hacc. unfold yield at 1. simpl. destruct (foldl _ _ _) as [cs1 bs1] eqn:E1. simpl.
  unfold try_acquire_frame, get_budget, mbind, M_bind. simpl.
  destruct (bs1 !! b) as [v1|] eqn:Hv1; [destruct (0 <? frames_free v1) eqn:Hf|];
    [|left; do 3 eexists; split_and!; [reflexivity..|]; by eapply moves_io
     |left; do 3 eexists; split_and!; [reflexivity..|]; by eapply moves_io].
  right. simpl. unfold add_queued, get_budget, mbind, M_bind. simpl. rewrite lookup_insert_eq. simpl. rewrite insert_insert_eq.
  unfold yield. simpl. destruct (foldl _ _ (moves o (S n))) as [cs2 bs2] eqn:E2. simpl.
  edestruct (try_send_run ch (Outbound bytes k (Some (MkPermit b acc))) o) as (cs3 & bs3 & -> & H3). simpl in *.
  exists cs3, bs3, (S (S n)). split_and!; [done| |done].
  intros cfg hand H. apply H3. destruct (moves_accounted cfg hand _ _ _ _ _ E1 H) as [Ha Hfr].
  destruct (Hfr _ _ Hv) as (v' & Hv' & Hm & Hle). simplify_eq. apply Z.ltb_lt in Hf.
  eapply (moves_accounted cfg (_ :: hand) _ _ _ _ _ E2). unfold accounted. simpl.
  apply balanced_take; [done..|lia|done].
Qed.

End effects.
