(* ===== verification/RoomHandlers.v ===== *)
(** * The handlers of a room as sequences of effects *)

From stdpp Require Import base list numbers strings gmap relations.
From Stdlib Require Import ZArith Lia.
From S2P Require Import Prelude Text Uuid Json Wire YSync Awareness AwarenessFacts Hub.
From S2P Require Import RoomTypes Room RoomSync RoomLoop RoomFacts RoomEffects.

Create HintDb room.

(** One syntactic step; calls of operations are found in the database. *)
Ltac under_step :=
  lazymatch goal with
  | |- under _ (mret _) => apply under_ret
  | |- under _ (mbind _ _) => apply under_bind; [exact _| |intros ?]
  | |- under _ (try_ _ _) => apply under_try; [exact _| |intros ?]
  | |- under _ (get _) => apply under_get
  | |- under _ (modify _) => apply under_modify; intros ?; first [reflexivity | by repeat case_match]
  | |- under ?T (ask ?q) => refine (under_ask T q _); by intros
  | |- under _ (for_each _ _) => apply under_for_each; [exact _|intros ?]
  | |- under _ (match ?x with _ => _ end) => destruct x eqn:?
  | |- under _ _ => solve [eauto with room]
  end.
Ltac under_steps := repeat under_step.

Section handlers.
Context {UL : UuidLib} {UN : UuidNil} {RL : RoomLib} {J : SerdeJson}.
Variable T : list Event -> Prop.
Context {HT : Mono T}.

(** ** Presence registries keep the numbering of connections *)

Lemma evict_generation r : reg_generation (evict_oldest_tombstone r).2 = reg_generation r.
Proof. unfold evict_oldest_tombstone. by repeat case_match. Qed.

Lemma make_room_generation n : forall r, reg_generation (make_room n r).2 = reg_generation r.
Proof.
  induction n as [|n IH]; intros r; simpl; [by repeat case_match|]. case_match; [|done].
  destruct (evict_oldest_tombstone r) as [b r1] eqn:E. pose proof (evict_generation r) as Hg. rewrite E in Hg. simpl in Hg.
  destruct b; simpl; [by rewrite IH|done].
Qed.

Lemma fits_generation k r : reg_generation (fits_new_client k r).2 = reg_generation r.
Proof. unfold fits_new_client. case_match; [done|apply make_room_generation]. Qed.

Lemma claim_generation k g r : reg_generation (claim_connection_client k g r) = reg_generation r.
Proof.
  unfold claim_connection_client. case_match; [by case_match|]. pose proof (fits_generation k r) as Hg.
  destruct (fits_new_client k r) as [[] r1]; simpl in *; done.
Qed.

Lemma remove_generation k g r : reg_generation (remove_client k g r).2 = reg_generation r.
Proof. unfold remove_client. destruct (by_client r !! k); [|done]. by destruct (_ || _). Qed.

Lemma apply_generation k us uid name color g r :
  reg_generation (apply_connection_updates k us uid name color g r).2 = reg_generation r.
Proof.
  unfold apply_connection_updates. destruct (foldl _ _ _) as [ch r'] eqn:E. simpl. change r' with (ch, r').2. rewrite <- E.
  clear E. generalize (@nil AwarenessUpdate). revert r. induction us as [|u us IH]; intros r l; cbn [foldl]; [done|].
  destruct (apply_update k uid name color g (l, r) u) as [l1 r1] eqn:E. rewrite IH.
  unfold apply_update in E. pose proof (fits_generation (client_id u) r) as Hg.
  destruct (fits_new_client (client_id u) r) as [[] r2]; repeat case_match; simplify_eq; simpl in *; try done;
    unfold next_seq in *; by simplify_eq.
Qed.

(** ** Queues and evictions *)

Lemma under_close ch code reason : under T (enqueue_close ch code reason).
Proof. apply under_io, io_only_close. Qed.
Lemma under_close_ordered ch code reason : under T (enqueue_close_ordered ch code reason).
Proof. apply under_io, io_only_close_ordered. Qed.
Lemma under_yield : under T yield.
Proof. apply under_io, io_only_yield. Qed.
Hint Resolve under_close under_close_ordered under_yield : room.

Lemma under_keys {A} (m : gmap uuid A) : under T (keys_of m).
Proof. unfold keys_of. under_steps. Qed.
Hint Resolve under_keys : room.

Lemma under_schedule : under T try_schedule_session_revision.
Proof. unfold try_schedule_session_revision. under_steps. Qed.
Lemma under_abort : under T abort_session_revision_work.
Proof. unfold abort_session_revision_work. under_steps. Qed.
Lemma under_publish : under T publish_live_conns.
Proof. unfold publish_live_conns. under_steps. Qed.
Lemma under_push e : under T (push_awareness e).
Proof. unfold push_awareness. under_steps. Qed.
Hint Resolve under_schedule under_abort under_publish under_push : room.

(** A change that only drops connections. *)
Lemma drop_run o w f m : m ⊆ connections (self w) -> core (f (self w)) = core (set_connections m (self w)) -> rtc eff w (modify f o w).2.
Proof. destruct w. intros. apply eff_once. by econstructor. Qed.

Lemma under_evict k code reason order : under T (evict_connection k code reason order).
Proof.
  unfold evict_connection. intros o w Hw. rewrite bind_run. simpl. destruct (connections (self w) !! k) as [c|] eqn:Hc; [|by apply rtc_refl].
  rewrite bind_run. simpl. destruct (remove_client _ _ _) as [t r] eqn:Er. rewrite bind_run.
  assert (Hd : rtc eff w (modify (fun a => set_connections (delete k (connections a)) (set_awareness r a)) o w).2).
  { eapply drop_run; [apply (delete_subseteq _ k)|]. unfold core. simpl.
    pose proof (remove_generation (conn_client_id c) (conn_generation c) (awareness (self w))) as Hg. rewrite Er in Hg. simpl in Hg. by rewrite Hg. }
  etrans; [exact Hd|]. apply (under_bind T); [destruct order; auto with room|intros; apply under_ret|]. by eapply mono_eff.
Qed.
Hint Resolve under_evict : room.

Lemma under_backpressure k : under T (evict_for_backpressure k).
Proof. unfold evict_for_backpressure. under_steps. Qed.
Hint Resolve under_backpressure : room.

Lemma sat_add_nonneg x y : 0 <= x -> 0 <= y -> 0 <= sat_add_u64 x y.
Proof. unfold sat_add_u64, u64_max. lia. Qed.

Lemma under_deliver k bytes f kd : (forall tr, T tr -> may_send tr k f) -> under T (deliver_outbound k bytes f kd).
Proof.
  intros Hs. unfold deliver_outbound. under_step; [auto with room|]. intros o w Hw. rewrite bind_run. simpl.
  destruct (connections (self w) !! k) as [c|] eqn:Hc; [|by apply rtc_refl]. rewrite bind_run. simpl.
  case_match; [by apply rtc_refl|]. rewrite bind_run.
  pose proof (under_yield o w Hw) as Hy. destruct (io_only_yield o w) as (cs & bs & n & Ey & _). rewrite Ey in *. clear Ey.
  assert (Hw' : T (trace (MkWorld (self w) cs bs (trace w) n))) by done. etrans; [exact Hy|]. clear Hy.
  rewrite bind_run. simpl. destruct (bs !! outbound_budget c) as [v|] eqn:Hv; [|by apply rtc_refl].
  set (acc := sat_add_u64 _ _). destruct (max_bytes v <? acc) eqn:E1; [by apply under_backpressure|].
  destruct (max_bytes v <? queued_bytes v + acc) eqn:E2; [by apply under_backpressure|]. apply Z.ltb_ge in E2.
  rewrite !bind_run.
  destruct (send_io o (self w) cs bs (trace w) n (events c) (outbound_budget c) v acc bytes kd Hv E2)
    as [(cs' & bs' & n' & Ew & Er & Hio)|(cs' & bs' & n' & Er & Hio & Ew)].
  { apply sat_add_nonneg; [apply len_nonneg|done]. }
  - rewrite Ew, Er. simpl. eapply rtc_l; [by apply eff_io|]. by apply under_backpressure.
  - rewrite Er. cbn [negb]. rewrite !bind_run, Ew. eapply rtc_l; [by apply eff_io|].
    destruct ((try_send _ _ _ _).1); [|by apply under_backpressure|by apply rtc_refl].
    apply eff_once. apply eff_deliver; [by apply Hs|by eexists].
Qed.

(** A frame that may always be sent. *)
Definition plain (f : WireFrame) : Prop :=
  match f with FDocument _ _ (DSync m) => step m <> Update | FDocument _ _ (DSyncStatus b) => b = false | _ => True end.

Lemma plain_send f tr k : plain f -> may_send tr k f.
Proof. destruct f as [| ? ? [| | | | | |]]; simpl; try done; [by destruct (step _)|by intros ->]. Qed.

Lemma under_to_all f : (forall rk k tr, T tr -> may_send tr k (f rk)) -> under T (to_all f).
Proof. intros Hf. unfold to_all. under_steps. apply under_deliver. auto. Qed.

Lemma under_flush : under T flush_pending_awareness.
Proof.
  assert (forall n, under T (flush_loop n)).
  { induction n as [|n IH]; simpl; under_steps. apply under_to_all. intros. by apply plain_send. }
  unfold flush_pending_awareness. under_steps.
Qed.
Hint Resolve under_flush : room.

Lemma under_broadcast_awareness e : under T (broadcast_awareness e).
Proof. unfold broadcast_awareness. under_steps. Qed.
Hint Resolve under_broadcast_awareness : room.

Lemma under_close_in_order k code reason order : under T (close_connection_in_order k code reason order).
Proof. unfold close_connection_in_order. under_steps. Qed.
Hint Resolve under_close_in_order : room.
Lemma under_close_connection k code reason : under T (close_connection k code reason).
Proof. apply under_close_in_order. Qed.
Lemma under_close_connection_ordered k code reason : under T (close_connection_ordered k code reason).
Proof. apply under_close_in_order. Qed.
Lemma under_close_each code reason order : under T (close_each code reason order).
Proof. unfold close_each. under_steps. Qed.
Lemma under_close_all code reason : under T (close_all_connections code reason).
Proof. apply under_close_each. Qed.
Hint Resolve under_close_connection under_close_connection_ordered under_close_each under_close_all : room.

Lemma under_message k rk m : (forall tr, T tr -> may_send tr k (FDocument rk None m)) -> under T (deliver_document_message k rk m).
Proof. intros Hm. unfold deliver_document_message. under_steps. by apply under_deliver. Qed.

Lemma under_plain_message k rk m : plain (FDocument rk None m) -> under T (deliver_document_message k rk m).
Proof. intros Hm. apply under_message. intros. by apply plain_send. Qed.

Lemma under_refused k rk : under T (send_sync_status k rk false).
Proof. by apply under_plain_message. Qed.
Lemma under_stateless k p : under T (send_stateless k p).
Proof. unfold send_stateless. under_steps. by apply under_plain_message. Qed.
Hint Resolve under_refused under_stateless : room.

Lemma under_on_connection k f : (forall c, same_conn c (f c)) -> under T (on_connection k f).
Proof.
  intros Hf o [a cs bs tr n] _. unfold on_connection, modify. simpl. destruct (connections a !! k) as [c|] eqn:Hc; [|by apply rtc_refl].
  apply eff_once. by eapply eff_conn.
Qed.

(** ** The guard and terminal failures *)

Lemma under_release g : under T (release g).
Proof. unfold release. under_steps. Qed.
Hint Resolve under_release : room.
Lemma under_release_bounded g : under T (release_bounded g).
Proof. unfold release_bounded. under_steps. Qed.
Lemma under_renew g : under T (renew g).
Proof. unfold renew. under_steps. Qed.
Hint Resolve under_release_bounded under_renew : room.

Lemma drain_run code reason o w : exists cs bs n q r,
  (drain_connections code reason o w).2 = MkWorld (set_connections ∅ (self w)) cs bs (trace w ++ [Asked q r]) n /\
  io (chans w) (budgets w) cs bs /\ attempt (Asked q r) = None.
Proof.
  unfold drain_connections. rewrite bind_run. simpl. rewrite bind_run. unfold keys_of. rewrite !bind_run. cbn [mret M_ret fst snd].
  unfold ask. destruct (foldl _ _ _) as [cs bs] eqn:E. cbn [fst snd modify self chans budgets trace tick].
  edestruct (io_only_for_each (fun k => match connections (self w) !! k with Some c => enqueue_close (events c) code reason | None => mret tt end))
    as (cs' & bs' & n' & -> & Hio).
  { intros k. case_match; [apply io_only_close|apply io_only_ret]. }
  simpl in *. do 5 eexists. split; [reflexivity|]. split; [|done]. eapply io_trans; [by eapply moves_io|done].
Qed.

Lemma under_drain code reason : under T (drain_connections code reason).
Proof.
  intros o [a cs bs tr n] _. destruct (drain_run code reason o (MkWorld a cs bs tr n)) as (cs' & bs' & n' & q & r & -> & Hio & Hq).
  simpl in *. eapply rtc_l; [by apply eff_io|]. eapply rtc_l; [by apply eff_ask|]. apply eff_once.
  eapply eff_drop; [apply map_empty_subseteq|done].
Qed.

(** The common part of the terminal failures. *)
Lemma fatal_run f code reason o w :
  (forall a, core (f a) = core (set_writer_generation None (set_fence_lost true a))) ->
  eff w ((_ ← modify f; _ ← drain_connections code reason; _ ← modify (set_pending_awareness []); _ ← publish_live_conns;
          modify (set_room_guard None)) o w).2.
Proof.
  intros Hf. destruct w as [a cs bs tr n]. rewrite bind_run. simpl.
  destruct (drain_run code reason o (MkWorld (f a) cs bs tr n)) as (cs' & bs' & n' & q & r & E & Hio & Hq).
  rewrite !bind_run, E. simpl in *. apply eff_fatal; [|done..]. specialize (Hf a). unfold core in *. simpl in *. congruence.
Qed.

Lemma under_fatal_remote : under T fatal_remote_write_unconfirmed.
Proof. intros o w _. apply eff_once, fatal_run. done. Qed.

Lemma under_fatal_fence : under T fatal_fence_lost.
Proof.
  assert (Hk : forall g, under T (match g with
    | None => mret tt
    | Some g => r ← release_bounded g; match r with Ok _ => mret tt | Err _ => modify (set_guard_cleanup_failed true) end
    end)) by (intros; under_steps).
  intros o w Hw. pose proof (fatal_run fence_gone 1013 (bs "try again later") o w (fun _ => eq_refl)) as H.
  unfold fatal_fence_lost. rewrite !bind_run in *. cbn [get fst snd] in *.
  eapply rtc_l; [exact H|]. apply Hk. exact (mono_eff T _ _ (eff_once _ _ H) Hw).
Qed.
Hint Resolve under_drain under_fatal_remote under_fatal_fence : room.

(** ** Operations that keep the core of the actor *)

Definition calm {A} (m : M A) : Prop := forall o w, rtc eff w (m o w).2 /\ core (self (m o w).2) = core (self w).

Lemma calm_under {A} (m : M A) : calm m -> under T m.
Proof. intros H o w _. apply H. Qed.

Lemma calm_ret {A} (x : A) : calm (mret x).
Proof. intros o w. split; [apply rtc_refl|done]. Qed.
Lemma calm_bind {A B} (m : M A) (k : A -> M B) : calm m -> (forall x, calm (k x)) -> calm (m ≫= k).
Proof.
  intros Hm Hk o w. rewrite bind_run. destruct (Hm o w) as [H1 E1]. destruct (Hk (m o w).1 o (m o w).2) as [H2 E2].
  split; [by etrans|congruence].
Qed.
Lemma calm_try {E A B} (m : M (result E A)) (k : A -> M (result E B)) : calm m -> (forall x, calm (k x)) -> calm (try_ m k).
Proof. intros Hm Hk. apply calm_bind; [done|]. intros [x|e]; [done|apply calm_ret]. Qed.
Lemma calm_get {A} (f : RoomActor -> A) : calm (get f).
Proof. intros o w. split; [apply rtc_refl|done]. Qed.
Lemma calm_modify f : (forall a, core (f a) = core a) -> calm (modify f).
Proof. intros Hf o w. split; [by apply (under_modify (fun _ => True))|simpl; apply Hf]. Qed.
Lemma calm_ask q : (forall r, attempt (Asked q r) = None) -> calm (ask q).
Proof.
  intros Hq o w. split; [by apply (under_ask (fun _ => True))|]. unfold ask. by destruct (foldl _ _ _).
Qed.

End handlers.

Ltac calm_step :=
  lazymatch goal with
  | |- calm (mret _) => apply calm_ret
  | |- calm (mbind _ _) => apply calm_bind; [|intros ?]
  | |- calm (try_ _ _) => apply calm_try; [|intros ?]
  | |- calm (get _) => apply calm_get
  | |- calm (modify _) => apply calm_modify; intros ?; first [reflexivity | by repeat case_match]
  | |- calm (ask ?q) => refine (calm_ask q _); by intros
  | |- calm (match ?x with _ => _ end) => destruct x eqn:?
  | |- calm _ => solve [eauto with room]
  end.
Ltac calm_steps := repeat calm_step.

#[export] Hint Resolve under_close under_close_ordered under_yield under_keys under_schedule under_abort under_publish under_push
  under_evict under_backpressure under_flush under_broadcast_awareness under_close_in_order under_close_connection
  under_close_connection_ordered under_close_each under_close_all under_refused under_stateless under_release under_release_bounded
  under_renew under_drain under_fatal_remote under_fatal_fence : room.
#[export] Hint Extern 1 (Mono _) => exact _ : room.

(** * The handlers of a room as sequences of effects, continued

    The engine, the authority checks, the claims and the writes: where a step
    needs something the code has checked before, the lemma says so. *)

Section engine.
Context {UL : UuidLib} {UN : UuidNil} {RL : RoomLib} {J : SerdeJson}.

Lemma calm_call r : calm (engine_call r).
Proof. unfold engine_call. calm_steps. Qed.
Hint Resolve calm_call : room.
Lemma calm_recycle : calm recycle.
Proof. unfold recycle. calm_steps. Qed.
Hint Resolve calm_recycle : room.
Lemma calm_load_primary : calm load_engine_primary.
Proof. unfold load_engine_primary. calm_steps. Qed.
Hint Resolve calm_load_primary : room.
Lemma calm_reload : calm reload_primary_from_committed.
Proof. unfold reload_primary_from_committed. calm_steps. Qed.
Hint Resolve calm_reload : room.
Lemma calm_recover : calm recover_primary_after_engine_fault.
Proof. unfold recover_primary_after_engine_fault. calm_steps. Qed.
Lemma calm_ensure : calm ensure_primary_capacity.
Proof. unfold ensure_primary_capacity. calm_steps. Qed.
Lemma calm_apply p : calm (apply_primary p).
Proof. unfold apply_primary. calm_steps. Qed.
Hint Resolve calm_recover calm_ensure calm_apply : room.
Lemma calm_integrate p b : calm (integrate_committed_update p b).
Proof. unfold integrate_committed_update. calm_steps. Qed.
Lemma calm_load_readonly w : calm (load_readonly w).
Proof. unfold load_readonly. calm_steps. Qed.
Lemma calm_blocked u : calm (user_write_reject_blocked u).
Proof. unfold user_write_reject_blocked. calm_steps. Qed.
Lemma calm_record u : calm (record_user_rejected_candidate u).
Proof. unfold record_user_rejected_candidate. calm_steps. Qed.
Lemma calm_auth w ro : calm (locking_session_auth_by_ids w ro).
Proof. unfold locking_session_auth_by_ids. calm_steps. Qed.
Hint Resolve calm_integrate calm_load_readonly calm_blocked calm_record calm_auth : room.
Lemma calm_still w ro : calm (locking_write_still_allowed w ro).
Proof. unfold locking_write_still_allowed. calm_steps. Qed.
Lemma calm_delivery w ro : calm (delivery_admission w ro).
Proof. unfold delivery_admission. calm_steps. Qed.
Hint Resolve calm_still calm_delivery : room.
Lemma calm_poll_one s : calm (poll_one s).
Proof. unfold poll_one. calm_steps. Qed.
Hint Resolve calm_poll_one : room.
Lemma calm_poll_each l : calm (poll_each l).
Proof. induction l; simpl; calm_steps. Qed.
Lemma calm_compact_failed : calm compact_failed.
Proof. unfold compact_failed. calm_steps. Qed.
Lemma calm_payload r : calm (forward_payload r).
Proof. unfold forward_payload. calm_steps. Qed.
Lemma calm_capture i p : calm (forward_capture i p).
Proof. unfold forward_capture. calm_steps. Qed.
Lemma calm_cancelled : calm session_revision_cancelled.
Proof. unfold session_revision_cancelled. calm_steps. Qed.
Hint Resolve calm_cancelled : room.
Lemma calm_equal l r : calm (revision_snapshots_equal_primary l r).
Proof. unfold revision_snapshots_equal_primary. calm_steps. Qed.
Lemma calm_capture_primary stop : calm stop -> calm (capture_primary stop).
Proof. intros Hs. unfold capture_primary. calm_steps. Qed.

End engine.

#[export] Hint Resolve calm_call calm_recycle calm_load_primary calm_reload calm_recover calm_ensure calm_apply calm_integrate
  calm_load_readonly calm_blocked calm_record calm_auth calm_still calm_delivery calm_poll_each calm_compact_failed calm_payload
  calm_capture calm_cancelled calm_equal calm_capture_primary calm_ret : room.
#[export] Hint Resolve calm_under : room.

Section serve.
Context {UL : UuidLib} {UN : UuidNil} {RL : RoomLib} {J : SerdeJson}.
Variable T : list Event -> Prop.
Context {HT : Mono T}.

(** ** The committed state *)

Lemma under_adopt b : under T (adopt b).
Proof.
  intros o [a cs bs tr n] _. unfold adopt. rewrite bind_run. simpl. eapply rtc_l; [apply eff_adopt|]. apply eff_once. by apply eff_quiet.
Qed.
Hint Resolve under_adopt : room.
Lemma under_set_committed l : under T (set_committed_from_load l).
Proof. unfold set_committed_from_load. under_steps. Qed.
Hint Resolve under_set_committed : room.

Lemma under_forget : under T (modify (set_writer_generation None)).
Proof. intros o [a cs bs tr n] _. apply eff_once, eff_unwriter. Qed.
Lemma under_forget_loaded : under T (modify (fun a => set_committed_loaded false (set_writer_generation None a))).
Proof.
  intros o [a cs bs tr n] _. eapply rtc_l; [apply eff_unwriter|]. apply eff_once. by apply eff_quiet.
Qed.

Lemma under_stale order : under T (fatal_writer_stale order).
Proof. unfold fatal_writer_stale. under_step; [under_steps|]. under_step; [under_steps|]. under_step; [apply under_forget_loaded|under_steps]. Qed.
Lemma under_adopt_current w : under T (adopt_current w).
Proof. unfold adopt_current. under_steps. Qed.
Hint Resolve under_stale under_adopt_current : room.
Lemma under_divergence w : under T (fatal_room_divergence w).
Proof.
  unfold fatal_room_divergence. under_step; [under_steps|]. under_step; [under_steps|]. under_step; [under_steps|].
  under_step; [apply under_forget|under_steps].
Qed.
Lemma under_unhealthy w : under T (fatal_primary_unhealthy w).
Proof. unfold fatal_primary_unhealthy. under_steps. Qed.
Hint Resolve under_divergence under_unhealthy : room.

Lemma under_reload_or_close : under T reload_primary_or_close_room.
Proof. unfold reload_primary_or_close_room. under_steps. Qed.
Hint Resolve under_reload_or_close : room.
Lemma under_settle : under T settle_primary.
Proof. unfold settle_primary. under_steps. Qed.
Hint Resolve under_settle : room.
Lemma under_validate p : under T (validate_candidate_on_primary p).
Proof. unfold validate_candidate_on_primary. under_steps. Qed.

Lemma under_flags k v : under T (on_connection k (set_in_flight v)).
Proof. apply under_on_connection. by intros []. Qed.
Lemma under_poison k : under T (on_connection k (set_poisoned true)).
Proof. apply under_on_connection. by intros []. Qed.
Lemma under_poison_flight k : under T (on_connection k (fun c => set_poisoned true (set_in_flight false c))).
Proof. apply under_on_connection. by intros []. Qed.
Lemma under_persist_queue k f : under T (on_connection k (fun c => set_pending_persist (f c) c)).
Proof. apply under_on_connection. by intros []. Qed.
Lemma under_bytes k f : under T (on_connection k (fun c => set_pending_bytes (f c) c)).
Proof. apply under_on_connection. by intros []. Qed.
Hint Resolve under_flags under_poison under_poison_flight under_persist_queue under_bytes : room.

Lemma under_reject_unavailable k : under T (reject_candidate_engine_unavailable k).
Proof. unfold reject_candidate_engine_unavailable. under_steps. Qed.
Lemma under_reject k rk : under T (reject_candidate k rk).
Proof. unfold reject_candidate. under_steps. Qed.
Hint Resolve under_reject_unavailable under_reject : room.
Lemma under_reload_reject k rk : under T (reload_and_reject k rk).
Proof. unfold reload_and_reject. under_steps. Qed.
Hint Resolve under_reload_reject : room.

Lemma under_poll : under T poll_acl.
Proof. unfold poll_acl. under_steps. Qed.
Lemma under_native w : under T (check_cached_native_consumer w).
Proof. unfold check_cached_native_consumer. under_steps. Qed.
Hint Resolve under_poll under_native : room.

(** ** The projected body, persistence, compaction *)

Lemma under_project_write w g seq b p : under T (project_write w g seq b p).
Proof. unfold project_write. under_steps. Qed.
Hint Resolve under_project_write : room.
Lemma under_project seq w p : under T (maybe_project_derived_body seq w p).
Proof. unfold maybe_project_derived_body. under_steps. Qed.
Hint Resolve under_project : room.
Lemma under_catch_up w ro : under T (join_catch_up w ro).
Proof. unfold join_catch_up. under_steps. Qed.
Lemma under_leave k : under T (handle_leave k).
Proof. unfold handle_leave. under_steps. Qed.
Lemma under_persist_compact w id snap : under T (persist_compact w id snap).
Proof. unfold persist_compact. under_steps. Qed.
Hint Resolve under_catch_up under_leave under_persist_compact : room.
Lemma under_persist k id : under T (run_persist_steps k id).
Proof. unfold run_persist_steps. under_steps. Qed.
Hint Resolve under_persist : room.
Lemma under_flush_persist k n : under T (flush_connection_persist k n).
Proof. unfold flush_connection_persist. under_steps. Qed.
Hint Resolve under_flush_persist : room.
Lemma under_handle_stateless k p : under T (handle_stateless k p).
Proof. unfold handle_stateless. under_steps. Qed.
Lemma under_compact : under T maybe_compact.
Proof. unfold maybe_compact. under_steps. Qed.
Hint Resolve under_handle_stateless under_compact : room.
Lemma under_reconcile w op n p : under T (reconcile_ambiguous_append w op n p).
Proof. unfold reconcile_ambiguous_append. under_steps. Qed.
Hint Resolve under_reconcile : room.

(** ** Sync requests, presence and authentication *)

Lemma under_sync_failed k code reason : under T (sync_failed k code reason).
Proof. unfold sync_failed. under_steps. Qed.
Hint Resolve under_sync_failed : room.
Lemma under_step1 k rk sv : under T (handle_step1 k rk sv).
Proof. unfold handle_step1. under_steps; by apply under_plain_message. Qed.
Lemma under_auth k rk ro m : under T (handle_auth k rk ro m).
Proof. unfold handle_auth. under_steps. by apply under_plain_message. Qed.
Lemma under_admitted k w ro : under T (still_admitted k w ro).
Proof. unfold still_admitted. under_steps. Qed.
Lemma under_ping k : under T (handle_connection_ping k).
Proof. unfold handle_connection_ping. under_steps. apply under_deliver; [done|]. intros. by apply plain_send. Qed.
Lemma under_done k n : under T (done_bytes k n).
Proof. unfold done_bytes. under_steps. Qed.
Hint Resolve under_step1 under_auth under_admitted under_ping under_done : room.

Lemma under_presence cid s g p : under T (handle_awareness cid s g p).
Proof.
  unfold handle_awareness. intros o w Hw. rewrite bind_run. simpl.
  destruct (apply_connection_updates _ _ _ _ _ _ _) as [e r] eqn:E.
  pose proof (apply_generation cid (match decode_awareness p with Ok us => us | Err _ => [] end) (hyphenated (user_id s))
    (display_name (given_name s) (family_name s) (locale s)) (user_color (user_id s)) g (awareness (self w))) as Hg.
  rewrite E in Hg. rewrite bind_run. assert (He : rtc eff w (modify (set_awareness r) o w).2).
  { destruct w as [a cs bs tr n]. apply eff_once. apply eff_quiet. unfold core. simpl in *. by rewrite Hg. }
  etrans; [exact He|]. assert (under T (match e with Some e => broadcast_awareness e | None => mret tt end)) as Hu by under_steps.
  apply Hu. exact (mono_eff T _ _ He Hw).
Qed.
Hint Resolve under_presence : room.

End serve.

#[export] Hint Resolve under_adopt under_set_committed under_stale under_adopt_current under_divergence under_unhealthy
  under_reload_or_close under_settle under_validate under_flags under_poison under_poison_flight under_persist_queue under_bytes
  under_reject_unavailable under_reject under_reload_reject under_poll under_native under_project under_catch_up under_leave
  under_persist under_flush_persist under_handle_stateless under_compact under_reconcile under_sync_failed under_step1 under_auth
  under_admitted under_ping under_done under_presence : room.
