(* ===== verification/RoomWrites.v ===== *)
(** * Claims and writes

    Where the writer is claimed and updates are appended, the code relies on
    what it has asked before.  [spec] carries that knowledge: [holds T C] is a
    fact [T] of the history and a fact [C] of the actor. *)

From stdpp Require Import base list numbers strings gmap relations.
From Stdlib Require Import ZArith Lia.
From S2P Require Import Prelude Text Uuid Json Wire YSync Awareness AwarenessFacts Hub.
From S2P Require Import RoomTypes Room RoomSync RoomLoop RoomFacts RoomEffects RoomHandlers.

Section spec.
Context {UL : UuidLib} {UN : UuidNil} {RL : RoomLib} {J : SerdeJson}.

Definition spec {A} (P : World -> Prop) (m : M A) (Q : A -> World -> Prop) : Prop :=
  forall o w, P w -> rtc eff w (m o w).2 /\ Q (m o w).1 (m o w).2.

Definition holds (T : list Event -> Prop) (C : RoomActor -> Prop) (w : World) : Prop := T (trace w) /\ C (self w).

(** What only depends on the core of the actor. *)
Class Cored (C : RoomActor -> Prop) : Prop := cored a a' : core a' = core a -> C a -> C a'.

#[export] Instance Cored_True : Cored (fun _ => True).
Proof. by intros ?. Qed.
#[export] Instance Cored_and C D {CC : Cored C} {CD : Cored D} : Cored (fun a => C a /\ D a).
Proof. intros a a' E [? ?]. split; by eapply cored. Qed.
#[export] Instance Cored_guard P : Cored (fun a => P (room_guard a)).
Proof. intros a a' E H. unfold core in E. by replace (room_guard a') with (room_guard a) by congruence. Qed.
#[export] Instance Cored_writer g : Cored (fun a => writer_generation a = g).
Proof. intros a a' E H. unfold core in E. congruence. Qed.
#[export] Instance Cored_tail n : Cored (fun a => tail_seq (committed a) = n).
Proof. intros a a' E H. unfold core in E. congruence. Qed.
#[export] Instance Cored_conn k (P : option ConnectionState -> Prop) : Cored (fun a => P (connections a !! k)).
Proof. intros a a' E H. unfold core in E. by replace (connections a') with (connections a) by congruence. Qed.
#[export] Instance Cored_fence b : Cored (fun a => fence_lost a = b).
Proof. intros a a' E H. unfold core in E. congruence. Qed.

Lemma spec_bind {A B} P (R : A -> World -> Prop) (Q : B -> World -> Prop) m k :
  spec P m R -> (forall x, spec (R x) (k x) Q) -> spec P (m ≫= k) Q.
Proof.
  intros Hm Hk o w Hw. rewrite bind_run. destruct (Hm o w Hw) as [H1 HR]. destruct (Hk _ o _ HR) as [H2 HQ]. split; [by etrans|done].
Qed.

Lemma spec_ret {A} (x : A) (Q : A -> World -> Prop) : spec (Q x) (mret x) Q.
Proof. intros o w H. split; [apply rtc_refl|done]. Qed.

Lemma spec_weaken {A} (P P' : World -> Prop) (Q Q' : A -> World -> Prop) m :
  spec P m Q -> (forall w, P' w -> P w) -> (forall x w, Q x w -> Q' x w) -> spec P' m Q'.
Proof. intros H HP HQ o w Hw. destruct (H o w (HP w Hw)). split; [done|by apply HQ]. Qed.

Lemma spec_pre {A} (P P' : World -> Prop) (Q : A -> World -> Prop) m : spec P m Q -> (forall w, P' w -> P w) -> spec P' m Q.
Proof. intros H HP. by eapply spec_weaken. Qed.

(** A known fact becomes a hypothesis. *)
Lemma spec_fact {A} (F : Prop) (P : World -> Prop) (Q : A -> World -> Prop) m :
  (forall w, P w -> F) -> (F -> spec P m Q) -> spec P m Q.
Proof. intros HF H o w Hw. apply H; [by eapply HF|done]. Qed.

Lemma spec_get {A} (f : RoomActor -> A) T C : spec (holds T C) (get f) (fun x => holds T (fun a => C a /\ x = f a)).
Proof. intros o w [? ?]. split; [apply rtc_refl|]. done. Qed.

Lemma spec_calm {A} (m : M A) T C {MT : Mono T} {CC : Cored C} : calm m -> spec (holds T C) m (fun _ => holds T C).
Proof. intros Hm o w [HT HC]. destruct (Hm o w) as [Hr Hc]. split; [done|]. split; [by eapply mono_eff|by eapply cored]. Qed.

Lemma spec_under {A} (m : M A) T C {MT : Mono T} : under T m -> spec (holds T C) m (fun _ => holds T (fun _ => True)).
Proof. intros Hm o w [HT HC]. pose proof (Hm o w HT). split; [done|]. split; [by eapply mono_eff|done]. Qed.

(** The end of a function: what is left is a sequence of effects. *)
Lemma spec_done {A} (m : M A) T C (Q : A -> World -> Prop) : under T m -> (forall x w, Q x w) -> spec (holds T C) m Q.
Proof. intros Hm HQ o w [HT HC]. by split; [apply Hm|]. Qed.

Lemma ask_run q o w : exists cs bs,
  (ask q o w).2 = MkWorld (self w) cs bs (trace w ++ [Asked q (ask q o w).1]) (S (tick w)).
Proof. unfold ask. destruct (foldl _ _ _) as [cs bs]. by do 2 eexists. Qed.

Lemma ask_heard q o w : Asked q (ask q o w).1 ∈ segment (trace (ask q o w).2).
Proof. destruct (ask_run q o w) as (cs & bs & ->). simpl. rewrite segment_quiet by done. set_solver. Qed.

Lemma segment_trace e tr : e ∈ segment tr -> e ∈ tr.
Proof.
  induction tr as [|x tr IH] using rev_ind; [done|]. rewrite segment_snoc. destruct x; simpl; set_solver.
Qed.

#[export] Instance Mono_heard e : Mono (fun tr => e ∈ segment tr).
Proof. intros tr x Hx. rewrite (segment_quiet _ _ Hx). set_solver. Qed.

Lemma spec_ask q T C {MT : Mono T} {CC : Cored C} : (forall r, attempt (Asked q r) = None) ->
  spec (holds T C) (ask q) (fun r => holds (fun tr => T tr /\ Asked q r ∈ segment tr) C).
Proof.
  intros Hq o w Hw. destruct (spec_calm (ask q) T C (calm_ask q Hq) o w Hw) as [Hr [HT HC]]. split; [done|]. split; [|done].
  split; [done|apply ask_heard].
Qed.

(** ** The writer is claimed *)

Lemma guard_claim_spec g u :
  spec (holds (fun _ => True) (fun a => is_Some (room_guard a))) (guard_claim_writer g u)
    (fun r => holds (fun tr => forall c, r = Ok (Ok c) -> claimed tr (cl_writer_generation c)) (fun a => is_Some (room_guard a))).
Proof.
  intros o w Hw. destruct g as [|original f owner]; unfold guard_claim_writer.
  - destruct (spec_ask (QClaim u) (fun _ => True) (fun a => is_Some (room_guard a)) ltac:(done) o w Hw) as [Hr [[_ Hh] Hg]].
    split; [done|]. split; [|done]. intros c Hc. eexists. split; [by apply segment_trace|]. cbn in *. by rewrite Hc.
  - rewrite bind_run. cbn [get fst snd]. destruct (negb _); [split; [apply rtc_refl|]; by split; [|apply Hw]|]. rewrite bind_run.
    destruct (spec_ask (QActivate u original owner) (fun _ => True) (fun a => is_Some (room_guard a)) ltac:(done) o w Hw) as [Hr [[_ Hh] Hg]].
    destruct (ask (QActivate u original owner) o w) as [r w1]. cbn [fst snd] in *.
    destruct r as [[[f' c]|e]|e]; try (split; [done|]; by split).
    rewrite bind_run. destruct w1 as [a cs bs tr n]. split; [eapply rtc_r; [done|by apply eff_guard]|].
    split; [|by eexists]. intros ? [= <-]. eexists. split; [by apply segment_trace|]. done.
Qed.

Lemma claim_spec u : spec (holds (fun _ => True) (fun _ => True)) (claim_writer u)
  (fun r => holds (fun tr => forall c, r = Ok (Ok c) -> claimed tr (cl_writer_generation c))
                  (fun a => forall c, r = Ok (Ok c) -> is_Some (room_guard a))).
Proof.
  intros o w _. unfold claim_writer. rewrite bind_run. cbn [get fst snd].
  destruct (room_guard (self w)) as [g|] eqn:Eg; [|split; [apply rtc_refl|done]]. rewrite !bind_run. cbn [get fst snd].
  destruct (guard_claim_spec g u o w) as [Hr [Hc Hg]]; [by split; [|rewrite Eg]|].
  destruct (guard_claim_writer g u o w) as [[[c|e]|e] w1]; cbn [fst snd] in *; try (split; [done|]; by split).
  destruct (is_remote_task_room (self w1)); [|by split; [done|]].
  rewrite bind_run. split; [etrans; [done|by apply (under_fatal_remote (fun _ => True))]|]. by split.
Qed.

(** The claimed state is loaded, then the writer is set. *)
Lemma adopt_claim {A} (l : CollabLoadState) (g : Z) (bad : JoinError -> M A) (good : M A) T {MT : Mono T} :
  (forall e, under T (bad e)) -> under T good ->
  forall o w, holds (fun tr => T tr /\ claimed tr g) (fun a => is_Some (room_guard a)) w ->
  rtc eff w ((_ ← set_committed_from_load l; r ← reload_primary_from_committed;
              match r with Err e => bad e | Ok _ => _ ← modify (set_writer_generation (Some g)); good end) o w).2.
Proof.
  intros Hbad Hgood o w [[HT Hc] Hg]. rewrite bind_run.
  pose proof (under_set_committed T l o w HT) as Hs. set (w1 := (set_committed_from_load l o w).2) in *.
  assert (Hg1 : is_Some (room_guard (self w1))) by done. assert (HT1 : T (trace w1)) by exact (mono_eff T _ _ Hs HT).
  assert (Hc1 : claimed (trace w1) g) by exact (mono_eff (fun tr => claimed tr g) _ _ Hs Hc).
  etrans; [exact Hs|]. clear Hs HT Hc Hg. clearbody w1. rewrite bind_run.
  destruct (spec_calm _ (fun tr => T tr /\ claimed tr g) (fun a => is_Some (room_guard a)) calm_reload o w1) as [Hr [[HT2 Hc2] Hg2]]; [by split|].
  etrans; [exact Hr|]. destruct (reload_primary_from_committed o w1) as [[x|e] w2]; cbn [fst snd] in *; [|by apply Hbad].
  rewrite bind_run. destruct w2 as [a cs bs tr n]. eapply rtc_l; [by apply eff_writer|]. by apply Hgood.
Qed.

(** ** Appends *)

(** The answer to an append that was sent. *)
Definition appended (tr : list Event) (i : AppendCollabInput) (r : db AppendCollabResult) : Prop :=
  exists e, e ∈ segment tr /\ attempt e = Some i /\ forall c, r = Ok (Ok c) -> append_answer e = Some (i, result_seq c).

Definition ready (i : AppendCollabInput) (tr : list Event) : Prop :=
  granted (segment tr) (a_actor_user_id i, a_session_id i) /\ admitted (segment tr) (a_payload i).

#[export] Instance Mono_ready i : Mono (ready i).
Proof. unfold ready. exact _. Qed.
#[export] Instance Mono_appended i r : Mono (fun tr => appended tr i r).
Proof. unfold appended. exact _. Qed.

Definition writable (g : BackendRoomGuard) (i : AppendCollabInput) (a : RoomActor) : Prop :=
  writer_generation a = Some (a_writer_generation i) /\ tail_seq (committed a) = a_expected_tail_seq i /\ room_guard a = Some g.

#[export] Instance Cored_writable g i : Cored (writable g i).
Proof. unfold writable. apply Cored_and; [exact _|]. apply Cored_and; [exact _|]. apply (Cored_guard (fun x => x = Some g)). Qed.

Lemma writable_may tr g i a : ready i tr -> writable g i a -> may_append tr a i.
Proof. intros [? ?] (? & ? & Hg). split_and!; [done..|]. by rewrite Hg. Qed.

(** Asking for an append of [i]. *)
Lemma ask_append q i g o w T {MT : Mono T} :
  (forall r, attempt (Asked q r) = Some i) -> holds (fun tr => ready i tr /\ T tr) (writable g i) w ->
  rtc eff w (ask q o w).2 /\ holds (fun tr => T tr /\ Asked q (ask q o w).1 ∈ segment tr) (writable g i) (ask q o w).2.
Proof.
  intros Hq [[Hr HTw] Hw]. destruct (ask_run q o w) as (cs & bs & E). split.
  - apply (ask_steps q o w True). intros. eapply eff_append; [apply Hq|]. by eapply writable_may.
  - pose proof (ask_heard q o w). rewrite E in *. split; [|done]. split; [|done]. simpl. by apply mono.
Qed.

Lemma append_spec g i T {MT : Mono T} :
  spec (holds (fun tr => ready i tr /\ T tr) (writable g i)) (guard_append g i)
    (fun r => holds (fun tr => T tr /\ (r <> Ok (Err DStaleWriter) -> appended tr i r)) (writable g i)).
Proof.
  intros o w Hw. assert (Hask : forall f, rtc eff w (ask (QAppend f i) o w).2 /\
    holds (fun tr => T tr /\ ((ask (QAppend f i) o w).1 <> Ok (Err DStaleWriter) -> appended tr i (ask (QAppend f i) o w).1)) (writable g i) (ask (QAppend f i) o w).2).
  { intros f. destruct (ask_append (QAppend f i) i g o w T ltac:(done) Hw) as [Hr [[HT' Hh] HC]]. split; [done|]. split; [|done].
    split; [done|]. intros _. eexists. split_and!; [exact Hh|done|]. intros c Hc. cbn in *. by rewrite Hc. }
  destruct g as [|original f owner]; unfold guard_append; [apply Hask|]. rewrite bind_run. cbn [get fst snd].
  destruct (negb _); [|apply Hask]. destruct Hw as [[? ?] ?]. split; [apply rtc_refl|]. by split; [split; [|]|].
Qed.

Lemma restore_spec g i r T {MT : Mono T} :
  spec (holds (fun tr => ready i tr /\ T tr) (writable g i)) (guard_restore g i r)
    (fun x => holds (fun tr => T tr /\ appended tr i (match x with Ok (Ok (c, _)) => Ok (Ok c) | Ok (Err e) => Ok (Err e) | Err e => Err e end)) (writable g i)).
Proof.
  intros o w Hw. unfold guard_restore. destruct (ask_append (QRestore (family_fence g) i r) i g o w T ltac:(done) Hw) as [Hr [[HT' Hh] HC]].
  destruct (ask (QRestore (family_fence g) i r) o w) as [x w1]. cbn [fst snd] in *.
  split; [done|]. split; [|done]. split; [done|]. eexists. split_and!; [exact Hh|done|]. intros c Hc.
  destruct x as [[[? ?]|]|]; simpl in *; by simplify_eq.
Qed.

Lemma appended_acked tr i c : appended tr i (Ok (Ok c)) -> acked (segment tr) (a_payload i) (result_seq c).
Proof. intros (e & He & _ & Ha). left. exists e, i. split_and!; [done|by apply Ha|done]. Qed.

(** A receipt of an append whose answer was lost. *)
Lemma reconcile_spec u i T {MT : Mono T} C {CC : Cored C} :
  spec (holds (fun tr => T tr /\ exists r, appended tr i r) C) (reconcile_ambiguous_append u (a_op_id i) (a_expected_tail_seq i) (a_payload i))
    (fun x w => holds T (fun _ => True) w /\
       forall c, x = Some c -> holds (fun tr => acked (segment tr) (a_payload i) (result_seq c)) C w).
Proof.
  intros o w [[HTw (ra & e & He & Hat & _)] HC]. unfold reconcile_ambiguous_append. rewrite bind_run. cbn [get fst snd]. rewrite bind_run.
  set (q := QVerify _ _ _ _ _).
  destruct (spec_ask q (fun tr => T tr /\ e ∈ segment tr) C ltac:(done) o w) as [Hr [[[HT1 He1] Hh] HC1]]; [by split|].
  rewrite bind_run. cbn [get fst snd]. destruct (ask q o w) as [r w1]. cbn [fst snd] in *.
  assert (Hrest : forall m : M (option AppendCollabResult), under T m -> (forall o w, (m o w).1 = None) ->
    rtc eff w (m o w1).2 /\ (holds T (fun _ => True) (m o w1).2 /\
      forall c, (m o w1).1 = Some c -> holds (fun tr => acked (segment tr) (a_payload i) (result_seq c)) C (m o w1).2)).
  { intros m Hm Hn. pose proof (Hm o w1 HT1). split; [by etrans|]. split; [split; [by eapply (mono_eff T)|done]|]. intros c. by rewrite Hn. }
  destruct r as [[seq|err]|err]; [|destruct err|]; try (apply Hrest; [under_steps|intros; rewrite !bind_run; by repeat case_match]).
  - split; [done|]. split; [done|]. intros c [= <-]. split; [|done]. right. exists e. eexists. exists i. split_and!; [done|exact Hh|done..].
  - apply Hrest; [under_steps|]. intros o' w'. rewrite bind_run.
    by repeat (case_match || rewrite bind_run).
Qed.

End spec.
