(* ===== verification/RoomUpdates.v ===== *)
(** * Updates, frames and forward writes as sequences of effects *)

From stdpp Require Import base list numbers strings gmap relations.
From Stdlib Require Import ZArith Lia.
From S2P Require Import Prelude Text Uuid Json Wire YSync Awareness AwarenessFacts Hub.
From S2P Require Import RoomTypes Room RoomSync RoomLoop RoomFacts RoomEffects RoomHandlers RoomWrites.

Section updates.
Context {UL : UuidLib} {UN : UuidNil} {RL : RoomLib} {J : SerdeJson}.

Lemma extend_run seq p o w :
  acked (segment (trace w)) p seq -> seq = tail_seq (committed (self w)) + 1 -> rtc eff w (extend_committed seq p o w).2.
Proof.
  intros Ha Hs. unfold extend_committed. rewrite bind_run. destruct w as [a cs bs tr n]. simpl in *.
  eapply rtc_l; [by apply (eff_extend _ _ _ _ _ seq p)|]. apply eff_once. apply eff_quiet. unfold core, extend. simpl.
  by replace (tail_seq (committed a) <? seq) with true by lia.
Qed.

(** The command in hand is a frame of connection [k] with the update [p]. *)
Definition in_hand (k : uuid) (p : list byte) (tr : list Event) : Prop :=
  exists bytes, current tr = Some (CFrame k bytes) /\ frame_payload bytes = Some p.

#[export] Instance Mono_in_hand k p : Mono (in_hand k p).
Proof. intros tr e He (bytes & Hc & Hp). exists bytes. split; [|done]. by apply (Mono_current _ tr e He). Qed.

Definition durable (p : list byte) (tr : list Event) : Prop := exists seq, acked (segment tr) p seq.

#[export] Instance Mono_durable p : Mono (durable p).
Proof. intros tr e He (seq & Ha). exists seq. by apply (Mono_acked p seq tr e He). Qed.

Lemma under_status T {MT : Mono T} k rk p :
  (forall tr, T tr -> in_hand k p tr /\ (is_empty_update p = true \/ durable p tr)) -> under T (send_sync_status k rk true).
Proof.
  intros H. apply under_message; [done|]. intros tr Htr. destruct (H tr Htr) as [(bytes & ? & ?) ?]. simpl. by exists bytes, p.
Qed.

Lemma under_broadcast T {MT : Mono T} y p : carries y p -> (forall tr, T tr -> durable p tr) -> under T (broadcast_update y).
Proof.
  intros Hy H. unfold broadcast_update. under_steps. apply under_to_all; [done|]. intros rk k tr Htr. destruct (H tr Htr) as [seq ?].
  simpl. by exists p, seq.
Qed.

(** A committed update: [T] is what is known when it is finished. *)
Lemma finish_run k rk y p u seq o w :
  carries y p -> holds (fun tr => in_hand k p tr /\ acked (segment tr) p seq) (fun a => tail_seq (committed a) = seq - 1) w ->
  rtc eff w (finish_update k rk y p u seq o w).2.
Proof.
  intros Hy [[Hi Ha] Ht]. unfold finish_update. rewrite bind_run.
  assert (He : rtc eff w (extend_committed seq p o w).2) by (apply extend_run; [done|lia]). etrans; [exact He|].
  set (T := fun tr => in_hand k p tr /\ acked (segment tr) p seq).
  assert (HT : T (trace (extend_committed seq p o w).2)) by exact (mono_eff T _ _ He (conj Hi Ha)).
  assert (forall tr, T tr -> in_hand k p tr /\ (is_empty_update p = true \/ durable p tr)).
  { intros tr [? ?]. split; [done|]. right. by exists seq. }
  eapply (under_bind T); [| |exact HT]; [under_steps|intros x]. under_steps; try (by apply (under_status T k rk p)).
  apply (under_broadcast T y p); [done|]. intros tr [_ ?]. by exists seq.
Qed.

(** The owner of a connection. *)
Definition owned (k : uuid) (s : CollabSession) (a : RoomActor) : Prop :=
  exists c, connections a !! k = Some c /\ session c = s.

#[export] Instance Cored_owned k s : Cored (owned k s).
Proof. apply (Cored_conn k (fun x => exists c, x = Some c /\ session c = s)). Qed.

Definition known (k : uuid) (p : list byte) (s : CollabSession) (tr : list Event) : Prop :=
  in_hand k p tr /\ granted (segment tr) (session_who s).

#[export] Instance Mono_known k p s : Mono (known k p s).
Proof. unfold known. exact _. Qed.

(** The answer of an append is settled. *)
Lemma settle_run k rk y p s i r o w :
  carries y p -> a_payload i = p -> holds (known k p s) (fun a => tail_seq (committed a) = a_expected_tail_seq i) w ->
  (forall c, r = Some c -> acked (segment (trace w)) p (result_seq c)) ->
  rtc eff w (settle_append k rk y p (session_who s) (a_expected_tail_seq i) r o w).2.
Proof.
  intros Hy Hp [[Hi Hg] Ht] Hr. unfold settle_append. destruct r as [c|]; [|by apply (under_reload_reject (fun _ => True))].
  destruct (negb _) eqn:En.
  - assert (Hu : under (fun _ => True) (ok ← reload_primary_or_close_room;
      if negb ok then mret tt else _ ← fatal_room_divergence (session_who s); reject_candidate k rk)) by under_steps.
    by apply Hu.
  - apply negb_false_iff, Z.eqb_eq in En. apply finish_run; [done|]. split; [by split; [|apply Hr]|lia].
Qed.

Lemma reconcile_settle_run k rk y p s i r o w :
  carries y p -> a_payload i = p ->
  holds (fun tr => known k p s tr /\ appended tr i r) (fun a => tail_seq (committed a) = a_expected_tail_seq i) w ->
  rtc eff w ((x ← reconcile_ambiguous_append (session_who s) (a_op_id i) (a_expected_tail_seq i) p;
              settle_append k rk y p (session_who s) (a_expected_tail_seq i) x) o w).2.
Proof.
  intros Hy Hp [[Hk Ha] Ht]. rewrite bind_run.
  destruct (reconcile_spec (session_who s) i (known k p s) (fun a => tail_seq (committed a) = a_expected_tail_seq i) o w) as [Hr [[Hk' _] Hx]].
  { split; [|done]. split; [done|]. by exists r. }
  rewrite Hp in *. etrans; [exact Hr|]. destruct (reconcile_ambiguous_append _ _ _ _ o w) as [[c|] w']; cbn [fst snd] in *.
  - destruct (Hx c eq_refl) as [? ?]. by apply settle_run; [..|intros ? [= <-]].
  - by apply (under_reload_reject (fun _ => True)).
Qed.

Lemma append_run k rk y p g s o w :
  carries y p -> holds (fun tr => known k p s tr /\ admitted (segment tr) p) (fun a => owned k s a /\ writer_generation a = Some g) w ->
  rtc eff w (append_update k rk y p g o w).2.
Proof.
  intros Hy [[Hk Had] [(c & Hc & Hs) Hg]]. unfold append_update. rewrite bind_run. cbn [get fst snd]. rewrite Hc, Hs, bind_run. cbn [get fst snd].
  destruct (room_guard (self w)) as [guard|] eqn:Egd; [|by apply (under_fatal_fence (fun _ => True))]. rewrite bind_run.
  destruct (spec_ask QUuid (fun tr => known k p s tr /\ admitted (segment tr) p) (fun a => writer_generation a = Some g /\ room_guard a = Some guard)
    (CC := Cored_and _ _ (CD := Cored_guard (fun x => x = Some guard))) ltac:(done) o w) as [Hr [[[Hk1 Had1] _] [Hg1 Hgd1]]]; [by split|].
  destruct (ask QUuid o w) as [op_id w1]. cbn [fst snd] in *. etrans; [exact Hr|]. clear Hr Hk Had Hg Hc Egd. rewrite bind_run. cbn [get fst snd].
  set (i := AppendIn _ _ _ _ _ _). change (tail_seq (committed (self w1))) with (a_expected_tail_seq i). rewrite bind_run.
  destruct (append_spec guard i (known k p s) o w1) as [Hr [[Hk2 Hap] (_ & Ht2 & _)]].
  { split; [|done]. split; [|done]. split; [|done]. exact (proj2 Hk1). }
  destruct (guard_append guard i o w1) as [r w2]. cbn [fst snd] in *. etrans; [exact Hr|]. clear Hr. rewrite bind_run. cbn [get fst snd].
  destruct r as [[c'|e]|e]; [| |destruct (is_remote_task_room _); [by apply (under_fatal_remote (fun _ => True))|by apply (under_fatal_fence (fun _ => True))]].
  - rewrite bind_run. cbn [mret M_ret fst snd]. apply settle_run; [done..|]. intros ? [= <-]. change p with (a_payload i). apply appended_acked.
    by apply Hap.
  - assert (e = DStaleWriter \/ e <> DStaleWriter) as [->|Hne] by (destruct e; auto).
    { assert (Hu : under (fun _ => True) (_ ← fatal_writer_stale Preempt; reject_candidate k rk)) by under_steps. by apply Hu. }
    assert (Hrec := reconcile_settle_run k rk y p s i (Ok (Err e)) o w2 Hy eq_refl ltac:(split; [by split; [|apply Hap; congruence]|done])).
    destruct e; simpl in *; try done; rewrite bind_run; by apply (under_reload_reject (fun _ => True)).
Qed.

(** A validated update was applied by the engine, and nothing else changed. *)
Lemma call_heard r T {MT : Mono T} C {CC : Cored C} :
  spec (holds T C) (engine_call r) (fun x => holds (fun tr => T tr /\ (forall s, x = Some s -> is_applied_ok s = true -> Asked (QCall r) s ∈ segment tr)) C).
Proof.
  intros o w Hw. split; [by apply calm_call|]. destruct (spec_calm _ T C (calm_call r) o w Hw) as [_ [? ?]]. split; [|done]. split; [done|].
  unfold engine_call. rewrite bind_run. destruct (negb _); [done|]. rewrite bind_run. cbn [get fst snd].
  destruct (child _); [|intros ? [= <-]; done]. rewrite bind_run. cbn. intros s [= <-] _. rewrite !bind_run.
  exact (ask_heard (QCall r) o (ask QBridge o w).2).
Qed.

Lemma validate_spec p T {MT : Mono T} C {CC : Cored C} :
  spec (holds T C) (validate_candidate_on_primary p)
    (fun v => holds (fun tr => T tr /\ (v = VOk -> admitted (segment tr) p)) (fun a => v = VOk -> C a)).
Proof.
  assert (Hu : forall (m : M bool) v, v <> VOk -> under T m -> spec (holds T C) (_ ← m; mret v)
    (fun v => holds (fun tr => T tr /\ (v = VOk -> admitted (segment tr) p)) (fun a => v = VOk -> C a))).
  { intros m v Hv Hm. eapply spec_bind; [by apply (spec_under m T C)|]. intros _ o w [? ?]. split; [apply rtc_refl|]. by split. }
  unfold validate_candidate_on_primary. case_bool_decide; [intros o w [? ?]; split; [apply rtc_refl|by split]|].
  eapply spec_bind; [apply (spec_ask QEngineBin T C); by intros|]. intros bin.
  apply (spec_pre (holds T C)); [|by intros w [[? _] ?]].
  destruct (negb bin); [intros o w [? ?]; split; [apply rtc_refl|by split]|].
  eapply spec_bind; [apply (call_heard _ T C)|]. intros r.
  destruct r as [s|]; [|eapply spec_pre; [apply (Hu _ VEngineUnavailable); [done|under_steps]|by intros w [[? _] ?]]].
  destruct (classify_admission_load s) as [x|v] eqn:Ec.
  - intros o w [[HTw Hs] HC]. rewrite !bind_run. cbn [mret M_ret fst snd]. rewrite bool_decide_true by done.
    split; [by apply (under_modify T)|]. split; [|intros _; by eapply cored; [|exact HC]]. split; [done|]. intros _. eexists. split; [apply Hs; [done|]|].
    + by destruct s as [[] | | | |]; simpl in *; simplify_eq.
    + cbn. by destruct s as [[] | | | |]; simpl in *; simplify_eq.
  - assert (v <> VOk) by (destruct s as [[] | | | [] |]; simpl in *; by simplify_eq).
    intros o w [[HTw _] HC]. rewrite bind_run. cbn [mret M_ret fst snd]. rewrite bool_decide_false by done. rewrite bind_run.
    pose proof (under_reload_or_close T o w HTw) as Hr. split; [done|]. cbn [mret M_ret fst snd].
    assert ((if (reload_primary_or_close_room o w).1 then v else VEngineUnavailable) <> VOk) by (by case_match).
    split; [split; [by eapply (mono_eff T)|done]|done].
Qed.

Lemma flight_spec k s v T {MT : Mono T} :
  spec (holds T (owned k s)) (on_connection k (set_in_flight v)) (fun _ => holds T (owned k s)).
Proof.
  intros o w [HTw (c & Hc & Hs)]. pose proof (under_flags T k v o w HTw) as Hr. split; [done|]. split; [by eapply (mono_eff T)|].
  unfold on_connection, modify, owned. simpl. rewrite Hc. eexists. simpl. by rewrite lookup_insert_eq.
Qed.

Lemma update_run k rk y p s o w :
  carries y p -> holds (known k p s) (owned k s) w -> is_empty_update p = false -> p <> [] ->
  rtc eff w (handle_update k rk false y p o w).2.
Proof.
  intros Hy Hw He Hp. unfold handle_update. rewrite bool_decide_false by done. rewrite He. cbn [negb andb].
  rewrite bind_run. cbn [get fst snd]. destruct (proj2 Hw) as (c & Hc & _). rewrite Hc.
  destruct (poisoned c || in_flight c); [by apply (under_refused (fun _ => True))|]. rewrite bind_run.
  destruct (spec_calm _ (known k p s) (owned k s) (calm_blocked (user_id (session c))) o w Hw) as [Hr Hw1]. etrans; [exact Hr|].
  destruct (user_write_reject_blocked _ o w) as [blocked w1]. cbn [fst snd] in *. clear Hw Hc Hr c w.
  destruct blocked; [by apply (under_close_connection_ordered (fun _ => True))|]. rewrite bind_run.
  destruct (flight_spec k s true (known k p s) o w1 Hw1) as [Hr Hw2]. etrans; [exact Hr|]. clear Hr. rewrite bind_run.
  destruct (spec_calm _ (known k p s) (owned k s) calm_ensure o _ Hw2) as [Hr Hw3]. etrans; [exact Hr|]. clear Hr Hw1 Hw2.
  destruct (ensure_primary_capacity o _) as [r w3]. cbn [fst snd] in *. destruct (negb (is_ok r)).
  { assert (Hu : under (fun _ => True) (_ ← on_connection k (set_in_flight false); close_connection k 1011 (bs "engine unavailable"))) by under_steps.
    by apply Hu. }
  rewrite bind_run. cbn [get fst snd]. destruct (writer_generation (self w3)) as [g|] eqn:Eg; [|by apply (under_reject (fun _ => True))].
  rewrite bind_run.
  destruct (validate_spec p (known k p s) (fun a => owned k s a /\ writer_generation a = Some g) o w3) as [Hr [[Hk Had] HC]]; [by destruct Hw3|].
  etrans; [exact Hr|]. destruct (validate_candidate_on_primary p o w3) as [v w4]. cbn [fst snd] in *.
  destruct v; [|by apply (under_reject (fun _ => True))..|by apply (under_reject_unavailable (fun _ => True))].
  apply (append_run k rk y p g s); [done|]. split; [by split; [|apply Had]|by apply HC].
Qed.

Lemma handle_update_run k rk ro y p s o w :
  carries y p -> holds (fun tr => in_hand k p tr /\ (ro = false -> granted (segment tr) (session_who s))) (owned k s) w ->
  rtc eff w (handle_update k rk ro y p o w).2.
Proof.
  intros Hy [[Hi Hg] Ho]. destruct (decide (p = [])) as [->|Hp].
  { unfold handle_update. rewrite bool_decide_true by done.
    assert (Hu : under (fun _ => True) (ok ← settle_primary; if negb ok then mret tt
      else _ ← on_connection k (fun c => set_poisoned true (set_in_flight false c)); send_sync_status k rk false)) by under_steps.
    by apply Hu. }
  destruct (is_empty_update p) eqn:Ee.
  - unfold handle_update. rewrite bool_decide_false by done. rewrite Ee, andb_false_r.
    apply (under_status (in_hand k p) k rk p); [|done]. intros tr ?. by split; [|left].
  - destruct ro; [|by apply (update_run k rk y p s); [|split; [split; [|apply Hg]|]|..]].
    unfold handle_update. rewrite bool_decide_false by done. rewrite Ee. simpl.
    assert (Hu : under (fun _ => True) (_ ← on_connection k (set_poisoned true); send_sync_status k rk false)) by under_steps. by apply Hu.
Qed.

(** The admission of a frame. *)
Lemma delivery_spec u ro T {MT : Mono T} C {CC : Cored C} :
  spec (holds T C) (delivery_admission u ro)
    (fun x => holds (fun tr => T tr /\ (x = Still -> ro = false -> granted (segment tr) u)) C).
Proof.
  intros o w Hw. destruct (spec_calm _ T C (calm_delivery u ro) o w Hw) as [Hr [? ?]]. split; [done|]. split; [|done]. split; [done|].
  unfold delivery_admission. rewrite !bind_run. cbn [get fst snd mret M_ret]. set (q := QDelivery _ _). pose proof (ask_heard q o w) as Hh.
  destruct (ask q o w) as [r w1]. cbn [fst snd] in *. destruct r as [[b|]|]; try done. destruct ro; [done|].
  destruct b; simpl; [done|]. intros _ _. by eexists.
Qed.

Lemma admitted_spec k u ro T {MT : Mono T} C {CC : Cored C} :
  spec (holds T C) (still_admitted k u ro)
    (fun b => holds (fun tr => T tr /\ (b = true -> ro = false -> granted (segment tr) u)) (fun a => b = true -> C a)).
Proof.
  unfold still_admitted. eapply spec_bind; [apply (delivery_spec u ro T C)|]. intros x o w [[HTw Hg] HC]. destruct x.
  1: { split; [apply rtc_refl|]. split; [split; [done|]; by intros _; apply Hg|done]. }
  all: rewrite bind_run; pose proof (under_close_connection T k) as Hc;
    (split; [by apply Hc|]); (split; [split; [eapply (mono_eff T); [by apply Hc|done]|done]|done]).
Qed.

(** A document message of connection [k], taken from the frame in hand. *)
Lemma message_run k c m s bytes key room o w :
  decode bytes = Ok (FDocument key room m) -> session c = s ->
  holds (fun tr => current tr = Some (CFrame k bytes) /\ (read_only c = false -> granted (segment tr) (session_who s))) (owned k s) w ->
  rtc eff w (handle_document_message k c m o w).2.
Proof.
  intros Hd Hs [[Hcur Hg] Ho]. assert (Hany : forall m' : M unit, under (fun _ => True) m' -> rtc eff w (m' o w).2) by (intros m' Hm; by apply Hm).
  destruct m; try (apply Hany; unfold handle_document_message; under_steps; by apply under_plain_message).
  unfold handle_document_message, handle_sync. destruct (parse_sync_payload _ _) as [[st p]|e] eqn:Ep; [|apply rtc_refl].
  assert (Hf : frame_payload bytes = Some p) by (unfold frame_payload; by rewrite Hd, Ep).
  destruct st; [by apply (under_step1 (fun _ => True))|..].
  all: apply (handle_update_run _ _ _ _ _ s); [right; by eexists|]; split; [|done]; split; [by exists bytes|done].
Qed.

Lemma frame_run k bytes o w : current (trace w) = Some (CFrame k bytes) -> rtc eff w (handle_frame k bytes o w).2.
Proof.
  intros Hcur. unfold handle_frame. rewrite bind_run. cbn [get fst snd]. rewrite bind_run. cbn [get fst snd].
  destruct (connections (self w) !! k) as [c|] eqn:Hc; [|apply rtc_refl].
  assert (Hany : forall (m' : M unit) w, under (fun _ => True) m' -> rtc eff w (m' o w).2) by (intros m' w' Hm; by apply Hm).
  destruct (_ <? _); [apply Hany; under_steps|]. rewrite bind_run.
  set (T := fun tr => current tr = Some (CFrame k bytes)).
  assert (Hs : spec (holds T (owned k (session c))) (on_connection k (fun c => set_pending_bytes (pending_bytes c + len bytes) c)) (fun _ => holds T (owned k (session c)))).
  { intros o' w' [HTw (c' & Hc' & Hs')]. pose proof (under_bytes T k (fun c => pending_bytes c + len bytes) o' w' HTw) as Hr. split; [done|].
    split; [exact (mono_eff T _ _ Hr HTw)|]. unfold on_connection, modify, owned. simpl. rewrite Hc'. eexists. simpl. by rewrite lookup_insert_eq. }
  destruct (Hs o w) as [Hr Hw1]; [split; [done|by exists c]|]. etrans; [exact Hr|]. clear Hs Hr.
  destruct (on_connection _ _ o w) as [[] w1]. cbn [fst snd] in *.
  destruct (decode bytes) as [[|key room m]|e] eqn:Ed; [apply Hany; under_steps| |apply Hany; under_steps].
  destruct (negb _); [apply Hany; under_steps|]. case_bool_decide; [apply Hany; under_steps|]. rewrite bind_run.
  destruct (admitted_spec k (session_who (session c)) (read_only c) T (owned k (session c)) o w1 Hw1) as [Hr [[Hcur2 Hg] Ho]]. etrans; [exact Hr|].
  destruct (still_admitted _ _ _ o w1) as [ok w2]. cbn [fst snd] in *. destruct ok; [|apply rtc_refl]. simpl. rewrite bind_run.
  etrans; [|apply Hany; under_steps]. eapply (message_run k c m (session c)); [done..|]. split; [split; [done|by apply Hg]|by apply Ho].
Qed.

End updates.

(** * Forward writes and session revisions as sequences of effects *)

Section forward.
Context {UL : UuidLib} {UN : UuidNil} {RL : RoomLib} {J : SerdeJson}.

Lemma under_claim_for_write T {MT : Mono T} u : under T (claim_for_write u).
Proof.
  intros o w Hw. unfold claim_for_write. rewrite bind_run. destruct (claim_spec u o w) as [Hr [Hc Hg]]; [done|]. etrans; [exact Hr|].
  pose proof (mono_eff T _ _ Hr Hw) as HT1. destruct (claim_writer u o w) as [[[c|e]|e] w1]; cbn [fst snd] in *; [|by repeat case_match|apply rtc_refl].
  eapply (adopt_claim _ _ _ _ T); [by intros e; apply under_ret|apply under_ret|]. split; [by split; [|apply Hc]|by eapply Hg].
Qed.
Hint Resolve under_claim_for_write : room.

Lemma under_prepare T {MT : Mono T} u : under T (prepare_forward_writer u).
Proof. unfold prepare_forward_writer. under_steps. Qed.

(** A prepared forward write was granted. *)
Lemma prepare_spec u :
  spec (fun _ => True) (prepare_forward_writer u) (fun r w => r = Ok tt -> granted (segment (trace w)) u).
Proof.
  intros o w _. split; [by apply (under_prepare (fun _ => True))|]. unfold prepare_forward_writer. rewrite bind_run. cbn [get fst snd].
  unfold try_. rewrite bind_run. set (m := match writer_generation (self w) with Some _ => _ | None => _ end).
  destruct (m o w) as [[x|e] w1]; cbn [fst snd]; [|done]. rewrite bind_run. unfold locking_session_auth_by_ids. rewrite bind_run. cbn [mret M_ret fst snd].
  pose proof (ask_heard (QAdmission u) o w1) as Hh. destruct (ask (QAdmission u) o w1) as [r w2]. cbn [fst snd] in *.
  destruct r as [[[]|]|]; simpl; try done. rewrite bind_run. intros _.
  apply (mono_eff (fun tr => granted (segment tr) u) w2); [by apply (under_native (fun _ => True))|]. by eexists.
Qed.

(** The answer without the revision. *)
Definition strip (r : db (AppendCollabResult * option uuid)) : db AppendCollabResult :=
  match r with Ok (Ok (c, _)) => Ok (Ok c) | Ok (Err e) => Ok (Err e) | Err e => Err e end.

Definition at_tail (i : AppendCollabInput) (a : RoomActor) : Prop := tail_seq (committed a) = a_expected_tail_seq i.

#[export] Instance Cored_at_tail i : Cored (at_tail i).
Proof. unfold at_tail. exact _. Qed.

Lemma forward_append_spec i capture :
  spec (holds (ready i) (fun a => writer_generation a = Some (a_writer_generation i) /\ at_tail i a)) (forward_append i capture)
    (fun r => holds (fun tr => r <> Ok (Err DStaleWriter) -> appended tr i (strip r)) (at_tail i)).
Proof.
  intros o w [Hr [Hg Ht]]. unfold forward_append. rewrite bind_run. cbn [get fst snd]. destruct (room_guard (self w)) as [g|] eqn:Eg; [|split; [apply rtc_refl|done]].
  destruct capture as [c|]; rewrite bind_run.
  - destruct (restore_spec g i c (fun _ => True) o w) as [Hs [[_ Ha] (_ & Ht' & _)]]; [by split|].
    destruct (guard_restore g i c o w) as [[[[x id]|e]|e] w1]; cbn [fst snd mret M_ret] in *; split; done.
  - destruct (append_spec g i (fun _ => True) o w) as [Hs [[_ Ha] (_ & Ht' & _)]]; [by split|].
    destruct (guard_append g i o w) as [[[x|e]|e] w1]; cbn [fst snd mret M_ret] in *; (split; [done|]; split; [|done]); intros Hne; apply Ha; congruence.
Qed.

(** The result that [forward_settle] goes on with is durable. *)
Definition settled (i : AppendCollabInput) (x : result ForwardWriteError (AppendCollabResult * option uuid * bool)) (w : World) : Prop :=
  forall a id own, x = Ok (a, id, own) -> holds (fun tr => acked (segment tr) (a_payload i) (result_seq a)) (at_tail i) w.

Lemma forward_settle_spec u i restore capture r :
  spec (holds (fun tr => r <> Ok (Err DStaleWriter) -> appended tr i (strip r)) (at_tail i)) (forward_settle u i restore capture r) (settled i).
Proof.
  intros o w [Ha Ht]. unfold forward_settle. rewrite bind_run. cbn [get fst snd].
  set (rec := r ← reconcile_ambiguous_append _ _ _ _; _).
  assert (Hrec : r <> Ok (Err DStaleWriter) -> rtc eff w (rec o w).2 /\ settled i (rec o w).1 (rec o w).2).
  { intros Hne. unfold rec. rewrite bind_run.
    destruct (reconcile_spec u i (fun _ => True) (at_tail i) o w) as [Hr [_ Hx]]; [split; [split; [done|]; eexists; by apply Ha|done]|].
    destruct (reconcile_ambiguous_append _ _ _ _ o w) as [[c|] w1]; cbn [fst snd mret M_ret] in *; (split; [done|]); [|by intros ? ? ?].
    intros a id own [= <- _ _]. by apply Hx. }
  assert (Hbad : forall (m : M unit) e, under (fun _ => True) m ->
    let b : M (result ForwardWriteError (AppendCollabResult * option uuid * bool)) := (_ ← m; mret (Err e)) in
    rtc eff w (b o w).2 /\ settled i (b o w).1 (b o w).2).
  { intros m e Hm b. unfold b. rewrite !bind_run. split; [by apply Hm|]. by intros ? ? ?. }
  assert (Herr : forall e, rtc eff w w /\ settled i (Err e) w) by (intros; split; [apply rtc_refl|by intros ? ? ?]).
  destruct r as [[[c id]|e]|e].
  - split; [apply rtc_refl|]. intros a id' own [= <- _ _]. split; [|done]. apply appended_acked. by apply Ha.
  - destruct e; try apply Herr; [apply Hbad; auto with room|..];
      (destruct (bool_decide (is_Some restore)); [by apply Herr|]; cbn; first [apply Herr | by apply Hrec]).
  - destruct (_ && _); [apply Hbad; auto with room|by apply Hrec].
Qed.

Lemma forward_finish_run u i restore a id own o w :
  holds (fun tr => acked (segment tr) (a_payload i) (result_seq a)) (at_tail i) w ->
  rtc eff w (forward_finish u i restore a id own o w).2.
Proof.
  intros [Ha Ht]. unfold forward_finish. destruct (negb _) eqn:En.
  { assert (Hu : under (fun _ => True) (_ ← fatal_room_divergence u; mret (Err (A := option Z * option uuid) FUnavailable))) by under_steps. by apply Hu. }
  apply negb_false_iff, Z.eqb_eq in En. rewrite bind_run.
  assert (He : rtc eff w (extend_committed (result_seq a) (a_payload i) o w).2) by (apply extend_run; [done|unfold at_tail in Ht; lia]).
  etrans; [exact He|]. set (T := fun tr => acked (segment tr) (a_payload i) (result_seq a)).
  eapply (under_bind T); [| |exact (mono_eff T _ _ He Ha)]; [under_steps|intros x]. under_steps.
  apply (under_broadcast T _ (a_payload i)); [by left|]. intros tr ?. by eexists.
Qed.

Lemma under_replay T {MT : Mono T} u seq id : under T (forward_replay u seq id).
Proof. unfold forward_replay. under_steps. Qed.

(** The write itself, for a granted user. *)
Lemma forward_run u payload restore g o w :
  holds (fun tr => granted (segment tr) u /\ admitted (segment tr) payload) (fun a => writer_generation a = Some g) w ->
  rtc eff w ((op_id ← ask QUuid;
    expected ← get (fun a => tail_seq (committed a));
    capture ←? forward_capture restore payload;
    let i := AppendIn u.1 u.2 g expected op_id payload in
    r ← forward_append i capture;
    s ←? forward_settle u i restore capture r;
    let '(a, id, own) := s in
    match a with
    | DuplicateAck seq => if bool_decide (is_Some restore) && negb own then forward_replay u seq id else forward_finish u i restore a id own
    | Committed _ => forward_finish u i restore a id own
    end) o w).2.
Proof.
  intros Hw. rewrite bind_run. set (T := fun tr => granted (segment tr) u /\ admitted (segment tr) payload).
  destruct (spec_calm _ T (fun a => writer_generation a = Some g) (calm_ask QUuid ltac:(done)) o w Hw) as [Hr Hw1]. etrans; [exact Hr|].
  destruct (ask QUuid o w) as [op_id w1]. cbn [fst snd] in *. clear Hr Hw. rewrite bind_run. cbn [get fst snd]. unfold try_ at 1. rewrite bind_run.
  destruct (spec_calm _ T (fun a => writer_generation a = Some g /\ tail_seq (committed a) = tail_seq (committed (self w1)))
    (calm_capture restore payload) o w1) as [Hr Hw2]; [by destruct Hw1|]. etrans; [exact Hr|]. clear Hr.
  destruct (forward_capture restore payload o w1) as [[capture|e] w2]; cbn [fst snd] in *; [|apply rtc_refl]. cbn zeta.
  set (i := AppendIn _ _ _ _ _ _). rewrite bind_run.
  destruct (forward_append_spec i capture o w2) as [Hr Hw3].
  { destruct Hw2 as [[Hgr Had] [? ?]]. split; [split; [by destruct u|done]|done]. }
  etrans; [exact Hr|]. clear Hr. destruct (forward_append i capture o w2) as [r w3]. cbn [fst snd] in *. unfold try_. rewrite bind_run.
  destruct (forward_settle_spec u i restore capture r o w3 Hw3) as [Hr Hs]. etrans; [exact Hr|].
  destruct (forward_settle u i restore capture r o w3) as [[[[a id] own]|e] w4]; cbn [fst snd] in *; [|apply rtc_refl]. specialize (Hs _ _ _ eq_refl).
  destruct a; [|destruct (_ && _); [by apply (under_replay (fun _ => True))|]]; by apply forward_finish_run.
Qed.

Lemma under_forward T u request expected restore : under T (apply_forward_write u request expected restore).
Proof.
  intros o w _. unfold apply_forward_write, try_ at 1. rewrite bind_run. destruct (prepare_spec u o w) as [Hr Hg]; [done|]. etrans; [exact Hr|].
  destruct (prepare_forward_writer u o w) as [[[]|e] w1]; cbn [fst snd] in *; [|apply rtc_refl]. specialize (Hg eq_refl). clear Hr.
  rewrite bind_run. cbn [get fst snd]. destruct (match expected with Some e => _ | None => _ end); [apply rtc_refl|]. unfold try_ at 1. rewrite bind_run.
  destruct (spec_calm _ (fun tr => granted (segment tr) u) (fun _ => True) (calm_payload request) o w1) as [Hr [Hg2 _]]; [done|]. etrans; [exact Hr|].
  destruct (forward_payload request o w1) as [[payload|e] w2]; cbn [fst snd] in *; [|apply rtc_refl]. destruct (_ && _).
  { assert (Hu : under (fun _ => True) (r ← check_cached_native_consumer u;
      mret (match r with Ok _ => Ok (A := option Z * option uuid) (None, None) | Err _ => Err FUnavailable end))) by under_steps. by apply Hu. }
  clear Hr Hg. rewrite bind_run. cbn [get fst snd]. rewrite bind_run. set (q := QBundle _ _ _).
  destruct (spec_ask q (fun tr => granted (segment tr) u) (fun _ => True) ltac:(done) o w2) as [Hr [[Hg3 Hh] _]]; [done|]. etrans; [exact Hr|].
  destruct (ask q o w2) as [v w3]. cbn [fst snd] in *. destruct v; try apply rtc_refl. rewrite bind_run. cbn [get fst snd].
  destruct (writer_generation (self w3)) as [g|] eqn:Eg; [|apply rtc_refl]. apply forward_run. split; [|done]. split; [done|]. by eexists.
Qed.
Hint Resolve under_prepare under_forward : room.

Section under.
Variable T : list Event -> Prop.
Context {HT : Mono T}.

Lemma under_restore u snap i : under T (handle_restore u snap i).
Proof. unfold handle_restore. under_steps. Qed.
Lemma under_replace u seed e : under T (handle_replace_body u seed e).
Proof. unfold handle_replace_body. under_steps. Qed.
Lemma under_project_live u : under T (handle_project_live u).
Proof. unfold handle_project_live. under_steps. Qed.
Lemma under_capture_load u : under T (capture_load u).
Proof. unfold capture_load. under_steps. Qed.
Hint Resolve under_capture_load : room.
Lemma under_capture u : under T (handle_capture_revision u).
Proof. unfold handle_capture_revision. under_steps. Qed.

(** ** The session revision *)

Lemma under_capture_committed : under T capture_committed_revision_primary.
Proof. unfold capture_committed_revision_primary. under_steps. Qed.
Lemma under_session_insert f s c l : under T (session_insert f s c l).
Proof. unfold session_insert. under_steps. Qed.
Hint Resolve under_capture_committed under_session_insert : room.
Lemma under_session_compare f s c : under T (session_compare f s c).
Proof. unfold session_compare. under_steps. Qed.
Hint Resolve under_session_compare : room.
Lemma under_advance : under T advance_session_revision.
Proof. unfold advance_session_revision. under_steps. Qed.
Hint Resolve under_advance : room.
Lemma under_retries n : under T (session_retries n).
Proof. induction n; simpl; under_steps. Qed.

(** ** Leases and timers *)

Lemma under_close_dropped k g : under T (close_dropped_connection k g).
Proof. unfold close_dropped_connection. under_steps. Qed.
Hint Resolve under_close_dropped : room.
Lemma under_lease k g n : under T (handle_lease_drop k g n).
Proof. unfold handle_lease_drop. under_steps. Qed.
Lemma under_finish_loop n : under T (finish_loop n).
Proof. induction n; simpl; under_steps. Qed.
Hint Resolve under_finish_loop : room.
Lemma under_finish_drops : under T finish_pending_lease_drops.
Proof. unfold finish_pending_lease_drops. under_steps. Qed.
Lemma under_count : under T count_command.
Proof. unfold count_command. under_steps. Qed.
Hint Resolve under_retries under_finish_drops : room.
Lemma under_after : under T after_turn.
Proof. unfold after_turn. under_steps. Qed.

Lemma under_handle_renew : under T handle_renew.
Proof.
  intros o w Hw. unfold handle_renew. rewrite bind_run. cbn [get fst snd]. change (id (self w)) with (self w).
  destruct (fence_lost (self w)); [apply rtc_refl|]. destruct (room_guard (self w)) as [g|] eqn:Eg; [|by apply (under_fatal_fence T)].
  destruct g as [|original f owner]; [apply rtc_refl|]. rewrite bind_run.
  destruct (spec_calm _ T (fun a => is_Some (room_guard a)) (calm_ask QTimeout ltac:(done)) o w) as [Hr [HT1 Hg1]]; [split; [done|by rewrite Eg]|].
  etrans; [exact Hr|]. destruct (ask QTimeout o w) as [late w1]. cbn [fst snd] in *. rewrite bind_run.
  set (g := GFamily original f owner). set (m := (if late then _ else _) : M (option (result SqlxError bool))).
  assert (Hm : rtc eff w1 (m o w1).2).
  { unfold m. destruct late; [apply rtc_refl|]. rewrite !bind_run.
    assert (Hc : calm (renew g)) by (unfold g, renew; calm_steps).
    destruct (spec_calm _ T (fun a => is_Some (room_guard a)) Hc o w1) as [Hr2 [_ Hg2]]; [by split|]. etrans; [exact Hr2|].
    destruct (renew g o w1) as [x [a cs bs tr n]]. apply eff_once. by apply eff_guard. }
  etrans; [exact Hm|]. assert (Hk : forall x : option (result SqlxError bool), under T (match x with
    | Some (Ok true) => mret tt | Some (Ok false) => fatal_fence_lost
    | _ => if is_remote_task_room (self w) then fatal_remote_write_unconfirmed else fatal_fence_lost end)) by (intros; under_steps).
  apply Hk. exact (mono_eff T _ _ Hm HT1).
Qed.

End under.
End forward.

#[export] Hint Resolve under_prepare under_forward under_restore under_replace under_project_live under_capture under_retries
  under_lease under_finish_drops under_count under_after under_handle_renew : room.
