(* ===== verification/RoomTurns.v ===== *)
(** * Joins and turns of a room

    A turn of the loop is a sequence of [room_step]s: the effects of the
    handlers, commands being taken up, and connections being entered. *)

From stdpp Require Import base list numbers strings gmap relations.
From Stdlib Require Import ZArith Lia.
From S2P Require Import Prelude Text Uuid Json Wire YSync Awareness AwarenessFacts Hub.
From S2P Require Import RoomTypes Room RoomSync RoomLoop RoomFacts RoomEffects RoomHandlers RoomWrites RoomUpdates.

Section turns.
Context {UL : UuidLib} {UN : UuidNil} {RL : RoomLib} {J : SerdeJson}.

(** A budget with nothing out. *)
Definition full_budget (cfg : CollabConfig) : Budget := Bud (max_outbound_frames_per_connection cfg) 0 (max_outbound_bytes_per_connection cfg).

(** What the room knows of a connection it enters. *)
Record may_enter (tr : list Event) (a : RoomActor) (bs : gmap nat Budget) (c : ConnectionState) : Prop := MayEnter {
  enter_fence : fence_lost a = false;
  enter_room : (size (connections a) < max_connections_per_room (config a))%nat;
  enter_owner : exists t, client_id_owner a !! conn_client_id c = Some (user_id (session c), t);
  enter_granted : read_only c = false -> granted (segment tr) (session_who (session c));
  enter_generation : conn_generation c = sat_add_u64 (reg_generation (awareness a)) 1;
  enter_budget : bs !! outbound_budget c = None }.

Inductive room_step : World -> World -> Prop :=
| step_eff w w' : eff w w' -> room_step w w'
| step_started a cs bs tr n c : room_step (MkWorld a cs bs tr n) (MkWorld a cs bs (tr ++ [Started c]) n)
| step_enter a cs bs tr n k c aw :
    may_enter tr a bs c -> reg_generation aw = conn_generation c ->
    room_step (MkWorld a cs bs tr n)
      (MkWorld (set_connections (<[k := c]> (connections a)) (set_awareness aw a)) cs (<[outbound_budget c := full_budget (config a)]> bs) tr n).

Lemma effs_steps w w' : rtc eff w w' -> rtc room_step w w'.
Proof. intros H. eapply rtc_subrel; [|exact H]. by constructor. Qed.

(** ** What effects keep *)

Lemma core_eq a a' : core a' = core a -> config a' = config a /\ room_guard a' = room_guard a /\ writer_generation a' = writer_generation a /\
  committed a' = committed a /\ connections a' = connections a /\ reg_generation (awareness a') = reg_generation (awareness a) /\
  client_id_owner a' = client_id_owner a /\ fence_lost a' = fence_lost a.
Proof. unfold core. intros [=]. done. Qed.

Lemma eff_shrinks w w' : eff w w' ->
  config (self w') = config (self w) /\ (size (connections (self w')) <= size (connections (self w)))%nat.
Proof.
  destruct 1 as [|a a' cs bs tr n Hc| | | |a cs bs tr n k c c' Hk|a a' cs bs tr n m Hm Hc| | | | | | | |a a' cs bs tr n cs' bs' n' q r Hc];
    simpl; try done.
  - apply core_eq in Hc as (-> & _ & _ & _ & -> & _). done.
  - split; [done|]. rewrite map_size_insert_Some by (by eexists). done.
  - apply core_eq in Hc as (-> & _ & _ & _ & -> & _). split; [done|]. simpl. by apply map_subseteq_size.
  - apply core_eq in Hc as (-> & _ & _ & _ & -> & _). split; [done|]. simpl. rewrite map_size_empty. lia.
Qed.

Lemma effs_shrink w w' : rtc eff w w' ->
  config (self w') = config (self w) /\ (size (connections (self w')) <= size (connections (self w)))%nat.
Proof.
  induction 1 as [|x y z Hxy _ [E1 L1]]; [done|]. destruct (eff_shrinks _ _ Hxy) as [E2 L2]. split; [congruence|lia].
Qed.

(** ** Reserving a client identifier *)

Lemma reserve_spec cid u o w :
  let r := reserve_client_id cid u o w in
  rtc eff w r.2 /\ fence_lost (self r.2) = fence_lost (self w) /\ (r.1 = true -> exists t, client_id_owner (self r.2) !! cid = Some (u, t)).
Proof.
  cbn zeta. unfold reserve_client_id. rewrite bind_run. destruct (ask_run QNow o w) as (cs & bs & E). pose proof (under_ask (fun _ => True) QNow ltac:(done) o w I) as Ha.
  destruct (ask QNow o w) as [now w1]. cbn [fst snd] in *. rewrite bind_run. cbn [get fst snd]. change (id (self w1)) with (self w1).
  subst w1. set (w1 := MkWorld _ _ _ _ _) in *. cbn [self] in *. set (a := self w) in *. set (live := _ <$> map_to_list _). set (owners := filter _ _).
  rewrite bind_run. assert (Hf : eff w1 (modify (set_client_id_owner owners) o w1).2).
  { apply eff_owners. intros k c t Hk Ho. exists t. unfold owners. apply map_lookup_filter_Some. split; [done|]. left. simpl. unfold live.
    apply list_elem_of_fmap. exists (k, c). split; [done|]. by apply elem_of_map_to_list. }
  destruct (existsb _ _) eqn:Ex; [split; [by eapply rtc_r|done]|].
  destruct (match owners !! cid with Some _ => _ | None => _ end) eqn:Em; [split; [by eapply rtc_r|done]|].
  rewrite bind_run. cbn [mret M_ret fst snd modify self] in *.
  split_and!; [|done|intros _; exists now; simpl; apply lookup_insert_eq].
  eapply rtc_r; [by eapply rtc_r|]. apply eff_owners. intros k c t Hk Ho. simpl in *.
  destruct (decide (conn_client_id c = cid)) as [Hcid|Hcid]; [|exists t; by rewrite lookup_insert_ne].
  exists now. rewrite Hcid, lookup_insert_eq. do 2 f_equal. destruct (decide (user_id (session c) = u)) as [|Hne]; [done|]. exfalso.
  rewrite <- not_true_iff_false in Ex. apply Ex. apply existsb_exists. exists (k, c). split; [by apply list_elem_of_In, elem_of_map_to_list|].
  simpl. by rewrite bool_decide_true, bool_decide_false by done.
Qed.

(** ** The fence during a join *)

Lemma calm_fence {A} (m : M A) o w : calm m -> fence_lost (self (m o w).2) = fence_lost (self w).
Proof. intros Hm. destruct (Hm o w) as [_ Hc]. by apply core_eq in Hc as (_ & _ & _ & _ & _ & _ & _ & ?). Qed.

(** The fence is there, or the primary is not. *)
Definition open_or_down (w : World) : Prop := fence_lost (self w) = false \/ primary_loaded (self w) = false.

Lemma remote_down o w : primary_loaded (self (fatal_remote_write_unconfirmed o w).2) = false.
Proof.
  unfold fatal_remote_write_unconfirmed. rewrite !bind_run.
  destruct (drain_run 1013 (bs "try again later") o (modify (fun a => set_guard_cleanup_failed true (fence_gone a)) o w).2) as (cs & bs & n & q & r & -> & _). done.
Qed.

Lemma project_write_open u g seq b p o w :
  fence_lost (self w) = false -> (project_write u g seq b p o w).1 <> StaleWriterOutcome -> open_or_down (project_write u g seq b p o w).2.
Proof.
  intros Hf. unfold project_write. rewrite bind_run. cbn [get fst snd]. rewrite bind_run. set (q := QProject _ _ _ _ _).
  pose proof (calm_fence (ask q) o w (calm_ask q ltac:(done))) as E. rewrite Hf in E. destruct (ask q o w) as [r w1]. cbn [fst snd] in *.
  destruct r as [[[]|[]]|]; try (intros _; by left).
  - rewrite bind_run. done.
  - rewrite !bind_run. cbn [get fst snd]. intros _. destruct (is_remote_task_room _); [right; apply remote_down|by left].
Qed.

Lemma project_open seq u p o w :
  fence_lost (self w) = false -> (maybe_project_derived_body seq u p o w).1 <> StaleWriterOutcome ->
  open_or_down (maybe_project_derived_body seq u p o w).2.
Proof.
  intros Hf. unfold maybe_project_derived_body. destruct (seq <? 1); [by left|]. rewrite bind_run. cbn [get fst snd].
  destruct (writer_generation _); [|by left]. rewrite bind_run. cbn [get fst snd]. destruct (negb _); [by left|]. rewrite bind_run.
  pose proof (calm_fence _ o w calm_ensure) as E1. destruct (ensure_primary_capacity o w) as [r1 w1]. cbn [fst snd] in *.
  destruct (negb (is_ok r1)); [intros _; left; simpl; congruence|]. rewrite bind_run. pose proof (calm_fence _ o w1 (calm_call RProject)) as E2.
  destruct (engine_call RProject o w1) as [r2 w2]. cbn [fst snd] in *. assert (Hf2 : fence_lost (self w2) = false) by congruence.
  destruct r2 as [[? ? ? [json|] | | |k|]|]; try (rewrite !bind_run; left; simpl; by rewrite (calm_fence _ o w2 calm_recover)).
  destruct (prepare_derived_body json); [by apply project_write_open|by left].
Qed.

Lemma catch_up_open u ro o w :
  fence_lost (self w) = false -> (join_catch_up u ro o w).1 = Ok tt -> open_or_down (join_catch_up u ro o w).2.
Proof.
  intros Hf. unfold join_catch_up. rewrite bind_run. cbn [get fst snd]. destruct (_ && _); [|by left]. rewrite bind_run. cbn [mret M_ret fst snd].
  case_bool_decide; [done|]. intros _. by apply project_open.
Qed.

Lemma claim_fence u o w c : (claim_writer u o w).1 = Ok (Ok c) -> fence_lost (self (claim_writer u o w).2) = fence_lost (self w).
Proof.
  unfold claim_writer. rewrite bind_run. cbn [get fst snd]. destruct (room_guard (self w)) as [g|]; [|done]. rewrite !bind_run. cbn [get fst snd].
  assert (Hg : fence_lost (self (guard_claim_writer g u o w).2) = fence_lost (self w)).
  { unfold guard_claim_writer. destruct g as [|original f owner]; [exact (calm_fence (ask (QClaim u)) o w (calm_ask (QClaim u) ltac:(done)))|]. rewrite bind_run. cbn [get fst snd].
    destruct (negb _); [done|]. rewrite bind_run. pose proof (calm_fence (ask (QActivate u original owner)) o w (calm_ask (QActivate u original owner) ltac:(done))) as E.
    destruct (ask (QActivate u original owner) o w) as [[[[f' c']|]|] w1]; try done. }
  destruct (guard_claim_writer g u o w) as [[[x|e]|e] w1]; cbn [fst snd] in *; try done.
  destruct (is_remote_task_room _); [by rewrite bind_run|done].
Qed.

Lemma join_load_open u ro o w :
  fence_lost (self w) = false -> (join_load u ro o w).1 = Ok tt -> fence_lost (self (join_load u ro o w).2) = false.
Proof.
  intros Hf. unfold join_load. rewrite bind_run. cbn [get fst snd]. destruct (writer_generation _); [done|].
  assert (Hl : forall (l : CollabLoadState) (k : M (result JoinError unit)) w', fence_lost (self w') = false ->
    (forall w'', fence_lost (self w'') = false -> (k o w'').1 = Ok tt -> fence_lost (self (k o w'').2) = false) ->
    let m := _ ← set_committed_from_load l; r ← reload_primary_from_committed;
      match r with Err e => _ ← close_all_connections 1011 (bs "engine reload failed"); mret (Err e) | Ok _ => k end in
    (m o w').1 = Ok tt -> fence_lost (self (m o w').2) = false).
  { intros l k w' Hw' Hk m. unfold m. rewrite bind_run. set (w1 := (set_committed_from_load l o w').2). rewrite bind_run.
    pose proof (calm_fence _ o w1 calm_reload) as E. destruct (reload_primary_from_committed o w1) as [[x|e] w2]; cbn [fst snd] in *; [|by rewrite bind_run].
    apply Hk. by rewrite E. }
  destruct (negb ro); rewrite bind_run.
  - pose proof (claim_fence u o w) as E. destruct (claim_writer u o w) as [[[c|e]|e] w1]; cbn [fst snd] in *; [|by destruct e|done].
    apply Hl; [by erewrite E|]. done.
  - pose proof (calm_fence _ o w (calm_load_readonly u)) as E. destruct (load_readonly u o w) as [[[l|e]|e] w1]; cbn [fst snd] in *; [|done|by rewrite !bind_run].
    apply Hl; [by rewrite E|]. done.
Qed.

Lemma under_join_load T {MT : Mono T} u ro : under T (join_load u ro).
Proof.
  intros o w Hw. unfold join_load. rewrite bind_run. cbn [get fst snd]. destruct (writer_generation _); [apply rtc_refl|].
  destruct (negb ro).
  - rewrite bind_run. destruct (claim_spec u o w) as [Hr [Hc Hg]]; [done|]. etrans; [exact Hr|].
    pose proof (mono_eff T _ _ Hr Hw) as HT1. destruct (claim_writer u o w) as [[[c|e]|e] w1]; cbn [fst snd] in *; [|by destruct e|apply rtc_refl].
    eapply (adopt_claim _ _ _ _ T); [intros e; under_steps|apply under_ret|]. split; [by split; [|apply Hc]|by eapply Hg].
  - assert (Hu : under T (r ← load_readonly u;
      match r with
      | Err _ => remote ← get is_remote_task_room; _ ← (if remote : bool then fatal_remote_write_unconfirmed else mret tt); mret (Err DbError)
      | Ok (Err _) => mret (Err AdmissionDenied)
      | Ok (Ok l) => _ ← set_committed_from_load l; r ← reload_primary_from_committed;
        match r with Err e => _ ← close_all_connections 1011 (bs "engine reload failed"); mret (Err e) | Ok _ => mret (Ok tt) end
      end)) by under_steps. by apply Hu.
Qed.

(** ** Joining *)

Lemma insert_run j ro o w :
  fence_lost (self w) = false -> (size (connections (self w)) < max_connections_per_room (config (self w)))%nat ->
  (exists t, client_id_owner (self w) !! j_client_id j = Some (user_id (j_session j), t)) ->
  (ro = false -> granted (segment (trace w)) (session_who (j_session j))) ->
  rtc room_step w (join_insert j ro o w).2.
Proof.
  intros Hf Hs Ho Hg. unfold join_insert. rewrite bind_run. cbn [get fst snd]. destruct w as [a cs bs tr n]. cbn [self trace] in *.
  unfold connection_generation. cbn zeta iota. set (g := sat_add_u64 _ _). rewrite !bind_run. cbn [modify fst snd self chans budgets trace tick new_budget].
  set (aw := claim_connection_client _ _ _). set (b := fresh (dom bs)). set (c := ConnSt _ _ _ _ _ _ _ _ _ _ _).
  eapply rtc_l.
  { eapply (step_enter a cs bs tr n (j_conn_id j) c aw); [|apply claim_generation]. constructor; [done..|].
    apply not_elem_of_dom. apply is_fresh. }
  apply effs_steps. cbn [config set_awareness]. set (w1 := MkWorld _ _ _ _ _).
  assert (Hp : under (fun _ => True) (_ ← publish_live_conns;
    r ← get awareness;
    _ ← (if bool_decide (encode_all r = []) then mret tt
         else match encode (awareness_frame (j_routing_key j) (encode_all r)) with
              | Ok bytes => deliver_outbound (j_conn_id j) bytes (awareness_frame (j_routing_key j) (encode_all r)) Data
              | Err _ => mret tt
              end);
    _ ← flush_pending_awareness;
    mret g)).
  { under_steps. apply under_deliver; [exact _|]. intros. by apply plain_send. }
  specialize (Hp o w1 I). rewrite !bind_run in Hp. exact Hp.
Qed.

Lemma join_run j o w : rtc room_step w (handle_join j o w).2.
Proof.
  unfold handle_join. rewrite bind_run. cbn [get fst snd]. change (id (self w)) with (self w). destruct (fence_lost (self w)) eqn:Hf; [apply rtc_refl|].
  destruct (_ <=? _)%nat eqn:Hs; [apply rtc_refl|]. apply Nat.leb_gt in Hs. cbn zeta. set (u := session_who (j_session j)). rewrite bind_run.
  destruct (spec_ask (QAdmission u) (fun _ => True) (fun a => fence_lost a = false) ltac:(done) o w) as [H1 [[_ Hh] Hf1]]; [done|].
  destruct (ask (QAdmission u) o w) as [r w1]. cbn [fst snd] in *. destruct r as [[aro|e]|e]; try (by apply effs_steps).
  set (ro := j_read_only j || aro). set (T := fun tr => ro = false -> granted (segment tr) u).
  assert (HT : Mono T) by (intros tr e He Hg Hro; apply (Mono_granted u tr e He), Hg, Hro).
  assert (HT1 : T (trace w1)).
  { intros Hro. apply orb_false_iff in Hro as [_ ->]. by eexists. }
  unfold try_ at 1. rewrite bind_run.
  pose proof (under_join_load T u ro o w1 HT1) as H2. pose proof (join_load_open u ro o w1 Hf1) as Hf2.
  destruct (join_load u ro o w1) as [[[]|e] w2]; cbn [fst snd] in *; [|apply effs_steps; by etrans]. specialize (Hf2 eq_refl).
  unfold try_ at 1. rewrite bind_run. pose proof (proj1 (calm_ensure o w2)) as H3. pose proof (calm_fence _ o w2 calm_ensure) as Hf3.
  destruct (ensure_primary_capacity o w2) as [[[]|e] w3]; cbn [fst snd] in *; [|apply effs_steps; by etrans; [|etrans]].
  unfold try_ at 1. rewrite bind_run. pose proof (under_catch_up (fun _ => True) u ro o w3 I) as H4.
  pose proof (catch_up_open u ro o w3 ltac:(congruence)) as Hf4.
  destruct (join_catch_up u ro o w3) as [[[]|e] w4]; cbn [fst snd] in *; [|apply effs_steps; by do 3 (etrans; [done|])]. specialize (Hf4 eq_refl).
  assert (H14 : rtc eff w1 w4) by (by do 2 (etrans; [done|])). assert (H04 : rtc eff w w4) by (by etrans). rewrite bind_run. cbn [get fst snd].
  destruct (primary_loaded (self w4)) eqn:Hp; [|by apply effs_steps]. destruct Hf4 as [Hf4|]; [|congruence]. cbn [negb]. rewrite bind_run.
  destruct (reserve_spec (j_client_id j) (user_id (j_session j)) o w4) as (H5 & Hf5 & Ho).
  destruct (reserve_client_id _ _ o w4) as [[] w5]; cbn [fst snd negb] in *; [|apply effs_steps; by etrans]. specialize (Ho eq_refl).
  assert (H05 : rtc eff w w5) by (by etrans). destruct (effs_shrink _ _ H05) as [Ec Hsz]. rewrite bind_run. cbn [mret M_ret snd].
  etrans; [by apply effs_steps|]. apply insert_run; [congruence|rewrite Ec; lia|done|].
  apply (mono_eff T w1); [by etrans|done].
Qed.

(** ** Turns *)

Lemma command_run c o w : rtc room_step w (handle_command c o w).2.
Proof.
  unfold handle_command. rewrite bind_run. etrans; [apply effs_steps; exact (under_count (fun _ => True) o w I)|].
  destruct (count_command o w) as [[] [a cs bs tr n]]. cbn [fst snd]. clear w. rewrite bind_run. eapply rtc_l; [apply (step_started a cs bs tr n c)|].
  cbn [log fst snd self chans budgets trace tick]. set (w := MkWorld _ _ _ _ _).
  assert (Hu : forall A (m : M A) (b : bool), under (fun _ => True) m -> rtc room_step w ((_ ← m; mret b) o w).2).
  { intros A m b Hm. rewrite bind_run. apply effs_steps. by apply Hm. }
  destruct c; try (apply Hu; auto with room; fail).
  - rewrite bind_run. apply join_run.
  - rewrite bind_run. apply effs_steps, frame_run. unfold w. simpl. by rewrite current_snoc.
Qed.

Lemma turn_run t o w : rtc room_step w (turn t o w).2.
Proof.
  assert (Hu : forall (m : M unit), under (fun _ => True) m -> rtc room_step w ((_ ← m; after_turn) o w).2).
  { intros m Hm. apply effs_steps. assert (Hb : under (fun _ => True) (_ ← m; after_turn)) by under_steps. by apply Hb. }
  destruct t; simpl; try (apply Hu; auto with room; fail); [|apply rtc_refl].
  rewrite bind_run. etrans; [apply command_run|]. destruct (negb _); [apply rtc_refl|]. by apply effs_steps, (under_after (fun _ => True)).
Qed.

Lemma loop_run ts : forall o w, rtc room_step w (run_loop ts o w).2.
Proof.
  induction ts as [|t ts IH]; intros o w; simpl; [apply rtc_refl|]. rewrite bind_run. etrans; [apply turn_run|].
  destruct (negb _); [apply rtc_refl|apply IH].
Qed.

Lemma teardown_run e o w : rtc eff w (teardown e o w).2.
Proof.
  assert (Hu : forall m, m = modify (set_room_guard None) -> under (fun _ => True) m).
  { intros m -> o' [a cs bs tr n] _. apply eff_once, eff_unguard. }
  assert (under (fun _ => True) (teardown e)) as Ht; [|by apply Ht].
  unfold teardown. destruct e; repeat first [by apply Hu | under_step].
Qed.

End turns.
