(* ===== verification/RoomInvariant.v ===== *)
(** * The invariant of a room *)

From stdpp Require Import base list numbers strings gmap relations.
From Stdlib Require Import ZArith Lia.
From S2P Require Import Prelude Text Uuid Json Wire YSync Awareness AwarenessFacts Hub.
From S2P Require Import RoomTypes Room RoomSync RoomLoop RoomFacts RoomEffects RoomHandlers RoomWrites RoomUpdates RoomTurns.

Section invariant.
Context {UL : UuidLib} {UN : UuidNil} {RL : RoomLib} {J : SerdeJson}.

(** ** Histories *)

(** What an event needs of the history before it. *)
Definition event_ok (tr : list Event) (e : Event) : Prop :=
  match e with
  | Delivered k f => may_send tr k f
  | Extended seq p => acked (segment tr) p seq /\ seq = tail_seq (replay tr) + 1
  | Asked _ _ =>
    forall i, attempt e = Some i ->
      granted (segment tr) (a_actor_user_id i, a_session_id i) /\ admitted (segment tr) (a_payload i) /\
      claimed tr (a_writer_generation i) /\ a_expected_tail_seq i = tail_seq (replay tr)
  | _ => True
  end.

Definition legal (tr : list Event) : Prop := forall t1 e t2, tr = t1 ++ e :: t2 -> event_ok t1 e.

Lemma legal_nil : legal [].
Proof. intros t1 e t2 H. by destruct t1. Qed.

Lemma legal_snoc tr e : legal tr -> event_ok tr e -> legal (tr ++ [e]).
Proof.
  intros Hl He t1 x t2 E. destruct t2 as [|y t2 _] using rev_ind.
  - apply app_inj_tail in E as [-> ->]. done.
  - rewrite app_comm_cons, app_assoc in E. apply app_inj_tail in E as [-> _]. by eapply Hl.
Qed.

(** ** The actor *)

Record room_inv (cfg : CollabConfig) (w : World) : Prop := RoomInv {
  inv_config : config (self w) = cfg;
  inv_legal : legal (trace w);
  inv_replay : committed (self w) = replay (trace w);
  inv_claimed : forall g, writer_generation (self w) = Some g -> claimed (trace w) g;
  inv_fence : fence_lost (self w) = true ->
    connections (self w) = ∅ /\ room_guard (self w) = None /\ writer_generation (self w) = None;
  inv_size : (size (connections (self w)) <= max_connections_per_room cfg)%nat;
  inv_owner : forall k c, connections (self w) !! k = Some c ->
    exists t, client_id_owner (self w) !! conn_client_id c = Some (user_id (session c), t);
  inv_granted : forall k c, connections (self w) !! k = Some c -> read_only c = false ->
    exists e, e ∈ trace w /\ grant e = Some (session_who (session c));
  inv_counter : reg_generation (awareness (self w)) <= u64_max;
  inv_numbered : forall k c, connections (self w) !! k = Some c -> conn_generation c <= reg_generation (awareness (self w));
  inv_distinct : reg_generation (awareness (self w)) < u64_max -> forall k k' c c',
    connections (self w) !! k = Some c -> connections (self w) !! k' = Some c' -> conn_generation c = conn_generation c' -> k = k' }.

(** A state with the same core and a longer, harmless history. *)
Lemma inv_core cfg a a' cs bs cs' bs' tr n n' :
  core a' = core a -> room_inv cfg (MkWorld a cs bs tr n) -> room_inv cfg (MkWorld a' cs' bs' tr n').
Proof.
  intros Hc [? ? ? ? ? ? ? ? ? ? ?]. apply core_eq in Hc as (E1 & E2 & E3 & E4 & E5 & E6 & E7 & E8).
  split; simpl in *; rewrite ?E1, ?E2, ?E3, ?E4, ?E5, ?E6, ?E7, ?E8; done.
Qed.

Lemma inv_event cfg a cs bs tr n e :
  event_ok tr e -> replay_step (replay tr) e = replay tr -> room_inv cfg (MkWorld a cs bs tr n) -> room_inv cfg (MkWorld a cs bs (tr ++ [e]) n).
Proof.
  intros He Hr [? ? ? Hcl ? ? ? Hgr ? ? ?]. split; simpl in *; try done.
  - by apply legal_snoc.
  - rewrite replay_snoc. congruence.
  - intros g Hg. destruct (Hcl g Hg) as (x & ? & ?). exists x. set_solver.
  - intros k c Hk Hro. destruct (Hgr k c Hk Hro) as (x & ? & ?). exists x. set_solver.
Qed.

(** Connections may go. *)
Lemma inv_drop cfg a cs bs tr n m :
  m ⊆ connections a -> room_inv cfg (MkWorld a cs bs tr n) -> room_inv cfg (MkWorld (set_connections m a) cs bs tr n).
Proof.
  intros Hm [? ? ? ? Hf Hs Ho Hg Hr' Hn Hd]. assert (Hl : forall k c, m !! k = Some c -> connections a !! k = Some c) by (intros; by eapply lookup_weaken).
  split; simpl in *; try done; eauto.
  - intros Hl'. destruct (Hf Hl') as (E & ? & ?). split_and!; [|done..]. apply map_empty. intros k.
    destruct (m !! k) as [c|] eqn:Hk; [|done]. apply Hl in Hk. by rewrite E, lookup_empty in Hk.
  - etrans; [by apply map_subseteq_size|done].
Qed.

Lemma inv_conn cfg a cs bs tr n k c c' :
  connections a !! k = Some c -> same_conn c c' -> room_inv cfg (MkWorld a cs bs tr n) ->
  room_inv cfg (MkWorld (set_connections (<[k := c']> (connections a)) a) cs bs tr n).
Proof.
  intros Hk (Es & Ec & Er & _ & _ & _ & Eg) [? ? ? ? Hf Hs Ho Hg Hr' Hn Hd]. simpl in *.
  assert (Hl : forall k1 c1, <[k := c']> (connections a) !! k1 = Some c1 -> exists c0, connections a !! k1 = Some c0 /\
    session c1 = session c0 /\ conn_client_id c1 = conn_client_id c0 /\ read_only c1 = read_only c0 /\ conn_generation c1 = conn_generation c0).
  { intros k1 c1. rewrite lookup_insert_Some. intros [[<- <-]|[? ?]]; [by exists c|by exists c1]. }
  split; simpl; try done.
  - intros Hl'. destruct (Hf Hl') as [E _]. by rewrite E, lookup_empty in Hk.
  - rewrite map_size_insert_Some by (by eexists). done.
  - intros k1 c1 H1. destruct (Hl _ _ H1) as (c0 & H0 & E1 & E2 & _). rewrite E1, E2. by eapply Ho.
  - intros k1 c1 H1 Hro. destruct (Hl _ _ H1) as (c0 & H0 & E1 & _ & E3 & _). rewrite E1. eapply Hg; [done|congruence].
  - intros k1 c1 H1. destruct (Hl _ _ H1) as (c0 & H0 & _ & _ & _ & E4). rewrite E4. by eapply Hn.
  - intros Hlt k1 k2 c1 c2 H1 H2 E. destruct (Hl _ _ H1) as (d1 & D1 & _ & _ & _ & E1). destruct (Hl _ _ H2) as (d2 & D2 & _ & _ & _ & E2).
    apply (Hd Hlt k1 k2 d1 d2); [done..|congruence].
Qed.

Lemma inv_eff cfg w w' : eff w w' -> room_inv cfg w -> room_inv cfg w'.
Proof.
  destruct 1 as [| |a cs bs tr n q r Hq|a cs bs tr n q r i Hq Hm| |a cs bs tr n k c c' Hk Hs|a a' cs bs tr n m Hm Hc
    |a cs bs tr n g Hg Hgd| |a cs bs tr n g Hgd| |a cs bs tr n b|a cs bs tr n seq p Ha Hs|a cs bs tr n owners Ho|a a' cs bs tr n cs' bs' n' q r Hc Hio Hq];
    intros HI.
  - by eapply inv_core.
  - by eapply inv_core.
  - apply inv_event; [|done..]. intros i Hi. congruence.
  - apply inv_event; [|done..]. intros i' Hi. destruct Hm as (? & ? & Hg & ? & ?). destruct HI as [_ _ Hr Hc _ _ _ _ _ _ _]. simpl in *.
    simplify_eq. rewrite <- Hr. auto.
  - by apply inv_event.
  - by eapply inv_conn.
  - eapply inv_core; [exact Hc|]. by eapply inv_drop.
  - destruct HI as [? ? ? Hcl Hf ? ? ? ? ? ?]. split; simpl in *; try done; [by intros ? [= <-]|]. intros Hl. destruct (Hf Hl) as (? & E & ?).
    rewrite E in Hgd. by destruct Hgd.
  - destruct HI as [? ? ? Hcl Hf ? ? ? ? ? ?]. split; simpl in *; try done. intros Hl. by destruct (Hf Hl) as (? & ? & ?).
  - destruct HI as [? ? ? Hcl Hf ? ? ? ? ? ?]. split; simpl in *; try done. intros Hl. destruct (Hf Hl) as (? & E & ?). rewrite E in Hgd. by destruct Hgd.
  - destruct HI as [? ? ? Hcl Hf ? ? ? ? ? ?]. split; simpl in *; try done. intros Hl. by destruct (Hf Hl) as (? & ? & ?).
  - destruct HI as [? ? ? Hcl Hf ? ? Hgr ? ? ?]. split; simpl in *; try done.
    + by apply legal_snoc.
    + by rewrite replay_snoc.
    + intros g Hg. destruct (Hcl g Hg) as (x & ? & ?). exists x. set_solver.
    + intros k c Hk Hro. destruct (Hgr k c Hk Hro) as (x & ? & ?). exists x. set_solver.
  - destruct HI as [? ? Hr Hcl Hf ? ? Hgr ? ? ?]. split; simpl in *; try done.
    + apply legal_snoc; [done|]. simpl. by rewrite <- Hr.
    + by rewrite replay_snoc, <- Hr.
    + intros g Hg. destruct (Hcl g Hg) as (x & ? & ?). exists x. set_solver.
    + intros k c Hk Hro. destruct (Hgr k c Hk Hro) as (x & ? & ?). exists x. set_solver.
  - destruct HI as [? ? ? Hcl Hf ? Ho' ? ? ? ?]. split; simpl in *; try done. intros k c Hk. destruct (Ho' k c Hk) as [t Ht]. by eapply Ho.
  - apply (inv_event cfg a cs bs tr n (Asked q r)) in HI; [|intros i Hi; congruence|done].
    eapply (inv_core cfg _ a' cs bs cs' bs' _ n n'); [exact Hc|]. destruct HI as [? ? ? Hcl Hf ? ? ? ? ? ?]. split; simpl in *; try done; rewrite map_size_empty; lia.
Qed.

Lemma inv_enter cfg a cs bs cs' bs' tr n k c aw :
  may_enter tr a bs c -> reg_generation aw = conn_generation c -> room_inv cfg (MkWorld a cs bs tr n) ->
  room_inv cfg (MkWorld (set_connections (<[k := c]> (connections a)) (set_awareness aw a)) cs' bs' tr n).
Proof.
  intros [Hf Hs Ho Hg Egen _] Eaw [Ecfg ? ? ? ? ? Ho' Hg' Hr Hn Hd]. simpl in *.
  assert (Hge : reg_generation (awareness a) <= conn_generation c <= u64_max) by (rewrite Egen; unfold sat_add_u64; lia).
  assert (Hlt : conn_generation c < u64_max -> reg_generation (awareness a) < conn_generation c) by (rewrite Egen; unfold sat_add_u64; lia).
  split; simpl in *; try done.
  - intros Hl. congruence.
  - rewrite map_size_insert. case_match; [done|]. rewrite <- Ecfg. lia.
  - intros k1 c1. rewrite lookup_insert_Some. intros [[<- <-]|[? ?]]; [done|by eapply Ho'].
  - intros k1 c1. rewrite lookup_insert_Some. intros [[<- <-]|[? ?]] Hro; [|by eapply Hg'].
    destruct (Hg Hro) as (e & He & ?). exists e. split; [by apply segment_trace|done].
  - lia.
  - intros k1 c1. rewrite Eaw, lookup_insert_Some. intros [[<- <-]|[? H1]]; [done|]. apply Hn in H1. lia.
  - rewrite Eaw. intros Hmax k1 k2 c1 c2. rewrite !lookup_insert_Some. specialize (Hlt Hmax).
    intros [[<- <-]|[? H1]] [[<- <-]|[? H2]] E; [done|apply Hn in H2; lia|apply Hn in H1; lia|]. eapply Hd; [lia|done..].
Qed.

Lemma inv_step cfg w w' : room_step w w' -> room_inv cfg w -> room_inv cfg w'.
Proof. destruct 1; [by eapply inv_eff|by apply inv_event|by eapply inv_enter]. Qed.

Lemma inv_steps cfg w w' : rtc room_step w w' -> room_inv cfg w -> room_inv cfg w'.
Proof. induction 1; [done|]. intros. eauto using inv_step. Qed.

(** ** A lost fence *)

Definition is_delivery (e : Event) : bool := match e with Delivered _ _ => true | _ => false end.
(** Neither an append nor a frame for a connection. *)
Definition idle (e : Event) : Prop := attempt e = None /\ is_delivery e = false.

Lemma fence_eff cfg w w' : eff w w' -> room_inv cfg w -> fence_lost (self w) = true ->
  fence_lost (self w') = true /\ exists t, trace w' = trace w ++ t /\ Forall idle t.
Proof.
  intros He HI Hl. destruct (inv_fence _ _ HI Hl) as (Ec & Eg & Ew).
  assert (Hno : forall tr : list Event, exists t, tr = tr ++ t /\ Forall idle t) by (intros tr; exists []; by rewrite app_nil_r).
  destruct He as [|a a' cs bs tr n Hc|a cs bs tr n q r Hq|a cs bs tr n q r i Hq Hm|a cs bs tr n k f Hs Hk|a cs bs tr n k c c' Hk
    |a a' cs bs tr n m Hm Hc| | | | |a cs bs tr n b|a cs bs tr n seq p Ha Hs| |a a' cs bs tr n cs' bs' n' q r Hc Hio Hq]; simpl in *; auto.
  - apply core_eq in Hc as (_ & _ & _ & _ & _ & _ & _ & ->). auto.
  - split; [done|]. exists [Asked q r]. split; [done|]. repeat constructor. done.
  - destruct Hm as (_ & _ & Hw & _). congruence.
  - rewrite Ec, lookup_empty in Hk. by destruct Hk.
  - apply core_eq in Hc as (_ & _ & _ & _ & _ & _ & _ & ->). auto.
  - split; [done|]. exists [Adopted b]. split; [done|]. by repeat constructor.
  - split; [done|]. exists [Extended seq p]. split; [done|]. by repeat constructor.
  - apply core_eq in Hc as (_ & _ & _ & _ & _ & _ & _ & ->). split; [done|]. exists [Asked q r]. split; [done|]. repeat constructor. done.
Qed.

Lemma fence_steps cfg w w' : rtc room_step w w' -> room_inv cfg w -> fence_lost (self w) = true ->
  fence_lost (self w') = true /\ exists t, trace w' = trace w ++ t /\ Forall idle t.
Proof.
  induction 1 as [w|w w1 w2 H _ IH]; intros HI Hl; [split; [done|]; exists []; by rewrite app_nil_r|].
  assert (fence_lost (self w1) = true /\ exists t, trace w1 = trace w ++ t /\ Forall idle t) as (Hl1 & t1 & E1 & F1).
  { destruct H as [w w' H|a cs bs tr n c|a cs bs tr n k c aw [Hf]]; [by eapply fence_eff| |simpl in *; congruence].
    split; [done|]. exists [Started c]. split; [done|]. by repeat constructor. }
  destruct (IH (inv_step _ _ _ H HI) Hl1) as (Hl2 & t2 & E2 & F2). split; [done|]. exists (t1 ++ t2).
  split; [by rewrite E2, E1, app_assoc|]. by apply Forall_app.
Qed.

(** ** Outbound accounts *)

Definition accounts (cfg : CollabConfig) (w : World) : Prop := config (self w) = cfg /\ accounted cfg [] (chans w) (budgets w).

Lemma accounts_eff cfg w w' : eff w w' -> accounts cfg w -> accounts cfg w'.
Proof.
  intros He [Hc Ha]. split; [destruct (eff_shrinks _ _ He) as [-> _]; done|]. destruct He; simpl in *; try done; by apply H || by apply H0.
Qed.

Lemma held_fresh cfg b ps bs : balanced cfg ps bs -> bs !! b = None -> held b ps = [].
Proof.
  intros [H _] Hb. unfold held. induction H as [|p ps [_ Hp] _ IH]; [done|]. rewrite filter_cons. case_decide as E; [|done].
  rewrite E, Hb in Hp. by destruct Hp.
Qed.

Lemma accounts_step cfg w w' :
  0 <= max_outbound_frames_per_connection cfg -> 0 <= max_outbound_bytes_per_connection cfg ->
  room_step w w' -> accounts cfg w -> accounts cfg w'.
Proof.
  intros Hfr Hby [w0 w1 He|a0 cs0 bs0 tr0 n0 c0|a cs bs tr n k c aw [_ _ _ _ _ Hb] _] [Hc Ha]; [by eapply accounts_eff|done|]. split; [done|]. simpl in *.
  unfold accounted in *. rewrite Hc. pose proof (held_fresh _ _ _ _ Ha Hb) as Hh. destruct Ha as [Hp Ha]. split.
  - eapply Forall_impl; [exact Hp|]. intros p [? ?]. split; [done|]. rewrite lookup_insert_is_Some'. by right.
  - intros b v. rewrite lookup_insert_Some. intros [[<- <-]|[? Hv]]; [|by apply Ha]. rewrite Hh. unfold full_budget. simpl. split_and!; try done.
    change (len (@nil Permit)) with 0. lia.
Qed.

Lemma accounts_steps cfg w w' :
  0 <= max_outbound_frames_per_connection cfg -> 0 <= max_outbound_bytes_per_connection cfg ->
  rtc room_step w w' -> accounts cfg w -> accounts cfg w'.
Proof. induction 3; [done|]. intros. eauto using accounts_step. Qed.

(** ** A room from its start *)

(** A room after the turns [ts]. *)
Definition room_after (o : Outside) (ws doc : uuid) (k : CollabKind) (cfg : CollabConfig) (b : Backend) (g : BackendRoomGuard)
    (cs : gmap nat Channel) (initial : option CollabLoadState) (ts : list Turn) : World :=
  (run_loop ts o (start_room initial o (new_world (new_actor ws doc k cfg b g) cs)).2).2.

Lemma start_steps initial o w : rtc room_step w (start_room initial o w).2.
Proof. destruct initial as [l|]; [|apply rtc_refl]. apply effs_steps. exact (under_set_committed (fun _ => True) l o w I). Qed.

Lemma room_steps o ws doc k cfg b g cs initial ts :
  rtc room_step (new_world (new_actor ws doc k cfg b g) cs) (room_after o ws doc k cfg b g cs initial ts).
Proof. etrans; [apply start_steps|apply loop_run]. Qed.

Lemma room_inv_start ws doc k cfg b g cs : room_inv cfg (new_world (new_actor ws doc k cfg b g) cs).
Proof. split; simpl; try done; [apply legal_nil|rewrite map_size_empty; lia]. Qed.

Lemma room_invariant o ws doc k cfg b g cs initial ts : room_inv cfg (room_after o ws doc k cfg b g cs initial ts).
Proof. eapply inv_steps; [apply room_steps|apply room_inv_start]. Qed.

Lemma room_accounts o ws doc k cfg b g cs initial ts :
  0 <= max_outbound_frames_per_connection cfg -> 0 <= max_outbound_bytes_per_connection cfg -> all_permits cs = [] ->
  accounts cfg (room_after o ws doc k cfg b g cs initial ts).
Proof.
  intros Hf Hb Hp. eapply accounts_steps; [done..|apply room_steps|]. split; [done|]. unfold accounted. simpl. rewrite Hp. split; [constructor|].
  intros b' v. by rewrite lookup_empty.
Qed.

End invariant.
