(* ===== verification/RoomTidy.v ===== *)
(** * Presence notices are never left over

    The notices of departed clients are queued while frames are delivered and
    flushed afterwards.  The fuel of the flush is enough, and after every
    operation nothing is left in the queue. *)

From stdpp Require Import base list numbers strings gmap relations.
From Stdlib Require Import ZArith Lia.
From S2P Require Import Prelude Text Uuid Json Wire YSync Awareness AwarenessFacts Hub.
From S2P Require Import RoomTypes Room RoomSync RoomLoop RoomFacts RoomEffects RoomHandlers.

Section flush.
Context {UL : UuidLib} {UN : UuidNil} {RL : RoomLib} {J : SerdeJson}.

Lemma io_self {A} (m : M A) o w : io_only m -> self (m o w).2 = self w.
Proof. intros Hm. by destruct (Hm o w) as (cs & bs & n & -> & _). Qed.

Lemma ask_self q o w : self (ask q o w).2 = self w.
Proof. unfold ask. by destruct (foldl _ _ _). Qed.

Lemma keys_self {A} (m : gmap uuid A) o w : self (keys_of m o w).2 = self w.
Proof. unfold keys_of. rewrite bind_run. exact (ask_self (QOrder (map_to_list m).*1) o w). Qed.

(** ** The measure of a flush *)

Definition lighter {A} (m : M A) : Prop := forall o w,
  (flush_fuel (self (m o w).2) <= flush_fuel (self w))%nat /\ flushing_awareness (self (m o w).2) = flushing_awareness (self w).

Lemma lighter_self {A} (m : M A) : (forall o w, self (m o w).2 = self w) -> lighter m.
Proof. intros H o w. by rewrite H. Qed.

Lemma lighter_bind {A B} (m : M A) (k : A -> M B) : lighter m -> (forall x, lighter (k x)) -> lighter (m ≫= k).
Proof.
  intros Hm Hk o w. rewrite bind_run. destruct (Hm o w) as [H1 E1]. destruct (Hk (m o w).1 o (m o w).2) as [H2 E2]. split; [lia|congruence].
Qed.

Lemma lighter_ret {A} (x : A) : lighter (mret x).
Proof. by apply lighter_self. Qed.

(** An eviction takes a connection away and adds at most one notice. *)
Lemma lighter_backpressure k : lighter (evict_for_backpressure k).
Proof.
  intros o w. unfold evict_for_backpressure. rewrite bind_run.
  assert (H : (flush_fuel (self (evict_connection k 1009 (bs "outbound queue full") Preempt o w).2) +
      match (evict_connection k 1009 (bs "outbound queue full") Preempt o w).1 with Some _ => 1 | None => 0 end <= flush_fuel (self w))%nat /\
    flushing_awareness (self (evict_connection k 1009 (bs "outbound queue full") Preempt o w).2) = flushing_awareness (self w)).
  { unfold evict_connection. rewrite bind_run. cbn [get fst snd]. destruct (connections (self w) !! k) as [c|] eqn:Hc; [|simpl; split; [lia|done]].
    rewrite bind_run. cbn [get fst snd]. destruct (remove_client _ _ _) as [t r]. rewrite !bind_run. cbn [mret M_ret fst snd].
    rewrite (io_self _ o _ (io_only_close (events c) 1009 (bs "outbound queue full"))). simpl. split; [|done]. unfold flush_fuel. simpl.
    rewrite map_size_delete_Some by (by eexists). assert (size (connections (self w)) <> 0)%nat.
    { rewrite map_size_non_empty_iff. intros E. by rewrite E, lookup_empty in Hc. }
    destruct t; lia. }
  destruct (evict_connection k 1009 _ Preempt o w) as [t w1]. cbn [fst snd] in *. destruct H as [H E].
  assert (Hs : forall w', flush_fuel (self (try_schedule_session_revision o w').2) = flush_fuel (self w') /\
    flushing_awareness (self (try_schedule_session_revision o w').2) = flushing_awareness (self w')).
  { intros w'. unfold try_schedule_session_revision, modify. simpl. by repeat case_match. }
  rewrite bind_run. destruct (Hs (match t with Some e => push_awareness e | None => mret tt end o w1).2) as [-> ->].
  destruct t as [e|]; simpl; [|split; [lia|done]]. unfold flush_fuel in *. simpl. rewrite length_app. simpl. split; [lia|done].
Qed.

Lemma lighter_deliver k bytes f kd : lighter (deliver_outbound k bytes f kd).
Proof.
  unfold deliver_outbound. apply lighter_bind; [apply lighter_self; intros; apply io_self, io_only_yield|intros _].
  apply lighter_bind; [by apply lighter_self|intros [c|]; [|apply lighter_ret]].
  apply lighter_bind; [by apply lighter_self|intros ch]. case_match; [apply lighter_ret|]. cbn zeta.
  apply lighter_bind; [apply lighter_self; intros; apply io_self, io_only_yield|intros _].
  apply lighter_bind; [by apply lighter_self|intros [v|]; [|apply lighter_ret]].
  destruct (max_bytes v <? _); [apply lighter_backpressure|]. destruct (max_bytes v <? _); [apply lighter_backpressure|].
  apply lighter_bind; [apply lighter_self; intros; apply io_self, io_only_yield|intros _].
  apply lighter_bind; [|intros [|]; [|apply lighter_backpressure]].
  { apply lighter_self. intros o w. unfold try_acquire_frame. rewrite bind_run. cbn [get_budget fst snd].
    destruct (budgets w !! _) as [v'|]; [|done]. by destruct (0 <? frames_free v'). }
  apply lighter_bind; [|intros _].
  { apply lighter_self. intros o w. unfold add_queued. rewrite bind_run. cbn [get_budget fst snd].
    by destruct (budgets w !! _). }
  apply lighter_bind; [apply lighter_self; intros; apply io_self, io_only_yield|intros _].
  apply lighter_bind; [|intros []; [by apply lighter_self|apply lighter_backpressure|apply lighter_ret]].
  apply lighter_self. intros o w. by edestruct (try_send_run (events c)) as (cs & bs & -> & _).
Qed.

Lemma lighter_to_all f : lighter (to_all f).
Proof.
  unfold to_all. apply lighter_bind; [by apply lighter_self|intros conns]. apply lighter_bind; [apply lighter_self, keys_self|intros keys].
  induction keys as [|k keys IH]; simpl; [apply lighter_ret|]. apply lighter_bind; [|done]. case_match; [apply lighter_deliver|apply lighter_ret].
Qed.

(** The loop ends with an empty queue, not with its fuel. *)
Lemma flush_loop_drains fuel : forall o w, (flush_fuel (self w) <= fuel)%nat -> pending_awareness (self (flush_loop fuel o w).2) = [].
Proof.
  induction fuel as [|fuel IH]; intros o w Hw; cbn [flush_loop]; rewrite bind_run; cbn [get fst snd].
  - unfold flush_fuel in Hw. destruct (pending_awareness (self w)) eqn:E; [done|simpl in Hw; lia].
  - destruct (pending_awareness (self w)) as [|e rest] eqn:E; [done|]. rewrite bind_run. cbn [modify fst snd]. rewrite bind_run. apply IH.
    edestruct lighter_to_all as [H _]. etrans; [exact H|]. simpl. unfold flush_fuel in *. rewrite E in Hw. simpl in *. lia.
Qed.

Definition tidy (a : RoomActor) : Prop := pending_awareness a = [] /\ flushing_awareness a = false.

Lemma flush_tidy o w : flushing_awareness (self w) = false -> tidy (self (flush_pending_awareness o w).2).
Proof.
  intros Hf. unfold flush_pending_awareness. rewrite bind_run. cbn [get fst snd]. rewrite Hf, bind_run. cbn [modify fst snd].
  rewrite bind_run. cbn [get fst snd]. rewrite bind_run. simpl. split; simpl; [|done]. by apply flush_loop_drains.
Qed.

Definition tidies {A} (m : M A) : Prop := forall o w, tidy (self w) -> tidy (self (m o w).2).

(** The flag stays: a flush that follows works. *)
Definition flagged {A} (m : M A) : Prop := forall o w, flushing_awareness (self (m o w).2) = flushing_awareness (self w).

Lemma lighter_flagged {A} (m : M A) : lighter m -> flagged m.
Proof. intros H o w. apply H. Qed.
Lemma flagged_bind {A B} (m : M A) (k : A -> M B) : flagged m -> (forall x, flagged (k x)) -> flagged (m ≫= k).
Proof. intros Hm Hk o w. rewrite bind_run. by rewrite Hk. Qed.

Lemma tidies_flush {A} (m : M A) : flagged m -> tidies (_ ← m; flush_pending_awareness).
Proof. intros Hm o w [_ Hf]. rewrite bind_run. apply flush_tidy. by rewrite Hm. Qed.

Lemma tidies_flush_then {A B} (m : M A) (k : M B) : flagged m -> tidies k -> tidies (_ ← m; _ ← flush_pending_awareness; k).
Proof. intros Hm Hk o w [_ Hf]. rewrite !bind_run. apply Hk, flush_tidy. by rewrite Hm. Qed.

Lemma tidies_self {A} (m : M A) : (forall o w, self (m o w).2 = self w) -> tidies m.
Proof. intros H o w. by rewrite H. Qed.
Lemma tidies_ret {A} (x : A) : tidies (mret x).
Proof. by apply tidies_self. Qed.
Lemma tidies_bind {A B} (m : M A) (k : A -> M B) : tidies m -> (forall x, tidies (k x)) -> tidies (m ≫= k).
Proof. intros Hm Hk o w Hw. rewrite bind_run. by apply Hk, Hm. Qed.
Lemma tidies_try {E A B} (m : M (result E A)) (k : A -> M (result E B)) : tidies m -> (forall x, tidies (k x)) -> tidies (try_ m k).
Proof. intros Hm Hk. apply tidies_bind; [done|]. intros [x|e]; [done|apply tidies_ret]. Qed.
Lemma tidies_get {A} (f : RoomActor -> A) : tidies (get f).
Proof. by apply tidies_self. Qed.
Lemma tidies_log e : tidies (log e).
Proof. by apply tidies_self. Qed.
Lemma tidies_modify f : (forall a, tidy a -> tidy (f a)) -> tidies (modify f).
Proof. intros Hf o w Hw. simpl. by apply Hf. Qed.
Lemma tidies_ask q : tidies (ask q).
Proof. apply tidies_self. intros. apply ask_self. Qed.
Lemma tidies_for_each {A} (f : A -> M unit) l : (forall x, tidies (f x)) -> tidies (for_each f l).
Proof. intros Hf. induction l; simpl; [apply tidies_ret|]. by apply tidies_bind. Qed.
Lemma tidies_io {A} (m : M A) : io_only m -> tidies m.
Proof. intros Hm. apply tidies_self. intros. by apply io_self. Qed.

End flush.

Create HintDb tidy.
#[export] Hint Resolve tidies_ret : tidy.

Ltac tidy_step :=
  lazymatch goal with
  | |- tidies (mret _) => apply tidies_ret
  | |- tidies (mbind _ _) => first [solve [eauto 3 with tidy] | apply tidies_bind; [|intros ?]]
  | |- tidies (try_ _ _) => apply tidies_try; [|intros ?]
  | |- tidies (get _) => apply tidies_get
  | |- tidies (log _) => apply tidies_log
  | |- tidies (modify _) => apply tidies_modify; intros ? [? ?]; first [by split | by repeat case_match; split]
  | |- tidies (ask ?q) => refine (tidies_ask q)
  | |- tidies (for_each _ _) => apply tidies_for_each; intros ?
  | |- tidies (match ?x with _ => _ end) => destruct x
  | |- tidies _ => solve [eauto with tidy]
  end.
Ltac tidy_steps := repeat tidy_step.

Section pass.
Context {UL : UuidLib} {UN : UuidNil} {RL : RoomLib} {J : SerdeJson}.

Lemma tidy_flush : tidies flush_pending_awareness.
Proof. intros o w [_ Hf]. by apply flush_tidy. Qed.
Lemma tidy_keys {A} (m : gmap uuid A) : tidies (keys_of m).
Proof. apply tidies_self, keys_self. Qed.
Lemma tidy_close ch c r : tidies (enqueue_close ch c r).
Proof. apply tidies_io, io_only_close. Qed.
Hint Resolve tidy_flush tidy_keys tidy_close : tidy.

Lemma tidy_schedule : tidies try_schedule_session_revision.
Proof. unfold try_schedule_session_revision. tidy_steps. Qed.
Lemma tidy_abort : tidies abort_session_revision_work.
Proof. unfold abort_session_revision_work. tidy_steps. Qed.
Lemma tidy_publish : tidies publish_live_conns.
Proof. unfold publish_live_conns. tidy_steps. Qed.
Lemma tidy_drain c r : tidies (drain_connections c r).
Proof. unfold drain_connections. tidy_steps. Qed.
Lemma tidy_on_connection k f : tidies (on_connection k f).
Proof. unfold on_connection. tidy_steps. Qed.
Lemma tidy_new_budget : tidies new_budget.
Proof. by apply tidies_self. Qed.
Hint Resolve tidy_schedule tidy_abort tidy_publish tidy_drain tidy_on_connection tidy_new_budget : tidy.

(** Notices are queued and flushed at once. *)
Lemma flagged_evict k c r d : flagged (evict_connection k c r d).
Proof.
  intros o w. unfold evict_connection. rewrite bind_run. cbn [get fst snd]. destruct (connections (self w) !! k) as [x|]; [|done].
  rewrite bind_run. cbn [get fst snd]. destruct (remove_client _ _ _) as [t g]. rewrite !bind_run. cbn [mret M_ret fst snd].
  destruct d; rewrite io_self; auto using io_only_close, io_only_close_ordered.
Qed.

Lemma tidy_close_in_order k c r d : tidies (close_connection_in_order k c r d).
Proof.
  intros o w [_ Hf]. unfold close_connection_in_order. rewrite bind_run.
  assert (Hk : forall t w', flushing_awareness (self w') = false -> tidy (self ((_ ← match t with Some e => push_awareness e | None => mret tt end;
    _ ← flush_pending_awareness; try_schedule_session_revision) o w').2)).
  { intros t w' Hw'. rewrite !bind_run. apply tidy_schedule, flush_tidy. by destruct t. }
  apply Hk. by rewrite flagged_evict.
Qed.
Lemma tidy_close_connection k c r : tidies (close_connection k c r).
Proof. apply tidy_close_in_order. Qed.
Lemma tidy_close_connection_ordered k c r : tidies (close_connection_ordered k c r).
Proof. apply tidy_close_in_order. Qed.
Lemma tidy_broadcast_awareness e : tidies (broadcast_awareness e).
Proof. by apply tidies_flush. Qed.
Lemma tidy_message k rk m : tidies (deliver_document_message k rk m).
Proof. unfold deliver_document_message. case_match; [|apply tidies_ret]. apply tidies_flush, lighter_flagged, lighter_deliver. Qed.
Lemma tidy_status k rk b : tidies (send_sync_status k rk b).
Proof. apply tidy_message. Qed.
Lemma tidy_broadcast y : tidies (broadcast_update y).
Proof. apply tidies_flush, lighter_flagged, lighter_to_all. Qed.
Hint Resolve tidy_close_in_order tidy_close_connection tidy_close_connection_ordered tidy_broadcast_awareness tidy_message tidy_status tidy_broadcast : tidy.
Lemma tidy_send_stateless k p : tidies (send_stateless k p).
Proof. unfold send_stateless. tidy_steps. Qed.
Lemma tidy_delivered {B} k bytes f kd (x : B) : tidies (_ ← deliver_outbound k bytes f kd; flush_pending_awareness).
Proof. apply tidies_flush, lighter_flagged, lighter_deliver. Qed.
Hint Resolve tidy_send_stateless tidy_delivered : tidy.

Lemma tidy_release g : tidies (release g).
Proof. unfold release. tidy_steps. Qed.
Hint Resolve tidy_release : tidy.
Lemma tidy_release_bounded g : tidies (release_bounded g).
Proof. unfold release_bounded. tidy_steps. Qed.
Hint Resolve tidy_release_bounded : tidy.
Lemma tidy_renew g : tidies (renew g).
Proof. unfold renew. tidy_steps. Qed.
Hint Resolve tidy_renew : tidy.
Lemma tidy_guard_claim_writer g w : tidies (guard_claim_writer g w).
Proof. unfold guard_claim_writer. tidy_steps. Qed.
Hint Resolve tidy_guard_claim_writer : tidy.
Lemma tidy_guard_append g i : tidies (guard_append g i).
Proof. unfold guard_append. tidy_steps. Qed.
Hint Resolve tidy_guard_append : tidy.
Lemma tidy_guard_restore g i r : tidies (guard_restore g i r).
Proof. unfold guard_restore. tidy_steps. Qed.
Hint Resolve tidy_guard_restore : tidy.
Lemma tidy_fatal_remote_write_unconfirmed : tidies fatal_remote_write_unconfirmed.
Proof. unfold fatal_remote_write_unconfirmed. tidy_steps. Qed.
Hint Resolve tidy_fatal_remote_write_unconfirmed : tidy.
Lemma tidy_fatal_fence_lost : tidies fatal_fence_lost.
Proof. unfold fatal_fence_lost. tidy_steps. Qed.
Hint Resolve tidy_fatal_fence_lost : tidy.
Lemma tidy_engine_call r : tidies (engine_call r).
Proof. unfold engine_call. tidy_steps. Qed.
Hint Resolve tidy_engine_call : tidy.
Lemma tidy_recycle : tidies recycle.
Proof. unfold recycle. tidy_steps. Qed.
Hint Resolve tidy_recycle : tidy.
Lemma tidy_load_engine_primary : tidies load_engine_primary.
Proof. unfold load_engine_primary. tidy_steps. Qed.
Hint Resolve tidy_load_engine_primary : tidy.
Lemma tidy_reload_primary_from_committed : tidies reload_primary_from_committed.
Proof. unfold reload_primary_from_committed. tidy_steps. Qed.
Hint Resolve tidy_reload_primary_from_committed : tidy.
Lemma tidy_reload_primary_or_close_room : tidies reload_primary_or_close_room.
Proof. unfold reload_primary_or_close_room. tidy_steps. Qed.
Hint Resolve tidy_reload_primary_or_close_room : tidy.
Lemma tidy_recover_primary_after_engine_fault : tidies recover_primary_after_engine_fault.
Proof. unfold recover_primary_after_engine_fault. tidy_steps. Qed.
Hint Resolve tidy_recover_primary_after_engine_fault : tidy.
Lemma tidy_ensure_primary_capacity : tidies ensure_primary_capacity.
Proof. unfold ensure_primary_capacity. tidy_steps. Qed.
Hint Resolve tidy_ensure_primary_capacity : tidy.
Lemma tidy_apply_primary p : tidies (apply_primary p).
Proof. unfold apply_primary. tidy_steps. Qed.
Hint Resolve tidy_apply_primary : tidy.
Lemma tidy_integrate_committed_update p b : tidies (integrate_committed_update p b).
Proof. unfold integrate_committed_update. tidy_steps. Qed.
Hint Resolve tidy_integrate_committed_update : tidy.
Lemma tidy_validate_candidate_on_primary p : tidies (validate_candidate_on_primary p).
Proof. unfold validate_candidate_on_primary. tidy_steps. Qed.
Hint Resolve tidy_validate_candidate_on_primary : tidy.
Lemma tidy_adopt b : tidies (adopt b).
Proof. unfold adopt. tidy_steps. Qed.
Hint Resolve tidy_adopt : tidy.
Lemma tidy_set_committed_from_load l : tidies (set_committed_from_load l).
Proof. unfold set_committed_from_load. tidy_steps. Qed.
Hint Resolve tidy_set_committed_from_load : tidy.
Lemma tidy_extend_committed n p : tidies (extend_committed n p).
Proof. unfold extend_committed. tidy_steps. Qed.
Hint Resolve tidy_extend_committed : tidy.
Lemma tidy_load_readonly w : tidies (load_readonly w).
Proof. unfold load_readonly. tidy_steps. Qed.
Hint Resolve tidy_load_readonly : tidy.
Lemma tidy_close_each c r d : tidies (close_each c r d).
Proof. unfold close_each. tidy_steps. Qed.
Hint Resolve tidy_close_each : tidy.
Lemma tidy_close_all_connections c r : tidies (close_all_connections c r).
Proof. unfold close_all_connections. tidy_steps. Qed.
Hint Resolve tidy_close_all_connections : tidy.
Lemma tidy_fatal_writer_stale d : tidies (fatal_writer_stale d).
Proof. unfold fatal_writer_stale. tidy_steps. Qed.
Hint Resolve tidy_fatal_writer_stale : tidy.
Lemma tidy_adopt_current w : tidies (adopt_current w).
Proof. unfold adopt_current. tidy_steps. Qed.
Hint Resolve tidy_adopt_current : tidy.
Lemma tidy_fatal_room_divergence w : tidies (fatal_room_divergence w).
Proof. unfold fatal_room_divergence. tidy_steps. Qed.
Hint Resolve tidy_fatal_room_divergence : tidy.
Lemma tidy_fatal_primary_unhealthy w : tidies (fatal_primary_unhealthy w).
Proof. unfold fatal_primary_unhealthy. tidy_steps. Qed.
Hint Resolve tidy_fatal_primary_unhealthy : tidy.
Lemma tidy_user_write_reject_blocked u : tidies (user_write_reject_blocked u).
Proof. unfold user_write_reject_blocked. tidy_steps. Qed.
Hint Resolve tidy_user_write_reject_blocked : tidy.
Lemma tidy_record_user_rejected_candidate u : tidies (record_user_rejected_candidate u).
Proof. unfold record_user_rejected_candidate. tidy_steps. Qed.
Hint Resolve tidy_record_user_rejected_candidate : tidy.
Lemma tidy_settle_primary : tidies settle_primary.
Proof. unfold settle_primary. tidy_steps. Qed.
Hint Resolve tidy_settle_primary : tidy.
Lemma tidy_reject_candidate_engine_unavailable k : tidies (reject_candidate_engine_unavailable k).
Proof. unfold reject_candidate_engine_unavailable. tidy_steps. Qed.
Hint Resolve tidy_reject_candidate_engine_unavailable : tidy.
Lemma tidy_reject_candidate k rk : tidies (reject_candidate k rk).
Proof. unfold reject_candidate. tidy_steps. Qed.
Hint Resolve tidy_reject_candidate : tidy.
Lemma tidy_locking_session_auth_by_ids w ro : tidies (locking_session_auth_by_ids w ro).
Proof. unfold locking_session_auth_by_ids. tidy_steps. Qed.
Hint Resolve tidy_locking_session_auth_by_ids : tidy.
Lemma tidy_locking_write_still_allowed w ro : tidies (locking_write_still_allowed w ro).
Proof. unfold locking_write_still_allowed. tidy_steps. Qed.
Hint Resolve tidy_locking_write_still_allowed : tidy.
Lemma tidy_delivery_admission w ro : tidies (delivery_admission w ro).
Proof. unfold delivery_admission. tidy_steps. Qed.
Hint Resolve tidy_delivery_admission : tidy.
Lemma tidy_poll_one s : tidies (poll_one s).
Proof. unfold poll_one. tidy_steps. Qed.
Hint Resolve tidy_poll_one : tidy.
Lemma tidy_poll_each l : tidies (poll_each l).
Proof. induction l; simpl; tidy_steps. Qed.
Hint Resolve tidy_poll_each : tidy.
Lemma tidy_poll_acl : tidies poll_acl.
Proof. unfold poll_acl. tidy_steps. Qed.
Hint Resolve tidy_poll_acl : tidy.
Lemma tidy_claim_writer w : tidies (claim_writer w).
Proof. unfold claim_writer. tidy_steps. Qed.
Hint Resolve tidy_claim_writer : tidy.
Lemma tidy_check_cached_native_consumer w : tidies (check_cached_native_consumer w).
Proof. unfold check_cached_native_consumer. tidy_steps. Qed.
Hint Resolve tidy_check_cached_native_consumer : tidy.
Lemma tidy_reserve_client_id c u : tidies (reserve_client_id c u).
Proof. unfold reserve_client_id. tidy_steps. Qed.
Hint Resolve tidy_reserve_client_id : tidy.
Lemma tidy_project_write w g n b p : tidies (project_write w g n b p).
Proof. unfold project_write. tidy_steps. Qed.
Hint Resolve tidy_project_write : tidy.
Lemma tidy_maybe_project_derived_body n w p : tidies (maybe_project_derived_body n w p).
Proof. unfold maybe_project_derived_body. tidy_steps. Qed.
Hint Resolve tidy_maybe_project_derived_body : tidy.
Lemma tidy_join_load w ro : tidies (join_load w ro).
Proof. unfold join_load. tidy_steps. Qed.
Hint Resolve tidy_join_load : tidy.
Lemma tidy_join_catch_up w ro : tidies (join_catch_up w ro).
Proof. unfold join_catch_up. tidy_steps. Qed.
Hint Resolve tidy_join_catch_up : tidy.
Lemma tidy_join_insert j ro : tidies (join_insert j ro).
Proof.
  unfold join_insert. tidy_step; [tidy_steps|]. tidy_step. do 4 (apply tidies_bind; [tidy_steps|intros ?]). apply tidies_bind; [tidy_steps|intros ?].
  apply tidies_flush_then; [|apply tidies_ret]. destruct (bool_decide _); [done|]. destruct (encode _); [apply lighter_flagged, lighter_deliver|done].
Qed.
Hint Resolve tidy_join_insert : tidy.
Lemma tidy_handle_join j : tidies (handle_join j).
Proof. unfold handle_join. tidy_steps. Qed.
Hint Resolve tidy_handle_join : tidy.
Lemma tidy_handle_leave k : tidies (handle_leave k).
Proof. unfold handle_leave. tidy_steps. Qed.
Hint Resolve tidy_handle_leave : tidy.
Lemma tidy_compact_failed : tidies compact_failed.
Proof. unfold compact_failed. tidy_steps. Qed.
Hint Resolve tidy_compact_failed : tidy.
Lemma tidy_persist_compact w i s : tidies (persist_compact w i s).
Proof. unfold persist_compact. tidy_steps. Qed.
Hint Resolve tidy_persist_compact : tidy.
Lemma tidy_run_persist_steps k i : tidies (run_persist_steps k i).
Proof. unfold run_persist_steps. tidy_steps. Qed.
Hint Resolve tidy_run_persist_steps : tidy.
Lemma tidy_flush_connection_persist k n : tidies (flush_connection_persist k n).
Proof. unfold flush_connection_persist. tidy_steps. Qed.
Hint Resolve tidy_flush_connection_persist : tidy.
Lemma tidy_handle_stateless k p : tidies (handle_stateless k p).
Proof. unfold handle_stateless. tidy_steps. Qed.
Hint Resolve tidy_handle_stateless : tidy.
Lemma tidy_maybe_compact : tidies maybe_compact.
Proof. unfold maybe_compact. tidy_steps. Qed.
Hint Resolve tidy_maybe_compact : tidy.
Lemma tidy_reconcile_ambiguous_append w i n p : tidies (reconcile_ambiguous_append w i n p).
Proof. unfold reconcile_ambiguous_append. tidy_steps. Qed.
Hint Resolve tidy_reconcile_ambiguous_append : tidy.
Lemma tidy_finish_update k rk y p w n : tidies (finish_update k rk y p w n).
Proof. unfold finish_update. tidy_steps. Qed.
Hint Resolve tidy_finish_update : tidy.
Lemma tidy_reload_and_reject k rk : tidies (reload_and_reject k rk).
Proof. unfold reload_and_reject. tidy_steps. Qed.
Hint Resolve tidy_reload_and_reject : tidy.
Lemma tidy_settle_append k rk y p w n c : tidies (settle_append k rk y p w n c).
Proof. unfold settle_append. tidy_steps. Qed.
Hint Resolve tidy_settle_append : tidy.
Lemma tidy_append_update k rk y p g : tidies (append_update k rk y p g).
Proof. unfold append_update. tidy_steps. Qed.
Hint Resolve tidy_append_update : tidy.
Lemma tidy_handle_update k rk ro y p : tidies (handle_update k rk ro y p).
Proof. unfold handle_update. tidy_steps. Qed.
Hint Resolve tidy_handle_update : tidy.
Lemma tidy_sync_failed k c r : tidies (sync_failed k c r).
Proof. unfold sync_failed. tidy_steps. Qed.
Hint Resolve tidy_sync_failed : tidy.
Lemma tidy_handle_step1 k rk s : tidies (handle_step1 k rk s).
Proof. unfold handle_step1. tidy_steps. Qed.
Hint Resolve tidy_handle_step1 : tidy.
Lemma tidy_handle_sync k rk ro m : tidies (handle_sync k rk ro m).
Proof. unfold handle_sync. tidy_steps. Qed.
Hint Resolve tidy_handle_sync : tidy.
Lemma tidy_handle_awareness c s g p : tidies (handle_awareness c s g p).
Proof. unfold handle_awareness. tidy_steps. Qed.
Hint Resolve tidy_handle_awareness : tidy.
Lemma tidy_handle_auth k rk ro m : tidies (handle_auth k rk ro m).
Proof. unfold handle_auth. tidy_steps. Qed.
Hint Resolve tidy_handle_auth : tidy.
Lemma tidy_still_admitted k w ro : tidies (still_admitted k w ro).
Proof. unfold still_admitted. tidy_steps. Qed.
Hint Resolve tidy_still_admitted : tidy.
Lemma tidy_handle_document_message k c m : tidies (handle_document_message k c m).
Proof. unfold handle_document_message. tidy_steps. Qed.
Hint Resolve tidy_handle_document_message : tidy.
Lemma tidy_handle_connection_ping k : tidies (handle_connection_ping k).
Proof. unfold handle_connection_ping. tidy_steps. Qed.
Hint Resolve tidy_handle_connection_ping : tidy.
Lemma tidy_done_bytes k n : tidies (done_bytes k n).
Proof. unfold done_bytes. tidy_steps. Qed.
Hint Resolve tidy_done_bytes : tidy.
Lemma tidy_handle_frame k b : tidies (handle_frame k b).
Proof. unfold handle_frame. tidy_steps. Qed.
Hint Resolve tidy_handle_frame : tidy.
Lemma tidy_claim_for_write w : tidies (claim_for_write w).
Proof. unfold claim_for_write. tidy_steps. Qed.
Hint Resolve tidy_claim_for_write : tidy.
Lemma tidy_prepare_forward_writer w : tidies (prepare_forward_writer w).
Proof. unfold prepare_forward_writer. tidy_steps. Qed.
Hint Resolve tidy_prepare_forward_writer : tidy.
Lemma tidy_forward_payload r : tidies (forward_payload r).
Proof. unfold forward_payload. tidy_steps. Qed.
Hint Resolve tidy_forward_payload : tidy.
Lemma tidy_forward_capture r p : tidies (forward_capture r p).
Proof. unfold forward_capture. tidy_steps. Qed.
Hint Resolve tidy_forward_capture : tidy.
Lemma tidy_forward_append i c : tidies (forward_append i c).
Proof. unfold forward_append. tidy_steps. Qed.
Hint Resolve tidy_forward_append : tidy.
Lemma tidy_forward_settle w i r c x : tidies (forward_settle w i r c x).
Proof. unfold forward_settle. tidy_steps. Qed.
Hint Resolve tidy_forward_settle : tidy.
Lemma tidy_forward_finish w i r a d b : tidies (forward_finish w i r a d b).
Proof. unfold forward_finish. tidy_steps. Qed.
Hint Resolve tidy_forward_finish : tidy.
Lemma tidy_forward_replay w n i : tidies (forward_replay w n i).
Proof. unfold forward_replay. tidy_steps. Qed.
Hint Resolve tidy_forward_replay : tidy.
Lemma tidy_apply_forward_write w r n i : tidies (apply_forward_write w r n i).
Proof. unfold apply_forward_write. tidy_steps. Qed.
Hint Resolve tidy_apply_forward_write : tidy.
Lemma tidy_handle_restore w s i : tidies (handle_restore w s i).
Proof. unfold handle_restore. tidy_steps. Qed.
Hint Resolve tidy_handle_restore : tidy.
Lemma tidy_handle_replace_body w s n : tidies (handle_replace_body w s n).
Proof. unfold handle_replace_body. tidy_steps. Qed.
Hint Resolve tidy_handle_replace_body : tidy.
Lemma tidy_handle_project_live w : tidies (handle_project_live w).
Proof. unfold handle_project_live. tidy_steps. Qed.
Hint Resolve tidy_handle_project_live : tidy.
Lemma tidy_capture_primary stop : tidies stop -> tidies (capture_primary stop).
Proof. intros Hs. unfold capture_primary. tidy_steps. Qed.
Lemma tidy_capture_load w : tidies (capture_load w).
Proof. unfold capture_load. tidy_steps. Qed.
Hint Resolve tidy_capture_load : tidy.
Lemma tidy_handle_capture_revision w : tidies (handle_capture_revision w).
Proof. unfold handle_capture_revision. tidy_steps. apply tidy_capture_primary, tidies_ret. Qed.
Hint Resolve tidy_handle_capture_revision : tidy.
Lemma tidy_session_revision_cancelled : tidies session_revision_cancelled.
Proof. unfold session_revision_cancelled. tidy_steps. Qed.
Hint Resolve tidy_session_revision_cancelled : tidy.
Lemma tidy_capture_committed_revision_primary : tidies capture_committed_revision_primary.
Proof. unfold capture_committed_revision_primary. tidy_steps. apply tidy_capture_primary, tidy_session_revision_cancelled. Qed.
Hint Resolve tidy_capture_committed_revision_primary : tidy.
Lemma tidy_revision_snapshots_equal_primary l r : tidies (revision_snapshots_equal_primary l r).
Proof. unfold revision_snapshots_equal_primary. tidy_steps. Qed.
Hint Resolve tidy_revision_snapshots_equal_primary : tidy.
Lemma tidy_session_insert f s c l : tidies (session_insert f s c l).
Proof. unfold session_insert. tidy_steps. Qed.
Hint Resolve tidy_session_insert : tidy.
Lemma tidy_session_compare f s c : tidies (session_compare f s c).
Proof. unfold session_compare. tidy_steps. Qed.
Hint Resolve tidy_session_compare : tidy.
Lemma tidy_advance_session_revision : tidies advance_session_revision.
Proof. unfold advance_session_revision. tidy_steps. Qed.
Hint Resolve tidy_advance_session_revision : tidy.
Lemma tidy_session_retries n : tidies (session_retries n).
Proof. induction n; simpl; tidy_steps. Qed.
Hint Resolve tidy_session_retries : tidy.
Lemma tidy_close_dropped_connection k g : tidies (close_dropped_connection k g).
Proof. unfold close_dropped_connection. tidy_steps. Qed.
Hint Resolve tidy_close_dropped_connection : tidy.
Lemma tidy_handle_lease_drop k g n : tidies (handle_lease_drop k g n).
Proof. unfold handle_lease_drop. tidy_steps. Qed.
Hint Resolve tidy_handle_lease_drop : tidy.
Lemma tidy_finish_loop n : tidies (finish_loop n).
Proof. induction n; simpl; tidy_steps. Qed.
Hint Resolve tidy_finish_loop : tidy.
Lemma tidy_finish_pending_lease_drops : tidies finish_pending_lease_drops.
Proof. unfold finish_pending_lease_drops. tidy_steps. Qed.
Hint Resolve tidy_finish_pending_lease_drops : tidy.
Lemma tidy_count_command : tidies count_command.
Proof. unfold count_command. tidy_steps. Qed.
Hint Resolve tidy_count_command : tidy.
Lemma tidy_handle_command c : tidies (handle_command c).
Proof. unfold handle_command. tidy_steps. Qed.
Hint Resolve tidy_handle_command : tidy.
Lemma tidy_handle_renew : tidies handle_renew.
Proof. unfold handle_renew. tidy_steps. Qed.
Hint Resolve tidy_handle_renew : tidy.
Lemma tidy_after_turn : tidies after_turn.
Proof. unfold after_turn. tidy_steps. Qed.
Hint Resolve tidy_after_turn : tidy.
Lemma tidy_turn t : tidies (turn t).
Proof. unfold turn. tidy_steps. Qed.
Hint Resolve tidy_turn : tidy.

End pass.
