(* ===== verification/RoomTheorems.v ===== *)
(** * What a room guarantees *)

From stdpp Require Import base list numbers strings gmap relations.
From Stdlib Require Import ZArith Lia.
From S2P Require Import Prelude Text Uuid Json Wire YSync Awareness AwarenessFacts Hub.
From S2P Require Import RoomTypes Room RoomSync RoomLoop RoomFacts RoomEffects RoomHandlers RoomWrites RoomUpdates RoomTurns RoomInvariant RoomTidy.

Section theorems.
Context {UL : UuidLib} {UN : UuidNil} {RL : RoomLib} {J : SerdeJson}.
Implicit Types (o : Outside) (cs : gmap nat Channel) (initial : option CollabLoadState) (ts : list Turn).

(** ** Durability *)

(** C1: durable before visible: whenever an update is queued for a connection,
    in any run of a room against any database, engine, clock and transports,
    the database has acknowledged an append with this update's bytes, or has
    found the receipt of one by its identifier, length and digest, since the
    command in hand was taken up. *)
Theorem durable_before_visible o ws doc kd cfg b g cs initial ts tr k key room m rest :
  trace (room_after o ws doc kd cfg b g cs initial ts) = tr ++ Delivered k (FDocument key room (DSync m)) :: rest ->
  step m = Update -> exists p seq, carries (y_protocol m) p /\ acked (segment tr) p seq.
Proof.
  intros E Hs. pose proof (inv_legal _ _ (room_invariant o ws doc kd cfg b g cs initial ts) _ _ _ E) as H. simpl in H. by rewrite Hs in H.
Qed.

(** C7: a positive sync status is only queued for the connection whose frame is
    being handled, and only if the update of that frame is empty or has been
    acknowledged by the database while it was handled. *)
Theorem acknowledged_is_durable o ws doc kd cfg b g cs initial ts tr k key room rest :
  trace (room_after o ws doc kd cfg b g cs initial ts) = tr ++ Delivered k (FDocument key room (DSyncStatus true)) :: rest ->
  exists bytes p, current tr = Some (CFrame k bytes) /\ frame_payload bytes = Some p /\
    (is_empty_update p = true \/ exists seq, acked (segment tr) p seq).
Proof. intros E. exact (inv_legal _ _ (room_invariant o ws doc kd cfg b g cs initial ts) _ _ _ E). Qed.

(** C3: every append a room asks for is authorised: while the same command was
    handled the database confirmed that the user may write and the engine
    accepted the update on top of the committed state; the writer generation is
    one the database has granted to this room, and the expected tail is the
    tail of the state the room has loaded and extended. *)
Theorem writes_authorised o ws doc kd cfg b g cs initial ts tr q (r : ans q) i rest :
  trace (room_after o ws doc kd cfg b g cs initial ts) = tr ++ Asked q r :: rest -> attempt (Asked q r) = Some i ->
  granted (segment tr) (a_actor_user_id i, a_session_id i) /\ admitted (segment tr) (a_payload i) /\
  claimed tr (a_writer_generation i) /\ a_expected_tail_seq i = tail_seq (replay tr).
Proof. intros E Hi. exact (inv_legal _ _ (room_invariant o ws doc kd cfg b g cs initial ts) _ _ _ E i Hi). Qed.


(** ** The fence *)

(** A turn ends the loop, or its result is the test of the loop. *)
Lemma after_result o w : (after_turn o w).1 = negb (fence_lost (self (after_turn o w).2) && bool_decide (connections (self (after_turn o w).2) = ∅)).
Proof. unfold after_turn. by rewrite !bind_run. Qed.

Lemma turn_result t o w :
  (turn t o w).1 = false \/ (turn t o w).1 = negb (fence_lost (self (turn t o w).2) && bool_decide (connections (self (turn t o w).2) = ∅)).
Proof.
  destruct t; cbn [turn]; rewrite ?bind_run; try (right; apply after_result); [|by left]. destruct (negb _); [by left|right; apply after_result].
Qed.

(** C9: losing the fence is final: the room then has no connections, no guard and
    no writer; the next turn, whatever it takes up, appends nothing, queues
    nothing for any connection, and ends the loop. *)
Theorem fence_final o ws doc kd cfg b g cs initial ts :
  let w := room_after o ws doc kd cfg b g cs initial ts in
  fence_lost (self w) = true ->
  connections (self w) = ∅ /\ room_guard (self w) = None /\ writer_generation (self w) = None /\
  forall o' t, let r := turn t o' w in
    r.1 = false /\ fence_lost (self r.2) = true /\ exists l, trace r.2 = trace w ++ l /\ Forall idle l.
Proof.
  cbn zeta. intros Hl. pose proof (room_invariant o ws doc kd cfg b g cs initial ts) as HI. destruct (inv_fence _ _ HI Hl) as (? & ? & ?).
  split_and!; [done..|]. intros o' t. destruct (fence_steps _ _ _ (turn_run t o' _) HI Hl) as (Hl' & Ht). split_and!; [|done..].
  pose proof (inv_steps _ _ _ (turn_run t o' _) HI) as HI'. destruct (inv_fence _ _ HI' Hl') as (Ec & _).
  destruct (turn_result t o' (room_after o ws doc kd cfg b g cs initial ts)) as [->| ->]; [done|]. by rewrite Hl', Ec.
Qed.

(** ** Connections *)

(** C12: the connections of a room: never more than the configuration allows; a
    client identifier is never shared by two users; a connection that may write
    was granted that by the database; and the generations that dropped leases
    are matched with are distinct. *)
Theorem room_connections o ws doc kd cfg b g cs initial ts :
  let a := self (room_after o ws doc kd cfg b g cs initial ts) in
  let tr := trace (room_after o ws doc kd cfg b g cs initial ts) in
  (size (connections a) <= max_connections_per_room cfg)%nat /\
  (forall k k' c c', connections a !! k = Some c -> connections a !! k' = Some c' ->
    conn_client_id c = conn_client_id c' -> user_id (session c) = user_id (session c')) /\
  (forall k c, connections a !! k = Some c -> read_only c = false -> exists e, e ∈ tr /\ grant e = Some (session_who (session c))) /\
  (reg_generation (awareness a) < u64_max -> forall k k' c c',
    connections a !! k = Some c -> connections a !! k' = Some c' -> conn_generation c = conn_generation c' -> k = k').
Proof.
  cbn zeta. destruct (room_invariant o ws doc kd cfg b g cs initial ts) as [_ _ _ _ _ Hs Ho Hg _ _ Hd]. split_and!; [done| |done..].
  intros k k' c c' Hk Hk' E. destruct (Ho k c Hk) as [t Ht], (Ho k' c' Hk') as [t' Ht']. rewrite E in Ht. congruence.
Qed.

(** C10: outbound queues are bounded, whatever the transports do between any two
    questions: for every connection's budget, the frames queued or being sent
    with its permits, and their bytes, stay within the configuration, and the
    budget's counters are exactly what is left. *)
Theorem outbound_bounded o ws doc kd cfg b g cs initial ts :
  0 <= max_outbound_frames_per_connection cfg -> 0 <= max_outbound_bytes_per_connection cfg -> all_permits cs = [] ->
  let w := room_after o ws doc kd cfg b g cs initial ts in
  (forall i, let out := held i (all_permits (chans w)) in
     len out <= max_outbound_frames_per_connection cfg /\ bytes_of out <= max_outbound_bytes_per_connection cfg) /\
  (forall i v, budgets w !! i = Some v -> let out := held i (all_permits (chans w)) in
     frames_free v = max_outbound_frames_per_connection cfg - len out /\ queued_bytes v = bytes_of out).
Proof.
  cbn zeta. intros Hf Hb Hp. destruct (room_accounts o ws doc kd cfg b g cs initial ts Hf Hb Hp) as [_ Ha]. unfold accounted in Ha. simpl in Ha. split.
  - intros i. destruct (budgets (room_after o ws doc kd cfg b g cs initial ts) !! i) as [v|] eqn:Hv; [|rewrite (held_fresh _ _ _ _ Ha Hv); split; [by unfold len; simpl; lia|done]].
    destruct (proj2 Ha i v Hv) as (? & ? & ? & ? & ?). lia.
  - intros i v Hv. by destruct (proj2 Ha i v Hv) as (? & ? & ? & ? & ?).
Qed.

(** ** Presence notices *)

Lemma room_tidy o ws doc kd cfg b g cs initial ts : tidy (self (room_after o ws doc kd cfg b g cs initial ts)).
Proof.
  assert (H : forall ts w, tidy (self w) -> tidy (self (run_loop ts o w).2)).
  { clear ts. induction ts as [|t ts IH]; intros w Hw; cbn [run_loop]; [done|]. rewrite bind_run. destruct (negb _); [by apply tidy_turn|by apply IH, tidy_turn]. }
  apply H. destruct initial; by split.
Qed.

(** C13: the notices of departed clients are never left over: the flush loop ends
    with an empty queue within its fuel, even while it evicts further
    connections, and after any number of turns the queue is empty. *)
Theorem notices_flushed :
  (forall o w, flushing_awareness (self w) = false -> pending_awareness (self (flush_pending_awareness o w).2) = []) /\
  forall o ws doc kd cfg b g cs initial ts, pending_awareness (self (room_after o ws doc kd cfg b g cs initial ts)) = [].
Proof. split; [intros; by apply flush_tidy|intros; apply room_tidy]. Qed.

End theorems.

(** * Runs of a room

    A concrete database, engine and clock that answer every question well, two
    clients that join, and an update of the first one; and the same with a
    database whose append fails. *)

From S2P Require Import JsonInstance WireFacts.

#[local] Instance witness_lib : RoomLib := {|
  b64_decode s := Some s; sha256 b := b; content := unit; prepared_body := unit;
  prepare_derived_body _ := Some tt; prepare_revision_text _ := Some [] |}.

Definition rid (z : Z) : uuid (UuidLib := uuid128_lib) := default (Uuid128 0 eq_refl) (uuid128_of z).

#[local] Instance witness_nil : UuidNil (UL := uuid128_lib) := rid 0.

Section witness.

Definition w_load : CollabLoadState (UL := uuid128_lib) := Load [Byte.x00; Byte.x00] [] 1 0 0.

(** The answers, with the answer to an append. *)
Definition w_answers (append : AppendCollabInput -> db AppendCollabResult) : Env := fun _ q =>
  match q return ans q with
  | QNow => 0
  | QUuid => rid 9
  | QOrder keys => exist _ keys (Permutation_refl keys)
  | QCancelled => false
  | QBridge => true
  | QEngineBin => true
  | QSnapshotOnly _ => true
  | QTimeout => false
  | QStop => true
  | QSpawn => Ok tt
  | QCall _ => EOk true (Some [Byte.x01]) (Some []) (Some tt)
  | QDelivery _ _ => Ok (Allowed false)
  | QAdmission _ => Ok (Ok false)
  | QClaim _ => Ok (Ok (Claim 1 w_load))
  | QActivate _ f _ => Ok (Ok (f, Claim 1 w_load))
  | QLoad _ _ => Ok (Ok w_load)
  | QAppend _ i => append i
  | QRestore _ i r => Ok (Ok (Committed (a_expected_tail_seq i + 1), ra_revision_id r))
  | QVerify _ _ _ _ _ => Ok (Err DNotFound)
  | QNative _ _ => Ok (Ok tt)
  | QProject _ _ _ _ _ => Ok (Ok PUpdated)
  | QCompact _ _ _ _ _ => Ok (Ok w_load)
  | QBundle _ _ _ => VOk
  | QOffline _ _ => None
  | QRestored _ _ => Ok (Ok None)
  | QDurable _ => Ok (Err VOther)
  | QLatest _ => Ok None
  | QCreate _ _ _ _ _ => Ok (Ok tt)
  | QRenew _ => Ok true
  | QRelease _ => Ok true
  end.

Definition w_outside (append : AppendCollabInput -> db AppendCollabResult) : Outside :=
  MkOutside (w_answers append) (fun n => if (n =? 20)%nat then [TRecv 0; TSent 0] else []).

Definition w_good (i : AppendCollabInput) : db AppendCollabResult := Ok (Ok (Committed (a_expected_tail_seq i + 1))).
Definition w_bad (i : AppendCollabInput) : db AppendCollabResult := Err (Sqlx false).

Definition w_cfg : CollabConfig := Config 4 65536 8 4096 60000 false 100.
Definition w_chans : gmap nat Channel := {[ 0%nat := Chan [] 8 false None true None; 1%nat := Chan [] 8 false None true None ]}.
Definition w_key : str := Wire.routing_key sample_room.
Definition w_session (z : Z) : CollabSession := Session (rid (100 + z)) (rid z) (bs "Ada") None (bs "en").
Definition w_join (z : Z) : RoomCommand := CJoin (Join (rid (10 + z)) (w_session z) z false w_key (Z.to_nat (z - 1))).

Definition w_frame : list byte :=
  encode_or_empty (FDocument w_key None (DSync {| step := Update; y_protocol := encode_sync_payload Update [Byte.x01] |})).

Definition w_turns : list Turn := TCommand <$> [w_join 1; w_join 2; CFrame (rid 11) w_frame].

Definition w_run (append : AppendCollabInput -> db AppendCollabResult) : World :=
  room_after (w_outside append) (rid 1) (rid 2) Document w_cfg Postgres GPostgres w_chans None w_turns.

(** An event of a run, between what came before and after it. *)
Definition w_before (n : nat) (append : AppendCollabInput -> db AppendCollabResult) : list Event := take n (trace (w_run append)).

Lemma w_split n append e : trace (w_run append) !! n = Some e ->
  trace (w_run append) = w_before n append ++ e :: drop (S n) (trace (w_run append)).
Proof. intros H. symmetry. by apply take_drop_middle. Qed.

Definition w_update : SyncMessage := {| step := Update; y_protocol := encode_sync_payload Update [Byte.x01] |}.

Lemma durable_before_visible_witness : exists p seq, carries (y_protocol w_update) p /\ acked (segment (w_before 22 w_good)) p seq.
Proof.
  refine (durable_before_visible (w_outside w_good) (rid 1) (rid 2) Document w_cfg Postgres GPostgres w_chans None w_turns
    (w_before 22 w_good) (rid 11) w_key None w_update (drop 23 (trace (w_run w_good))) _ eq_refl).
  refine (w_split 22 w_good (Delivered (rid 11) (FDocument w_key None (DSync w_update))) _).
  vm_cast_no_check (eq_refl (Some (Delivered (rid 11) (FDocument w_key None (DSync w_update))))).
Defined.

Lemma acknowledged_is_durable_witness : exists bytes p,
  current (w_before 24 w_good) = Some (CFrame (rid 11) bytes) /\ frame_payload bytes = Some p /\
  (is_empty_update p = true \/ exists seq, acked (segment (w_before 24 w_good)) p seq).
Proof.
  refine (acknowledged_is_durable (w_outside w_good) (rid 1) (rid 2) Document w_cfg Postgres GPostgres w_chans None w_turns
    (w_before 24 w_good) (rid 11) w_key None (drop 25 (trace (w_run w_good))) _).
  refine (w_split 24 w_good (Delivered (rid 11) (FDocument w_key None (DSyncStatus true))) _).
  vm_cast_no_check (eq_refl (Some (Delivered (rid 11) (FDocument w_key None (DSyncStatus true))))).
Defined.

Definition w_append : AppendCollabInput := AppendIn (rid 1) (rid 101) 1 0 (rid 9) [Byte.x01].

Lemma writes_authorised_witness :
  granted (segment (w_before 19 w_good)) (rid 1, rid 101) /\ admitted (segment (w_before 19 w_good)) [Byte.x01] /\
  claimed (w_before 19 w_good) 1 /\ 0 = tail_seq (replay (w_before 19 w_good)).
Proof.
  refine (writes_authorised (w_outside w_good) (rid 1) (rid 2) Document w_cfg Postgres GPostgres w_chans None w_turns
    (w_before 19 w_good) (QAppend None w_append) (Ok (Ok (Committed 1))) w_append (drop 20 (trace (w_run w_good))) _ eq_refl).
  refine (w_split 19 w_good (Asked (QAppend None w_append) (Ok (Ok (Committed 1)))) _).
  vm_cast_no_check (eq_refl (Some (Asked (QAppend None w_append) (Ok (Ok (Committed 1)))))).
Defined.

Lemma fence_final_witness :
  connections (self (w_run w_bad)) = ∅ /\ (turn (TCommand (w_join 1)) (w_outside w_good) (w_run w_bad)).1 = false.
Proof.
  assert (H := fence_final (w_outside w_bad) (rid 1) (rid 2) Document w_cfg Postgres GPostgres w_chans None w_turns).
  cbv zeta in H. fold (w_run w_bad) in H. destruct H as (Hc & _ & _ & Ht).
  - vm_cast_no_check (eq_refl true).
  - split; [exact Hc|]. exact (proj1 (Ht (w_outside w_good) (TCommand (w_join 1)))).
Defined.

Lemma outbound_bounded_witness :
  (forall i, len (held i (all_permits (chans (w_run w_good)))) <= 8) /\ len (all_permits (chans (w_run w_good))) = 3.
Proof.
  assert (H := outbound_bounded (w_outside w_good) (rid 1) (rid 2) Document w_cfg Postgres GPostgres w_chans None w_turns).
  cbv zeta in H. fold (w_run w_good) in H. destruct H as [Hb _].
  - by_decide.
  - by_decide.
  - vm_cast_no_check (eq_refl (@nil Permit)).
  - split; [exact (fun i => proj1 (Hb i))|vm_cast_no_check (eq_refl 3)].
Defined.

End witness.
